(** * electron-drive: a shallow embedding of the Google Drive export classes

    The development follows the JavaScript sources:
    - [DriveExport] (main process): request construction, authorization,
      folder resolution, the resumable upload handshake and the folder list
      cache;
    - [ArcElectronDrive] (renderer process): the table of pending promises
      keyed by request id.

    JavaScript objects live in a heap of mutable cells, so that aliasing and
    in-place mutation are visible; the outside world (OAuth identity provider,
    HTTP transport, [JSON.parse]) is an oracle that answers from the history
    of effects. *)

From stdpp Require Import base option list gmap strings pretty.
From Stdlib Require Import Ascii ZArith Lia.

Set Warnings "-register-all".
Local Open Scope string_scope.
Local Open Scope Z_scope.

(** ** JavaScript values and objects *)

Definition loc := positive.

Inductive val :=
| VUndef
| VNull
| VBool (b : bool)
| VNum (n : Z)
| VStr (s : string)
| VRef (l : loc).

#[global] Instance val_eq_dec : EqDecision val.
Proof. solve_decision. Defined.

(** An object cell: own properties in insertion order, and the element list
    when the object is an Array. *)
Record obj := Obj {
  elems : option (list val);
  props : list (string * val) }.

Definition plain (ps : list (string * val)) : obj := Obj None ps.
Definition array (vs : list val) : obj := Obj (Some vs) [].

(** [!!v] of JavaScript. *)
Definition truthy (v : val) : bool :=
  match v with
  | VUndef | VNull => false
  | VBool b => b
  | VNum n => negb (n =? 0)
  | VStr s => negb (String.eqb s "")
  | VRef _ => true
  end.

(** [a || b]. *)
Definition js_or (a b : val) : val := if truthy a then a else b.

Definition is_string (v : val) : bool :=
  match v with VStr _ => true | _ => false end.

Fixpoint get_prop (ps : list (string * val)) (k : string) : val :=
  match ps with
  | [] => VUndef
  | (k', v) :: ps => if String.eqb k' k then v else get_prop ps k
  end.

Fixpoint has_prop (ps : list (string * val)) (k : string) : bool :=
  match ps with
  | [] => false
  | (k', _) :: ps => String.eqb k' k || has_prop ps k
  end.

Fixpoint set_prop (ps : list (string * val)) (k : string) (v : val)
  : list (string * val) :=
  match ps with
  | [] => [(k, v)]
  | (k', v') :: ps =>
      if String.eqb k' k then (k', v) :: ps else (k', v') :: set_prop ps k v
  end.

Fixpoint del_prop (ps : list (string * val)) (k : string)
  : list (string * val) :=
  match ps with
  | [] => []
  | (k', v') :: ps =>
      if String.eqb k' k then del_prop ps k else (k', v') :: del_prop ps k
  end.

(** [String.prototype.toLowerCase], on the ASCII letters. *)
Definition lower_ascii (c : ascii) : ascii :=
  let n := nat_of_ascii c in
  if ((65 <=? n)%nat && (n <=? 90)%nat)%bool then ascii_of_nat (n + 32) else c.

Fixpoint toLowerCase (s : string) : string :=
  match s with
  | EmptyString => EmptyString
  | String c s => String (lower_ascii c) (toLowerCase s)
  end.

(** ** Numbers

    [VNum n] stands for the integer [n], which is a value of JavaScript when
    a double holds it.  Below [2^53] every integer is one. *)

(** The decimal [c] reads back as the double [v]: it lies between the
    middles of the gaps to the two neighbours of [v], the middles included
    when the mantissa of [v] is even.  The bounds are taken four times. *)
Definition reads_back (v c : Z) : bool :=
  let e := Z.log2 v - 52 in
  let above := 2 ^ (e + 1) in
  let below := if v =? 2 ^ Z.log2 v then 2 ^ e else 2 ^ (e + 1) in
  if Z.even (v / 2 ^ e)
  then (4 * v - below <=? 4 * c) && (4 * c <=? 4 * v + above)
  else (4 * v - below <? 4 * c) && (4 * c <? 4 * v + above).

(** The number of [k] digits which, followed by zeros up to the [size] of
    [v], reads back as [v] and is nearest to it, when there is one. *)
Definition shortest_at (v size k : Z) : option Z :=
  let p := 10 ^ (size - k) in
  let lo := v / p in
  match reads_back v (lo * p), reads_back v ((lo + 1) * p) with
  | true, true =>
      if v - lo * p <? (lo + 1) * p - v then Some lo
      else if (lo + 1) * p - v <? v - lo * p then Some (lo + 1)
      else Some (if Z.even lo then lo else lo + 1)
  | true, false => Some lo
  | false, true => Some (lo + 1)
  | false, false => None
  end.

(** The shortest such number, with the number of digits that its value
    has before the point. *)
Fixpoint shortest (fuel : nat) (v size k : Z) : Z * Z :=
  match fuel with
  | O => (v, size)
  | S fuel =>
      match shortest_at v size k with
      | Some s => if s =? 10 ^ k then (1, size + 1) else (s, size)
      | None => shortest fuel v size (k + 1)
      end
  end.

Fixpoint zeros (n : nat) : string :=
  match n with
  | O => ""
  | S n => String "0" (zeros n)
  end.

(** [Number::toString] on a positive integer: its digits below [2^53];
    from there on the shortest decimal that reads back as the same double,
    filled with zeros, or written with an exponent from [10^21] on. *)
Definition digits_of (v : Z) : string :=
  if v <? 2 ^ 53 then pretty v
  else
    let size := Z.of_nat (String.length (pretty v)) in
    let '(s, n) := shortest (Z.to_nat size) v size 1 in
    let k := Z.of_nat (String.length (pretty s)) in
    if n <=? 21 then pretty s ++ zeros (Z.to_nat (n - k))
    else
      match pretty s with
      | String d "" => String d ("e+" ++ pretty (n - 1))
      | String d rest => String d ("." ++ rest ++ "e+" ++ pretty (n - 1))
      | "" => ""
      end.

Definition Number_toString (n : Z) : string :=
  match n with
  | 0 => "0"
  | Z.pos _ => digits_of n
  | Z.neg _ => "-" ++ digits_of (- n)
  end.

(** ** JSON *)

Inductive json :=
| JNull
| JBool (b : bool)
| JNum (n : Z)
| JStr (s : string)
| JArr (items : list json)
| JObj (members : list (string * json)).

Definition dquote : string := String (ascii_of_nat 34) EmptyString.
Definition backslash : ascii := ascii_of_nat 92.

Definition hex_digit (n : nat) : ascii :=
  ascii_of_nat (if (n <? 10)%nat then 48 + n else 87 + n).

(** [QuoteJSONString], one character at a time: the quote, the backslash
    and the control characters are escaped, the latter with a letter where
    JSON has one and with four lower-case hexadecimal digits otherwise. *)
Definition escape_char (c : ascii) : string :=
  let n := nat_of_ascii c in
  if (n =? 34)%nat then String backslash (String c "")
  else if (n =? 92)%nat then String backslash (String c "")
  else if (n =? 8)%nat then String backslash "b"
  else if (n =? 9)%nat then String backslash "t"
  else if (n =? 10)%nat then String backslash "n"
  else if (n =? 12)%nat then String backslash "f"
  else if (n =? 13)%nat then String backslash "r"
  else if (n <? 32)%nat
       then String backslash
              ("u00" ++ String (hex_digit (n / 16))
                          (String (hex_digit (n mod 16)) ""))
  else String c "".

Fixpoint escape (s : string) : string :=
  match s with
  | EmptyString => EmptyString
  | String c s => escape_char c ++ escape s
  end.

Definition quote (s : string) : string := dquote ++ escape s ++ dquote.

Fixpoint join (sep : string) (l : list string) : string :=
  match l with
  | [] => ""
  | [x] => x
  | x :: l => x ++ sep ++ join sep l
  end.

Fixpoint render (j : json) : string :=
  match j with
  | JNull => "null"
  | JBool true => "true"
  | JBool false => "false"
  | JNum n => Number_toString n
  | JStr s => quote s
  | JArr items => "[" ++ join "," (map render items) ++ "]"
  | JObj members =>
      "{" ++ join "," (map (λ kv, quote kv.1 ++ ":" ++ render kv.2) members)
      ++ "}"
  end.

(** What [JSON.stringify] finds when it walks a value: nothing to write
    ([undefined]), a JSON tree, or a cycle (a [TypeError]). *)
Inductive walked :=
| WUndef
| WJson (j : json)
| WCycle.

Section Walk.
Variable h : gmap loc obj.
Variable walk : val → walked.

Fixpoint walk_items (vs : list val) : option (list json) :=
  match vs with
  | [] => Some []
  | v :: vs =>
      match walk v, walk_items vs with
      | WCycle, _ | _, None => None
      | WUndef, Some js => Some (JNull :: js)
      | WJson j, Some js => Some (j :: js)
      end
  end.

Fixpoint walk_members (ps : list (string * val)) : option (list (string * json)) :=
  match ps with
  | [] => Some []
  | (k, v) :: ps =>
      match walk v, walk_members ps with
      | WCycle, _ | _, None => None
      | WUndef, Some ms => Some ms
      | WJson j, Some ms => Some ((k, j) :: ms)
      end
  end.
End Walk.

Fixpoint walk (fuel : nat) (h : gmap loc obj) (v : val) : walked :=
  match v with
  | VUndef => WUndef
  | VNull => WJson JNull
  | VBool b => WJson (JBool b)
  | VNum n => WJson (JNum n)
  | VStr s => WJson (JStr s)
  | VRef l =>
      match fuel with
      | O => WCycle
      | S fuel =>
          match h !! l with
          | None => WUndef
          | Some (Obj (Some vs) _) =>
              match walk_items (walk fuel h) vs with
              | Some js => WJson (JArr js)
              | None => WCycle
              end
          | Some (Obj None ps) =>
              match walk_members (walk fuel h) ps with
              | Some ms => WJson (JObj ms)
              | None => WCycle
              end
          end
      end
  end.

(** A path through an acyclic heap visits each cell at most once, so
    [size h] nested objects are enough for every acyclic value. *)
Definition stringify (h : gmap loc obj) (v : val) : walked :=
  walk (S (size h)) h v.

(** ** Conversion to a string *)

(** [String(v)], which is also the conversion made by a template literal and
    by [+] with a string.  An object without methods of its own prints as
    [[object Object]]; an Array prints its elements separated by commas,
    [undefined] and [null] as nothing, and an Array met again while it is
    being printed as nothing (what V8 does on a cycle).  [seen] lists the
    Arrays being printed. *)
Fixpoint to_String (fuel : nat) (h : gmap loc obj) (seen : list loc) (v : val)
  : string :=
  match v with
  | VUndef => "undefined"
  | VNull => "null"
  | VBool true => "true"
  | VBool false => "false"
  | VNum n => Number_toString n
  | VStr s => s
  | VRef l =>
      match h !! l with
      | Some (Obj (Some vs) _) =>
          match fuel with
          | O => ""
          | S fuel =>
              if bool_decide (l ∈ seen) then ""
              else join ","
                     (map (λ x, match x with
                                | VUndef | VNull => ""
                                | _ => to_String fuel h (l :: seen) x
                                end) vs)
          end
      | _ => "[object Object]"
      end
  end.

(** Each nested Array adds a cell to [seen], so [size h] levels suffice. *)
Definition String_ (h : gmap loc obj) (v : val) : string :=
  to_String (S (size h)) h [] v.

(** ** Errors, effects and the outside world *)

(** A thrown or rejected value: an instance of [Error] with its message, or
    any other value. *)
Inductive exn :=
| ErrorObj (message : string)
| ThrownVal (v : val).

(** The engine's wording of these errors is not modelled. *)
Definition TypeError : exn := ErrorObj "TypeError".
Definition SyntaxError : exn := ErrorObj "SyntaxError".

(** The result of awaiting an operation: a value, a rejection, or a promise
    that never settles ([Hang]: an exception escaping an event callback, or a
    recursion that does not end). *)
Inductive outcome (A : Type) :=
| Ret (a : A)
| Throw (e : exn)
| Hang.
Arguments Ret {A} a.
Arguments Throw {A} e.
Arguments Hang {A}.

Inductive url :=
| Url (s : string)
| UrlOfFile (fileId : val)
| UrlAt (u : val).

(** One [net.request]: [bearer] is the value appended to ['Bearer '] in the
    authorization header, [url] the address ([UrlOfFile id] stands for the
    template [`.../upload/drive/v3/files/${id}?uploadType=resumable`]),
    [body] what is given to [request.write] ([None]: nothing is written). *)
Record request := Request {
  method : string;
  target : url;
  bearer : val;
  headers : list (string * val);
  body : option val }.

Inductive effect :=
| LaunchWebAuthFlow (config : val)
| GetAuthToken (interactive : val)
| NetRequest (r : request)
| Send (channel : string) (requestId : val) (payload : val).

Inductive header :=
| HAbsent
| HOne (s : string)
| HMany (l : list string).

Record response := Response {
  statusCode : Z;
  location : header;
  chunks : list string }.

Inductive net_reply :=
| OnResponse (r : response)
| OnError (e : exn).

Inductive auth_reply :=
| Resolved (info : option json)
| Rejected (e : exn).

(** The collaborators: each answers the call that ends the given history. *)
Record world := World {
  oauth : list effect → auth_reply;
  net : list effect → net_reply;
  JSON_parse : string → option json }.

(** ** State and the operation monad *)

(** The fields of a [DriveExport] instance. *)
Record instance := MkInstance {
  mime : val;
  fileDescription : val;
  fileType : val;
  cachedFolders : val }.

Record state := State {
  heap : gmap loc obj;
  this : instance;
  trace : list effect }.

Definition M (A : Type) : Type := state → outcome A * state.

Definition ret {A} (a : A) : M A := λ s, (Ret a, s).
Definition throw {A} (e : exn) : M A := λ s, (Throw e, s).
Definition hang {A} : M A := λ s, (Hang, s).

Definition bind {A B} (m : M A) (k : A → M B) : M B := λ s,
  match m s with
  | (Ret a, s') => k a s'
  | (Throw e, s') => (Throw e, s')
  | (Hang, s') => (Hang, s')
  end.

Notation "'let!' x ':=' m 'in' k" := (bind m (λ x, k))
  (at level 10, x name, m at level 100, k at level 200,
   format "'[v' 'let!'  x  ':='  m  'in' '/' k ']'").
Notation "m ';;' k" := (bind m (λ _, k))
  (at level 100, k at level 200, right associativity).

(** [try { m } catch (cause) { handler }]. *)
Definition try_catch {A} (m : M A) (handler : exn → M A) : M A := λ s,
  match m s with
  | (Throw e, s') => handler e s'
  | r => r
  end.

Fixpoint for_each {A} (l : list A) (f : A → M unit) : M unit :=
  match l with
  | [] => ret tt
  | x :: l => f x ;; for_each l f
  end.

Fixpoint map_m {A B} (f : A → M B) (l : list A) : M (list B) :=
  match l with
  | [] => ret []
  | x :: l => let! y := f x in let! ys := map_m f l in ret (y :: ys)
  end.

Definition alloc (o : obj) : M val := λ s,
  let l := fresh (dom (heap s)) in
  (Ret (VRef l), State (<[l := o]> (heap s)) (this s) (trace s)).

(** [v.k] on the heap [h]; [None] is the [TypeError] of reading a property
    of [undefined] or [null] (a reference always has its cell). *)
Definition field (h : gmap loc obj) (v : val) (k : string) : option val :=
  match v with
  | VUndef | VNull => None
  | VBool _ | VNum _ => Some VUndef
  | VStr x =>
      Some (if String.eqb k "length" then VNum (Z.of_nat (String.length x))
            else VUndef)
  | VRef l =>
      match h !! l with
      | Some (Obj (Some vs) ps) =>
          Some (if String.eqb k "length" then VNum (Z.of_nat (length vs))
                else get_prop ps k)
      | Some (Obj None ps) => Some (get_prop ps k)
      | None => None
      end
  end.

Definition get (v : val) (k : string) : M val := λ s,
  match field (heap s) v k with
  | Some x => (Ret x, s)
  | None => (Throw TypeError, s)
  end.

Definition modify (f : obj → obj) (l : loc) : M unit := λ s,
  match heap s !! l with
  | Some o => (Ret tt, State (<[l := f o]> (heap s)) (this s) (trace s))
  | None => (Throw TypeError, s)
  end.

(** [v.k = x]; the sources are modules, hence strict code, where assigning
    to a property of a primitive throws. *)
Definition set (v : val) (k : string) (x : val) : M unit :=
  match v with
  | VRef l => modify (λ o, Obj (elems o) (set_prop (props o) k x)) l
  | _ => throw TypeError
  end.

(** [delete v.k]. *)
Definition delete_field (v : val) (k : string) : M unit :=
  match v with
  | VRef l => modify (λ o, Obj (elems o) (del_prop (props o) k)) l
  | VUndef | VNull => throw TypeError
  | _ => ret tt
  end.

(** The elements of an Array; the methods [forEach], [map], [shift] and
    [push] exist on Arrays only. *)
Definition items_of (h : gmap loc obj) (v : val) : option (list val) :=
  match v with
  | VRef l => h !! l ≫= elems
  | _ => None
  end.

Definition elements (v : val) : M (list val) := λ s,
  match items_of (heap s) v with
  | Some vs => (Ret vs, s)
  | None => (Throw TypeError, s)
  end.

Definition set_elements (v : val) (vs : list val) : M unit :=
  match v with
  | VRef l => modify (λ o, Obj (Some vs) (props o)) l
  | _ => throw TypeError
  end.

(** [v.shift()]. *)
Definition shift (v : val) : M val :=
  let! vs := elements v in
  match vs with
  | [] => ret VUndef
  | x :: vs => set_elements v vs ;; ret x
  end.

(** [v.push(x)], also written [v[v.length] = x] in the sources. *)
Definition push (v x : val) : M unit :=
  let! vs := elements v in
  set_elements v (vs ++ [x])%list.

Definition emit (e : effect) : M unit := λ s,
  (Ret tt, State (heap s) (this s) (trace s ++ [e])%list).

Definition get_this : M instance := λ s, (Ret (this s), s).

Definition set_this (i : instance) : M unit := λ s,
  (Ret tt, State (heap s) i (trace s)).

Definition set_cachedFolders (v : val) : M unit :=
  let! i := get_this in
  set_this (MkInstance (mime i) (fileDescription i) (fileType i) v).

(** [JSON.stringify(v)]. *)
Definition JSON_stringify (v : val) : M val := λ s,
  match stringify (heap s) v with
  | WUndef => (Ret VUndef, s)
  | WJson j => (Ret (VStr (render j)), s)
  | WCycle => (Throw TypeError, s)
  end.

(** The object graph that [JSON.parse] (or a collaborator) hands over is
    allocated in fresh cells. *)
Section Alloc.
Variable alloc_value : json → gmap loc obj → val * gmap loc obj.

Fixpoint alloc_items (js : list json) (h : gmap loc obj)
  : list val * gmap loc obj :=
  match js with
  | [] => ([], h)
  | j :: js =>
      let '(v, h1) := alloc_value j h in
      let '(vs, h2) := alloc_items js h1 in (v :: vs, h2)
  end.

Fixpoint alloc_members (ms : list (string * json)) (h : gmap loc obj)
  : list (string * val) * gmap loc obj :=
  match ms with
  | [] => ([], h)
  | (k, j) :: ms =>
      let '(v, h1) := alloc_value j h in
      let '(ps, h2) := alloc_members ms h1 in ((k, v) :: ps, h2)
  end.
End Alloc.

Fixpoint alloc_json (j : json) (h : gmap loc obj) : val * gmap loc obj :=
  match j with
  | JNull => (VNull, h)
  | JBool b => (VBool b, h)
  | JNum n => (VNum n, h)
  | JStr s => (VStr s, h)
  | JArr items =>
      let '(vs, h1) := alloc_items alloc_json items h in
      let l := fresh (dom h1) in (VRef l, <[l := array vs]> h1)
  | JObj members =>
      let '(ps, h1) := alloc_members alloc_json members h in
      let l := fresh (dom h1) in (VRef l, <[l := plain ps]> h1)
  end.

Definition from_json (j : json) : M val := λ s,
  let '(v, h) := alloc_json j (heap s) in
  (Ret v, State h (this s) (trace s)).

(** [Buffer.concat(body).toString()] over the chunks pushed by the ['data']
    events. *)
Definition Buffer_concat (body : list string) : string :=
  foldr String.append "" body.

Definition drain (r : response) : string :=
  Buffer_concat (foldl (λ body chunk, (body ++ [chunk])%list) [] (chunks r)).

(** The message of [new Error(v)]: [String(v)], and nothing for
    [undefined]. *)
Definition error_message (h : gmap loc obj) (v : val) : string :=
  match v with
  | VUndef => ""
  | _ => String_ h v
  end.

(** [reject(new Error(v))]. *)
Definition reject_with {A} (v : val) : M A := λ s,
  (Throw (ErrorObj (error_message (heap s) v)), s).

(** ** DriveExport (main process) *)

Definition arcDefaults : obj := plain
  [("mime", VStr "application/restclient+data");
   ("fileDescription", VStr "Advanced REST client data export file.");
   ("fileType", VStr "application/json")].

(** [constructor(opts)]: the instance fields as the constructor reads them
    from [opts]. *)
Definition constructor (opts : val) : M unit :=
  let! opts := (if truthy opts then ret opts else alloc (plain [])) in
  let! m := get opts "opts" in
  let! d := get opts "fileDescription" in
  let! t := get opts "fileType" in
  set_this (MkInstance m d t VUndef).

Definition _createMedia (config : val) : M val :=
  let! body := get config "body" in
  let! type_ := get config "type" in
  let! body := (if is_string body then ret body else JSON_stringify body) in
  let! i := get_this in
  alloc (plain [("mimeType", js_or type_ (fileType i)); ("body", body)]).

Definition _createResource (config : val) : M val :=
  let! meta := get config "meta" in
  let! type_ := get config "type" in
  let! meta := (if truthy meta then ret meta else alloc (plain [])) in
  let! i := get_this in
  let! d := get meta "description" in
  (if negb (truthy d) && truthy (fileDescription i)
   then set meta "description" (fileDescription i) else ret tt) ;;
  let! mt := get meta "mimeType" in
  (if negb (truthy mt)
   then set meta "mimeType" (js_or type_ (fileType i)) else ret tt) ;;
  ret meta.

Definition upload_url : string :=
  "https://www.googleapis.com/upload/drive/v3/files".
Definition list_url : string :=
  "https://www.googleapis.com/drive/v3/files?".
Definition folder_url : string :=
  "https://content.googleapis.com/drive/v3/files?alt=json".
Definition folder_mime : string := "application/vnd.google-apps.folder".
Definition result_channel : string := "google-drive-operation-result".
Definition error_channel : string := "google-drive-operation-error".
Definition init_failed : string :=
  "Could not initialize Drive upload session.".
Definition init_failed_reason : string :=
  "Could not initialize Drive upload session. Reason: ".

(** The request that opens a resumable session. *)
Definition session_request (token fileId : val) (body : val) : request :=
  if truthy fileId
  then Request "PATCH" (UrlOfFile fileId) token
         [("Content-Type", VStr "application/json; charset=UTF-8")] (Some body)
  else Request "POST" (Url (upload_url ++ "?uploadType=resumable")) token
         [("Content-Type", VStr "application/json; charset=UTF-8")] (Some body).

(** [if (result)] on the value of [response.headers.location]. *)
Definition header_truthy (h : header) : bool :=
  match h with
  | HAbsent => false
  | HOne s => truthy (VStr s)
  | HMany _ => true
  end.

(** [result instanceof Array ? result[0] : result]. *)
Definition first_value (h : header) : val :=
  match h with
  | HAbsent => VUndef
  | HOne s => VStr s
  | HMany [] => VUndef
  | HMany (x :: _) => VStr x
  end.

(** The ['response'] listener of [_initializeSession], with the ['data']
    and ['end'] listeners it installs. *)
Definition session_response (r : response) : outcome val :=
  if 400 <=? statusCode r
  then Throw (ErrorObj (init_failed_reason ++ drain r))
  else if header_truthy (location r) then Ret (first_value (location r))
  else Throw (ErrorObj init_failed).

Section DriveExport.
Variable W : world.

(** A call to the identity provider, recorded as [e]. *)
Definition ask_oauth (e : effect) : M val :=
  emit e ;;
  λ s, match oauth W (trace s) with
       | Resolved None => (Ret VUndef, s)
       | Resolved (Some j) => from_json j s
       | Rejected x => (Throw x, s)
       end.

(** [net.request] with its ['response'] and ['error'] listeners. *)
Definition net_request (r : request) : M response :=
  emit (NetRequest r) ;;
  λ s, match net W (trace s) with
       | OnResponse x => (Ret x, s)
       | OnError x => (Throw x, s)
       end.

(** An exception that escapes an event listener settles nothing. *)
Definition in_listener {A} (m : M A) : M A := λ s,
  match m s with
  | (Throw _, s') => (Hang, s')
  | r => r
  end.

Definition parse (text : string) : M val :=
  match JSON_parse W text with
  | Some j => from_json j
  | None => throw SyntaxError
  end.

Definition auth (auth : val) : M val :=
  if truthy auth then
    let! token := get auth "accessToken" in
    if truthy token then ret auth
    else ask_oauth (LaunchWebAuthFlow auth)
  else ask_oauth (GetAuthToken (VBool true)).

Definition _listAppFolders (auth : val) : M val :=
  let url :=
    list_url
    ++ "q=trashed%20%3D%20false%20and%20mimeType%3D%22application%2Fvnd.google-apps.folder%22&"
    ++ "orderBy=modifiedTime%20desc&" in
  let! token := get auth "accessToken" in
  let! r := net_request
    (Request "GET" (Url url) token [("accept", VStr "application/json")] None) in
  let! body := parse (drain r) in
  let! err := in_listener (get body "error") in
  if truthy err then
    let! msg := get body "message" in reject_with msg
  else ret body.

Definition listAppFolders (interactive : val) : M val :=
  let! auth := ask_oauth (GetAuthToken interactive) in
  if truthy auth then _listAppFolders auth else ret VUndef.

(** The [catch (cause)] block shared by the handlers. *)
Definition report_error (requestId : val) (cause : exn) : M unit :=
  let! cause :=
    match cause with
    | ErrorObj m => alloc (plain [("message", VStr m)])
    | ThrownVal v => ret v
    end in
  emit (Send error_channel requestId cause).

Definition _listAppFoldersHandler (requestId opts : val) : M unit :=
  let! i := get_this in
  if truthy (cachedFolders i) then
    emit (Send result_channel requestId (cachedFolders i))
  else
    let! opts := (if truthy opts then ret opts else alloc (plain [])) in
    let! given := get opts "interactive" in
    let interactive :=
      match given with VUndef => VBool true | _ => given end in
    try_catch
      (let! result := listAppFolders interactive in
       let! folders := alloc (array []) in
       let! files := get result "files" in
       (if truthy files then
          let! items := elements files in
          for_each items (λ item,
            let! id := get item "id" in
            let! name := get item "name" in
            let! folder := alloc (plain [("id", id); ("name", name)]) in
            push folders folder)
        else ret tt) ;;
       set_cachedFolders folders ;;
       emit (Send result_channel requestId folders))
      (report_error requestId).

Definition _initializeSession (token meta fileId : val) : M val :=
  let! body := (if truthy meta then JSON_stringify meta else ret VUndef) in
  let! r := net_request (session_request token fileId body) in
  λ s, (session_response r, s).

Definition _upload (token url body mimeType : val) : M val :=
  let! r := net_request
    (Request "PUT" (UrlAt url) token [("content-type", mimeType)] (Some body)) in
  parse (drain r).

Definition _createFolder (name token : val) : M val :=
  let! resource := alloc (plain [("name", name); ("mimeType", VStr folder_mime)]) in
  let! body := JSON_stringify resource in
  let! r := net_request
    (Request "POST" (Url folder_url) token
       [("content-type", VStr "application/json")] (Some body)) in
  let! body := parse (drain r) in
  let! err := in_listener (get body "error") in
  if truthy err then
    let! msg := get body "message" in reject_with msg
  else get body "id".

Definition createFolder (name auth_ : val) : M val :=
  let! info := auth auth_ in
  let! token := get info "accessToken" in
  _createFolder name token.

Definition _normalizeParents (parents : val) : M val :=
  let! result := alloc (array []) in
  let! items := elements parents in
  for_each items (λ item,
    match item with
    | VStr s =>
        if String.eqb (toLowerCase s) "my drive" then
          let! root := alloc (plain [("id", VStr "root")]) in push result root
        else
          let! named := alloc (plain [("name", item)]) in push result named
    | _ =>
        let! name := get item "name" in
        let! id := get item "id" in
        if negb (truthy name) && negb (truthy id) then ret tt
        else push result item
    end) ;;
  ret result.

(** [_createParents] calls itself once per element it shifts off [parents];
    [fuel] bounds the number of calls. *)
Fixpoint _createParents (fuel : nat) (parents auth_ result : val) : M val :=
  match fuel with
  | O => hang
  | S fuel =>
      let! parent := shift parents in
      if negb (truthy parent) then ret result
      else
        let! id := get parent "id" in
        if truthy id then
          push result parent ;;
          _createParents fuel parents auth_ result
        else
          let! name := get parent "name" in
          let! id := createFolder name auth_ in
          set parent "id" id ;;
          push result parent ;;
          let! i := get_this in
          (if negb (truthy (cachedFolders i))
           then let! fresh_list := alloc (array []) in
                set_cachedFolders fresh_list
           else ret tt) ;;
          let! i := get_this in
          push (cachedFolders i) parent ;;
          _createParents fuel parents auth_ result
  end.

(** One call per element and one more for the empty list. *)
Definition calls_needed (h : gmap loc obj) (parents : val) : nat :=
  S (length (default [] (items_of h parents))).

Definition createParents (parents auth_ : val) : M val :=
  let! len := (if truthy parents then get parents "length" else ret VUndef) in
  if negb (truthy parents) || negb (truthy len) then
    throw (ErrorObj "The parents argument not set.")
  else
    let! parents := _normalizeParents parents in
    let! len := get parents "length" in
    if negb (truthy len) then alloc (array [])
    else
      let! info := auth auth_ in
      let! result := alloc (array []) in
      λ s, _createParents (calls_needed (heap s) parents) parents info result s.

Definition create (resource media auth_ : val) : M val :=
  let! mt := get resource "mimeType" in
  let! i := get_this in
  (if negb (truthy mt) && truthy (mime i)
   then set resource "mimeType" (mime i) else ret tt) ;;
  let! info := auth auth_ in
  let! token := get info "accessToken" in
  let! parents := get resource "parents" in
  let! len := (if truthy parents then get parents "length" else ret parents) in
  let! createdParents :=
    (if truthy len then
       let! parents := get resource "parents" in
       let! created := createParents parents info in
       let! n := (if truthy created then get created "length" else ret VUndef) in
       (if negb (truthy created) || negb (truthy n)
        then delete_field resource "parents"
        else
          let! items := elements created in
          let! ids := map_m (λ item, get item "id") items in
          let! list := alloc (array ids) in
          set resource "parents" list) ;;
       ret created
     else ret VUndef) in
  let! url := _initializeSession token resource VUndef in
  let! body := get media "body" in
  let! mimeType := get media "mimeType" in
  let! result := _upload token url body mimeType in
  (if truthy createdParents then set result "parents" createdParents
   else ret tt) ;;
  ret result.

Definition update (fileId resource media auth_ : val) : M val :=
  let! mt := get resource "mimeType" in
  let! i := get_this in
  (if negb (truthy mt) && truthy (mime i)
   then set resource "mimeType" (mime i) else ret tt) ;;
  let! info := auth auth_ in
  let! token := get info "accessToken" in
  let! url := _initializeSession token resource fileId in
  let! body := get media "body" in
  let! mimeType := get media "mimeType" in
  _upload token url body mimeType.
End DriveExport.

(** ** ArcElectronDrive (renderer process) *)

Module ArcElectronDrive.

(** The two functions a [new Promise] hands to its executor, named after the
    promise they settle. *)
Inductive callback :=
| ResolveOf (promise : nat)
| RejectOf (promise : nat).

Definition promise_of (c : callback) : nat :=
  match c with ResolveOf p | RejectOf p => p end.

Record pending := Pending {
  resolve : callback;
  reject : callback }.

(** The properties that every object inherits from [Object.prototype];
    each holds a function or an object, which is truthy and has no
    property [resolve] or [reject]. *)
Definition Object_prototype : list string :=
  ["constructor"; "__defineGetter__"; "__defineSetter__"; "hasOwnProperty";
   "__lookupGetter__"; "__lookupSetter__"; "isPrototypeOf";
   "propertyIsEnumerable"; "toString"; "valueOf"; "__proto__";
   "toLocaleString"].

(** [++this._index]: the counter is a double, and from [2^53] on adding one
    to it changes nothing. *)
Definition next_index (i : Z) : Z := if i <? 2 ^ 53 then i + 1 else i.

(** The instance: the own properties of the table [_promises], a plain
    object, under their keys; the counter [_index]; and what the instance
    did: the messages given to [ipc.send], the promises it created, and the
    callbacks it invoked with their argument. *)
Record renderer := Renderer {
  _promises : gmap string pending;
  _index : Z;
  sent : list (string * Z * json);
  created : nat;
  invoked : list (callback * val) }.

Definition constructor : renderer := Renderer ∅ 0 [] 0 [].

(** [this._promises[id] = {resolve, reject}] for a number [id]. *)
Definition _addPromise (id : Z) (resolve reject : callback) (r : renderer)
  : renderer :=
  Renderer (<[Number_toString id := Pending resolve reject]> (_promises r))
    (_index r) (sent r) (created r) (invoked r).

(** [_listAppFoldersHandler(e)]: returns the promise stored in
    [e.detail.result]. *)
Definition _listAppFoldersHandler (r : renderer) : nat * renderer :=
  let id := next_index (_index r) in
  let p := created r in
  let r1 := Renderer (_promises r) id
    (sent r ++ [("google-drive-list-app-folders", id,
                 JObj [("interactive", JBool false)])])%list
    (S p) (invoked r) in
  (p, _addPromise id (ResolveOf p) (RejectOf p) r1).

(** [_mainResultHandler(e, id, result)] for the id that the message
    carries, whose values live on the heap [h].  [this._promises[id]]
    converts the id to a property key and finds an own property of the
    table, or else a property inherited from [Object.prototype]; on the
    latter [delete] does nothing and [promise.resolve], which is not a
    function, throws. *)
Definition _mainResultHandler (h : gmap loc obj) (id result : val)
    (r : renderer) : outcome unit * renderer :=
  let key := String_ h id in
  match _promises r !! key with
  | Some promise =>
      (Ret tt,
       Renderer (delete key (_promises r)) (_index r) (sent r) (created r)
         (invoked r ++ [(resolve promise, result)])%list)
  | None =>
      if bool_decide (key ∈ Object_prototype) then (Throw TypeError, r)
      else (Ret tt, r)
  end.

Definition _mainErrorHandler (h : gmap loc obj) (id cause : val)
    (r : renderer) : outcome unit * renderer :=
  let key := String_ h id in
  match _promises r !! key with
  | Some promise =>
      (Ret tt,
       Renderer (delete key (_promises r)) (_index r) (sent r) (created r)
         (invoked r ++ [(reject promise, cause)])%list)
  | None =>
      if bool_decide (key ∈ Object_prototype) then (Throw TypeError, r)
      else (Ret tt, r)
  end.

(** What the main process may deliver and the page may ask, as steps; a
    handler that throws leaves the instance as it was. *)
Inductive event :=
| ListAppFolders
| OperationResult (id : val) (result : val)
| OperationError (id : val) (cause : val).

Definition step (h : gmap loc obj) (r : renderer) (e : event) : renderer :=
  match e with
  | ListAppFolders => (_listAppFoldersHandler r).2
  | OperationResult id result => (_mainResultHandler h id result r).2
  | OperationError id cause => (_mainErrorHandler h id cause r).2
  end.

Definition run (h : gmap loc obj) (es : list event) : renderer :=
  foldl (step h) constructor es.

(** The state of a promise after the given callback invocations: the first
    invocation settles it, later ones change nothing. *)
Inductive settlement :=
| Unsettled
| Fulfilled (v : val)
| Failed (v : val).

Fixpoint settle (p : nat) (calls : list (callback * val)) : settlement :=
  match calls with
  | [] => Unsettled
  | (ResolveOf q, v) :: calls =>
      if decide (q = p) then Fulfilled v else settle p calls
  | (RejectOf q, v) :: calls =>
      if decide (q = p) then Failed v else settle p calls
  end.

(** How often the callbacks of promise [p] were invoked. *)
Fixpoint count_calls (p : nat) (calls : list (callback * val)) : nat :=
  match calls with
  | [] => 0
  | (c, _) :: calls =>
      ((if decide (promise_of c = p) then 1 else 0) + count_calls p calls)%nat
  end.

Definition invocations (p : nat) (r : renderer) : nat :=
  count_calls p (invoked r).

(** Reachable states: every registered entry is kept under the key of an
    id that the counter has given, and holds the two callbacks of one
    promise that was not settled yet; keys and promises correspond one to
    one; no promise had its callbacks invoked twice; and the counter is at
    most [2^53]. *)
Definition well_formed (r : renderer) : Prop :=
  (∀ k e, _promises r !! k = Some e →
     (∃ id, 1 ≤ id ≤ _index r ∧ k = Number_toString id) ∧
     ∃ p, e = Pending (ResolveOf p) (RejectOf p) ∧ (p < created r)%nat ∧
          invocations p r = 0%nat) ∧
  (∀ k1 k2 e1 e2,
     _promises r !! k1 = Some e1 → _promises r !! k2 = Some e2 →
     promise_of (resolve e1) = promise_of (resolve e2) → k1 = k2) ∧
  (∀ p, (invocations p r ≤ 1)%nat) ∧
  (∀ p, (created r ≤ p)%nat → invocations p r = 0%nat) ∧
  0 ≤ _index r ≤ 2 ^ 53.

End ArcElectronDrive.


(** * The rest of the classes *)

(** ** DriveExport: the handlers of the data-save and get-file events *)

Definition files_url : string := "https://www.googleapis.com/drive/v3/files/".

(** [`https://www.googleapis.com/drive/v3/files/${id}?alt=media`]. *)
Definition download_url (h : gmap loc obj) (id : val) : string :=
  files_url ++ String_ h id ++ "?alt=media".

Section DriveExportHandlers.
Variable W : world.

Definition _dataSaveHandler (requestId config : val) : M unit :=
  let! auth_ := get config "auth" in
  let! id := get config "id" in
  let! meta := _createResource config in
  let! media := _createMedia config in
  try_catch
    (let! result := (if truthy id then update W id meta media auth_
                     else create W meta media auth_) in
     emit (Send result_channel requestId result))
    (report_error requestId).

(** The [try] block of the ['end'] listener of [_downloadFile]: the text of
    the error, read from the body when it is a JSON error report. *)
Definition failure_text (body : string) : M string :=
  try_catch
    (let! tmp := parse W body in
     let! err := get tmp "error" in
     let tmp := if truthy err then err else tmp in
     let! message := get tmp "message" in
     if truthy message then
       let! code := get tmp "code" in
       let! code' := get tmp "code" in
       let! message := get tmp "message" in
       λ s, (Ret ((if truthy code then String_ (heap s) code' ++ ": " else "")
                  ++ String_ (heap s) message), s)
     else ret body)
    (λ _, ret body).

Definition _downloadFile (auth_ id : val) : M val := λ s,
  (let url := download_url (heap s) id in
   let! token := get auth_ "accessToken" in
   let! r := net_request W (Request "GET" (Url url) token [] None) in
   let body := drain r in
   if 400 <=? statusCode r then
     let! text := failure_text body in throw (ErrorObj text)
   else ret (VStr body)) s.

Definition getFile (id : val) : M val :=
  let! info := auth W VUndef in
  _downloadFile info id.

Definition _getFileHandler (requestId id : val) : M unit :=
  try_catch
    (let! result := getFile id in
     emit (Send result_channel requestId result))
    (report_error requestId).

End DriveExportHandlers.

(** ** DriveExport as published in [lib/drive-export.js]

    The first version of the class: [auth] resolves to the access token
    itself, and [create] and [update] have no folder resolution.
    [_initializeSession] and [_upload] are those of the later versions. *)
Module DriveExportV1.
Section V1.
Variable W : world.

Definition auth (auth : val) : M val :=
  if truthy auth then
    let! token := get auth "accessToken" in
    if truthy token then ret token
    else ask_oauth W (LaunchWebAuthFlow auth)
  else ask_oauth W (GetAuthToken (VBool true)).

Definition create (resource media auth_ : val) : M val :=
  let! mt := get resource "mimeType" in
  let! i := get_this in
  (if negb (truthy mt) && truthy (mime i)
   then set resource "mimeType" (mime i) else ret tt) ;;
  let! info := auth auth_ in
  let! token := get info "accessToken" in
  let! url := _initializeSession W token resource VUndef in
  let! body := get media "body" in
  let! mimeType := get media "mimeType" in
  _upload W token url body mimeType.

Definition update (fileId resource media auth_ : val) : M val :=
  let! mt := get resource "mimeType" in
  let! i := get_this in
  (if negb (truthy mt) && truthy (mime i)
   then set resource "mimeType" (mime i) else ret tt) ;;
  let! info := auth auth_ in
  let! token := get info "accessToken" in
  let! url := _initializeSession W token resource fileId in
  let! body := get media "body" in
  let! mimeType := get media "mimeType" in
  _upload W token url body mimeType.

End V1.
End DriveExportV1.

(** ** ArcElectronDrive: the handler of the data-save event

    The renderer has a heap of its own; the message given to [ipc.send]
    carries live objects and is recorded in the history of the state, as a
    [Send] on the channel of the event. *)
Module ArcElectronDriveSave.
Import ArcElectronDrive.

Definition save_channel : string := "google-drive-data-save".

(** The own enumerable properties of an object, in the order in which
    [Object.assign] copies them: the indices of an Array come first. *)
Definition own_props (o : obj) : list (string * val) :=
  match elems o with
  | Some vs => (imap (λ i v, (pretty i, v)) vs ++ props o)%list
  | None => props o
  end.

(** [Object.assign({}, v)]. *)
Definition Object_assign_new (v : val) : M val := λ s,
  match v with
  | VRef l =>
      match heap s !! l with
      | Some o => alloc (plain (own_props o)) s
      | None => (Throw TypeError, s)
      end
  | VStr x =>
      alloc (plain (imap (λ i c, (pretty i, VStr (String c EmptyString)))
                      (String.list_ascii_of_string x))) s
  | _ => alloc (plain []) s
  end.

(** The callback given to [options.parents.forEach]. *)
Definition add_parent (parents item : val) : M unit :=
  if negb (truthy item) then ret tt
  else
    match item with
    | VStr s =>
        let! item := (if String.eqb (toLowerCase s) "my drive"
                      then alloc (plain [("id", VStr "root"); ("name", item)])
                      else ret item) in
        push parents item
    | _ =>
        let! name := get item "name" in
        match name with
        | VStr n =>
            let! item := (if String.eqb (toLowerCase n) "my drive"
                          then let! copy := Object_assign_new item in
                               set copy "id" (VStr "root") ;;
                               ret copy
                          else ret item) in
            push parents item
        | _ => ret tt
        end
    end.

(** The body of [if (options.parents && options.parents instanceof Array)],
    given the elements of [options.parents]. *)
Definition collect_parents (meta : val) (items : list val) : M unit :=
  let! parents := alloc (array []) in
  for_each items (add_parent parents) ;;
  let! n := get parents "length" in
  if truthy n then set meta "parents" parents else ret tt.

(** The argument given to [ipc.send], with the statements of
    [_dataSaveHandler] that prepare it. *)
Definition save_message (detail : val) : M val :=
  let! content := get detail "content" in
  let! file := get detail "file" in
  let! options := get detail "options" in
  let! options := (if truthy options then ret options else alloc (plain [])) in
  let! meta := alloc (plain [("name", file)]) in
  let! given := get options "parents" in
  (if truthy given then
     λ s, match items_of (heap s) given with
          | Some items => collect_parents meta items s
          | None => (Ret tt, s)
          end
   else ret tt) ;;
  let! type_ := get options "contentType" in
  alloc (plain [("meta", meta); ("type", type_); ("body", content)]).

(** [ipc.send('google-drive-data-save', id, {...})]. *)
Definition send_save (id : Z) (detail : val) : M unit :=
  let! payload := save_message detail in
  emit (Send save_channel (VNum id) payload).

(** [e.detail.result = new Promise(...)], once the promise is made: a
    promise is an object without properties of its own. *)
Definition store_result (detail : val) : M unit :=
  let! promise := alloc (plain []) in
  set detail "result" promise.

(** [_dataSaveHandler(e)], given [e.detail].  The counter is advanced
    first; the promise is created and registered once the message is sent,
    and then stored in [e.detail.result].  The outcome carries the
    promise. *)
Definition _dataSaveHandler (detail : val) (r : renderer) (s : state)
  : outcome nat * renderer * state :=
  let id := next_index (_index r) in
  let r1 := Renderer (_promises r) id (sent r) (created r) (invoked r) in
  match send_save id detail s with
  | (Ret _, s1) =>
      let p := created r in
      let r2 := _addPromise id (ResolveOf p) (RejectOf p)
                  (Renderer (_promises r) id (sent r) (S p) (invoked r)) in
      match store_result detail s1 with
      | (Ret _, s2) => (Ret p, r2, s2)
      | (Throw e, s2) => (Throw e, r2, s2)
      | (Hang, s2) => (Hang, r2, s2)
      end
  | (Throw e, s1) => (Throw e, r1, s1)
  | (Hang, s1) => (Hang, r1, s1)
  end.

End ArcElectronDriveSave.
(** * Vocabulary of the properties *)

Local Open Scope list_scope.

Definition keeps {A} (I : state → Prop) (E : effect → Prop) (m : M A)
    (Q : A → Prop) : Prop :=
  ∀ s, I s →
    ∃ d, trace (m s).2 = trace s ++ d ∧ Forall E d ∧ I (m s).2 ∧
         ∀ a, (m s).1 = Ret a → Q a.

Definition alloc_stable (I : state → Prop) : Prop :=
  ∀ s h tr, I s → heap s ⊆ h → I (State h (this s) tr).

Definition anything {A} : A → Prop := λ _, True.

Definition is_oauth (e : effect) : Prop :=
  match e with
  | LaunchWebAuthFlow _ | GetAuthToken _ => True
  | _ => False
  end.

Definition folder_request (token : val) (e : effect) : Prop :=
  ∃ b, e = NetRequest (Request "POST" (Url folder_url) token
                         [("content-type", VStr "application/json")] (Some b)).

Definition session_init (token fileId : val) (e : effect) : Prop :=
  ∃ b, e = NetRequest (session_request token fileId b).

Definition upload_put (token url : val) (e : effect) : Prop :=
  ∃ b t, e = NetRequest (Request "PUT" (UrlAt url) token
                           [("content-type", t)] (Some b)).

(** Invariants that survive every write the class performs: the writes never
    touch a property named [accessToken], and an Array stays an Array. *)
Definition write_stable (I : state → Prop) : Prop :=
  alloc_stable I ∧
  (∀ s i, I s → I (State (heap s) i (trace s))) ∧
  (∀ s l o o', I s → heap s !! l = Some o →
     get_prop (props o') "accessToken" = get_prop (props o) "accessToken" →
     (is_Some (elems o) → is_Some (elems o')) →
     I (State (<[l := o']> (heap s)) (this s) (trace s))).

(** The last steps of [create]: the handshake and the decoration of the
    result. *)
Definition upload_steps (W : world) (token resource media createdParents : val)
  : M val :=
  let! url := _initializeSession W token resource VUndef in
  let! body := get media "body" in
  let! mimeType := get media "mimeType" in
  let! result := _upload W token url body mimeType in
  (if truthy createdParents then set result "parents" createdParents
   else ret tt) ;;
  ret result.

Definition keeps_then {A} (I : state → Prop) (E : effect → Prop)
    (L : list effect → Prop) (m : M A) : Prop :=
  ∀ s, I s →
    ∃ d1 d2, trace (m s).2 = trace s ++ d1 ++ d2 ∧ Forall E d1 ∧ L d2.

(** What the handshake adds to the history. *)
Definition handshake (token : val) (d : list effect) : Prop :=
  d = [] ∨
  (∃ b, d = [NetRequest (session_request token VUndef b)]) ∨
  (∃ b u x t,
     d = [NetRequest (session_request token VUndef b);
          NetRequest (Request "PUT" (UrlAt u) token [("content-type", t)]
                        (Some x))]).

(** The request carries [token] as its bearer token. *)
Definition carries (token : val) (e : effect) : Prop :=
  ∃ r, e = NetRequest r ∧ bearer r = token.

(** The cell [a] holds the access token [token]. *)
Definition holds_token (a : loc) (token : val) (s : state) : Prop :=
  field (heap s) (VRef a) "accessToken" = Some token.

(** The entries that [_normalizeParents] keeps: every string, and every
    other value with a truthy [name] or [id]. *)
Definition stays (h : gmap loc obj) (v : val) : bool :=
  match v with
  | VStr _ => true
  | _ =>
      match field h v "name", field h v "id" with
      | Some name, Some id => truthy name || truthy id
      | _, _ => false
      end
  end.

(** What is written for a kept entry [v]: a new object for a string, the
    entry itself otherwise. *)
Definition written (h h' : gmap loc obj) (v o : val) : Prop :=
  match v with
  | VStr s =>
      ∃ l, o = VRef l ∧ h !! l = None ∧
           h' !! l = Some (plain (if String.eqb (toLowerCase s) "my drive"
                                  then [("id", VStr "root")]
                                  else [("name", VStr s)]))
  | _ => o = v
  end.

(** An entry the loop can read: not [undefined] or [null], and a reference
    has its cell. *)
Definition readable (h : gmap loc obj) (v : val) : Prop :=
  v ≠ VUndef ∧ v ≠ VNull ∧ ∀ l, v = VRef l → is_Some (h !! l).

(** The entry carries an id. *)
Definition has_id (h : gmap loc obj) (v : val) : Prop :=
  ∃ id, field h v "id" = Some id ∧ truthy id = true.

Definition not_send (e : effect) : Prop :=
  match e with
  | Send _ _ _ => False
  | _ => True
  end.

(** [m] either answers the request [requestId] on the result channel, as
    its last effect and with the list it has just cached, or does not
    return and sends nothing. *)
Definition answers {A} (requestId : val) (m : M A) : Prop :=
  ∀ s, ∃ d,
    trace (m s).2 = trace s ++ d ∧
    (∀ a, (m s).1 = Ret a →
       ∃ folders, last d = Some (Send result_channel requestId folders) ∧
                  cachedFolders (this (m s).2) = folders ∧
                  truthy folders = true) ∧
    ((∀ a, (m s).1 ≠ Ret a) → Forall not_send d).

(** What folder resolution adds to the history: calls to the identity
    provider and requests that create a folder. *)
Definition resolution (e : effect) : Prop :=
  is_oauth e ∨ ∃ token, folder_request token e.

(** The cell [l] is an Array. *)
Definition is_array (l : loc) (s : state) : Prop :=
  ∃ vs ps, heap s !! l = Some (Obj (Some vs) ps).

(** The entries of the list are objects of the heap. *)
Definition objects (h : gmap loc obj) (vs : list val) : Prop :=
  Forall (λ x, ∃ l, x = VRef l ∧ is_Some (h !! l)) vs.

(** The object [x] has a property named [id]. *)
Definition has_id_key (h : gmap loc obj) (x : val) : Prop :=
  ∃ l o, x = VRef l ∧ h !! l = Some o ∧ has_prop (props o) "id" = true.

(** The very reference [x] is an element of the folder cache. *)
Definition cached (s : state) (x : val) : Prop :=
  ∃ c items, cachedFolders (this s) = VRef c ∧
             items_of (heap s) (VRef c) = Some items ∧ x ∈ items.

(** Between [s] and [s'] every cell survives, with its properties, but for
    the cell [l], which may have been given an [id]. *)
Definition assigns_id (l : loc) (s s' : state) : Prop :=
  ∀ l' o, heap s !! l' = Some o →
    ∃ o', heap s' !! l' = Some o' ∧
          (props o' = props o ∨ (l' = l ∧ has_prop (props o') "id" = true)).

(** Between [s] and [s'] every cell survives and keeps its [id], if it has
    one. *)
Definition keeps_ids (s s' : state) : Prop :=
  ∀ l o, heap s !! l = Some o →
    ∃ o', heap s' !! l = Some o' ∧
          (has_prop (props o) "id" = true → has_prop (props o') "id" = true).

(** What [_createResource] leaves in the properties of [meta]. *)
Definition with_defaults (i : instance) (type_ : val)
    (ps : list (string * val)) : list (string * val) :=
  let ps1 :=
    if negb (truthy (get_prop ps "description")) && truthy (fileDescription i)
    then set_prop ps "description" (fileDescription i) else ps in
  if negb (truthy (get_prop ps1 "mimeType"))
  then set_prop ps1 "mimeType" (js_or type_ (fileType i)) else ps1.

(** * Example worlds and states *)

(** A [JSON.parse] that reads back the given documents. *)
Definition parse_known (known : list json) (text : string) : option json :=
  List.find (λ j, String.eqb (render j) text) known.

Definition folder_reply : json := JObj [("id", JStr "folder-1")].

Definition file_reply : json := JObj [("id", JStr "file-1")].

(** A Drive that grants a token, creates every folder as [folder-1], opens
    a session and stores the file as [file-1]. *)
Definition drive : world := World
  (λ _, Resolved (Some (JObj [("accessToken", JStr "granted")])))
  (λ history,
     match last history with
     | Some (NetRequest (Request "PUT" _ _ _ _)) =>
         OnResponse (Response 200 HAbsent [render file_reply])
     | Some (NetRequest (Request _ (Url u) _ _ _)) =>
         if String.eqb u folder_url
         then OnResponse (Response 200 HAbsent [render folder_reply])
         else OnResponse (Response 200 (HMany ["https://session.example/1"]) [])
     | _ => OnResponse (Response 200 (HMany ["https://session.example/1"]) [])
     end)
  (parse_known [folder_reply; file_reply]).

Definition blank : instance := MkInstance VUndef VUndef VUndef VUndef.

Definition c3_start : state := State
  (<[1%positive := arcDefaults]>
   (<[2%positive := plain [("name", VStr "export.json")]]>
   (<[3%positive := plain [("mimeType", VStr "application/json"); ("body", VStr "{}")]]>
   (<[4%positive := plain [("accessToken", VStr "token-1")]]> ∅))))
  blank [].

Definition quota_world : world := World
  (λ _, Rejected TypeError)
  (λ _, OnResponse (Response 403 HAbsent ["quota "; "exceeded"]%string))
  (λ _, None).

(** A Drive that answers every request with the status 200 and an empty
    [Location] header. *)
Definition empty_location_world : world := World
  (λ _, Rejected TypeError)
  (λ _, OnResponse (Response 200 (HOne "") []))
  (λ _, None).

Definition my_drive_projects : state := State
  {[1%positive := array [VStr "My Drive"; VStr "Projects"]]} blank [].

Definition f1_state : state := State
  (<[1%positive := array [VRef 2%positive]]>
   (<[2%positive := plain [("id", VStr "f1")]]>
   (<[3%positive := plain [("accessToken", VStr "token-1")]]> ∅)))
  blank [].

Definition listing_reply : json :=
  JObj [("files", JArr [JObj [("id", JStr "a1"); ("name", JStr "Exports")]])].

(** A Drive that grants a token and lists one folder. *)
Definition listing : world := World
  (λ _, Resolved (Some (JObj [("accessToken", JStr "granted")])))
  (λ _, OnResponse (Response 200 HAbsent [render listing_reply]))
  (parse_known [listing_reply]).

Definition quiet_start : state := State
  {[1%positive := plain [("interactive", VBool false)]]} blank [].

Definition projects_start : state := State
  (<[1%positive := plain [("name", VStr "Projects")]]>
   (<[2%positive := array [VStr "My Drive"; VRef 1%positive]]>
   (<[3%positive := plain [("name", VStr "export.json"); ("parents", VRef 2%positive)]]>
   (<[4%positive := plain [("mimeType", VStr "application/json"); ("body", VStr "{}")]]>
   (<[5%positive := plain [("accessToken", VStr "token-1")]]> ∅)))))
  blank [].

(** The instance that the constructor builds from [arcDefaults]. *)
Definition described : instance :=
  MkInstance VUndef (VStr "Advanced REST client data export file.")
    (VStr "application/json") VUndef.

(** A configuration whose [meta] only names the file. *)
Definition meta_start : state := State
  (<[1%positive := plain [("name", VStr "export.json")]]>
   (<[2%positive := plain [("meta", VRef 1%positive)]]> ∅))
  described [].

(** The string begins with a decimal digit. *)
Definition starts_with_digit (s : string) : bool :=
  match s with
  | String c _ => (48 <=? nat_of_ascii c)%nat && (nat_of_ascii c <=? 57)%nat
  | EmptyString => false
  end.

(** * Vocabulary of the further properties *)

(** The promise of [m] always settles: it is fulfilled or rejected. *)
Definition settles {A} (m : M A) : Prop := ∀ s, (m s).1 ≠ Hang.

(** The request that [_downloadFile] makes. *)
Definition download_request (h : gmap loc obj) (token id : val) : request :=
  Request "GET" (Url (download_url h id)) token [] None.

(** The state [s'] differs from [s] by new cells and new history only. *)
Definition grown (s s' : state) : Prop :=
  heap s ⊆ heap s' ∧ this s' = this s.

(** The member [k] of a parsed object. *)
Fixpoint member (ms : list (string * json)) (k : string) : option json :=
  match ms with
  | [] => None
  | (k', j) :: ms => if String.eqb k' k then Some j else member ms k
  end.

(** [!!j] for a parsed value. *)
Definition json_truthy (j : json) : bool :=
  match j with
  | JNull => false
  | JBool b => b
  | JNum n => negb (n =? 0)
  | JStr s => negb (String.eqb s "")
  | JArr _ | JObj _ => true
  end.

(** The members of [tmp] in the ['end'] listener of [_downloadFile], for a
    body that parses to an object with the members [ms]: those of its
    [error] when that is an object, none when [error] is another truthy
    value, and its own otherwise. *)
Definition report_of (ms : list (string * json)) : list (string * json) :=
  match member ms "error" with
  | Some (JObj report) => report
  | Some e => if json_truthy e then [] else ms
  | None => ms
  end.

(** On the heap [h] the properties of [tmp] are the members [ms], as
    [JSON.parse] makes them. *)
Definition reads (h : gmap loc obj) (tmp : val) (ms : list (string * json))
  : Prop :=
  ∀ k, String.eqb k "length" = false →
    ∃ v, field h tmp k = Some v ∧
         match member ms k with
         | None => v = VUndef
         | Some j => ∃ h1, v = (alloc_json j h1).1
         end.

(** [String(j)] for a parsed value that is not an object. *)
Definition text_of (j : json) : option string :=
  match j with
  | JNull => Some "null"
  | JBool true => Some "true"
  | JBool false => Some "false"
  | JNum n => Some (Number_toString n)
  | JStr s => Some s
  | JArr _ | JObj _ => None
  end.

(** The message of the error for [tmp] with the members [ms]: the body
    without a truthy [message]; else the [message], after the [code] and a
    colon when the [code] is truthy.  Messages and codes that are objects
    are left out. *)
Definition expected_text (body : string) (ms : list (string * json))
  : option string :=
  match member ms "message" with
  | None => Some body
  | Some m =>
      if negb (json_truthy m) then Some body
      else
        match text_of m, member ms "code" with
        | Some text, None => Some text
        | Some text, Some c =>
            if negb (json_truthy c) then Some text
            else option_map (λ code, code ++ ": " ++ text)%string (text_of c)
        | None, _ => None
        end
  end.

(** The report of Drive for a file that does not exist. *)
Definition not_found : json :=
  JObj [("error",
         JObj [("errors",
                JArr [JObj [("domain", JStr "global");
                            ("reason", JStr "notFound");
                            ("message", JStr "File not found")]]);
               ("code", JNum 404);
               ("message", JStr "File not found")])].

(** A Drive that grants a token and knows no file. *)
Definition missing_file : world := World
  (λ _, Resolved (Some (JObj [("accessToken", JStr "granted")])))
  (λ _, OnResponse (Response 404 HAbsent [render not_found]))
  (parse_known [not_found]).

Definition with_token : state :=
  State {[1%positive := plain [("accessToken", VStr "token-1")]]} blank [].

(** The call adds no message to the renderer. *)
Definition quiet {A} (m : M A) : Prop :=
  ∀ s, ∃ d, trace (m s).2 = trace s ++ d ∧ Forall not_send d.

(** The call adds nothing to the history. *)
Definition silent {A} (m : M A) : Prop := ∀ s, trace (m s).2 = trace s.

(** How a handler answers the request [requestId]: when it returns it has
    sent one message, its last effect; when it throws it has added nothing
    to the history; when its promise stays pending it has sent nothing. *)
Definition answered (requestId : val) (m : M unit) : Prop :=
  ∀ s, ∃ d,
    trace (m s).2 = trace s ++ d ∧
    ((m s).1 = Ret tt →
       ∃ d0 channel payload,
         d = d0 ++ [Send channel requestId payload] ∧ Forall not_send d0 ∧
         (channel = result_channel ∨ channel = error_channel)) ∧
    ((m s).1 = Hang → Forall not_send d) ∧
    (∀ e, (m s).1 = Throw e → d = []).

(** The last steps of [update], and of [create] in the first version: the
    handshake for the file [fileId]. *)
Definition update_steps (W : world) (token fileId resource media : val)
  : M val :=
  let! url := _initializeSession W token resource fileId in
  let! body := get media "body" in
  let! mimeType := get media "mimeType" in
  _upload W token url body mimeType.

(** What the handshake for the file [fileId] adds to the history. *)
Definition handshake_for (token fileId : val) (d : list effect) : Prop :=
  d = [] ∨
  (∃ b, d = [NetRequest (session_request token fileId b)]) ∨
  (∃ b u x t,
     d = [NetRequest (session_request token fileId b);
          NetRequest (Request "PUT" (UrlAt u) token [("content-type", t)]
                        (Some x))]).

(** Between [s] and [s'] the cells of [s] are as they were, but for a
    [mimeType] written into [resource] where it had none. *)
Definition only_mimeType (resource : val) (s s' : state) : Prop :=
  ∀ l o, heap s !! l = Some o →
    ∃ o', heap s' !! l = Some o' ∧ elems o' = elems o ∧
      (props o' = props o ∨
       (resource = VRef l ∧ truthy (get_prop (props o) "mimeType") = false ∧
        ∃ m, props o' = set_prop (props o) "mimeType" m)).

(** The resource names no parent: [parents] is falsy or has a falsy
    [length]. *)
Definition no_parents (h : gmap loc obj) (resource : val) : Prop :=
  ∃ p, field h resource "parents" = Some p ∧
       (truthy p = false ∨
        ∃ len, field h p "length" = Some len ∧ truthy len = false).

(** What [create] does after its first statement. *)
Definition create_rest (W : world) (resource media auth_ : val) : M val :=
  let! info := auth W auth_ in
  let! token := get info "accessToken" in
  let! parents := get resource "parents" in
  let! len := (if truthy parents then get parents "length" else ret parents) in
  let! createdParents :=
    (if truthy len then
       let! parents := get resource "parents" in
       let! created := createParents W parents info in
       let! n := (if truthy created then get created "length" else ret VUndef) in
       (if negb (truthy created) || negb (truthy n)
        then delete_field resource "parents"
        else
          let! items := elements created in
          let! ids := map_m (λ item, get item "id") items in
          let! list := alloc (array ids) in
          set resource "parents" list) ;;
       ret created
     else ret VUndef) in
  upload_steps W token resource media createdParents.

(** The address that [_listAppFolders] builds from its parameters. *)
Definition folders_url : string :=
  (list_url
   ++ "q=trashed%20%3D%20false%20and%20mimeType%3D%22application%2Fvnd.google-apps.folder%22&"
   ++ "orderBy=modifiedTime%20desc&")%string.

Definition list_request (token : val) : request :=
  Request "GET" (Url folders_url) token [("accept", VStr "application/json")]
    None.

(** [typeof opts.interactive === 'undefined' ? true : opts.interactive]. *)
Definition interactive_of (given : val) : val :=
  match given with VUndef => VBool true | _ => given end.

(** The [try] block of [_listAppFoldersHandler]. *)
Definition list_and_cache (W : world) (requestId interactive : val) : M unit :=
  let! result := listAppFolders W interactive in
  let! folders := alloc (array []) in
  let! files := get result "files" in
  (if truthy files then
     let! items := elements files in
     for_each items (λ item,
       let! id := get item "id" in
       let! name := get item "name" in
       let! folder := alloc (plain [("id", id); ("name", name)]) in
       push folders folder)
   else ret tt) ;;
  set_cachedFolders folders ;;
  emit (Send result_channel requestId folders).

(** The entry [folder] of the folder list is a new object with the [id] and
    the [name] of [item], and nothing else. *)
Definition projected (h h' : gmap loc obj) (item folder : val) : Prop :=
  ∃ l id name,
    folder = VRef l ∧ h !! l = None ∧
    h' !! l = Some (plain [("id", id); ("name", name)]) ∧
    field h item "id" = Some id ∧ field h item "name" = Some name.

(** ** The creation of a folder *)

(** The request that [_createFolder] makes for a folder named [name]. *)
Definition new_folder_request (name : string) (token : val) : request :=
  Request "POST" (Url folder_url) token
    [("content-type", VStr "application/json")]
    (Some (VStr (render (JObj [("name", JStr name);
                               ("mimeType", JStr folder_mime)])))).

(** A Drive that refuses every request with the report of a missing
    permission. *)
Definition forbidden : json :=
  JObj [("error", JObj [("code", JNum 403);
                        ("message", JStr "Insufficient Permission")])].

Definition refusing : world := World
  (λ _, Resolved (Some (JObj [("accessToken", JStr "granted")])))
  (λ _, OnResponse (Response 403 HAbsent [render forbidden]))
  (parse_known [forbidden]).

(** ** The data-save event in the renderer *)

(** The value is an object that [h0] does not hold. *)
Definition made_since (h0 : gmap loc obj) (v : val) : Prop :=
  ∃ l, v = VRef l ∧ h0 !! l = None.

(** The name under which an entry of [options.parents] is kept: a string
    that is not empty names itself, an object is named by its [name] when
    that is a string; every other entry is dropped. *)
Definition parent_name (h : gmap loc obj) (item : val) : option string :=
  match item with
  | VStr s => if String.eqb s "" then None else Some s
  | VRef _ =>
      match field h item "name" with
      | Some (VStr n) => Some n
      | _ => None
      end
  | _ => None
  end.

(** The properties of the object sent in place of an entry named
    [My Drive]. *)
Definition as_root (h : gmap loc obj) (item : val) : list (string * val) :=
  match item with
  | VRef l =>
      match h !! l with
      | Some o => set_prop (ArcElectronDriveSave.own_props o) "id" (VStr "root")
      | None => []
      end
  | _ => [("id", VStr "root"); ("name", item)]
  end.

(** What is sent for a kept entry: the entry itself, or a new object with
    the id [root] when its name is [My Drive] in any case. *)
Definition parent_sent (h h' : gmap loc obj) (item o : val) : Prop :=
  match parent_name h item with
  | Some n =>
      if String.eqb (toLowerCase n) "my drive"
      then ∃ l, o = VRef l ∧ h !! l = None ∧
                h' !! l = Some (plain (as_root h item))
      else o = item
  | None => False
  end.

(** The detail of a data-save event that names five parents: the root
    folder by its name, a folder by name and id, a folder by id only, an
    empty name, and an object named as the root folder. *)
Definition save_event : state := State
  (<[1%positive := plain [("content", VStr "{}"); ("file", VStr "export.json");
                          ("options", VRef 2%positive)]]>
   (<[2%positive := plain [("parents", VRef 3%positive);
                           ("contentType", VStr "application/json")]]>
    (<[3%positive := array [VStr "My Drive"; VRef 4%positive; VRef 5%positive;
                            VStr ""; VRef 6%positive]]>
     (<[4%positive := plain [("name", VStr "Projects"); ("id", VStr "p1")]]>
      (<[5%positive := plain [("id", VStr "x")]]>
       (<[6%positive := plain [("name", VStr "MY DRIVE"); ("id", VStr "old")]]>
        ∅))))))
  blank [].

(** A list of parents that names no folder: an object without [name] and
    [id], and a number. *)
Definition unnamed_parents : state := State
  (<[1%positive := array [VRef 2%positive; VNum 5]]>
   (<[2%positive := plain [("kind", VStr "drive#file")]]> ∅))
  blank [].

(** An identity provider that has no token to give without asking the
    user. *)
Definition signed_out : world := World
  (λ _, Resolved None)
  (λ _, OnError (ErrorObj "net::ERR_FAILED"))
  (λ _, None).

(** What [_createParents] does with the id of a folder it has created: the
    id is written into the entry, and the entry is appended to the result
    and to the folder cache, which is created when there is none. *)
Definition adopt (parent id result : val) : M unit :=
  set parent "id" id ;;
  push result parent ;;
  let! i := get_this in
  (if negb (truthy (cachedFolders i))
   then let! fresh_list := alloc (array []) in
        set_cachedFolders fresh_list
   else ret tt) ;;
  let! i := get_this in
  push (cachedFolders i) parent.

(** [!parent.id]: the entry has no id, or a falsy one. *)
Definition lacks_id (h : gmap loc obj) (v : val) : bool :=
  match field h v "id" with
  | Some id => negb (truthy id)
  | None => true
  end.

(** The entries of the caller for which a folder has to be created: a
    string other than the name of the root, and a kept object without an
    id. *)
Definition needs_folder (h : gmap loc obj) (v : val) : bool :=
  match v with
  | VStr s => negb (String.eqb (toLowerCase s) "my drive")
  | _ => stays h v && lacks_id h v
  end.

(** The effect is a call of [net.request]. *)
Definition is_request (e : effect) : bool :=
  match e with
  | NetRequest _ => true
  | _ => false
  end.

(** Every cell of [h] is in [h'] with the same properties. *)
Definition same_props (h h' : gmap loc obj) : Prop :=
  ∀ l o, h !! l = Some o → ∃ o', h' !! l = Some o' ∧ props o' = props o.

(** [m] neither reads nor writes the fields of the instance: started with
    another instance, it has the same outcome, heap and history, and leaves
    that instance as it is. *)
Definition ignores_this {A} (m : M A) : Prop :=
  ∀ s i, m (State (heap s) i (trace s))
         = ((m s).1, State (heap (m s).2) i (trace (m s).2)).

(** Invariants that survive every allocation and every change of the
    elements of an Array. *)
Definition elems_stable (I : state → Prop) : Prop :=
  alloc_stable I ∧
  ∀ s l o e, I s → heap s !! l = Some o →
    I (State (<[l := Obj e (props o)]> (heap s)) (this s) (trace s)).

(** Invariants that only speak of the instance. *)
Definition heap_free (I : state → Prop) : Prop :=
  ∀ s h tr, I s → I (State h (this s) tr).

(** The cell [l] is there with the properties of [o]. *)
Definition cell_kept (l : loc) (o : obj) (s : state) : Prop :=
  ∃ o', heap s !! l = Some o' ∧ props o' = props o.

(** The operations of a [DriveExport] instance: its three event handlers
    and its methods ([fuel] bounds the recursion of [_createParents]). *)
Inductive operation :=
| ListAppFoldersHandler (requestId opts : val)
| DataSaveHandler (requestId config : val)
| GetFileHandler (requestId id : val)
| CreateMedia (config : val)
| CreateResource (config : val)
| Auth (auth_ : val)
| ListAppFolders (interactive : val)
| ListAppFolders_ (auth_ : val)
| Create (resource media auth_ : val)
| Update (fileId resource media auth_ : val)
| InitializeSession (token meta fileId : val)
| Upload (token url body mimeType : val)
| CreateParents (parents auth_ : val)
| NormalizeParents (parents : val)
| CreateParents_ (fuel : nat) (parents auth_ result : val)
| CreateFolder (name auth_ : val)
| CreateFolder_ (name token : val)
| GetFile (id : val)
| DownloadFile (auth_ id : val).

(** The state in which the operation leaves the process. *)
Definition perform (W : world) (op : operation) (s : state) : state :=
  match op with
  | ListAppFoldersHandler requestId opts =>
      (_listAppFoldersHandler W requestId opts s).2
  | DataSaveHandler requestId config =>
      (_dataSaveHandler W requestId config s).2
  | GetFileHandler requestId id => (_getFileHandler W requestId id s).2
  | CreateMedia config => (_createMedia config s).2
  | CreateResource config => (_createResource config s).2
  | Auth auth_ => (auth W auth_ s).2
  | ListAppFolders interactive => (listAppFolders W interactive s).2
  | ListAppFolders_ auth_ => (_listAppFolders W auth_ s).2
  | Create resource media auth_ => (create W resource media auth_ s).2
  | Update fileId resource media auth_ =>
      (update W fileId resource media auth_ s).2
  | InitializeSession token meta fileId =>
      (_initializeSession W token meta fileId s).2
  | Upload token url body mimeType =>
      (_upload W token url body mimeType s).2
  | CreateParents parents auth_ => (createParents W parents auth_ s).2
  | NormalizeParents parents => (_normalizeParents parents s).2
  | CreateParents_ fuel parents auth_ result =>
      (_createParents W fuel parents auth_ result s).2
  | CreateFolder name auth_ => (createFolder W name auth_ s).2
  | CreateFolder_ name token => (_createFolder W name token s).2
  | GetFile id => (getFile W id s).2
  | DownloadFile auth_ id => (_downloadFile W auth_ id s).2
  end.

(** The states of a process in which the operations [ops] run one after
    the other from [s]. *)
Definition lifetime (W : world) (ops : list operation) (s : state) : state :=
  foldl (λ s0 op, perform W op s0) s ops.

(** What [create] does before the handshake: the default media type, the
    token and the resolution of the parents.  The result is the token and
    the list of the resolved parents. *)
Definition create_head (W : world) (resource auth_ : val) : M (val * val) :=
  let! mt := get resource "mimeType" in
  let! i := get_this in
  (if negb (truthy mt) && truthy (mime i)
   then set resource "mimeType" (mime i) else ret tt) ;;
  let! info := auth W auth_ in
  let! token := get info "accessToken" in
  let! parents := get resource "parents" in
  let! len := (if truthy parents then get parents "length" else ret parents) in
  let! createdParents :=
    (if truthy len then
       let! parents := get resource "parents" in
       let! created := createParents W parents info in
       let! n := (if truthy created then get created "length" else ret VUndef) in
       (if negb (truthy created) || negb (truthy n)
        then delete_field resource "parents"
        else
          let! items := elements created in
          let! ids := map_m (λ item, get item "id") items in
          let! list := alloc (array ids) in
          set resource "parents" list) ;;
       ret created
     else ret VUndef) in
  ret (token, createdParents).

(** The request that opens the session of a new file. *)
Definition new_session_request (token body : val) : request :=
  Request "POST" (Url (upload_url ++ "?uploadType=resumable")) token
    [("Content-Type", VStr "application/json; charset=UTF-8")] (Some body).
(** * Properties *)

(** ** Properties lists *)

Lemma get_set_prop_eq ps k v : get_prop (set_prop ps k v) k = v.
Proof.
  induction ps as [|[k' v'] ps IH]; simpl.
  - by rewrite String.eqb_refl.
  - destruct (String.eqb k' k) eqn:E; simpl; rewrite E; done.
Qed.

Lemma get_set_prop_ne ps k k' v :
  k ≠ k' → get_prop (set_prop ps k v) k' = get_prop ps k'.
Proof.
  intros Hne. induction ps as [|[k0 v0] ps IH]; simpl.
  - destruct (String.eqb k k') eqn:E; [|done].
    by apply String.eqb_eq in E.
  - destruct (String.eqb k0 k) eqn:E; simpl; [|by rewrite IH].
    apply String.eqb_eq in E as ->.
    destruct (String.eqb k k') eqn:E'; [|done].
    by apply String.eqb_eq in E'.
Qed.

Lemma get_del_prop_eq ps k : get_prop (del_prop ps k) k = VUndef.
Proof.
  induction ps as [|[k' v'] ps IH]; simpl; [done|].
  destruct (String.eqb k' k) eqn:E; simpl; [done|]. by rewrite E.
Qed.

Lemma has_del_prop_eq ps k : has_prop (del_prop ps k) k = false.
Proof.
  induction ps as [|[k' v'] ps IH]; simpl; [done|].
  destruct (String.eqb k' k) eqn:E; simpl; [done|]. by rewrite E.
Qed.

Lemma get_del_prop_ne ps k k' :
  k ≠ k' → get_prop (del_prop ps k) k' = get_prop ps k'.
Proof.
  intros Hne. induction ps as [|[k0 v0] ps IH]; simpl; [done|].
  destruct (String.eqb k0 k) eqn:E; simpl; [|by rewrite IH].
  apply String.eqb_eq in E as ->.
  destruct (String.eqb k k') eqn:E'; [|done].
  by apply String.eqb_eq in E'.
Qed.

(** ** Running the monad *)

Lemma bind_Ret {A B} (m : M A) (k : A → M B) s a s1 :
  m s = (Ret a, s1) → bind m k s = k a s1.
Proof. unfold bind. by intros ->. Qed.

Lemma bind_Throw {A B} (m : M A) (k : A → M B) s e s1 :
  m s = (Throw e, s1) → bind m k s = (Throw e, s1).
Proof. unfold bind. by intros ->. Qed.

Lemma bind_Hang {A B} (m : M A) (k : A → M B) s s1 :
  m s = (Hang, s1) → bind m k s = (Hang, s1).
Proof. unfold bind. by intros ->. Qed.

Lemma bind_Ret_inv {A B} (m : M A) (k : A → M B) s b s' :
  bind m k s = (Ret b, s') →
  ∃ a s1, m s = (Ret a, s1) ∧ k a s1 = (Ret b, s').
Proof.
  unfold bind. destruct (m s) as [[a|e|] s1]; [eauto|done..].
Qed.

Lemma get_Ret v k s x : field (heap s) v k = Some x → get v k s = (Ret x, s).
Proof. unfold get. by intros ->. Qed.

Lemma get_Ret_inv v k s x s' :
  get v k s = (Ret x, s') → s' = s ∧ field (heap s) v k = Some x.
Proof.
  unfold get. destruct (field (heap s) v k); intros; by simplify_eq.
Qed.

Lemma state_eta s : State (heap s) (this s) (trace s) = s.
Proof. by destruct s. Qed.

(** ** Cells that stay *)

Lemma field_ref h l o k :
  h !! l = Some o → String.eqb k "length" = false →
  field h (VRef l) k = Some (get_prop (props o) k).
Proof.
  intros Hl Hk. simpl. rewrite Hl. destruct o as [[vs|] ps]; simpl; [|done].
  by rewrite Hk.
Qed.

Lemma get_ref s l o k :
  heap s !! l = Some o → String.eqb k "length" = false →
  get (VRef l) k s = (Ret (get_prop (props o) k), s).
Proof. intros. by apply get_Ret, field_ref. Qed.

Lemma field_weaken h h' v k x :
  h ⊆ h' → field h v k = Some x → field h' v k = Some x.
Proof.
  intros Hsub. destruct v; simpl; try done.
  destruct (h !! l) as [o|] eqn:E; [|done].
  by rewrite (lookup_weaken _ _ _ _ E Hsub).
Qed.

Lemma items_of_weaken h h' v vs :
  h ⊆ h' → items_of h v = Some vs → items_of h' v = Some vs.
Proof.
  intros Hsub. destruct v; simpl; try done.
  destruct (h !! l) as [o|] eqn:E; [|done].
  by rewrite (lookup_weaken _ _ _ _ E Hsub).
Qed.

#[global] Arguments field : simpl never.
#[global] Arguments items_of : simpl never.

Lemma fresh_None (h : gmap loc obj) : h !! fresh (dom h) = None.
Proof. apply not_elem_of_dom. apply is_fresh. Qed.

Lemma alloc_Ret o s :
  alloc o s = (Ret (VRef (fresh (dom (heap s)))),
               State (<[fresh (dom (heap s)) := o]> (heap s)) (this s) (trace s)).
Proof. done. Qed.

Lemma insert_fresh_subseteq (h : gmap loc obj) o :
  h ⊆ <[fresh (dom h) := o]> h.
Proof. apply insert_subseteq, fresh_None. Qed.

Lemma json_nested_ind (P : json → Prop) :
  P JNull → (∀ b, P (JBool b)) → (∀ n, P (JNum n)) → (∀ s, P (JStr s)) →
  (∀ items, Forall P items → P (JArr items)) →
  (∀ members, Forall (λ kv, P kv.2) members → P (JObj members)) →
  ∀ j, P j.
Proof.
  intros HN HB HZ HS HA HO. fix rec 1.
  intros [|b|n|s|items|members];
    [apply HN | apply HB | apply HZ | apply HS | |].
  - apply HA. revert items. fix rec_items 1.
    intros [|j items]; constructor; [apply rec | apply rec_items].
  - apply HO. revert members. fix rec_members 1.
    intros [|[k j] members]; constructor; [apply rec | apply rec_members].
Qed.

(** [alloc_json] only adds cells. *)
Lemma alloc_json_subseteq j : ∀ h, h ⊆ (alloc_json j h).2.
Proof.
  induction j as [| | | |items IH|members IH] using json_nested_ind;
    intros h; simpl; try done.
  - assert (Hgo : ∀ h, h ⊆ (alloc_items alloc_json items h).2).
    { clear h. induction IH as [|j items Hj _ IHitems]; intros h; simpl; [done|].
      specialize (Hj h). destruct (alloc_json j h) as [v h1]. simpl in Hj.
      specialize (IHitems h1).
      destruct (alloc_items alloc_json items h1) as [vs h2]. simpl in *.
      by etrans. }
    specialize (Hgo h). destruct (alloc_items alloc_json items h) as [vs h1].
    simpl in *. etrans; [done|]. apply insert_fresh_subseteq.
  - assert (Hgo : ∀ h, h ⊆ (alloc_members alloc_json members h).2).
    { clear h. induction IH as [|[k j] ms Hj _ IHms]; intros h; simpl; [done|].
      simpl in Hj. specialize (Hj h). destruct (alloc_json j h) as [v h1].
      simpl in Hj. specialize (IHms h1).
      destruct (alloc_members alloc_json ms h1) as [ps h2]. simpl in *.
      by etrans. }
    specialize (Hgo h). destruct (alloc_members alloc_json members h) as [ps h1].
    simpl in *. etrans; [done|]. apply insert_fresh_subseteq.
Qed.

Lemma from_json_run j s :
  ∃ v h, from_json j s = (Ret v, State h (this s) (trace s)) ∧ heap s ⊆ h.
Proof.
  unfold from_json. pose proof (alloc_json_subseteq j (heap s)) as H.
  destruct (alloc_json j (heap s)) as [v h]. eauto.
Qed.

(** ** Histories *)




Section Keeps.
Context {I : state → Prop} {E : effect → Prop}.

Lemma keeps_ret {A} (a : A) (Q : A → Prop) : Q a → keeps I E (ret a) Q.
Proof.
  intros HQ s HI. exists []. simpl. rewrite app_nil_r.
  repeat split; [done..|]. by intros ? [= <-].
Qed.

Lemma keeps_throw {A} e (Q : A → Prop) : keeps I E (throw e) Q.
Proof.
  intros s HI. exists []. simpl. rewrite app_nil_r. repeat split; done.
Qed.

Lemma keeps_reject_with {A} v (Q : A → Prop) : keeps I E (reject_with v) Q.
Proof.
  intros s HI. exists []. simpl. rewrite app_nil_r. repeat split; done.
Qed.

Lemma keeps_hang {A} (Q : A → Prop) : keeps I E hang Q.
Proof.
  intros s HI. exists []. simpl. rewrite app_nil_r. repeat split; done.
Qed.

Lemma keeps_bind {A B} (m : M A) (k : A → M B) Q R :
  keeps I E m Q → (∀ a, Q a → keeps I E (k a) R) → keeps I E (bind m k) R.
Proof.
  intros Hm Hk s HI. destruct (Hm s HI) as (d1 & Ht1 & HE1 & HI1 & HQ).
  unfold bind. destruct (m s) as [[a|e|] s1]; simpl in *.
  - destruct (Hk a (HQ a eq_refl) s1 HI1) as (d2 & Ht2 & HE2 & HI2 & HR).
    exists (d1 ++ d2). rewrite Ht2, Ht1, app_assoc.
    repeat split; [by apply Forall_app|done..].
  - exists d1. repeat split; done.
  - exists d1. repeat split; done.
Qed.

Lemma keeps_weaken {A} (m : M A) (Q Q' : A → Prop) :
  keeps I E m Q → (∀ a, Q a → Q' a) → keeps I E m Q'.
Proof.
  intros Hm HQ s HI. destruct (Hm s HI) as (d & ? & ? & ? & H).
  exists d. repeat split; auto.
Qed.

Lemma keeps_get v k : keeps I E (get v k) anything.
Proof.
  intros s HI. exists []. unfold get. rewrite app_nil_r.
  destruct (field (heap s) v k); simpl; repeat split; done.
Qed.

Lemma keeps_get_this : keeps I E get_this anything.
Proof. intros s HI. exists []. simpl. rewrite app_nil_r. repeat split; done. Qed.

Lemma keeps_stringify v : keeps I E (JSON_stringify v) anything.
Proof.
  intros s HI. exists []. unfold JSON_stringify. rewrite app_nil_r.
  destruct (stringify (heap s) v); simpl; repeat split; done.
Qed.

Lemma keeps_elements v : keeps I E (elements v) anything.
Proof.
  intros s HI. exists []. unfold elements. rewrite app_nil_r.
  destruct (items_of (heap s) v); simpl; repeat split; done.
Qed.

Lemma keeps_in_listener {A} (m : M A) Q :
  keeps I E m Q → keeps I E (in_listener m) Q.
Proof.
  intros Hm s HI. destruct (Hm s HI) as (d & ? & ? & ? & H).
  exists d. unfold in_listener. destruct (m s) as [[a|e|] s1]; simpl in *;
    repeat split; auto; done.
Qed.

Lemma keeps_for_each {A} (l : list A) (f : A → M unit) :
  (∀ x, keeps I E (f x) anything) → keeps I E (for_each l f) anything.
Proof.
  intros Hf. induction l as [|x l IH]; simpl.
  - by apply keeps_ret.
  - eapply keeps_bind; [apply Hf|]. intros _ _. apply IH.
Qed.

Lemma keeps_map_m {A B} (l : list A) (f : A → M B) :
  (∀ x, keeps I E (f x) anything) → keeps I E (map_m f l) anything.
Proof.
  intros Hf. induction l as [|x l IH]; simpl.
  - by apply keeps_ret.
  - eapply keeps_bind; [apply Hf|]. intros y _.
    eapply keeps_bind; [apply IH|]. intros ys _. by apply keeps_ret.
Qed.

Context (Hstable : alloc_stable I).

Lemma keeps_alloc o : keeps I E (alloc o) anything.
Proof.
  intros s HI. exists []. simpl. rewrite app_nil_r.
  split; [done|]. split; [constructor|]. split; [|done].
  apply Hstable; [done|]. apply insert_fresh_subseteq.
Qed.

Lemma keeps_from_json j : keeps I E (from_json j) anything.
Proof.
  intros s HI. destruct (from_json_run j s) as (v & h & -> & Hsub).
  exists []. simpl. rewrite app_nil_r.
  split; [done|]. split; [constructor|]. split; [|done].
  by apply Hstable.
Qed.

Lemma keeps_emit e : E e → keeps I E (emit e) anything.
Proof.
  intros He s HI. exists [e]. simpl.
  split; [done|]. split; [by repeat constructor|]. split; [|done].
  by apply Hstable.
Qed.

End Keeps.





Ltac keeps_step :=
  lazymatch goal with
  | |- keeps _ _ (bind _ _) _ =>
      eapply (keeps_bind _ _ anything); [|intros ? _]
  | |- keeps _ _ (ret _) _ => by apply keeps_ret
  | |- keeps _ _ (throw _) _ => apply keeps_throw
  | |- keeps _ _ (reject_with _) _ => apply keeps_reject_with
  | |- keeps _ _ hang _ => apply keeps_hang
  | |- keeps _ _ (get _ _) _ => apply keeps_get
  | |- keeps _ _ get_this _ => apply keeps_get_this
  | |- keeps _ _ (JSON_stringify _) _ => apply keeps_stringify
  | |- keeps _ _ (elements _) _ => apply keeps_elements
  | |- keeps _ _ (in_listener _) _ => apply keeps_in_listener
  | |- keeps _ _ (alloc _) _ => by apply keeps_alloc
  | |- keeps _ _ (from_json _) _ => by apply keeps_from_json
  | |- keeps _ _ (emit _) _ => apply keeps_emit; [done|]
  | |- keeps _ _ (for_each _ _) _ => apply keeps_for_each; intros ?
  | |- keeps _ _ (map_m _ _) _ => apply keeps_map_m; intros ?
  | |- keeps _ _ (if ?b then _ else _) _ => destruct b
  | |- keeps _ _ (match ?x with _ => _ end) _ => destruct x
  end.

Section PassA.
Variable W : world.
Context {I : state → Prop} {E : effect → Prop}.
Context (Hstable : alloc_stable I).

Lemma keeps_reply_oauth :
  keeps I E (λ s, match oauth W (trace s) with
                  | Resolved None => (Ret VUndef, s)
                  | Resolved (Some j) => from_json j s
                  | Rejected x => (Throw x, s)
                  end) anything.
Proof.
  intros s HI. destruct (oauth W (trace s)) as [[j|]|x].
  - by apply keeps_from_json.
  - exists []. simpl. rewrite app_nil_r. repeat split; done.
  - exists []. simpl. rewrite app_nil_r. repeat split; done.
Qed.

Lemma keeps_ask_oauth e : E e → keeps I E (ask_oauth W e) anything.
Proof.
  intros He. unfold ask_oauth. keeps_step; [by apply keeps_emit|].
  apply keeps_reply_oauth.
Qed.

Lemma keeps_net_request r :
  E (NetRequest r) → keeps I E (net_request W r) (@anything response).
Proof.
  intros He. unfold net_request. keeps_step; [by apply keeps_emit|].
  intros s HI. exists []. rewrite app_nil_r.
  destruct (net W (trace s)); simpl; repeat split; done.
Qed.

Lemma keeps_parse text : keeps I E (parse W text) anything.
Proof. unfold parse. repeat keeps_step. Qed.

Lemma keeps_auth x : (∀ e, is_oauth e → E e) → keeps I E (auth W x) anything.
Proof.
  intros HE. unfold auth. repeat keeps_step; by apply keeps_ask_oauth, HE.
Qed.

Lemma keeps__createFolder name token :
  (∀ e, folder_request token e → E e) →
  keeps I E (_createFolder W name token) anything.
Proof.
  intros HE. unfold _createFolder.
  do 3 keeps_step. 
  { apply keeps_net_request, HE. by eexists. }
  keeps_step; [apply keeps_parse|].
  repeat keeps_step.
Qed.

Lemma keeps_createFolder name x :
  (∀ e, is_oauth e → E e) → (∀ t e, folder_request t e → E e) →
  keeps I E (createFolder W name x) anything.
Proof.
  intros HE1 HE2. unfold createFolder.
  keeps_step; [by apply keeps_auth|]. keeps_step; [keeps_step|].
  apply keeps__createFolder, HE2.
Qed.

Lemma keeps__initializeSession token meta fileId :
  (∀ e, session_init token fileId e → E e) →
  keeps I E (_initializeSession W token meta fileId) anything.
Proof.
  intros HE. unfold _initializeSession.
  keeps_step; [repeat keeps_step|].
  keeps_step; [apply keeps_net_request, HE; by eexists|].
  intros s HI. exists []. simpl. rewrite app_nil_r. repeat split; done.
Qed.

Lemma keeps__upload token url body mimeType :
  (∀ e, upload_put token url e → E e) →
  keeps I E (_upload W token url body mimeType) anything.
Proof.
  intros HE. unfold _upload.
  keeps_step; [apply keeps_net_request, HE; by do 2 eexists|].
  apply keeps_parse.
Qed.

End PassA.

Section Writes.
Context {I : state → Prop} {E : effect → Prop}.
Context (Hstable : write_stable I).

Lemma keeps_modify f l :
  (∀ o, get_prop (props (f o)) "accessToken" = get_prop (props o) "accessToken") →
  (∀ o, is_Some (elems o) → is_Some (elems (f o))) →
  keeps I E (modify f l) anything.
Proof.
  intros Hf He s HI. exists []. rewrite app_nil_r. unfold modify.
  destruct (heap s !! l) as [o|] eqn:Hl; simpl.
  - split; [done|]. split; [constructor|]. split; [|done].
    destruct Hstable as (_ & _ & Hw). eapply Hw; [done..|apply He].
  - repeat split; done.
Qed.

Lemma keeps_set v k x :
  String.eqb k "accessToken" = false → keeps I E (set v k x) anything.
Proof.
  intros Hk. destruct v; simpl; try apply keeps_throw.
  apply keeps_modify; [|done]. intros o. simpl. apply get_set_prop_ne.
  intros ->. done.
Qed.

Lemma keeps_delete_field v k :
  String.eqb k "accessToken" = false → keeps I E (delete_field v k) anything.
Proof.
  intros Hk. destruct v; simpl; try apply keeps_throw; try by apply keeps_ret.
  apply keeps_modify; [|done]. intros o. simpl. apply get_del_prop_ne.
  intros ->. done.
Qed.

Lemma keeps_set_elements v vs : keeps I E (set_elements v vs) anything.
Proof.
  destruct v; simpl; try apply keeps_throw.
  apply keeps_modify; [done|]. intros o _. by eexists.
Qed.

Lemma keeps_shift v : keeps I E (shift v) anything.
Proof.
  unfold shift. keeps_step; [keeps_step|]. keeps_step; [keeps_step|].
  keeps_step; [apply keeps_set_elements|keeps_step].
Qed.

Lemma keeps_push v x : keeps I E (push v x) anything.
Proof.
  unfold push. keeps_step; [keeps_step|]. apply keeps_set_elements.
Qed.

Lemma keeps_set_this i : keeps I E (set_this i) anything.
Proof.
  intros s HI. exists []. simpl. rewrite app_nil_r.
  split; [done|]. split; [constructor|]. split; [|done].
  destruct Hstable as (_ & Ht & _). by apply Ht.
Qed.

Lemma keeps_set_cachedFolders v : keeps I E (set_cachedFolders v) anything.
Proof.
  unfold set_cachedFolders. keeps_step; [keeps_step|]. apply keeps_set_this.
Qed.

Lemma keeps_dependent {A} (f : nat → M A) (g : state → nat) Q :
  (∀ n, keeps I E (f n) Q) → keeps I E (λ s, f (g s) s) Q.
Proof. intros Hf s HI. apply (Hf (g s) s HI). Qed.

Lemma write_alloc_stable : alloc_stable I.
Proof. by destruct Hstable. Qed.

Lemma keeps__normalizeParents parents :
  keeps I E (_normalizeParents parents) anything.
Proof.
  pose proof write_alloc_stable as Ha.
  unfold _normalizeParents.
  keeps_step; [keeps_step|]. keeps_step; [keeps_step|].
  keeps_step; [|keeps_step].
  keeps_step. 
  assert (Hobj : keeps I E
    (let! name := get x "name" in
     let! id := get x "id" in
     if negb (truthy name) && negb (truthy id) then ret tt else push a x) anything).
  { keeps_step; [keeps_step|]. keeps_step; [keeps_step|].
    keeps_step; [keeps_step|apply keeps_push]. }
  destruct x; try exact Hobj.
  keeps_step.
  - keeps_step; [keeps_step|apply keeps_push].
  - keeps_step; [keeps_step|apply keeps_push].
Qed.

Section Resolution.
Variable W : world.
Variable info : val.
Hypothesis Hfolder : ∀ name, keeps I E (createFolder W name info) anything.

Lemma keeps__createParents fuel parents result :
  keeps I E (_createParents W fuel parents info result) (λ v, v = result).
Proof.
  pose proof write_alloc_stable as Ha.
  induction fuel as [|fuel IH]; simpl; [apply keeps_hang|].
  keeps_step; [apply keeps_shift|].
  destruct (negb _); [by apply keeps_ret|].
  keeps_step; [keeps_step|].
  destruct (truthy _).
  - keeps_step; [apply keeps_push|apply IH].
  - keeps_step; [keeps_step|].
    keeps_step; [apply Hfolder|].
    keeps_step; [by apply keeps_set|].
    keeps_step; [apply keeps_push|].
    keeps_step; [keeps_step|].
    keeps_step.
    { keeps_step; [|keeps_step].
      keeps_step; [keeps_step|apply keeps_set_cachedFolders]. }
    keeps_step; [keeps_step|].
    keeps_step; [apply keeps_push|apply IH].
Qed.
End Resolution.

Lemma keeps_createParents W parents auth_ (Q : val → Prop) :
  keeps I E (auth W auth_) Q →
  (∀ info name, Q info → keeps I E (createFolder W name info) anything) →
  keeps I E (createParents W parents auth_) anything.
Proof.
  intros Hauth Hfolder. pose proof write_alloc_stable as Ha.
  unfold createParents.
  keeps_step; [repeat keeps_step|].
  keeps_step; [keeps_step|].
  keeps_step; [apply keeps__normalizeParents|].
  keeps_step; [keeps_step|].
  keeps_step; [keeps_step|].
  eapply keeps_bind; [apply Hauth|]. intros info Hinfo.
  keeps_step; [keeps_step|].
  apply (keeps_dependent (λ n, _createParents W n a0 info a2)).
  intros n. eapply keeps_weaken; [|done].
  apply keeps__createParents. intros name. by apply Hfolder.
Qed.

End Writes.



Section Then.
Context {I : state → Prop} {E : effect → Prop} {L : list effect → Prop}.
Context (Hnil : L []).

Lemma keeps_then_bind {A B} (m : M A) (k : A → M B) Q :
  keeps I E m Q → (∀ a, Q a → keeps_then I E L (k a)) →
  keeps_then I E L (bind m k).
Proof.
  intros Hm Hk s HI. destruct (Hm s HI) as (d1 & Ht1 & HE1 & HI1 & HQ).
  unfold bind. destruct (m s) as [[a|e|] s1]; simpl in *.
  - destruct (Hk a (HQ a eq_refl) s1 HI1) as (d2 & d3 & Ht2 & HE2 & HL).
    exists (d1 ++ d2), d3. rewrite Ht2, Ht1, !app_assoc.
    split; [done|]. split; [by apply Forall_app|done].
  - exists d1, []. rewrite app_nil_r. done.
  - exists d1, []. rewrite app_nil_r. done.
Qed.

Lemma keeps_then_last {A} (m : M A) :
  (∀ s, I s → ∃ d, trace (m s).2 = trace s ++ d ∧ L d) →
  keeps_then I E L m.
Proof.
  intros Hm s HI. destruct (Hm s HI) as (d & Ht & HL).
  exists [], d. simpl. done.
Qed.

Lemma keeps_then_create W resource media auth_ (Qinfo Qtoken : val → Prop) :
  write_stable I →
  keeps I E (auth W auth_) Qinfo →
  (∀ info, Qinfo info → keeps I E (auth W info) Qinfo) →
  (∀ info name, Qinfo info → keeps I E (createFolder W name info) anything) →
  (∀ info, Qinfo info → keeps I E (get info "accessToken") Qtoken) →
  (∀ token created s, Qtoken token → I s →
     ∃ d, trace (upload_steps W token resource media created s).2
            = trace s ++ d ∧ L d) →
  keeps_then I E L (create W resource media auth_).
Proof.
  intros Hstable Hauth Hauth' Hfolder Htoken Hlast.
  pose proof (write_alloc_stable Hstable) as Ha.
  unfold create.
  eapply keeps_then_bind; [apply keeps_get|]; intros mt _.
  eapply keeps_then_bind; [apply keeps_get_this|]; intros i _.
  eapply (keeps_then_bind _ _ anything).
  { destruct (_ && _); [by apply keeps_set|by apply keeps_ret]. }
  intros _ _.
  eapply keeps_then_bind; [apply Hauth|]; intros info Hinfo.
  eapply keeps_then_bind; [by apply Htoken|]; intros token Htok.
  eapply keeps_then_bind; [apply keeps_get|]; intros parents _.
  eapply (keeps_then_bind _ _ anything).
  { destruct (truthy parents); [apply keeps_get|by apply keeps_ret]. }
  intros len _.
  eapply (keeps_then_bind _ _ anything).
  { destruct (truthy len); [|by apply keeps_ret].
    keeps_step; [keeps_step|].
    keeps_step.
    { eapply keeps_createParents; [done|by apply Hauth'|done]. }
    keeps_step; [repeat keeps_step|].
    keeps_step; [|keeps_step].
    keeps_step; [by apply keeps_delete_field|].
    keeps_step; [keeps_step|].
    keeps_step; [repeat keeps_step|].
    keeps_step; [keeps_step|]. by apply keeps_set. }
  intros created _.
  apply keeps_then_last. intros s HI. by apply Hlast.
Qed.

End Then.
Lemma drain_chunks r : drain r = Buffer_concat (chunks r).
Proof.
  unfold drain. f_equal.
  assert (H : ∀ (l acc : list string), foldl (λ body chunk, body ++ [chunk]) acc l = acc ++ l).
  { induction l as [|x l IH]; intros acc; simpl; [by rewrite app_nil_r|].
    rewrite IH, <- app_assoc. done. }
  apply (H _ []).
Qed.

Lemma _initializeSession_run W token meta fileId s body r :
  (if truthy meta then JSON_stringify meta else ret VUndef) s = (Ret body, s) →
  net W (trace s ++ [NetRequest (session_request token fileId body)])
    = OnResponse r →
  _initializeSession W token meta fileId s =
    (session_response r,
     State (heap s) (this s)
       (trace s ++ [NetRequest (session_request token fileId body)])).
Proof.
  intros Hbody Hnet. unfold _initializeSession.
  rewrite (bind_Ret _ _ _ _ _ Hbody).
  unfold net_request, bind, emit. simpl. by rewrite Hnet.
Qed.

(** C1. The answer to the session-initialization request decides the
    outcome of [_initializeSession], for every response: a status of 400 or
    more fails with the fixed prefix followed by the whole drained body;
    below 400, a [Location] header that is a list gives its first element
    ([undefined] when the list is empty) and one that is a string gives
    that string, unless it is empty; below 400 with an empty [Location] or
    without the header the call fails with the fixed message. *)
Theorem session_initialization_response W token meta fileId s body r :
  (if truthy meta then JSON_stringify meta else ret VUndef) s = (Ret body, s) →
  net W (trace s ++ [NetRequest (session_request token fileId body)])
    = OnResponse r →
  let out := (_initializeSession W token meta fileId s).1 in
  (400 ≤ statusCode r →
     out = Throw (ErrorObj (init_failed_reason ++ Buffer_concat (chunks r))%string)) ∧
  (statusCode r < 400 → ∀ u rest, location r = HMany (u :: rest) →
     out = Ret (VStr u)) ∧
  (statusCode r < 400 → location r = HMany [] → out = Ret VUndef) ∧
  (statusCode r < 400 → ∀ u, location r = HOne u → u ≠ ""%string →
     out = Ret (VStr u)) ∧
  (statusCode r < 400 → location r = HOne ""%string →
     out = Throw (ErrorObj init_failed)) ∧
  (statusCode r < 400 → location r = HAbsent →
     out = Throw (ErrorObj init_failed)).
Proof.
  intros Hbody Hnet out. subst out.
  rewrite (_initializeSession_run _ _ _ _ _ _ _ Hbody Hnet). simpl.
  unfold session_response. rewrite drain_chunks.
  repeat split.
  - intros H. by rewrite (proj2 (Z.leb_le _ _) H).
  - intros H u rest Hl. rewrite (proj2 (Z.leb_gt _ _) H), Hl. done.
  - intros H Hl. rewrite (proj2 (Z.leb_gt _ _) H), Hl. done.
  - intros H u Hl Hu. rewrite (proj2 (Z.leb_gt _ _) H), Hl. simpl.
    destruct (String.eqb u "") eqn:E; [by apply String.eqb_eq in E|done].
  - intros H Hl. rewrite (proj2 (Z.leb_gt _ _) H), Hl. done.
  - intros H Hl. rewrite (proj2 (Z.leb_gt _ _) H), Hl. done.
Qed.

Lemma session_initialization_response_witness :
  (_initializeSession quota_world (VStr "t") VUndef VUndef (State ∅ (MkInstance VUndef VUndef VUndef VUndef) [])).1
  = Throw (ErrorObj (init_failed_reason ++ "quota exceeded")%string).
Proof.
  refine (proj1 (session_initialization_response quota_world (VStr "t") VUndef VUndef
            (State ∅ (MkInstance VUndef VUndef VUndef VUndef) []) VUndef
            (Response 403 HAbsent ["quota "; "exceeded"]%string) _ _) _).
  - reflexivity.
  - reflexivity.
  - simpl. lia.
Defined.

(** A [Location] header that is present is not always returned: with the
    status 200 and the header [Location:] empty, the code's [if (result)]
    fails, and the call is rejected with the fixed message instead of
    returning the header's value. *)
Lemma session_empty_location_is_refused :
  location (Response 200 (HOne "") []) = HOne ""%string ∧
  _initializeSession empty_location_world (VStr "t") VUndef VUndef
    (State ∅ blank []) =
  (Throw (ErrorObj init_failed),
   State ∅ blank
     [NetRequest (Request "POST" (Url (upload_url ++ "?uploadType=resumable"))
                    (VStr "t")
                    [("Content-Type", VStr "application/json; charset=UTF-8")]
                    (Some VUndef))]).
Proof. split; reflexivity. Qed.
Lemma walk_defined n h v :
  v ≠ VUndef → (∀ l, v = VRef l → is_Some (h !! l)) → walk (S n) h v ≠ WUndef.
Proof.
  intros Hv Hl. destruct v; simpl; try done.
  destruct (Hl l eq_refl) as [[[vs|] ps] ->].
  - by destruct (walk_items _ _).
  - by destruct (walk_members _ _).
Qed.







Lemma constructor_run s l o :
  heap s !! l = Some o →
  constructor (VRef l) s =
    (Ret tt,
     State (heap s)
       (MkInstance (get_prop (props o) "opts")
          (get_prop (props o) "fileDescription")
          (get_prop (props o) "fileType") VUndef) (trace s)).
Proof.
  intros Hl. unfold constructor. simpl.
  rewrite (bind_Ret _ _ s (VRef l) s) by done.
  rewrite (bind_Ret _ _ _ _ _ (get_ref s l o "opts" Hl eq_refl)).
  rewrite (bind_Ret _ _ _ _ _ (get_ref s l o "fileDescription" Hl eq_refl)).
  rewrite (bind_Ret _ _ _ _ _ (get_ref s l o "fileType" Hl eq_refl)).
  done.
Qed.


(** C3. The constructor reads the default content type from [opts.opts],
    not from [opts.mime]: for every configuration without a property named
    [opts] the instance has no [mime], so that [create] leaves a resource
    without [mimeType] as it is, and the resource sent when the session is
    opened carries none.  The run below is the constructor on the defaults
    of the application followed by a [create]. *)
Theorem mime_default_is_never_applied :
  (∀ s l o, heap s !! l = Some o → has_prop (props o) "opts" = false →
     mime (this (constructor (VRef l) s).2) = VUndef) ∧
  let final :=
    (constructor (VRef 1%positive) ;;
     create drive (VRef 2%positive) (VRef 3%positive) (VRef 4%positive)) c3_start in
  mime (this final.2) = VUndef ∧
  field (heap final.2) (VRef 2%positive) "mimeType" = Some VUndef ∧
  trace final.2 =
    [NetRequest (session_request (VStr "token-1") VUndef
                   (VStr (render (JObj [("name", JStr "export.json")]))));
     NetRequest (Request "PUT" (UrlAt (VStr "https://session.example/1"))
                   (VStr "token-1")
                   [("content-type", VStr "application/json")]
                   (Some (VStr "{}")))].
Proof.
  split.
  - intros s l o Hl Hopts. rewrite (constructor_run _ _ _ Hl). simpl.
    clear Hl. induction (props o) as [|[k v] ps IH]; simpl in *; [done|].
    destruct (String.eqb k "opts"); [done|]. by apply IH.
  - vm_compute. done.
Qed.
Ltac case_world :=
  match goal with
  | |- context [net ?W ?t] => destruct (net W t)
  | |- context [JSON_parse ?W ?t] => destruct (JSON_parse W t)
  | |- context [oauth ?W ?t] => destruct (oauth W t)
  end.




Lemma _initializeSession_effect W token meta fileId s :
  let out := _initializeSession W token meta fileId s in
  heap out.2 = heap s ∧ this out.2 = this s ∧
  ((trace out.2 = trace s ∧ out.1 = Throw TypeError) ∨
   ∃ b, trace out.2 = trace s ++ [NetRequest (session_request token fileId b)]).
Proof.
  unfold _initializeSession, net_request, emit, JSON_stringify, ret, bind.
  destruct (truthy meta); simpl.
  - destruct (stringify (heap s) meta); simpl; eauto; case_world; simpl; eauto.
  - case_world; simpl; eauto.
Qed.

Lemma _upload_effect W token url body mimeType s :
  trace (_upload W token url body mimeType s).2 =
  trace s ++ [NetRequest (Request "PUT" (UrlAt url) token
                            [("content-type", mimeType)] (Some body))].
Proof.
  unfold _upload, net_request, emit, parse, bind. simpl.
  case_world; simpl; [|done].
  match goal with |- context [JSON_parse W ?t] =>
    destruct (JSON_parse W t) as [j|] end; simpl; [|done].
  destruct (from_json_run j
    (State (heap s) (this s) (trace s ++ [NetRequest (Request "PUT" (UrlAt url) token
                            [("content-type", mimeType)] (Some body))])))
    as (v & h & -> & _). done.
Qed.

Lemma set_trace v k x s : trace (set v k x s).2 = trace s.
Proof.
  destruct v; simpl; try done. unfold modify. by destruct (heap s !! l).
Qed.

Lemma get_state v k s : (get v k s).2 = s.
Proof. unfold get. by destruct (field (heap s) v k). Qed.

Lemma upload_steps_trace W token resource media created s :
  ∃ d, trace (upload_steps W token resource media created s).2 = trace s ++ d ∧
       handshake token d.
Proof.
  unfold upload_steps, bind.
  destruct (_initializeSession_effect W token resource VUndef s)
    as (_ & _ & [[Ht Hr]|[b Ht]]).
  - destruct (_initializeSession W token resource VUndef s) as [r s1].
    simpl in *. subst r. exists []. rewrite app_nil_r. split; [done|by left].
  - destruct (_initializeSession W token resource VUndef s) as [[url|e|] s1];
      simpl in *; try (exists [NetRequest (session_request token VUndef b)];
                       split; [done|right; left; eauto]).
    pose proof (get_state media "body" s1) as Hb.
    destruct (get media "body" s1) as [[body|e|] s2]; simpl in Hb; subst s2;
      try (exists [NetRequest (session_request token VUndef b)];
           split; [done|right; left; eauto]).
    pose proof (get_state media "mimeType" s1) as Hm.
    destruct (get media "mimeType" s1) as [[mt|e|] s2]; simpl in Hm; subst s2;
      try (exists [NetRequest (session_request token VUndef b)];
           split; [done|right; left; eauto]).
    pose proof (_upload_effect W token url body mt s1) as Hu.
    assert (Hd : handshake token
      [NetRequest (session_request token VUndef b);
       NetRequest (Request "PUT" (UrlAt url) token [("content-type", mt)] (Some body))])
      by (right; right; eauto 10).
    destruct (_upload W token url body mt s1) as [[result|e|] s2]; simpl in *.
    + destruct (truthy created).
      * pose proof (set_trace result "parents" created s2) as Hs.
        destruct (set result "parents" created s2) as [[[]|e|] s3]; simpl in *;
          eexists; (split; [|exact Hd]); rewrite Hs, Hu, Ht, <- app_assoc; done.
      * simpl. eexists; (split; [|exact Hd]). rewrite Hu, Ht, <- app_assoc; done.
    + eexists; (split; [|exact Hd]). rewrite Hu, Ht, <- app_assoc; done.
    + eexists; (split; [|exact Hd]). rewrite Hu, Ht, <- app_assoc; done.
Qed.

Lemma holds_token_stable a token : write_stable (holds_token a token).
Proof.
  unfold holds_token. split; [|split].
  - intros s h tr H Hsub. simpl. by eapply field_weaken.
  - done.
  - intros s l o o' H Hl Hsame _. unfold field in *. simpl in *.
    destruct (decide (l = a)) as [->|Hne].
    + rewrite lookup_insert_eq. rewrite Hl in H.
      destruct o as [[vs|] ps], o' as [[vs'|] ps']; simpl in *; congruence.
    + by rewrite lookup_insert_ne.
Qed.

Lemma handshake_carries token d : handshake token d → Forall (carries token) d.
Proof.
  intros [->|[[b ->]|(b & u & x & t & ->)]]; repeat constructor.
  - eexists. split; [done|]. unfold session_request. by destruct (truthy VUndef).
  - eexists. split; [done|]. unfold session_request. by destruct (truthy VUndef).
  - by eexists.
Qed.

Section Verbatim.
Variable W : world.
Variables (a : loc) (token : val).
Hypothesis Htoken : truthy token = true.

Lemma auth_with_token s :
  holds_token a token s → auth W (VRef a) s = (Ret (VRef a), s).
Proof.
  intros H. unfold auth. cbn [truthy].
  rewrite (bind_Ret _ _ _ _ _ (get_Ret _ _ _ _ H)). by rewrite Htoken.
Qed.

Lemma keeps_auth_token E :
  keeps (holds_token a token) E (auth W (VRef a)) (λ info, info = VRef a).
Proof.
  intros s HI. rewrite (auth_with_token s HI). exists []. simpl.
  rewrite app_nil_r. repeat split; [done..|]. by intros ? [= <-].
Qed.

Lemma keeps_get_token E :
  keeps (holds_token a token) E (get (VRef a) "accessToken") (λ t, t = token).
Proof.
  intros s HI. rewrite (get_Ret _ _ _ _ HI). exists []. simpl.
  rewrite app_nil_r. repeat split; [done..|]. by intros ? [= <-].
Qed.

Lemma keeps_createFolder_token name :
  keeps (holds_token a token) (carries token)
    (createFolder W name (VRef a)) anything.
Proof.
  pose proof (write_alloc_stable (holds_token_stable a token)) as Ha.
  unfold createFolder.
  eapply keeps_bind; [apply keeps_auth_token|]. intros info ->.
  eapply keeps_bind; [apply keeps_get_token|]. intros t ->.
  apply keeps__createFolder; [done|]. intros e [b ->]. by eexists.
Qed.

Lemma keeps_update_token fileId resource media :
  keeps (holds_token a token) (carries token)
    (update W fileId resource media (VRef a)) anything.
Proof.
  pose proof (holds_token_stable a token) as Hw.
  pose proof (write_alloc_stable Hw) as Ha.
  unfold update.
  keeps_step; [keeps_step|]. keeps_step; [keeps_step|].
  keeps_step. { keeps_step; [by apply keeps_set|keeps_step]. }
  eapply keeps_bind; [apply keeps_auth_token|]. intros info ->.
  eapply keeps_bind; [apply keeps_get_token|]. intros t ->.
  keeps_step.
  { apply keeps__initializeSession; [done|]. intros e [b ->].
    eexists. split; [done|]. unfold session_request. by destruct (truthy fileId). }
  keeps_step; [keeps_step|]. keeps_step; [keeps_step|].
  apply keeps__upload; [done|]. intros e (b & t & ->). by eexists.
Qed.

Lemma create_token resource media s :
  holds_token a token s →
  ∃ d, trace (create W resource media (VRef a) s).2 = trace s ++ d ∧
       Forall (carries token) d.
Proof.
  intros HI.
  destruct (keeps_then_create (I := holds_token a token) (E := carries token)
              (L := Forall (carries token)) ltac:(constructor)
              W resource media (VRef a) (λ info, info = VRef a) (λ t, t = token)
              (holds_token_stable a token)
              (keeps_auth_token _)) with (s := s)
    as (d1 & d2 & Ht & H1 & H2).
  - intros info ->. apply keeps_auth_token.
  - intros info name ->. apply keeps_createFolder_token.
  - intros info ->. apply keeps_get_token.
  - intros t created s0 -> _.
    destruct (upload_steps_trace W token resource media created s0) as (d & ? & ?).
    exists d. split; [done|]. by apply handshake_carries.
  - done.
  - exists (d1 ++ d2). split; [done|]. by apply Forall_app.
Qed.
End Verbatim.

Lemma ask_oauth_trace W e s : trace (ask_oauth W e s).2 = trace s ++ [e].
Proof.
  unfold ask_oauth, emit, bind. simpl. case_world; simpl; [|done].
  destruct info as [j|]; [|done].
  match goal with |- context [from_json j ?s0] =>
    destruct (from_json_run j s0) as (v & h & -> & _) end. done.
Qed.

(** C4. With a truthy [auth.accessToken], [auth] returns its argument
    without any effect, and every effect of [create], [update] and
    [createFolder] is an HTTP request that carries that very token.  A
    truthy [auth] without a token starts [launchWebAuthFlow] with that
    configuration.  Without [auth], the token is requested with
    [getAuthToken({interactive: true})]. *)
Theorem authorization_delegation W (auth_ : val) (s : state) :
  (∀ token, field (heap s) auth_ "accessToken" = Some token →
     truthy token = true →
     auth W auth_ s = (Ret auth_, s) ∧
     ∀ resource media fileId name m,
       m ∈ [create W resource media auth_;
            update W fileId resource media auth_;
            createFolder W name auth_] →
       ∃ d, trace (m s).2 = trace s ++ d ∧ Forall (carries token) d) ∧
  (truthy auth_ = true →
     ∀ token, field (heap s) auth_ "accessToken" = Some token →
     truthy token = false →
     trace (auth W auth_ s).2 = trace s ++ [LaunchWebAuthFlow auth_]) ∧
  (truthy auth_ = false →
     trace (auth W auth_ s).2 = trace s ++ [GetAuthToken (VBool true)]).
Proof.
  split; [|split].
  - intros token Hf Ht.
    assert (∃ a, auth_ = VRef a) as [a ->].
    { destruct auth_; unfold field in Hf; simpl in Hf; simplify_eq; try done; eauto. }
    split; [by apply (auth_with_token W a token)|].
    intros resource media fileId name m Hm.
    apply elem_of_cons in Hm as [->|Hm]; [by apply create_token|].
    apply elem_of_cons in Hm as [->|Hm].
    { destruct (keeps_update_token W a token Ht fileId resource media s Hf)
        as (d & ? & ? & _). eauto. }
    apply list_elem_of_singleton in Hm as ->.
    destruct (keeps_createFolder_token W a token Ht name s Hf)
      as (d & ? & ? & _). eauto.
  - intros Ha token Hf Ht. unfold auth. rewrite Ha.
    rewrite (bind_Ret _ _ _ _ _ (get_Ret _ _ _ _ Hf)). rewrite Ht.
    apply ask_oauth_trace.
  - intros Ha. unfold auth. rewrite Ha. apply ask_oauth_trace.
Qed.

(** The default token request is interactive, not silent. *)
Lemma default_token_request_is_interactive :
  trace (auth drive VUndef (State ∅ blank [])).2 = [GetAuthToken (VBool true)] ∧
  ¬ (∀ W s, trace (auth W VUndef s).2
            = trace s ++ [GetAuthToken (VBool false)]).
Proof.
  split; [reflexivity|]. intros H.
  specialize (H drive (State ∅ blank [])). vm_compute in H. discriminate.
Qed.



Lemma push_run s r acc ps x :
  heap s !! r = Some (Obj (Some acc) ps) →
  push (VRef r) x s =
    (Ret tt, State (<[r := Obj (Some (acc ++ [x])) ps]> (heap s)) (this s) (trace s)).
Proof.
  intros Hr. unfold push, elements, bind, items_of. rewrite Hr. simpl.
  unfold modify. by rewrite Hr.
Qed.

Lemma shift_run s r x rest ps :
  heap s !! r = Some (Obj (Some (x :: rest)) ps) →
  shift (VRef r) s =
    (Ret x, State (<[r := Obj (Some rest) ps]> (heap s)) (this s) (trace s)).
Proof.
  intros Hr. unfold shift, elements, bind, items_of. rewrite Hr. simpl.
  unfold modify. by rewrite Hr.
Qed.

Lemma shift_empty s r ps :
  heap s !! r = Some (Obj (Some []) ps) → shift (VRef r) s = (Ret VUndef, s).
Proof.
  intros Hr. unfold shift, elements, bind, items_of. by rewrite Hr.
Qed.

Lemma readable_field h v k : readable h v → is_Some (field h v k).
Proof.
  intros (Hu & Hn & Hl). unfold field. destruct v; try done; eauto.
  destruct (Hl l eq_refl) as [[[vs|] ps] ->]; eauto.
Qed.

Lemma field_frame h h' v k :
  (∀ l o, v = VRef l → h !! l = Some o → h' !! l = Some o) →
  readable h v → field h' v k = field h v k.
Proof.
  intros Hf (_ & _ & Hl). unfold field. destruct v; try done.
  destruct (Hl l eq_refl) as [o Ho]. by rewrite Ho, (Hf l o eq_refl Ho).
Qed.

Lemma stays_frame h h' v :
  (∀ l o, v = VRef l → h !! l = Some o → h' !! l = Some o) →
  readable h v → stays h' v = stays h v.
Proof.
  intros Hf Hr. unfold stays. by rewrite !(field_frame h h' v _ Hf Hr).
Qed.

Lemma normalize_loop vs : ∀ s r acc,
  heap s !! r = Some (array acc) →
  Forall (λ v, readable (heap s) v ∧ v ≠ VRef r) vs →
  ∃ out h',
    for_each vs (λ item,
      match item with
      | VStr s =>
          if String.eqb (toLowerCase s) "my drive" then
            let! root := alloc (plain [("id", VStr "root")]) in
            push (VRef r) root
          else
            let! named := alloc (plain [("name", item)]) in
            push (VRef r) named
      | _ =>
          let! name := get item "name" in
          let! id := get item "id" in
          if negb (truthy name) && negb (truthy id) then ret tt
          else push (VRef r) item
      end) s = (Ret tt, State h' (this s) (trace s)) ∧
    h' !! r = Some (array (acc ++ out)) ∧
    (∀ l o, l ≠ r → heap s !! l = Some o → h' !! l = Some o) ∧
    Forall2 (written (heap s) h') (List.filter (stays (heap s)) vs) out.
Proof.
  induction vs as [|v vs IH]; intros s r acc Hr Hvs.
  - exists [], (heap s). simpl. rewrite app_nil_r, state_eta.
    repeat split; [done..|constructor].
  - apply Forall_cons in Hvs as [[Hv Hvr] Hvs].
    (* one entry, then the rest *)
    assert (Hstep : ∀ s1 this_out,
      heap s1 !! r = Some (array (acc ++ this_out)) →
      this s1 = this s → trace s1 = trace s →
      (∀ l o, l ≠ r → heap s !! l = Some o → heap s1 !! l = Some o) →
      Forall2 (written (heap s) (heap s1))
        (if stays (heap s) v then [v] else []) this_out →
      (∀ l, written (heap s) (heap s1) v (VRef l) → is_string v = true → l ≠ r) →
      ∃ out h',
        for_each vs (λ item,
          match item with
          | VStr s =>
              if String.eqb (toLowerCase s) "my drive" then
                let! root := alloc (plain [("id", VStr "root")]) in
                push (VRef r) root
              else
                let! named := alloc (plain [("name", item)]) in
                push (VRef r) named
          | _ =>
              let! name := get item "name" in
              let! id := get item "id" in
              if negb (truthy name) && negb (truthy id) then ret tt
              else push (VRef r) item
          end) s1 = (Ret tt, State h' (this s) (trace s)) ∧
        h' !! r = Some (array (acc ++ out)) ∧
        (∀ l o, l ≠ r → heap s !! l = Some o → h' !! l = Some o) ∧
        Forall2 (written (heap s) h') (List.filter (stays (heap s)) (v :: vs)) out).
    { intros s1 this_out Hr1 Hthis Htrace Hframe Hout Hfresh.
      destruct (IH s1 r (acc ++ this_out) Hr1) as (out & h' & Hrun & Hr' & Hframe' & Hw).
      { eapply Forall_impl; [exact Hvs|]. intros x [(Hu & Hn & Hl) Hxr].
        split; [|done]. split; [done|]. split; [done|].
        intros l ->. destruct (Hl l eq_refl) as [o Ho]. exists o.
        apply Hframe; [congruence|done]. }
      exists (this_out ++ out), h'. rewrite Hrun, Hthis, Htrace.
      split; [done|]. split; [by rewrite app_assoc|].
      split; [intros l o Hne Hl; by apply Hframe', Hframe|].
      simpl. 
      assert (Hsame : List.filter (stays (heap s1)) vs = List.filter (stays (heap s)) vs).
      { clear -Hvs Hframe. induction vs as [|x vs IHvs]; simpl; [done|].
        apply Forall_cons in Hvs as [[Hx Hxr] Hvs].
        rewrite (stays_frame (heap s) (heap s1) x); [by rewrite IHvs|..|done].
        intros l o -> Hl. apply Hframe; [congruence|done]. }
      rewrite Hsame in Hw.
      assert (Hw' : Forall2 (written (heap s) h') (List.filter (stays (heap s)) vs) out).
      { eapply Forall2_impl; [exact Hw|]. intros x o. unfold written.
        destruct x; try done. intros (l & -> & Hl1 & Hl').
        exists l. repeat split; [|done].
        destruct (heap s !! l) as [o|] eqn:Ho; [|done].
        destruct (decide (l = r)) as [->|Hne]; [by rewrite Hr1 in Hl1|].
        by rewrite (Hframe l o Hne Ho) in Hl1. }
      destruct (stays (heap s) v) eqn:Hstay.
      - apply Forall2_cons_inv_l in Hout as (o & rest & Ho & Hrest & ->).
        apply Forall2_nil_inv_l in Hrest as ->. simpl.
        constructor; [|done].
        unfold written in *. destruct v; try done.
        destruct Ho as (l & -> & Hl & Hl1). exists l. repeat split; [done|].
        apply Hframe'; [|done]. by apply (Hfresh l); [exists l|].
      - apply Forall2_nil_inv_l in Hout as ->. done. }
    destruct v as [| |b|n|str|l]; try (by destruct Hv as (? & ? & ?)).
    + (* boolean *)
      simpl. unfold bind at 1. simpl.
      apply (Hstep s []); rewrite ?app_nil_r, ?state_eta; try done.
    + (* number *)
      simpl. unfold bind at 1. simpl.
      apply (Hstep s []); rewrite ?app_nil_r, ?state_eta; try done.
    + (* string *)
      simpl for_each.
      set (new := fresh (dom (heap s))).
      assert (Hnew : heap s !! new = None) by apply fresh_None.
      assert (Hnr : new ≠ r) by (intros ->; by rewrite Hr in Hnew).
      destruct (String.eqb (toLowerCase str) "my drive") eqn:Hroot.
      * unfold bind at 1. unfold bind at 1. rewrite alloc_Ret. fold new.
        erewrite push_run by (simpl; rewrite lookup_insert_ne by done; exact Hr).
        simpl. eapply (Hstep _ [VRef new]); simpl.
        -- by rewrite lookup_insert_eq.
        -- done.
        -- done.
        -- intros l o Hne Hl. rewrite lookup_insert_ne by done.
           rewrite lookup_insert_ne; [done|]. intros ->. by rewrite Hnew in Hl.
        -- constructor; [|constructor]. exists new. rewrite Hroot.
           repeat split; [done|]. rewrite lookup_insert_ne by done.
           by rewrite lookup_insert_eq.
        -- intros l (l' & [= ->] & Hl & _) _. intros ->. by rewrite Hr in Hl.
      * unfold bind at 1. unfold bind at 1. rewrite alloc_Ret. fold new.
        erewrite push_run by (simpl; rewrite lookup_insert_ne by done; exact Hr).
        simpl. eapply (Hstep _ [VRef new]); simpl.
        -- by rewrite lookup_insert_eq.
        -- done.
        -- done.
        -- intros l o Hne Hl. rewrite lookup_insert_ne by done.
           rewrite lookup_insert_ne; [done|]. intros ->. by rewrite Hnew in Hl.
        -- constructor; [|constructor]. exists new. rewrite Hroot.
           repeat split; [done|]. rewrite lookup_insert_ne by done.
           by rewrite lookup_insert_eq.
        -- intros l (l' & [= ->] & Hl & _) _. intros ->. by rewrite Hr in Hl.
    + (* object *)
      simpl for_each.
      destruct (readable_field (heap s) (VRef l) "name" Hv) as [name Hname].
      destruct (readable_field (heap s) (VRef l) "id" Hv) as [id Hid].
      unfold bind at 1. unfold bind at 1.
      rewrite (get_Ret _ _ _ _ Hname). unfold bind at 1.
      rewrite (get_Ret _ _ _ _ Hid).
      assert (Hst : stays (heap s) (VRef l) = truthy name || truthy id)
        by (unfold stays; by rewrite Hname, Hid).
      destruct (truthy name) eqn:Hn1; simpl.
      * rewrite (push_run _ _ _ _ _ Hr).
        eapply (Hstep _ [VRef l]); cbn [heap this trace].
        -- by rewrite lookup_insert_eq.
        -- done.
        -- done.
        -- intros l' o Hne Hl. by rewrite lookup_insert_ne.
        -- rewrite Hst. cbn [orb]. constructor; [done|constructor].
        -- done.
      * destruct (truthy id) eqn:Hi1; simpl.
        -- rewrite (push_run _ _ _ _ _ Hr).
           eapply (Hstep _ [VRef l]); cbn [heap this trace].
           ++ by rewrite lookup_insert_eq.
           ++ done.
           ++ done.
           ++ intros l' o Hne Hl. by rewrite lookup_insert_ne.
           ++ rewrite Hst. cbn [orb]. constructor; [done|constructor].
           ++ done.
        -- apply (Hstep s []); rewrite ?app_nil_r, ?state_eta; try done.
           rewrite Hst. constructor.
Qed.

Lemma filter_stays_frame h h' vs :
  (∀ l o, h !! l = Some o → h' !! l = Some o) →
  Forall (readable h) vs →
  List.filter (stays h') vs = List.filter (stays h) vs.
Proof.
  intros Hsub Hvs. induction vs as [|x vs IHvs]; simpl; [done|].
  apply Forall_cons in Hvs as [Hx Hvs].
  rewrite (stays_frame h h' x); [by rewrite IHvs| |done].
  intros l o _ Hl. by apply Hsub.
Qed.

Lemma normalizeParents_run s pa vs :
  items_of (heap s) (VRef pa) = Some vs →
  Forall (readable (heap s)) vs →
  ∃ r out h',
    _normalizeParents (VRef pa) s = (Ret (VRef r), State h' (this s) (trace s)) ∧
    heap s !! r = None ∧
    h' !! r = Some (array out) ∧
    (∀ l o, heap s !! l = Some o → h' !! l = Some o) ∧
    Forall2 (written (heap s) h') (List.filter (stays (heap s)) vs) out.
Proof.
  intros Hpa Hvs. unfold _normalizeParents.
  set (r := fresh (dom (heap s))).
  assert (Hr : heap s !! r = None) by apply fresh_None.
  unfold bind at 1. rewrite alloc_Ret. fold r.
  set (s1 := State (<[r := array []]> (heap s)) (this s) (trace s)).
  assert (Hsub : ∀ l o, heap s !! l = Some o → heap s1 !! l = Some o).
  { intros l o Hl. simpl. rewrite lookup_insert_ne; [done|].
    intros <-. by rewrite Hr in Hl. }
  assert (Hel : elements (VRef pa) s1 = (Ret vs, s1)).
  { unfold elements. erewrite items_of_weaken; [done| |exact Hpa].
    simpl. by apply insert_subseteq. }
  rewrite (bind_Ret _ _ _ _ _ Hel).
  destruct (normalize_loop vs s1 r []) as (out & h' & Hrun & Hr' & Hframe & Hw).
  { simpl. by rewrite lookup_insert_eq. }
  { eapply Forall_impl; [exact Hvs|]. intros v (Hu & Hn & Hl).
    split; [split; [done|split; [done|]]|].
    - intros l ->. destruct (Hl l eq_refl) as [o Ho]. exists o. by apply Hsub.
    - intros ->. destruct (Hl r eq_refl) as [o Ho]. by rewrite Hr in Ho. }
  rewrite (bind_Ret _ _ _ _ _ Hrun). simpl.
  exists r, out, h'. split; [done|]. split; [done|]. split; [done|].
  assert (Hall : ∀ l o, heap s !! l = Some o → h' !! l = Some o).
  { intros l o Hl. apply Hframe; [|by apply Hsub].
    intros ->. by rewrite Hr in Hl. }
  split; [done|].
  rewrite (filter_stays_frame (heap s) (heap s1) vs Hsub Hvs) in Hw.
  eapply Forall2_impl; [exact Hw|]. intros x o. unfold written.
  destruct x; try done. intros (l & -> & Hl1 & Hl').
  exists l. repeat split; [|done].
  destruct (heap s !! l) as [o|] eqn:Ho; [|done].
  by rewrite (Hsub l o Ho) in Hl1.
Qed.


(** [_normalizeParents] does not skip the empty string: it is a string, and
    becomes an object named by it. *)
Lemma normalizeParents_keeps_empty_string :
  ¬ (∀ s parents result s' vs out,
       items_of (heap s) parents = Some vs →
       _normalizeParents parents s = (Ret result, s') →
       items_of (heap s') result = Some out →
       (length out ≤ length (List.filter truthy vs))%nat).
Proof.
  intros H.
  specialize (H (State {[1%positive := array [VStr ""]]} blank [])
                (VRef 1%positive) (VRef 2%positive)
                (State (<[2%positive := array [VRef 3%positive]]>
                       (<[3%positive := plain [("name", VStr "")]]>
                          {[1%positive := array [VStr ""]]})) blank [])
                [VStr ""] [VRef 3%positive]).
  vm_compute in H. specialize (H eq_refl eq_refl eq_refl).
  inversion H.
Qed.

(** C5. On a list whose entries can be read, [_normalizeParents] returns a
    new list with, in the order of the input, one element for each entry
    that stays: a string becomes a new object, [{id: "root"}] when it is
    [my drive] in any case and [{name: string}] otherwise, and any other
    entry is the entry itself.  Every string stays, the empty one as well;
    numbers and booleans are dropped; an object stays when its [name] or
    its [id] is truthy.  The list [My Drive], [Projects] gives
    [{id: "root"}], [{name: "Projects"}]. *)
Theorem normalizeParents_result :
  (∀ s pa vs,
     items_of (heap s) (VRef pa) = Some vs →
     Forall (readable (heap s)) vs →
     ∃ r out h',
       _normalizeParents (VRef pa) s
         = (Ret (VRef r), State h' (this s) (trace s)) ∧
       heap s !! r = None ∧ h' !! r = Some (array out) ∧ heap s ⊆ h' ∧
       Forall2 (written (heap s) h') (List.filter (stays (heap s)) vs) out) ∧
  (∀ h text, stays h (VStr text) = true) ∧
  (∀ h n b, stays h (VNum n) = false ∧ stays h (VBool b) = false) ∧
  (∀ h l es ps, h !! l = Some (Obj es ps) →
     stays h (VRef l) = truthy (get_prop ps "name") || truthy (get_prop ps "id")) ∧
  _normalizeParents (VRef 1%positive) my_drive_projects =
    (Ret (VRef 2%positive),
     State (<[2%positive := array [VRef 3%positive; VRef 4%positive]]>
           (<[3%positive := plain [("id", VStr "root")]]>
           (<[4%positive := plain [("name", VStr "Projects")]]>
              (heap my_drive_projects)))) blank []).
Proof.
  split; [|split; [|split; [|split]]].
  - intros s pa vs Hpa Hvs.
    destruct (normalizeParents_run s pa vs Hpa Hvs)
      as (r & out & h' & Hrun & Hr & Hr' & Hsub & Hw).
    exists r, out, h'. repeat split; try done.
    apply map_subseteq_spec. exact Hsub.
  - done.
  - done.
  - intros h l es ps Hl. unfold stays, field. rewrite Hl. by destruct es.
  - vm_compute. reflexivity.
Qed.

Lemma field_insert_elems h l e e' ps v k :
  h !! l = Some (Obj e ps) → String.eqb k "length" = false →
  field (<[l := Obj e' ps]> h) v k = field h v k.
Proof.
  intros Hl Hk. unfold field. destruct v; try done.
  destruct (decide (l0 = l)) as [->|Hne].
  - rewrite lookup_insert_eq, Hl. destruct e, e'; by rewrite ?Hk.
  - by rewrite lookup_insert_ne.
Qed.

Lemma has_id_ref h v : has_id h v → ∃ l, v = VRef l ∧ is_Some (h !! l).
Proof.
  intros (id & Hf & Ht). unfold field in Hf. destruct v; simplify_eq; try done.
  exists l. split; [done|]. by destruct (h !! l).
Qed.

Lemma has_id_readable h v : has_id h v → readable h v.
Proof.
  intros H. destruct (has_id_ref h v H) as (l & -> & Hl).
  repeat split; try done. by intros ? [= <-].
Qed.

Lemma has_id_stays h v : has_id h v → stays h v = true.
Proof.
  intros H. destruct (has_id_ref h v H) as (l & -> & Hl).
  destruct H as (id & Hid & Ht). unfold stays. rewrite Hid.
  destruct (readable_field h (VRef l) "name") as [name ->].
  { repeat split; try done. by intros ? [= <-]. }
  rewrite Ht. apply orb_true_r.
Qed.

Lemma has_id_weaken h h' v :
  (∀ l o, h !! l = Some o → h' !! l = Some o) → has_id h v → has_id h' v.
Proof.
  intros Hsub (id & Hf & Ht). exists id. split; [|done].
  eapply field_weaken; [|done]. by apply map_subseteq_spec.
Qed.

Lemma createParents_loop_ids W info vs : ∀ s pa ra acc pps rps n,
  pa ≠ ra →
  heap s !! pa = Some (Obj (Some vs) pps) →
  heap s !! ra = Some (Obj (Some acc) rps) →
  Forall (has_id (heap s)) vs →
  (length vs < n)%nat →
  _createParents W n (VRef pa) info (VRef ra) s =
    (Ret (VRef ra),
     State (<[ra := Obj (Some (acc ++ vs)) rps]>
              (<[pa := Obj (Some []) pps]> (heap s))) (this s) (trace s)).
Proof.
  induction vs as [|v vs IH]; intros s pa ra acc pps rps n Hne Hpa Hra Hvs Hn.
  - destruct n as [|n]; [simpl in Hn; lia|]. simpl.
    rewrite (bind_Ret _ _ _ _ _ (shift_empty _ _ _ Hpa)). simpl.
    unfold ret. f_equal. rewrite app_nil_r. destruct s as [h i t]. simpl in *.
    f_equal. rewrite (insert_id h pa) by done. by rewrite insert_id.
  - destruct n as [|n]; [simpl in Hn; lia|]. simpl in Hn.
    apply Forall_cons in Hvs as [Hv Hvs].
    destruct (has_id_ref _ _ Hv) as (l & -> & _).
    destruct Hv as (id & Hid & Htid).
    simpl. rewrite (bind_Ret _ _ _ _ _ (shift_run _ _ _ _ _ Hpa)).
    cbn [truthy negb].
    set (s1 := State (<[pa := Obj (Some vs) pps]> (heap s)) (this s) (trace s)).
    assert (Hid1 : field (heap s1) (VRef l) "id" = Some id).
    { simpl. by rewrite (field_insert_elems _ _ _ _ _ _ _ Hpa). }
    rewrite (bind_Ret _ _ _ _ _ (get_Ret _ _ _ _ Hid1)). rewrite Htid.
    assert (Hra1 : heap s1 !! ra = Some (Obj (Some acc) rps)).
    { simpl. by rewrite lookup_insert_ne. }
    rewrite (bind_Ret _ _ _ _ _ (push_run _ _ _ _ _ Hra1)).
    rewrite (IH _ pa ra (acc ++ [VRef l]) pps rps n); simpl; try done.
    + f_equal. rewrite <- app_assoc. simpl. f_equal.
      apply map_eq. intros k.
      destruct (decide (k = ra)) as [->|Hkr]; [by rewrite !lookup_insert_eq|].
      rewrite !(lookup_insert_ne _ ra) by done.
      destruct (decide (k = pa)) as [->|Hkp]; [by rewrite !lookup_insert_eq|].
      by rewrite !lookup_insert_ne.
    + rewrite lookup_insert_ne by done. by rewrite lookup_insert_eq.
    + by rewrite lookup_insert_eq.
    + eapply Forall_impl; [exact Hvs|]. intros x (i & Hi & Hti).
      exists i. split; [|done].
      erewrite field_insert_elems; [|exact Hra1|done].
      simpl. by rewrite (field_insert_elems _ _ _ _ _ _ _ Hpa).
    + lia.
Qed.

Lemma filter_all {A} (f : A → bool) l :
  Forall (λ x, f x = true) l → List.filter f l = l.
Proof.
  induction 1 as [|x l Hx _ IH]; simpl; [done|]. by rewrite Hx, IH.
Qed.

Lemma written_ids h h' vs out :
  Forall (has_id h) vs → Forall2 (written h h') vs out → out = vs.
Proof.
  intros Hvs Hw. induction Hw as [|v o vs out Hvo _ IH]; [done|].
  apply Forall_cons in Hvs as [Hv Hvs]. rewrite (IH Hvs). f_equal.
  destruct (has_id_ref _ _ Hv) as (l & -> & _). exact Hvo.
Qed.

(** [auth] only adds cells and only talks to the identity provider. *)
Lemma auth_grows W x s :
  let out := auth W x s in
  (∃ d, trace out.2 = trace s ++ d ∧ Forall is_oauth d) ∧
  heap s ⊆ heap out.2 ∧ this out.2 = this s.
Proof.
  destruct (keeps_auth W (I := λ s', heap s ⊆ heap s' ∧ this s' = this s)
              (E := is_oauth)) with (x := x) (s := s)
    as (d & Ht & Hd & [Hh Hi] & _); try done.
  - intros s' h tr [Hsub Hthis] Hh. simpl. split; [by etrans|done].
  - simpl. eauto.
Qed.

Lemma length_truthy {A} (vs : list A) :
  truthy (VNum (Z.of_nat (length vs))) = negb (bool_decide (vs = [])).
Proof. by destruct vs. Qed.

Lemma createParents_with_ids W s pa pps vs auth_ :
  heap s !! pa = Some (Obj (Some vs) pps) →
  Forall (has_id (heap s)) vs →
  let out := createParents W (VRef pa) auth_ s in
  (∃ d, trace out.2 = trace s ++ d ∧ Forall is_oauth d) ∧
  heap s ⊆ heap out.2 ∧ this out.2 = this s ∧
  (∀ result, out.1 = Ret result →
     ∃ r, result = VRef r ∧ heap s !! r = None ∧
          heap out.2 !! r = Some (array vs)) ∧
  (vs ≠ [] → ∀ token,
     field (heap s) auth_ "accessToken" = Some token → truthy token = true →
     trace out.2 = trace s ∧ ∃ r, out.1 = Ret (VRef r)).
Proof.
  intros Hpa Hvs out. subst out.
  remember (createParents W (VRef pa) auth_ s) as out eqn:Hout.
  unfold createParents in Hout. cbn [truthy] in Hout.
  assert (Hlen : field (heap s) (VRef pa) "length"
                 = Some (VNum (Z.of_nat (length vs))))
    by (unfold field; by rewrite Hpa).
  rewrite (bind_Ret _ _ _ _ _ (get_Ret _ _ _ _ Hlen)) in Hout.
  cbn [negb orb] in Hout.
  rewrite length_truthy, negb_involutive in Hout.
  destruct (bool_decide (vs = [])) eqn:Hnil.
  { apply bool_decide_eq_true in Hnil. subst out. simpl.
    split; [exists []; by rewrite app_nil_r|]. repeat split; done. }
  apply bool_decide_eq_false in Hnil.
  destruct (normalizeParents_run s pa vs)
    as (r1 & items & h1 & Hrun & Hr1 & Hr1' & Hsub1 & Hw).
  { unfold items_of. by rewrite Hpa. }
  { eapply Forall_impl; [exact Hvs|]. apply has_id_readable. }
  rewrite filter_all in Hw
    by (eapply Forall_impl; [exact Hvs|]; apply has_id_stays).
  apply (written_ids _ _ _ _ Hvs) in Hw as ->.
  rewrite (bind_Ret _ _ _ _ _ Hrun) in Hout.
  set (s1 := State h1 (this s) (trace s)) in *.
  assert (Hlen1 : field (heap s1) (VRef r1) "length"
                  = Some (VNum (Z.of_nat (length vs))))
    by (unfold field; simpl; by rewrite Hr1').
  rewrite (bind_Ret _ _ _ _ _ (get_Ret _ _ _ _ Hlen1)) in Hout.
  rewrite length_truthy, negb_involutive, (bool_decide_eq_false_2 _ Hnil)
    in Hout.
  assert (Hsub : heap s ⊆ h1) by (by apply map_subseteq_spec).
  destruct (auth_grows W auth_ s1) as ((d & Htr & Hd) & Hsub2 & Hthis2).
  change (trace s1) with (trace s) in Htr.
  change (heap s1) with h1 in Hsub2.
  change (this s1) with (this s) in Hthis2.
  assert (Htok : ∀ token, field (heap s) auth_ "accessToken" = Some token →
            truthy token = true → auth W auth_ s1 = (Ret auth_, s1)).
  { intros token Hf Ht. destruct auth_; try (unfold field in Hf; by simplify_eq).
    apply (auth_with_token W l token Ht). unfold holds_token.
    by eapply field_weaken. }
  destruct (auth W auth_ s1) as [[info|e|] s2] eqn:Hauth; cbn [fst snd] in *;
    [rewrite (bind_Ret _ _ _ _ _ Hauth) in Hout
    |rewrite (bind_Throw _ _ _ _ _ Hauth) in Hout
    |rewrite (bind_Hang _ _ _ _ Hauth) in Hout].
  2,3: (subst out; cbn [fst snd]; split; [by eauto|]; split; [by etrans|];
        split; [done|]; split; [done|]; intros _ token Hf Ht;
        by specialize (Htok token Hf Ht)).
  unfold bind at 1 in Hout. rewrite alloc_Ret in Hout.
  set (r2 := fresh (dom (heap s2))) in *.
  assert (Hr2 : heap s2 !! r2 = None) by apply fresh_None.
  assert (Hr12 : heap s2 !! r1 = Some (array vs))
    by (eapply lookup_weaken; [exact Hr1'|done]).
  assert (Hne : r1 ≠ r2) by (intros E; rewrite E in Hr12; congruence).
  assert (Hold : ∀ l o, heap s !! l = Some o → heap s2 !! l = Some o).
  { intros l o Hl. eapply lookup_weaken; [|exact Hsub2]. by apply Hsub1. }
  assert (Hcalls : calls_needed (<[r2 := array []]> (heap s2)) (VRef r1)
                   = S (length vs)).
  { unfold calls_needed, items_of. rewrite lookup_insert_ne by done.
    by rewrite Hr12. }
  cbv beta in Hout. cbn [heap] in Hout. rewrite Hcalls in Hout.
  rewrite (createParents_loop_ids W info vs _ r1 r2 [] [] []) in Hout;
    cbn [heap this trace app]; [| done | | | | lia].
  - subst out. cbn [heap this trace fst snd app].
    split; [by eauto|]. split; [|split; [done|split]].
    + apply map_subseteq_spec. intros l o Hl.
      assert (l ≠ r2) by (intros ->; apply Hold in Hl; congruence).
      assert (l ≠ r1) by (intros ->; congruence).
      rewrite !lookup_insert_ne by done. by apply Hold.
    + intros result [= <-]. exists r2. split; [done|]. split.
      * destruct (heap s !! r2) as [o|] eqn:Ho; [|done].
        apply Hold in Ho. congruence.
      * by rewrite lookup_insert_eq.
    + intros _ token Hf Ht. specialize (Htok token Hf Ht).
      simplify_eq. eauto.
  - rewrite lookup_insert_ne by done. exact Hr12.
  - by rewrite lookup_insert_eq.
  - eapply Forall_impl; [exact Hvs|]. intros x Hx.
    eapply has_id_weaken; [|exact Hx]. intros l o Hl.
    rewrite lookup_insert_ne; [by apply Hold|].
    intros <-. apply Hold in Hl. congruence.
Qed.


Lemma repeated_createParents W s pa pps vs auth_ n :
  heap s !! pa = Some (Obj (Some vs) pps) →
  Forall (has_id (heap s)) vs →
  let s' := Nat.iter n (λ s0, (createParents W (VRef pa) auth_ s0).2) s in
  (∃ d, trace s' = trace s ++ d ∧ Forall is_oauth d) ∧ heap s ⊆ heap s'.
Proof.
  intros Hpa Hvs. induction n as [|n [(d & Ht & Hd) Hsub]]; simpl.
  - split; [|done]. exists []. by rewrite app_nil_r.
  - set (sn := Nat.iter n _ s) in *.
    destruct (createParents_with_ids W sn pa pps vs auth_)
      as ((d' & Ht' & Hd') & Hsub' & _).
    + by eapply lookup_weaken.
    + eapply Forall_impl; [exact Hvs|]. intros x Hx.
      eapply has_id_weaken; [|exact Hx]. intros l o Hl.
      by eapply lookup_weaken.
    + split; [|by etrans]. exists (d ++ d'). rewrite Ht', Ht, app_assoc.
      split; [done|]. by apply Forall_app.
Qed.


Lemma always_stable : write_stable (λ _ : state, True).
Proof. by repeat split. Qed.

Lemma answers_bind {A B} rid (m : M A) (k : A → M B) Q :
  keeps (λ _, True) not_send m Q →
  (∀ a, Q a → answers rid (k a)) → answers rid (bind m k).
Proof.
  intros Hm Hk s. destruct (Hm s I) as (d1 & Ht1 & Hd1 & _ & HQ).
  unfold bind. destruct (m s) as [[a|e|] s1]; simpl in *.
  - destruct (Hk a (HQ a eq_refl) s1) as (d2 & Ht2 & Hret & Hnot).
    exists (d1 ++ d2). rewrite Ht2, Ht1, app_assoc. split; [done|]. split.
    + intros b Hb. destruct (Hret b Hb) as (f & Hl & Hc & Hf).
      exists f. split; [|done]. rewrite last_app, Hl. done.
    + intros Hno. apply Forall_app. split; [done|]. by apply Hnot.
  - exists d1. repeat split; done.
  - exists d1. repeat split; done.
Qed.

Section Cache.
Variable W : world.

Lemma keeps_listAppFolders interactive :
  keeps (λ _, True) not_send (listAppFolders W interactive) anything.
Proof.
  pose proof (write_alloc_stable always_stable) as Ha.
  unfold listAppFolders.
  keeps_step; [by apply keeps_ask_oauth|].
  keeps_step; [|keeps_step].
  unfold _listAppFolders.
  keeps_step; [keeps_step|].
  keeps_step; [by apply keeps_net_request|].
  keeps_step; [by apply keeps_parse|].
  repeat keeps_step.
Qed.

Lemma answers_body requestId interactive :
  answers requestId
    (let! result := listAppFolders W interactive in
     let! folders := alloc (array []) in
     let! files := get result "files" in
     (if truthy files then
        let! items := elements files in
        for_each items (λ item,
          let! id := get item "id" in
          let! name := get item "name" in
          let! folder := alloc (plain [("id", id); ("name", name)]) in
          push folders folder)
      else ret tt) ;;
     set_cachedFolders folders ;;
     emit (Send result_channel requestId folders)).
Proof.
  pose proof always_stable as Hw.
  pose proof (write_alloc_stable Hw) as Ha.
  eapply answers_bind; [apply keeps_listAppFolders|]. intros result _.
  eapply (answers_bind _ _ _ (λ v, truthy v = true)).
  { intros s _. exists []. rewrite alloc_Ret, app_nil_r. simpl.
    repeat split; [constructor|]. by intros a [= <-]. }
  intros folders Hfolders.
  eapply answers_bind; [keeps_step|]. intros files _.
  eapply (answers_bind _ _ _ anything).
  { keeps_step; [|keeps_step]. keeps_step; [keeps_step|]. keeps_step.
    keeps_step; [keeps_step|]. keeps_step; [keeps_step|].
    keeps_step; [keeps_step|]. by apply keeps_push. }
  intros _ _ s. exists [Send result_channel requestId folders]. simpl.
  split; [done|]. split; [|by intros H; destruct (H tt)].
  intros _ _. by exists folders.
Qed.

End Cache.

Lemma report_error_trace requestId cause s :
  ∃ payload, trace (report_error requestId cause s).2
             = trace s ++ [Send error_channel requestId payload].
Proof.
  unfold report_error. destruct cause as [m|v].
  - unfold bind at 1. rewrite alloc_Ret. simpl. eauto.
  - simpl. eauto.
Qed.

Lemma handler_answer W requestId opts s :
  let out := _listAppFoldersHandler W requestId opts s in
  ∃ d, trace out.2 = trace s ++ d ∧
       ∀ payload, last d = Some (Send result_channel requestId payload) →
                  cachedFolders (this out.2) = payload ∧
                  truthy payload = true.
Proof.
  intros out. subst out.
  remember (_listAppFoldersHandler W requestId opts s) as out eqn:Hout.
  unfold _listAppFoldersHandler in Hout.
  unfold bind at 1 in Hout. cbn [get_this] in Hout.
  destruct (truthy (cachedFolders (this s))) eqn:Hcached.
  { subst out.
    exists [Send result_channel requestId (cachedFolders (this s))]. simpl.
    split; [done|]. by intros payload [= <-]. }
  assert (Hrest : ∀ opts0 s0, trace s0 = trace s →
    out =
      (let! given := get opts0 "interactive" in
       try_catch
         (let! result := listAppFolders W
            match given with VUndef => VBool true | _ => given end in
          let! folders := alloc (array []) in
          let! files := get result "files" in
          (if truthy files then
             let! items := elements files in
             for_each items (λ item,
               let! id := get item "id" in
               let! name := get item "name" in
               let! folder := alloc (plain [("id", id); ("name", name)]) in
               push folders folder)
           else ret tt) ;;
          set_cachedFolders folders ;;
          emit (Send result_channel requestId folders))
         (report_error requestId)) s0 →
    ∃ d, trace out.2 = trace s ++ d ∧
         ∀ payload, last d = Some (Send result_channel requestId payload) →
                    cachedFolders (this out.2) = payload ∧
                    truthy payload = true).
  { clear Hout. intros opts0 s0 Htr Hout. unfold bind at 1 in Hout. unfold get at 1 in Hout.
    destruct (field (heap s0) opts0 "interactive") as [given|].
    2: { subst out. exists []. rewrite app_nil_r. split; [done|].
         by intros payload. }
    unfold try_catch in Hout.
    destruct (answers_body W requestId
                match given with VUndef => VBool true | _ => given end s0)
      as (d & Ht & Hret & Hnot).
    match type of Ht with trace (?body s0).2 = _ =>
      destruct (body s0) as [[[]|e|] s1] end; cbn [fst snd] in *.
    - subst out. exists d. cbn [fst snd]. rewrite Ht, Htr. split; [done|].
      intros payload Hl. destruct (Hret tt eq_refl) as (f & Hf & Hc & Htf).
      rewrite Hl in Hf. by simplify_eq.
    - destruct (report_error_trace requestId e s1) as [c Hc].
      subst out.
      exists (d ++ [Send error_channel requestId c]).
      rewrite Hc, Ht, Htr, app_assoc. split; [done|].
      intros payload Hl. rewrite last_snoc in Hl. by simplify_eq.
    - subst out. exists d. cbn [fst snd]. rewrite Ht, Htr. split; [done|].
      intros payload Hl. apply last_Some in Hl as [d' ->].
      assert (Hns : Forall not_send (d' ++ [Send result_channel requestId payload]))
        by (apply Hnot; by intros []).
      apply Forall_app in Hns as [_ Hns]. rewrite Forall_singleton in Hns.
      simpl in Hns. contradiction. }
  destruct (truthy opts).
  - rewrite (bind_Ret _ _ s opts s) in Hout by done. by apply (Hrest opts s).
  - unfold bind at 1 in Hout. rewrite alloc_Ret in Hout.
    by eapply Hrest; [|exact Hout].
Qed.

Tactic Notation "inv_bind" hyp(H) "as" ident(a) ident(s) ident(H1) :=
  apply bind_Ret_inv in H as (a & s & H1 & H).

Lemma ret_inv {A} (a b : A) s s' : ret a s = (Ret b, s') → b = a ∧ s' = s.
Proof. by intros [= -> ->]. Qed.

Lemma set_Ret_inv v k x s u s' :
  set v k x s = (Ret u, s') →
  ∃ l o, v = VRef l ∧ heap s !! l = Some o ∧
         s' = State (<[l := Obj (elems o) (set_prop (props o) k x)]> (heap s))
                (this s) (trace s).
Proof.
  destruct v; simpl; try done. unfold modify.
  destruct (heap s !! l) as [o|] eqn:Hl; [|done].
  intros [= _ <-]. eauto.
Qed.

Lemma delete_field_Ret_inv v k s u s' :
  delete_field v k s = (Ret u, s') →
  (∃ l o, v = VRef l ∧ heap s !! l = Some o ∧
          s' = State (<[l := Obj (elems o) (del_prop (props o) k)]> (heap s))
                 (this s) (trace s)) ∨
  ((∀ l, v ≠ VRef l) ∧ s' = s).
Proof.
  destruct v; simpl; try done; try (intros [= _ <-]; right; by split).
  unfold modify. destruct (heap s !! l) as [o|] eqn:Hl; [|done].
  intros [= _ <-]. left. eauto.
Qed.

Lemma elements_Ret_inv v s vs s' :
  elements v s = (Ret vs, s') → s' = s ∧ items_of (heap s) v = Some vs.
Proof.
  unfold elements. destruct (items_of (heap s) v); intros; by simplify_eq.
Qed.

Lemma map_get_Ret_inv k items : ∀ s ids s',
  map_m (λ item, get item k) items s = (Ret ids, s') →
  s' = s ∧ Forall2 (λ item id, field (heap s) item k = Some id) items ids.
Proof.
  induction items as [|item items IH]; intros s ids s' H; simpl in H.
  - apply ret_inv in H as [-> ->]. split; [done|constructor].
  - inv_bind H as id s1 Hid. apply get_Ret_inv in Hid as [-> Hf].
    inv_bind H as rest s2 Hrest. apply IH in Hrest as [-> Hrest].
    apply ret_inv in H as [-> ->]. split; [done|by constructor].
Qed.

Lemma JSON_stringify_inv v s b s' :
  JSON_stringify v s = (Ret b, s') →
  s' = s ∧ match stringify (heap s) v with
           | WUndef => b = VUndef
           | WJson j => b = VStr (render j)
           | WCycle => False
           end.
Proof.
  unfold JSON_stringify. destruct (stringify (heap s) v); intros; by simplify_eq.
Qed.

Lemma net_request_inv W r s x s' :
  net_request W r s = (Ret x, s') →
  s' = State (heap s) (this s) (trace s ++ [NetRequest r]).
Proof.
  unfold net_request, emit, bind. simpl.
  match goal with |- context [net W ?t] => destruct (net W t) end;
    intros; by simplify_eq.
Qed.

Lemma alloc_items_subseteq items : ∀ h, h ⊆ (alloc_items alloc_json items h).2.
Proof.
  induction items as [|j items IH]; intros h; simpl; [done|].
  pose proof (alloc_json_subseteq j h) as Hj.
  destruct (alloc_json j h) as [v h1]. simpl in Hj.
  specialize (IH h1). destruct (alloc_items alloc_json items h1) as [vs h2].
  simpl in *. by etrans.
Qed.

Lemma alloc_members_subseteq members :
  ∀ h, h ⊆ (alloc_members alloc_json members h).2.
Proof.
  induction members as [|[k j] members IH]; intros h; simpl; [done|].
  pose proof (alloc_json_subseteq j h) as Hj.
  destruct (alloc_json j h) as [v h1]. simpl in Hj.
  specialize (IH h1). destruct (alloc_members alloc_json members h1) as [ps h2].
  simpl in *. by etrans.
Qed.

Lemma fresh_above (h h1 : gmap loc obj) : h ⊆ h1 → h !! fresh (dom h1) = None.
Proof.
  intros Hsub. destruct (h !! fresh (dom h1)) as [o|] eqn:E; [|done].
  apply (lookup_weaken _ _ _ _ E) in Hsub. by rewrite fresh_None in Hsub.
Qed.

Lemma alloc_json_fresh j h l : (alloc_json j h).1 = VRef l → h !! l = None.
Proof.
  destruct j; simpl; try done.
  - pose proof (alloc_items_subseteq items h) as Hsub.
    destruct (alloc_items alloc_json items h) as [vs h1]. simpl in *.
    intros [= <-]. by apply fresh_above.
  - pose proof (alloc_members_subseteq members h) as Hsub.
    destruct (alloc_members alloc_json members h) as [ps h1]. simpl in *.
    intros [= <-]. by apply fresh_above.
Qed.

Lemma parse_Ret_inv W text s v s' :
  parse W text s = (Ret v, s') →
  heap s ⊆ heap s' ∧ this s' = this s ∧ trace s' = trace s ∧
  ∀ l, v = VRef l → heap s !! l = None.
Proof.
  unfold parse. destruct (JSON_parse W text) as [j|]; [|done].
  unfold from_json. pose proof (alloc_json_subseteq j (heap s)) as Hsub.
  pose proof (alloc_json_fresh j (heap s)) as Hfresh.
  destruct (alloc_json j (heap s)) as [v' h']. simpl in *.
  intros [= <- <-]. simpl. repeat split; [done|]. intros l ->. by apply Hfresh.
Qed.

Lemma _initializeSession_Ret_inv W token meta fileId s url s' :
  _initializeSession W token meta fileId s = (Ret url, s') →
  ∃ body,
    (if truthy meta then JSON_stringify meta else ret VUndef) s = (Ret body, s) ∧
    s' = State (heap s) (this s)
           (trace s ++ [NetRequest (session_request token fileId body)]).
Proof.
  unfold _initializeSession. intros H. inv_bind H as body s1 Hbody.
  assert (s1 = s) as ->.
  { destruct (truthy meta); [by apply JSON_stringify_inv in Hbody as [-> _]|].
    by apply ret_inv in Hbody as [_ ->]. }
  exists body. split; [done|]. inv_bind H as r s2 Hnet.
  apply net_request_inv in Hnet as ->. by simplify_eq.
Qed.

Lemma _upload_Ret_inv W token url body mimeType s result s' :
  _upload W token url body mimeType s = (Ret result, s') →
  heap s ⊆ heap s' ∧ this s' = this s ∧
  trace s' = trace s ++ [NetRequest (Request "PUT" (UrlAt url) token
                                       [("content-type", mimeType)] (Some body))] ∧
  ∀ l, result = VRef l → heap s !! l = None.
Proof.
  unfold _upload. intros H. inv_bind H as r s1 Hnet.
  apply net_request_inv in Hnet as ->.
  by apply parse_Ret_inv in H.
Qed.

Lemma upload_steps_Ret_inv W token resource media cp sc result s' :
  upload_steps W token resource media cp sc = (Ret result, s') →
  ∃ body se put,
    (if truthy resource then JSON_stringify resource else ret VUndef) sc
      = (Ret body, sc) ∧
    heap sc ⊆ heap se ∧ this s' = this sc ∧
    trace s' = trace sc ++ [NetRequest (session_request token VUndef body);
                            NetRequest put] ∧
    method put = "PUT" ∧ bearer put = token ∧
    (truthy cp = false → heap s' = heap se) ∧
    (truthy cp = true →
       ∃ r o, result = VRef r ∧ heap sc !! r = None ∧ heap se !! r = Some o ∧
              heap s' = <[r := Obj (elems o) (set_prop (props o) "parents" cp)]>
                          (heap se)).
Proof.
  unfold upload_steps. intros H. inv_bind H as url sd Hinit.
  apply _initializeSession_Ret_inv in Hinit as (body & Hbody & ->).
  inv_bind H as mbody s1 Hget. apply get_Ret_inv in Hget as [-> _].
  inv_bind H as mtype s1 Hget. apply get_Ret_inv in Hget as [-> _].
  inv_bind H as res se Hup.
  apply _upload_Ret_inv in Hup as (Hsub & Hthis & Htrace & Hfresh).
  simpl in *. inv_bind H as u s2 Hset. apply ret_inv in H as [-> ->].
  exists body, se. eexists. split; [done|]. split; [done|].
  destruct (truthy cp) eqn:Hcp.
  - apply set_Ret_inv in Hset as (r & o & -> & Hr & ->). simpl.
    split; [done|]. split; [by rewrite Htrace, <- app_assoc|].
    split; [done|]. split; [done|]. split; [done|].
    intros _. exists r, o. repeat split; try done. by apply Hfresh.
  - apply ret_inv in Hset as [_ ->].
    split; [done|]. split; [by rewrite Htrace, <- app_assoc|].
    split; [done|]. split; [done|]. split; [done|]. done.
Qed.

Lemma field_insert_props h l o ps' v k :
  h !! l = Some o → get_prop ps' k = get_prop (props o) k →
  field (<[l := Obj (elems o) ps']> h) v k = field h v k.
Proof.
  intros Hl Hk. unfold field. destruct v; try done.
  destruct (decide (l0 = l)) as [->|Hne].
  - rewrite lookup_insert_eq, Hl. destruct o as [[vs|] ps]; simpl in *;
      by rewrite Hk.
  - by rewrite lookup_insert_ne.
Qed.

Lemma items_of_insert_props h l o ps' v :
  h !! l = Some o → items_of (<[l := Obj (elems o) ps']> h) v = items_of h v.
Proof.
  intros Hl. unfold items_of. destruct v; try done.
  destruct (decide (l0 = l)) as [->|Hne].
  - by rewrite lookup_insert_eq, Hl.
  - by rewrite lookup_insert_ne.
Qed.

Lemma field_insert_fresh h l o v k x :
  h !! l = None → field h v k = Some x → field (<[l := o]> h) v k = Some x.
Proof. intros Hl. apply field_weaken. by apply insert_subseteq. Qed.

Lemma items_of_insert_fresh h l o v vs :
  h !! l = None → items_of h v = Some vs → items_of (<[l := o]> h) v = Some vs.
Proof. intros Hl. apply items_of_weaken. by apply insert_subseteq. Qed.


Lemma is_array_stable l : write_stable (is_array l).
Proof.
  unfold is_array. split; [|split].
  - intros s h tr (vs & ps & Hl) Hsub. simpl. exists vs, ps.
    by eapply lookup_weaken.
  - done.
  - intros s l' o o' (vs & ps & Hl) Hl' _ He. simpl.
    destruct (decide (l' = l)) as [->|Hne].
    + rewrite lookup_insert_eq. rewrite Hl in Hl'. simplify_eq.
      destruct (He ltac:(by eexists)) as [vs' Hvs'].
      destruct o' as [e' ps']. simpl in *. subst. eauto.
    + rewrite lookup_insert_ne by done. eauto.
Qed.

Lemma dom_stable (h0 : gmap loc obj) :
  write_stable (λ s, dom h0 ⊆ dom (heap s)).
Proof.
  split; [|split].
  - intros s h tr H Hsub. simpl. etrans; [done|]. by apply subseteq_dom.
  - done.
  - intros s l o o' H Hl _ _. simpl. rewrite dom_insert_L.
    set_solver.
Qed.

Lemma resolution_createParents W parents auth_ (I : state → Prop) :
  write_stable I →
  keeps I resolution (createParents W parents auth_) anything.
Proof.
  intros Hw. pose proof (write_alloc_stable Hw) as Ha.
  eapply (keeps_createParents Hw W parents auth_ anything).
  - apply keeps_auth; [done|]. intros e He. by left.
  - intros info name _. apply keeps_createFolder; [done|..].
    + intros e He. by left.
    + intros t e He. right. eauto.
Qed.

Lemma createParents_Ret W parents auth_ s created s1 :
  createParents W parents auth_ s = (Ret created, s1) →
  ∃ c items, created = VRef c ∧ items_of (heap s1) created = Some items.
Proof.
  unfold createParents. intros H.
  inv_bind H as len sa Hlen.
  destruct (negb (truthy parents) || negb (truthy len)); [done|].
  inv_bind H as normal sb Hnormal.
  inv_bind H as len2 sc Hlen2.
  destruct (negb (truthy len2)).
  { rewrite alloc_Ret in H. simplify_eq. eexists _, []. split; [done|].
    unfold items_of. simpl. by rewrite lookup_insert_eq. }
  inv_bind H as info sd Hauth.
  inv_bind H as result se Halloc.
  rewrite alloc_Ret in Halloc. simplify_eq.
  set (r2 := fresh (dom (heap sd))) in *.
  match type of H with _createParents W ?n _ _ _ ?s3 = _ =>
    destruct (keeps__createParents (I := is_array r2) (E := λ _, True)
                (is_array_stable r2) W info
                ltac:(intros name; apply keeps_createFolder;
                      [apply (write_alloc_stable (is_array_stable r2))|done..])
                n normal (VRef r2) s3)
      as (_ & _ & _ & (vs & ps & Harr) & Hres)
  end.
  { exists [], []. simpl. by rewrite lookup_insert_eq. }
  rewrite H in Harr, Hres. simpl in *. rewrite (Hres _ eq_refl).
  exists r2, vs. split; [done|]. unfold items_of. by rewrite Harr.
Qed.

Lemma get_this_inv i s s' : get_this s = (Ret i, s') → i = this s ∧ s' = s.
Proof. by intros [= <- <-]. Qed.

(** The first step of [create] and [update] changes at most the property
    [mimeType] of the resource. *)
Lemma default_mime_inv (c : bool) resource x s u sa :
  (if c then set resource "mimeType" x else ret tt) s = (Ret u, sa) →
  this sa = this s ∧ trace sa = trace s ∧ dom (heap sa) = dom (heap s) ∧
  (∀ v k, String.eqb "mimeType" k = false →
     field (heap sa) v k = field (heap s) v k).
Proof.
  destruct c.
  - intros H. destruct (set_Ret_inv _ _ _ _ _ _ H) as (l & o & -> & Hl & ->).
    simpl.
    repeat split.
    + rewrite dom_insert_L. apply elem_of_dom_2 in Hl.
      apply set_eq. intros l0. rewrite elem_of_union, elem_of_singleton.
      split; [intros [->|]; done|by right].
    + intros v k Hk. apply field_insert_props; [done|].
      apply get_set_prop_ne. intros E. rewrite <- E in Hk. discriminate.
  - intros H. by apply ret_inv in H as [_ ->].
Qed.

Lemma auth_Ret_inv W x s info s' :
  auth W x s = (Ret info, s') →
  heap s ⊆ heap s' ∧ this s' = this s ∧
  ∃ d, trace s' = trace s ++ d ∧ Forall is_oauth d.
Proof.
  intros H. destruct (auth_grows W x s) as (Ht & Hh & Hi).
  rewrite H in Ht, Hh, Hi. done.
Qed.

Lemma field_is_ref h v k x :
  field h v k = Some x → truthy x = true → String.eqb k "length" = false →
  ∃ l o, v = VRef l ∧ h !! l = Some o.
Proof.
  unfold field. intros Hf Ht Hk. destruct v; try rewrite Hk in Hf;
    try (by simplify_eq).
  destruct (h !! l) as [o|] eqn:E; [eauto|done].
Qed.

Lemma field_after h h' l o v k x :
  h ⊆ h' → h !! l = None → field h v k = Some x →
  field (<[l := o]> h') v k = Some x.
Proof.
  intros Hsub Hl Hf. unfold field in *. destruct v; try done.
  destruct (h !! l0) as [o'|] eqn:E; [|done].
  rewrite lookup_insert_ne by (intros ->; congruence).
  by rewrite (lookup_weaken _ _ _ _ E Hsub).
Qed.

Lemma items_of_after h h' l o v vs :
  h ⊆ h' → h !! l = None → items_of h v = Some vs →
  items_of (<[l := o]> h') v = Some vs.
Proof.
  intros Hsub Hl Hf. unfold items_of in *. destruct v; try done.
  destruct (h !! l0) as [o'|] eqn:E; [|done].
  rewrite lookup_insert_ne by (intros ->; congruence).
  by rewrite (lookup_weaken _ _ _ _ E Hsub).
Qed.

Lemma lookup_after (h h' : gmap loc obj) l o l' o' :
  h ⊆ h' → h !! l = None → h !! l' = Some o' → <[l := o]> h' !! l' = Some o'.
Proof.
  intros Hsub Hl Hl'. rewrite lookup_insert_ne by (intros ->; congruence).
  by eapply lookup_weaken.
Qed.

Lemma stringify_ref h l o :
  h !! l = Some o → ∃ j, stringify h (VRef l) = WJson j ∨ stringify h (VRef l) = WCycle.
Proof.
  intros Hl. unfold stringify. simpl. rewrite Hl.
  destruct o as [[vs|] ps].
  - destruct (walk_items _ vs); [eauto|by exists JNull; right].
  - destruct (walk_members _ ps); [eauto|by exists JNull; right].
Qed.

Lemma create_with_parents W resource media auth_ s result s' parents len :
  create W resource media auth_ s = (Ret result, s') →
  field (heap s) resource "parents" = Some parents → truthy parents = true →
  field (heap s) parents "length" = Some len → truthy len = true →
  ∃ r created items ids init token body before put,
    resource = VRef r ∧
    field (heap s') result "parents" = Some created ∧
    items_of (heap s') created = Some items ∧
    Forall2 (λ item id, field (heap s') item "id" = Some id) items ids ∧
    trace s' = before ++ [NetRequest (session_request token VUndef body);
                          NetRequest put] ∧
    method put = "PUT" ∧
    (∃ j, stringify init resource = WJson j ∧ body = VStr (render j)) ∧
    (items ≠ [] →
       ∃ ia, heap s !! ia = None ∧
             field init resource "parents" = Some (VRef ia) ∧
             items_of init (VRef ia) = Some ids ∧
             field (heap s') resource "parents" = Some (VRef ia) ∧
             items_of (heap s') (VRef ia) = Some ids) ∧
    (items = [] →
       ∃ o o', init !! r = Some o ∧ has_prop (props o) "parents" = false ∧
               heap s' !! r = Some o' ∧ has_prop (props o') "parents" = false).
Proof.
  unfold create. intros H Hp Htp Hl Htl.
  destruct (field_is_ref _ _ _ _ Hp Htp eq_refl) as (r & o0 & -> & Hr0).
  inv_bind H as mt s0 Hmt. apply get_Ret_inv in Hmt as [-> _].
  inv_bind H as i s0 Hi. apply get_this_inv in Hi as [-> ->].
  inv_bind H as u sa Hmime.
  apply default_mime_inv in Hmime as (Hthis_a & Htrace_a & Hdom_a & Hfield_a).
  inv_bind H as info sb Hauth.
  apply auth_Ret_inv in Hauth as (Hsub_b & Hthis_b & Htrace_b).
  inv_bind H as token s0 Htoken. apply get_Ret_inv in Htoken as [-> Htoken].
  assert (Hp_b : field (heap sb) (VRef r) "parents" = Some parents).
  { eapply field_weaken; [done|]. by rewrite Hfield_a. }
  assert (Hl_b : field (heap sb) parents "length" = Some len).
  { eapply field_weaken; [done|]. by rewrite Hfield_a. }
  inv_bind H as parents' s0 Hps. apply get_Ret_inv in Hps as [-> Hps].
  rewrite Hp_b in Hps. simplify_eq. rewrite Htp in H.
  inv_bind H as len' s0 Hlen. apply get_Ret_inv in Hlen as [-> Hlen].
  rewrite Hl_b in Hlen. simplify_eq. rewrite Htl in H.
  inv_bind H as cp sc Hblock.
  inv_bind Hblock as parents2 s0 Hps2. apply get_Ret_inv in Hps2 as [-> Hps2].
  rewrite Hp_b in Hps2. simplify_eq.
  inv_bind Hblock as created s1 Hcreate.
  destruct (createParents_Ret _ _ _ _ _ _ Hcreate) as (c & items & -> & Hitems).
  destruct (resolution_createParents W parents2 info _ (dom_stable (heap sb)) sb)
    as (_ & _ & _ & Hdom1 & _); [done|].
  rewrite Hcreate in Hdom1. cbn [snd] in Hdom1.
  assert (Hdom : dom (heap s) ⊆ dom (heap s1)).
  { rewrite <- Hdom_a. etrans; [|exact Hdom1]. by apply subseteq_dom. }
  assert (Hr1 : ∃ o1, heap s1 !! r = Some o1).
  { apply elem_of_dom. apply Hdom. by apply elem_of_dom_2 in Hr0. }
  destruct Hr1 as [o1 Hr1].
  assert (Hc1 : ∃ cps, heap s1 !! c = Some (Obj (Some items) cps)).
  { unfold items_of in Hitems. destruct (heap s1 !! c) as [[e cps]|]; [|done].
    simpl in Hitems. subst e. eauto. }
  destruct Hc1 as [cps Hc1].
  cbn [truthy negb orb] in Hblock.
  inv_bind Hblock as n s0 Hn. apply get_Ret_inv in Hn as [-> Hn].
  unfold field in Hn. rewrite Hc1 in Hn. cbn [String.eqb] in Hn.
  change (String.eqb "length" "length") with true in Hn. cbv iota in Hn.
  injection Hn as <-. rewrite length_truthy, negb_involutive in Hblock.
  inv_bind Hblock as u2 sc2 Hbranch. apply ret_inv in Hblock as [-> ->].
  change (upload_steps W token (VRef r) media (VRef c) sc2 = (Ret result, s')) in H.
  apply upload_steps_Ret_inv in H
    as (body & se & put & Hbody & Hsub_e & Hthis' & Htrace' & Hput & _ & _ & Hset).
  destruct (Hset eq_refl) as (rr & orr & -> & Hrr & Hrr_e & Hheap'). clear Hset.
  cbn [truthy] in Hbody. apply JSON_stringify_inv in Hbody as [_ Hbody].
  assert (Hresult : field (heap s') (VRef rr) "parents" = Some (VRef c)).
  { unfold field. rewrite Hheap', lookup_insert_eq.
    destruct (elems orr); cbn [String.eqb]; by rewrite get_set_prop_eq. }
  destruct (bool_decide (items = [])) eqn:Hnil.
  - (* nothing was resolved: the field is deleted *)
    apply bool_decide_eq_true in Hnil. subst items.
    destruct (delete_field_Ret_inv _ _ _ _ _ Hbranch)
      as [(r' & o' & [= <-] & Hr' & ->)|[Hno _]]; [|by destruct (Hno r)].
    rewrite Hr1 in Hr'. injection Hr' as <-. cbn [heap this trace] in *.
    set (oc := Obj (elems o1) (del_prop (props o1) "parents")) in *.
    assert (Hrc : <[r := oc]> (heap s1) !! r = Some oc) by apply lookup_insert_eq.
    destruct (stringify_ref _ _ _ Hrc) as [j [Hj|Hj]]; rewrite Hj in Hbody; [|done].
    exists r, (VRef c), [], [], (<[r := oc]> (heap s1)), token, body, (trace s1), put.
    split; [done|]. split; [done|]. split.
    { rewrite Hheap'. eapply items_of_after; [done..|].
      unfold oc. rewrite items_of_insert_props by done. exact Hitems. }
    split; [constructor|]. split; [done|]. split; [done|].
    split; [by exists j|]. split; [done|]. intros _.
    exists oc, oc. split; [done|]. split; [apply has_del_prop_eq|].
    split; [|apply has_del_prop_eq].
    rewrite Hheap'. by eapply lookup_after.
  - (* the ids replace the references *)
    apply bool_decide_eq_false in Hnil.
    inv_bind Hbranch as items' s0 Hel.
    apply elements_Ret_inv in Hel as [-> Hel]. rewrite Hitems in Hel.
    injection Hel as <-.
    inv_bind Hbranch as ids s0 Hids.
    apply map_get_Ret_inv in Hids as [-> Hids].
    inv_bind Hbranch as list s0 Hlist. rewrite alloc_Ret in Hlist.
    injection Hlist as <- <-.
    set (ia := fresh (dom (heap s1))) in *.
    assert (Hia : heap s1 !! ia = None) by apply fresh_None.
    destruct (set_Ret_inv _ _ _ _ _ _ Hbranch) as (r' & o' & [= <-] & Hr' & ->).
    cbn [heap this trace] in *.
    rewrite lookup_insert_ne in Hr' by (intros E; rewrite E in Hia; congruence).
    rewrite Hr1 in Hr'. injection Hr' as <-.
    set (h1 := <[ia := array ids]> (heap s1)) in *.
    set (oc := Obj (elems o1) (set_prop (props o1) "parents" (VRef ia))) in *.
    assert (Hr1' : h1 !! r = Some o1).
    { unfold h1. rewrite lookup_insert_ne; [done|].
      intros E. rewrite E in Hia. congruence. }
    assert (Hrc : <[r := oc]> h1 !! r = Some oc) by apply lookup_insert_eq.
    destruct (stringify_ref _ _ _ Hrc) as [j [Hj|Hj]]; rewrite Hj in Hbody; [|done].
    assert (Hp_c : field (<[r := oc]> h1) (VRef r) "parents" = Some (VRef ia)).
    { unfold field. rewrite Hrc. unfold oc.
      destruct (elems o1); cbn [String.eqb]; by rewrite get_set_prop_eq. }
    assert (Hi_c : items_of (<[r := oc]> h1) (VRef ia) = Some ids).
    { unfold oc. rewrite items_of_insert_props by done.
      unfold items_of, h1. by rewrite lookup_insert_eq. }
    exists r, (VRef c), items, ids, (<[r := oc]> h1), token, body, (trace s1), put.
    split; [done|]. split; [done|]. split.
    { rewrite Hheap'. eapply items_of_after; [done..|].
      unfold oc. rewrite items_of_insert_props by done.
      by apply items_of_insert_fresh. }
    split.
    { eapply Forall2_impl; [exact Hids|]. intros item id Hid. simpl in Hid.
      rewrite Hheap'. eapply field_after; [done..|].
      unfold oc. rewrite field_insert_props; [by apply field_insert_fresh|done|].
      by apply get_set_prop_ne. }
    split; [done|]. split; [done|]. split; [by exists j|]. split; [|done].
    intros _. exists ia. split.
    { destruct (heap s !! ia) as [x|] eqn:E; [|done].
      apply elem_of_dom_2 in E. apply Hdom in E.
      apply elem_of_dom in E as [y Hy]. congruence. }
    split; [done|]. split; [done|]. rewrite Hheap'.
    split; [by eapply field_after|by eapply items_of_after].
Qed.

Lemma create_order W resource media auth_ s :
  ∃ d1 d2 token,
    trace (create W resource media auth_ s).2 = trace s ++ d1 ++ d2 ∧
    Forall resolution d1 ∧ handshake token d2.
Proof.
  destruct (keeps_then_create (I := λ _, True) (E := resolution)
              (L := λ d, ∃ token, handshake token d)
              ltac:(by exists VUndef; left)
              W resource media auth_ anything anything always_stable)
    with (s := s) as (d1 & d2 & Ht & H1 & token & H2); try done.
  - apply keeps_auth; [apply (write_alloc_stable always_stable)|].
    intros e He. by left.
  - intros info _. apply keeps_auth; [apply (write_alloc_stable always_stable)|].
    intros e He. by left.
  - intros info name _.
    apply keeps_createFolder; [apply (write_alloc_stable always_stable)|..].
    + intros e He. by left.
    + intros t e He. right. eauto.
  - intros info _. apply keeps_get.
  - intros token created s0 _ _.
    destruct (upload_steps_trace W token resource media created s0) as (d & ? & ?).
    eauto.
  - eauto 10.
Qed.


(** The folder requests and the handshake are told apart by their target. *)
Lemma resolution_not_handshake e :
  resolution e →
  (∀ token b, e ≠ NetRequest (session_request token VUndef b)) ∧
  (∀ r, e = NetRequest r → method r ≠ "PUT").
Proof.
  intros [He|[token [b ->]]].
  - split; [intros token b ->|intros r ->]; destruct He.
  - split; [intros t b' E|intros r E]; inversion E; subst; discriminate.
Qed.






Lemma push_Ret_inv v x s u s' :
  push v x s = (Ret u, s') →
  ∃ a o vs, v = VRef a ∧ heap s !! a = Some o ∧ elems o = Some vs ∧
    s' = State (<[a := Obj (Some (vs ++ [x])) (props o)]> (heap s))
           (this s) (trace s).
Proof.
  unfold push. intros H. inv_bind H as vs s1 Hvs.
  apply elements_Ret_inv in Hvs as [-> Hvs].
  destruct v; try done. unfold items_of in Hvs. simpl in H.
  unfold modify in H.
  destruct (heap s !! l) as [o|] eqn:Hl; [|done]. simpl in Hvs.
  simplify_eq. by exists l, o, vs.
Qed.

Lemma shift_Ret_inv v s x s' :
  shift v s = (Ret x, s') →
  ∃ a o vs, v = VRef a ∧ heap s !! a = Some o ∧ elems o = Some vs ∧
    ((vs = [] ∧ x = VUndef ∧ s' = s) ∨
     (∃ rest, vs = x :: rest ∧
        s' = State (<[a := Obj (Some rest) (props o)]> (heap s))
               (this s) (trace s))).
Proof.
  unfold shift. intros H. inv_bind H as vs s1 Hvs.
  apply elements_Ret_inv in Hvs as [-> Hvs].
  destruct v; try done. unfold items_of in Hvs.
  destruct (heap s !! l) as [o|] eqn:Hl; [|done]. simpl in Hvs.
  exists l, o, vs. split; [done|]. split; [done|]. split; [done|].
  destruct vs as [|y rest].
  - left. apply ret_inv in H as [-> ->]. done.
  - right. inv_bind H as u s2 Hset. apply ret_inv in H as [-> ->].
    simpl in Hset. unfold modify in Hset. rewrite Hl in Hset.
    simplify_eq. eauto.
Qed.

Lemma items_of_cell h a vs :
  items_of h (VRef a) = Some vs → ∃ o, h !! a = Some o ∧ elems o = Some vs.
Proof.
  unfold items_of. destruct (h !! a) as [o|]; [|done]. simpl. eauto.
Qed.

Lemma items_of_insert_eq h a vs ps :
  items_of (<[a := Obj (Some vs) ps]> h) (VRef a) = Some vs.
Proof. unfold items_of. by rewrite lookup_insert_eq. Qed.

Lemma items_of_insert_ne h a b o :
  b ≠ a → items_of (<[a := o]> h) (VRef b) = items_of h (VRef b).
Proof. intros Hne. unfold items_of. by rewrite lookup_insert_ne. Qed.

Lemma has_set_prop ps k v : has_prop (set_prop ps k v) k = true.
Proof.
  induction ps as [|[k' v'] ps IH]; simpl.
  - by rewrite String.eqb_refl.
  - destruct (String.eqb k' k) eqn:E; simpl; rewrite E; [done|]. by rewrite IH.
Qed.

Lemma field_id h l o : h !! l = Some o →
  field h (VRef l) "id" = Some (get_prop (props o) "id").
Proof. intros Hl. by apply field_ref. Qed.

Lemma assigns_id_refl l s : assigns_id l s s.
Proof. intros l' o Hl. eauto. Qed.

Lemma assigns_id_trans l s1 s2 s3 :
  assigns_id l s1 s2 → assigns_id l s2 s3 → assigns_id l s1 s3.
Proof.
  intros H1 H2 l' o Hl.
  destruct (H1 _ _ Hl) as (o' & Hl' & Ho').
  destruct (H2 _ _ Hl') as (o'' & Hl'' & Ho'').
  exists o''. split; [done|].
  destruct Ho'' as [E|[-> Hid]]; [|by right].
  destruct Ho' as [E'|[-> Hid]]; [left; congruence|right].
  by rewrite E.
Qed.

Lemma assigns_id_grow l s s' : heap s ⊆ heap s' → assigns_id l s s'.
Proof.
  intros Hsub l' o Hl. exists o. split; [|by left]. by eapply lookup_weaken.
Qed.

Lemma assigns_id_elems l s a o e i t :
  heap s !! a = Some o →
  assigns_id l s (State (<[a := Obj e (props o)]> (heap s)) i t).
Proof.
  intros Ha l' o' Hl. simpl.
  destruct (decide (l' = a)) as [->|Hne].
  - rewrite lookup_insert_eq. eexists. split; [done|]. left. simpl. congruence.
  - rewrite lookup_insert_ne by done. eauto.
Qed.

Lemma assigns_id_set l s o id i t :
  heap s !! l = Some o →
  assigns_id l s
    (State (<[l := Obj (elems o) (set_prop (props o) "id" id)]> (heap s)) i t).
Proof.
  intros Ha l' o' Hl. simpl.
  destruct (decide (l' = l)) as [->|Hne].
  - rewrite lookup_insert_eq. eexists. split; [done|]. right. split; [done|].
    apply has_set_prop.
  - rewrite lookup_insert_ne by done. eauto.
Qed.

Lemma assigns_keeps_ids l s s' : assigns_id l s s' → keeps_ids s s'.
Proof.
  intros H l' o Hl. destruct (H _ _ Hl) as (o' & Hl' & [E|[_ Hid]]);
    exists o'; (split; [done|]); [by rewrite E|done].
Qed.

Lemma keeps_ids_trans s1 s2 s3 :
  keeps_ids s1 s2 → keeps_ids s2 s3 → keeps_ids s1 s3.
Proof.
  intros H1 H2 l o Hl.
  destruct (H1 _ _ Hl) as (o' & Hl' & Ho').
  destruct (H2 _ _ Hl') as (o'' & Hl'' & Ho''). eauto.
Qed.

Lemma createFolder_grows W name x s :
  let out := createFolder W name x s in
  heap s ⊆ heap out.2 ∧ this out.2 = this s.
Proof.
  destruct (keeps_createFolder W (I := λ s', heap s ⊆ heap s' ∧ this s' = this s)
              (E := λ _, True)) with (name := name) (x := x) (s := s)
    as (d & Ht & Hd & [Hh Hi] & _); try done.
  intros s' h tr [Hsub Hthis] Hh. simpl. split; [by etrans|done].
Qed.

Lemma createResource_run config m type_ o s :
  field (heap s) config "meta" = Some (VRef m) →
  field (heap s) config "type" = Some type_ →
  heap s !! m = Some o →
  _createResource config s =
    (Ret (VRef m),
     State (<[m := Obj (elems o) (with_defaults (this s) type_ (props o))]>
              (heap s)) (this s) (trace s)).
Proof.
  intros Hmeta Htype Hm. unfold _createResource.
  rewrite (bind_Ret _ _ _ _ _ (get_Ret _ _ _ _ Hmeta)).
  rewrite (bind_Ret _ _ _ _ _ (get_Ret _ _ _ _ Htype)).
  cbn [truthy]. unfold bind at 1. cbn [ret].
  unfold bind at 1. cbn [get_this].
  rewrite (bind_Ret _ _ _ _ _ (get_ref _ _ _ "description" Hm eq_refl)).
  unfold with_defaults.
  destruct (negb (truthy (get_prop (props o) "description")) &&
            truthy (fileDescription (this s))) eqn:Hd.
  - unfold bind at 1. cbn [set]. unfold modify. rewrite Hm.
    set (o1 := Obj (elems o) _).
    set (s1 := State _ _ _).
    assert (Hm1 : heap s1 !! m = Some o1) by (simpl; by rewrite lookup_insert_eq).
    rewrite (bind_Ret _ _ _ _ _ (get_ref _ _ _ "mimeType" Hm1 eq_refl)).
    cbn [props o1].
    destruct (negb (truthy (get_prop _ "mimeType"))).
    + unfold bind, set, modify. rewrite Hm1. simpl.
      by rewrite insert_insert_eq.
    + done.
  - unfold bind at 1. cbn [ret].
    rewrite (bind_Ret _ _ _ _ _ (get_ref _ _ _ "mimeType" Hm eq_refl)).
    destruct (negb (truthy (get_prop _ "mimeType"))).
    + unfold bind, set, modify. by rewrite Hm.
    + simpl. unfold ret. f_equal. destruct s as [h i t]. simpl in *.
      f_equal. destruct o. by rewrite insert_id.
Qed.

Lemma set_cachedFolders_run v s :
  set_cachedFolders v s =
    (Ret tt, State (heap s)
               (MkInstance (mime (this s)) (fileDescription (this s))
                  (fileType (this s)) v) (trace s)).
Proof. done. Qed.

Lemma has_id_same_props h h' l o o' :
  h !! l = Some o → h' !! l = Some o' → props o' = props o →
  has_id h' (VRef l) → has_id h (VRef l).
Proof.
  intros Hl Hl' E (id & Hid & Ht). exists id. split; [|done].
  rewrite (field_id _ _ _ Hl). rewrite (field_id _ _ _ Hl') in Hid.
  by rewrite <- E.
Qed.

Lemma has_id_key_keeps s s' x :
  keeps_ids s s' → has_id_key (heap s) x → has_id_key (heap s') x.
Proof.
  intros H (l & o & -> & Hl & Hid). destruct (H _ _ Hl) as (o' & Hl' & Ho').
  exists l, o'. eauto.
Qed.

(** One call of [_createParents] on a list that starts with an object. *)
Lemma createParents_iteration W info pa ra n s l rest acc v s' :
  pa ≠ ra →
  items_of (heap s) (VRef pa) = Some (VRef l :: rest) →
  items_of (heap s) (VRef ra) = Some acc →
  cachedFolders (this s) ≠ VRef pa →
  cachedFolders (this s) ≠ VRef ra →
  is_Some (heap s !! l) →
  _createParents W (S n) (VRef pa) info (VRef ra) s = (Ret v, s') →
  ∃ s2, _createParents W n (VRef pa) info (VRef ra) s2 = (Ret v, s') ∧
    items_of (heap s2) (VRef pa) = Some rest ∧
    items_of (heap s2) (VRef ra) = Some (acc ++ [VRef l]) ∧
    assigns_id l s s2 ∧
    cachedFolders (this s2) ≠ VRef pa ∧
    cachedFolders (this s2) ≠ VRef ra ∧
    (∀ c old, cachedFolders (this s) = VRef c →
       items_of (heap s) (VRef c) = Some old →
       cachedFolders (this s2) = VRef c ∧
       ∃ new, items_of (heap s2) (VRef c) = Some (old ++ new)) ∧
    (has_id (heap s) (VRef l) ∨
     (has_id_key (heap s2) (VRef l) ∧
      ∃ c old, cachedFolders (this s2) = VRef c ∧
               items_of (heap s2) (VRef c) = Some (old ++ [VRef l]))).
Proof.
  intros Hne Hpa Hra Hcp Hcr [ol Hl] Hrun.
  cbn [_createParents] in Hrun.
  inv_bind Hrun as parent s1 Hshift.
  apply shift_Ret_inv in Hshift as (a & opa & vs0 & [= <-] & Ha & Hvs0 & Hcase).
  destruct (items_of_cell _ _ _ Hpa) as (opa' & Ha' & Hvs').
  rewrite Ha in Ha'. injection Ha' as <-. rewrite Hvs0 in Hvs'.
  injection Hvs' as ->.
  destruct Hcase as [(? & _)|(rest' & [= <- <-] & ->)]; [done|].
  cbn [truthy negb] in Hrun.
  set (s1 := State (<[pa := Obj (Some rest) (props opa)]> (heap s))
               (this s) (trace s)) in *.
  assert (H01 : assigns_id l s s1) by (by apply assigns_id_elems).
  assert (Hpa1 : items_of (heap s1) (VRef pa) = Some rest)
    by apply items_of_insert_eq.
  assert (Hra1 : items_of (heap s1) (VRef ra) = Some acc).
  { unfold s1. cbn [heap]. by rewrite items_of_insert_ne. }
  inv_bind Hrun as id0 s1' Hget.
  apply get_Ret_inv in Hget as [-> Hid0].
  destruct (truthy id0) eqn:Htid.
  - (* the entry has an id *)
    inv_bind Hrun as u s2 Hpush.
    apply push_Ret_inv in Hpush as (a & ora & acc' & [= <-] & Hora & Hacc & ->).
    destruct (items_of_cell _ _ _ Hra1) as (ora' & Hora' & Hacc').
    rewrite Hora in Hora'. injection Hora' as <-. rewrite Hacc in Hacc'.
    injection Hacc' as ->.
    eexists. split; [exact Hrun|]. cbn [heap this].
    split; [by rewrite items_of_insert_ne|].
    split; [apply items_of_insert_eq|].
    split.
    { eapply assigns_id_trans; [exact H01|]. by apply assigns_id_elems. }
    split; [done|]. split; [done|]. split.
    + intros c old Hc Hold. split; [done|]. exists []. rewrite app_nil_r.
      assert (c ≠ pa) by (intros ->; by apply Hcp).
      assert (c ≠ ra) by (intros ->; by apply Hcr).
      rewrite items_of_insert_ne by done. unfold s1. cbn [heap].
      by rewrite items_of_insert_ne.
    + left. exists id0. split; [|done].
      destruct (H01 _ _ Hl) as (ol1 & Hl1 & [E|[_ Hhas]]).
      * rewrite (field_id _ _ _ Hl1) in Hid0. rewrite (field_id _ _ _ Hl).
        by rewrite <- E.
      * rewrite (field_id _ _ _ Hl1) in Hid0. rewrite (field_id _ _ _ Hl).
        unfold s1 in Hl1. cbn [heap] in Hl1.
        destruct (decide (l = pa)) as [->|Hlp].
        -- rewrite lookup_insert_eq in Hl1. rewrite Ha in Hl.
           by simplify_eq.
        -- rewrite lookup_insert_ne in Hl1 by done. by simplify_eq.
  - (* the folder is created *)
    inv_bind Hrun as name s1' Hname.
    apply get_Ret_inv in Hname as [-> _].
    inv_bind Hrun as id sf Hcf.
    pose proof (createFolder_grows W name info s1) as [Hgrow Hthis].
    rewrite Hcf in Hgrow, Hthis. cbn [snd] in Hgrow, Hthis.
    inv_bind Hrun as u s3 Hset.
    apply set_Ret_inv in Hset as (l0 & olf & [= <-] & Hlf & ->).
    inv_bind Hrun as u2 s4 Hpush.
    apply push_Ret_inv in Hpush as (a & ora & acc' & [= <-] & Hora & Hacc & ->).
    cbn [heap this trace] in *.
    set (h3 := <[l := Obj (elems olf) (set_prop (props olf) "id" id)]> (heap sf))
      in *.
    assert (Hra3 : items_of h3 (VRef ra) = Some acc).
    { unfold h3. rewrite items_of_insert_props by done.
      by apply (items_of_weaken _ _ _ _ Hgrow). }
    assert (acc' = acc) as ->.
    { unfold items_of in Hra3. rewrite Hora in Hra3. simpl in Hra3. congruence. }
    set (s4 := State (<[ra := Obj (Some (acc ++ [VRef l])) (props ora)]> h3)
                 (this sf) (trace sf)) in *.
    assert (Hpa4 : items_of (heap s4) (VRef pa) = Some rest).
    { unfold s4, h3. cbn [heap]. rewrite items_of_insert_ne by done.
      rewrite items_of_insert_props by done.
      by apply (items_of_weaken _ _ _ _ Hgrow). }
    assert (Hra4 : items_of (heap s4) (VRef ra) = Some (acc ++ [VRef l]))
      by apply items_of_insert_eq.
    assert (H04 : assigns_id l s s4).
    { eapply assigns_id_trans; [exact H01|].
      eapply assigns_id_trans; [apply (assigns_id_grow _ _ _ Hgrow)|].
      eapply (assigns_id_trans _ _ (State h3 (this sf) (trace sf))).
      - by apply assigns_id_set.
      - by apply (assigns_id_elems l (State h3 (this sf) (trace sf))). }
    assert (Hl4 : has_id_key (heap s4) (VRef l)).
    { destruct (assigns_id_elems l (State h3 (this sf) (trace sf)) ra ora
                  (Some (acc ++ [VRef l])) (this sf) (trace sf) Hora l
                  (Obj (elems olf) (set_prop (props olf) "id" id)))
        as (o4 & Ho4 & Hp4).
      { unfold h3. cbn [heap]. by rewrite lookup_insert_eq. }
      exists l, o4. split; [done|]. split; [exact Ho4|].
      destruct Hp4 as [E|[_ E]]; [|done]. rewrite E. apply has_set_prop. }
    assert (Hthis4 : this s4 = this s) by exact Hthis.
    assert (Hframe : ∀ c0 old0, c0 ≠ pa → c0 ≠ ra →
              items_of (heap s) (VRef c0) = Some old0 →
              items_of (heap s4) (VRef c0) = Some old0).
    { intros c0 old0 H1 H2 H0. unfold s4, h3. cbn [heap].
      rewrite items_of_insert_ne by done.
      rewrite items_of_insert_props by done.
      apply (items_of_weaken _ _ _ _ Hgrow). unfold s1. cbn [heap].
      by rewrite items_of_insert_ne. }
    clearbody s4. clear Hora Hacc Hra3.
    inv_bind Hrun as i s5 Hi. apply get_this_inv in Hi as [-> ->].
    inv_bind Hrun as u3 s6 Hcache.
    inv_bind Hrun as i2 s7 Hi2. apply get_this_inv in Hi2 as [-> ->].
    inv_bind Hrun as u4 s8 Hpush.
    apply push_Ret_inv in Hpush as (c & oc & old & Hc & Hoc & Hold & ->).
    destruct (truthy (cachedFolders (this s4))) eqn:Hcached; cbn [negb] in Hcache.
    + (* the cache exists *)
      apply ret_inv in Hcache as [_ ->].
      rewrite Hthis4 in Hc, Hcached.
      assert (c ≠ pa) by (intros ->; by apply Hcp).
      assert (c ≠ ra) by (intros ->; by apply Hcr).
      assert (H48 : assigns_id l s4
                (State (<[c := Obj (Some (old ++ [VRef l])) (props oc)]> (heap s4))
                   (this s4) (trace s4))) by (by apply assigns_id_elems).
      eexists. split; [exact Hrun|]. cbn [heap this]. rewrite Hthis4.
      split; [by rewrite items_of_insert_ne|].
      split; [by rewrite items_of_insert_ne|].
      split; [by eapply assigns_id_trans|].
      split; [done|]. split; [done|]. split.
      * intros c0 old0 Hc0 Hold0. split; [done|].
        rewrite Hc in Hc0. injection Hc0 as <-.
        pose proof (Hframe c old0 ltac:(done) ltac:(done) Hold0) as H4.
        unfold items_of in H4. rewrite Hoc in H4. simpl in H4.
        rewrite Hold in H4. injection H4 as ->.
        exists [VRef l]. apply items_of_insert_eq.
      * right. split.
        -- exact (has_id_key_keeps _ _ _ (assigns_keeps_ids _ _ _ H48) Hl4).
        -- exists c, old. split; [done|]. apply items_of_insert_eq.
    + (* the cache is created *)
      inv_bind Hcache as fl sx Halloc. rewrite alloc_Ret in Halloc.
      injection Halloc as <- <-. rewrite set_cachedFolders_run in Hcache.
      injection Hcache as <- <-. cbn [heap this trace cachedFolders] in *.
      injection Hc as <-. rewrite lookup_insert_eq in Hoc.
      injection Hoc as <-. cbn [elems array] in Hold. injection Hold as <-.
      set (c := fresh (dom (heap s4))) in *.
      assert (Hfresh : heap s4 !! c = None) by apply fresh_None.
      assert (c ≠ pa).
      { intros ->. unfold items_of in Hpa4. by rewrite Hfresh in Hpa4. }
      assert (c ≠ ra).
      { intros ->. unfold items_of in Hra4. by rewrite Hfresh in Hra4. }
      rewrite insert_insert_eq in Hrun.
      assert (H48 : ∀ i t, assigns_id l s4
                (State (<[c := Obj (Some ([] ++ [VRef l])) (props (array []))]>
                          (heap s4)) i t)).
      { intros i t. apply assigns_id_grow. cbn [heap].
        by apply insert_subseteq. }
      eexists. split; [exact Hrun|]. cbn [heap this cachedFolders].
      split; [by rewrite items_of_insert_ne|].
      split; [by rewrite items_of_insert_ne|].
      split; [eapply assigns_id_trans; [exact H04|apply H48]|].
      split; [congruence|]. split; [congruence|]. split.
      * intros c0 old0 Hc0 _. rewrite Hthis4, Hc0 in Hcached. done.
      * right. split.
        -- exact (has_id_key_keeps _ _ _
                    (assigns_keeps_ids _ _ _ (H48 (this s4) (trace s4))) Hl4).
        -- exists c, []. split; [done|]. apply items_of_insert_eq.
Qed.

Lemma objects_assigns l s s' vs :
  assigns_id l s s' → objects (heap s) vs → objects (heap s') vs.
Proof.
  intros H Hvs. eapply Forall_impl; [exact Hvs|].
  intros x (l' & -> & [o Hl']).
  destruct (H _ _ Hl') as (o' & Ho' & _). eauto.
Qed.

(** A run of [_createParents] that returns, on a list of objects. *)
Lemma createParents_drains W info pa ra : pa ≠ ra → ∀ vs n s acc v s',
  items_of (heap s) (VRef pa) = Some vs →
  items_of (heap s) (VRef ra) = Some acc →
  cachedFolders (this s) ≠ VRef pa →
  cachedFolders (this s) ≠ VRef ra →
  objects (heap s) vs →
  _createParents W n (VRef pa) info (VRef ra) s = (Ret v, s') →
  v = VRef ra ∧
  items_of (heap s') (VRef pa) = Some [] ∧
  items_of (heap s') (VRef ra) = Some (acc ++ vs) ∧
  keeps_ids s s' ∧
  (∀ c old, cachedFolders (this s) = VRef c →
     items_of (heap s) (VRef c) = Some old →
     cachedFolders (this s') = VRef c ∧
     ∃ new, items_of (heap s') (VRef c) = Some (old ++ new)) ∧
  (∀ x, x ∈ vs → ¬ has_id (heap s) x → has_id_key (heap s') x ∧ cached s' x).
Proof.
  intros Hne. induction vs as [|x rest IH];
    intros n s acc v s' Hpa Hra Hcp Hcr Hobj Hrun.
  - destruct n as [|n]; [done|]. cbn [_createParents] in Hrun.
    inv_bind Hrun as parent s1 Hshift.
    apply shift_Ret_inv in Hshift
      as (a & opa & vs0 & [= <-] & Ha & Hvs0 & Hcase).
    destruct (items_of_cell _ _ _ Hpa) as (opa' & Ha' & Hvs').
    rewrite Ha in Ha'. injection Ha' as <-. rewrite Hvs0 in Hvs'.
    injection Hvs' as ->.
    destruct Hcase as [(_ & -> & ->)|(rest' & ? & _)]; [|done].
    cbn [truthy negb] in Hrun. apply ret_inv in Hrun as [-> ->].
    split; [done|]. split; [done|]. split; [by rewrite app_nil_r|].
    split; [by apply (assigns_keeps_ids ra), assigns_id_refl|].
    split.
    + intros c old Hc Hold. split; [done|]. exists []. by rewrite app_nil_r.
    + intros x Hx. by apply elem_of_nil in Hx.
  - destruct n as [|n]; [done|].
    apply Forall_cons in Hobj as [(l & -> & Hl) Hobj].
    destruct (createParents_iteration W info pa ra n s l rest acc v s'
                Hne Hpa Hra Hcp Hcr Hl Hrun)
      as (s2 & Hrun2 & Hpa2 & Hra2 & H02 & Hcp2 & Hcr2 & Hcache2 & Hhead).
    destruct (IH n s2 (acc ++ [VRef l]) v s' Hpa2 Hra2 Hcp2 Hcr2
                (objects_assigns _ _ _ _ H02 Hobj) Hrun2)
      as (Hv & Hpa' & Hra' & Hkeep & Hcache & Hcreated).
    assert (Hfirst : ¬ has_id (heap s) (VRef l) →
              has_id_key (heap s') (VRef l) ∧ cached s' (VRef l)).
    { intros Hno. destruct Hhead as [?|[Hkey (c & old & Hc & Hold)]]; [done|].
      split; [by apply (has_id_key_keeps s2)|].
      destruct (Hcache _ _ Hc Hold) as (Hc' & new & Hnew).
      exists c, ((old ++ [VRef l]) ++ new). split; [done|]. split; [done|].
      rewrite !elem_of_app. left. right. by apply list_elem_of_singleton. }
    split; [done|]. split; [done|].
    split; [by rewrite Hra', <- app_assoc|].
    split; [eapply keeps_ids_trans; [by eapply assigns_keeps_ids|done]|].
    split.
    + intros c old Hc Hold.
      destruct (Hcache2 _ _ Hc Hold) as (Hc2 & new2 & Hnew2).
      destruct (Hcache _ _ Hc2 Hnew2) as (Hc' & new & Hnew).
      split; [done|]. exists (new2 ++ new). by rewrite app_assoc.
    + intros x Hx Hno. apply elem_of_cons in Hx as [->|Hx]; [by apply Hfirst|].
      pose proof Hobj as Hobj'.
      rewrite Forall_forall in Hobj'.
      destruct (Hobj' _ Hx) as (l' & -> & [o' Hl']).
      destruct (decide (l' = l)) as [->|Hll]; [by apply Hfirst|].
      apply Hcreated; [done|]. intros Hhas. apply Hno.
      destruct (H02 _ _ Hl') as (o2 & Hl2 & [E|[? _]]); [|done].
      by eapply has_id_same_props.
Qed.

Lemma with_defaults_mimeType i type_ ps :
  truthy (get_prop ps "mimeType") = false →
  get_prop (with_defaults i type_ ps) "mimeType" = js_or type_ (fileType i).
Proof.
  intros Hm. unfold with_defaults.
  destruct (negb (truthy (get_prop ps "description")) &&
            truthy (fileDescription i)).
  - rewrite get_set_prop_ne by done. rewrite Hm. cbn [negb].
    apply get_set_prop_eq.
  - rewrite Hm. cbn [negb]. apply get_set_prop_eq.
Qed.

Lemma with_defaults_description i type_ ps :
  truthy (get_prop ps "description") = false →
  truthy (fileDescription i) = true →
  get_prop (with_defaults i type_ ps) "description" = fileDescription i.
Proof.
  intros Hd Hf. unfold with_defaults. rewrite Hd, Hf. cbn [negb andb].
  destruct (negb (truthy (get_prop _ "mimeType"))).
  - rewrite get_set_prop_ne by done. apply get_set_prop_eq.
  - apply get_set_prop_eq.
Qed.


(** ** The renderer's table of pending promises *)

Module ArcElectronDriveFacts.
Import ArcElectronDrive.

Lemma count_calls_app p l1 l2 :
  count_calls p (l1 ++ l2) = (count_calls p l1 + count_calls p l2)%nat.
Proof.
  induction l1 as [|[c v] l1 IH]; simpl; [done|]. rewrite IH. lia.
Qed.

(** *** The keys of the ids that the counter gives *)

Lemma pretty_N_go_digit x : ∀ s,
  (0 < x)%N → s = "" ∨ starts_with_digit s = true →
  starts_with_digit (pretty_N_go x s) = true.
Proof.
  induction (N.lt_wf_0 x) as [x _ IH]; intros s Hx Hs.
  rewrite pretty_N_go_step by done.
  assert (Hc : starts_with_digit
                 (String (pretty_N_char (x `mod` 10)) s) = true).
  { unfold pretty_N_char. by repeat case_match. }
  destruct (N.eq_0_gt_0_cases (x `div` 10)%N) as [->|Hd].
  - by rewrite pretty_N_go_0.
  - apply IH; [by apply N.div_lt|done|by right].
Qed.

Lemma pretty_Z_digit n : 0 ≤ n → starts_with_digit (pretty n) = true.
Proof.
  intros Hn. destruct n as [|p|p]; [done| |lia].
  unfold pretty, pretty_Z, pretty, pretty_positive, pretty, pretty_N.
  rewrite decide_False by done. apply pretty_N_go_digit; [lia|by left].
Qed.

Lemma key_is_digits n : 0 ≤ n ≤ 2 ^ 53 → Number_toString n = pretty n.
Proof.
  intros [H0 H53]. destruct n as [|p|p]; [done| |lia].
  assert (Z.pos p < 2 ^ 53 ∨ Z.pos p = 2 ^ 53) as [Hlt| ->] by lia.
  - unfold Number_toString, digits_of.
    by rewrite (proj2 (Z.ltb_lt _ _) Hlt).
  - by vm_compute.
Qed.

Lemma key_inj a b :
  0 ≤ a ≤ 2 ^ 53 → 0 ≤ b ≤ 2 ^ 53 →
  Number_toString a = Number_toString b → a = b.
Proof.
  intros Ha Hb. rewrite !key_is_digits by done. apply pretty_Z_inj.
Qed.

Lemma key_not_inherited n :
  0 ≤ n ≤ 2 ^ 53 → Number_toString n ∉ Object_prototype.
Proof.
  intros Hn Hin. rewrite key_is_digits in Hin by done.
  pose proof (pretty_Z_digit n (proj1 Hn)) as Hd.
  unfold Object_prototype in Hin.
  repeat (apply elem_of_cons in Hin as [Hin|Hin];
          [by rewrite Hin in Hd|]).
  by apply elem_of_nil in Hin.
Qed.

Lemma next_index_bounds i :
  0 ≤ i ≤ 2 ^ 53 → 1 ≤ next_index i ≤ 2 ^ 53 ∧ i ≤ next_index i.
Proof.
  intros Hi. unfold next_index.
  destruct (i <? 2 ^ 53) eqn:E; [apply Z.ltb_lt in E|apply Z.ltb_ge in E]; lia.
Qed.

(** *** Reachable states *)

Lemma well_formed_constructor : well_formed constructor.
Proof.
  unfold well_formed, constructor, invocations; simpl.
  repeat split; intros; try done; try lia.
  all: try (rewrite lookup_empty in *; done).
Qed.

(** A new promise registered under the id that the counter gives. *)
Lemma well_formed_register r s :
  well_formed r →
  well_formed
    (Renderer (<[Number_toString (next_index (_index r)) :=
                   Pending (ResolveOf (created r)) (RejectOf (created r))]>
                 (_promises r))
       (next_index (_index r)) s (S (created r)) (invoked r)).
Proof.
  intros (Htab & Hinj & Honce & Hfresh & Hidx).
  destruct (next_index_bounds _ Hidx) as [Hnext Hle].
  unfold well_formed, invocations in *; cbn [_promises _index created invoked].
  split; [|split; [|split; [|split]]].
  - intros k e Hk.
    destruct (decide (k = Number_toString (next_index (_index r)))) as [->|Hne].
    + rewrite lookup_insert_eq in Hk. injection Hk as <-. split.
      * exists (next_index (_index r)). split; [lia|done].
      * exists (created r). split; [done|]. split; [lia|by apply Hfresh].
    + rewrite lookup_insert_ne in Hk by done.
      destruct (Htab _ _ Hk) as ((id & Hid & ->) & p & -> & Hp & H0). split.
      * exists id. split; [lia|done].
      * exists p. split; [done|]. split; [lia|done].
  - intros k1 k2 e1 e2 H1 H2 Heq.
    destruct (decide (k1 = Number_toString (next_index (_index r)))) as [->|Hne1];
      destruct (decide (k2 = Number_toString (next_index (_index r)))) as [->|Hne2];
      try done.
    + rewrite lookup_insert_eq in H1. rewrite lookup_insert_ne in H2 by done.
      injection H1 as <-. destruct (Htab _ _ H2) as (_ & p & -> & Hp & _).
      simpl in Heq. lia.
    + rewrite lookup_insert_eq in H2. rewrite lookup_insert_ne in H1 by done.
      injection H2 as <-. destruct (Htab _ _ H1) as (_ & p & -> & Hp & _).
      simpl in Heq. lia.
    + rewrite lookup_insert_ne in H1, H2 by done. eauto.
  - done.
  - intros p Hp. apply Hfresh. lia.
  - lia.
Qed.

Lemma well_formed_dispatch r :
  well_formed r → well_formed (_listAppFoldersHandler r).2.
Proof. intros H. exact (well_formed_register r _ H). Qed.

Lemma well_formed_deliver r k (pick : pending → callback) v :
  (∀ p, promise_of (pick (Pending (ResolveOf p) (RejectOf p))) = p) →
  well_formed r →
  ∀ e, _promises r !! k = Some e →
  well_formed (Renderer (delete k (_promises r)) (_index r) (sent r)
                 (created r) (invoked r ++ [(pick e, v)])).
Proof.
  intros Hpick (Htab & Hinj & Honce & Hfresh & Hidx) e He.
  destruct (Htab _ _ He) as (Hid & p & -> & Hp & H0).
  pose proof (Hpick p) as Hpk.
  unfold well_formed, invocations in *; cbn [_promises _index created invoked].
  split; [|split; [|split; [|split]]].
  - intros k' e' Hk'. apply lookup_delete_Some in Hk' as [Hne Hk'].
    destruct (Htab _ _ Hk') as (Hid' & q & -> & Hq & Hq0).
    split; [done|]. exists q. split; [done|]. split; [done|].
    rewrite count_calls_app, Hq0. simpl. rewrite Hpk.
    destruct (decide (p = q)) as [->|]; [|done].
    exfalso. apply Hne. by eapply Hinj.
  - intros k1 k2 e1 e2 [_ H1]%lookup_delete_Some [_ H2]%lookup_delete_Some.
    eauto.
  - intros q. rewrite count_calls_app. simpl. rewrite Hpk.
    destruct (decide (p = q)) as [->|]; [rewrite H0; lia|].
    specialize (Honce q). lia.
  - intros q Hq. rewrite count_calls_app. simpl. rewrite Hpk.
    rewrite Hfresh by done. destruct (decide (p = q)); [lia|done].
  - done.
Qed.

Lemma well_formed_step h r e : well_formed r → well_formed (step h r e).
Proof.
  intros Hwf. destruct e as [|id v|id v]; simpl.
  - by apply well_formed_dispatch.
  - unfold _mainResultHandler.
    destruct (_promises r !! String_ h id) as [e|] eqn:He.
    + by apply (well_formed_deliver r _ resolve).
    + by destruct (bool_decide _).
  - unfold _mainErrorHandler.
    destruct (_promises r !! String_ h id) as [e|] eqn:He.
    + by apply (well_formed_deliver r _ reject).
    + by destruct (bool_decide _).
Qed.

Lemma well_formed_run h es : well_formed (run h es).
Proof.
  unfold run. induction es as [|e es IH] using rev_ind; simpl.
  - apply well_formed_constructor.
  - rewrite foldl_app. simpl. by apply well_formed_step.
Qed.

(** In a reachable state no key of the table is an inherited name. *)
Lemma registered_not_inherited r k e :
  well_formed r → _promises r !! k = Some e → k ∉ Object_prototype.
Proof.
  intros (Htab & _ & _ & _ & Hidx) Hk.
  destruct (Htab _ _ Hk) as ((id & Hid & ->) & _).
  apply key_not_inherited. lia.
Qed.

(** While the counter is below [2^53] the next id is not in use. *)
Lemma next_key_unused r :
  well_formed r → _index r < 2 ^ 53 →
  _promises r !! Number_toString (next_index (_index r)) = None.
Proof.
  intros (Htab & _ & _ & _ & Hidx) Hlt.
  destruct (_promises r !! _) as [e|] eqn:E; [|done].
  destruct (Htab _ _ E) as ((id & Hid & Hkey) & _).
  unfold next_index in Hkey. rewrite (proj2 (Z.ltb_lt _ _) Hlt) in Hkey.
  apply key_inj in Hkey; lia.
Qed.

(** *** Settlement *)

Lemma settle_unsettled p calls :
  count_calls p calls = 0%nat → settle p calls = Unsettled.
Proof.
  induction calls as [|[[q|q] v] calls IH]; simpl; [done|..];
    destruct (decide (q = p)); try done; intros; apply IH; lia.
Qed.

Lemma settle_app p calls more :
  settle p calls ≠ Unsettled → settle p (calls ++ more) = settle p calls.
Proof.
  induction calls as [|[[q|q] v] calls IH]; simpl; [done|..];
    destruct (decide (q = p)); auto.
Qed.

Lemma settle_app_unsettled p calls more :
  settle p calls = Unsettled → settle p (calls ++ more) = settle p more.
Proof.
  induction calls as [|[[q|q] v] calls IH]; simpl; [done|..];
    destruct (decide (q = p)); auto; done.
Qed.

Lemma invoked_step h r e : ∃ more, invoked (step h r e) = invoked r ++ more.
Proof.
  destruct e as [|id v|id v]; simpl.
  - exists []. by rewrite app_nil_r.
  - unfold _mainResultHandler. destruct (_promises r !! _); simpl; eauto.
    exists []. rewrite app_nil_r. by destruct (bool_decide _).
  - unfold _mainErrorHandler. destruct (_promises r !! _); simpl; eauto.
    exists []. rewrite app_nil_r. by destruct (bool_decide _).
Qed.

Lemma invoked_steps h es :
  ∀ r, ∃ more, invoked (foldl (step h) r es) = invoked r ++ more.
Proof.
  induction es as [|e es IH]; intros r; simpl.
  - exists []. by rewrite app_nil_r.
  - destruct (IH (step h r e)) as [m1 H1].
    destruct (invoked_step h r e) as [m2 H2].
    exists (m2 ++ m1). by rewrite H1, H2, app_assoc.
Qed.

Lemma key_of_number h n : String_ h (VNum n) = Number_toString n.
Proof. done. Qed.



End ArcElectronDriveFacts.

(** * Further properties *)

(** ** Promises that always settle *)

Lemma settles_ret {A} (a : A) : settles (ret a).
Proof. by intros s. Qed.

Lemma settles_throw {A} e : settles (@throw A e).
Proof. by intros s. Qed.

Lemma settles_bind {A B} (m : M A) (k : A → M B) :
  settles m → (∀ a, settles (k a)) → settles (bind m k).
Proof.
  intros Hm Hk s. unfold bind. specialize (Hm s).
  destruct (m s) as [[a|e|] s1]; simpl in *; [apply Hk|done..].
Qed.

Lemma settles_try_catch {A} (m : M A) handler :
  settles m → (∀ e, settles (handler e)) → settles (try_catch m handler).
Proof.
  intros Hm Hh s. unfold try_catch. specialize (Hm s).
  destruct (m s) as [[a|e|] s1]; simpl in *; [done|apply Hh|done].
Qed.

Lemma settles_get v k : settles (get v k).
Proof. intros s. unfold get. by destruct (field (heap s) v k). Qed.

Lemma settles_alloc o : settles (alloc o).
Proof. by intros s. Qed.

Lemma settles_emit e : settles (emit e).
Proof. by intros s. Qed.

Lemma settles_from_json j : settles (from_json j).
Proof. intros s. by destruct (from_json_run j s) as (v & h & -> & _). Qed.

Lemma settles_parse W text : settles (parse W text).
Proof.
  unfold parse. destruct (JSON_parse W text);
    [apply settles_from_json|apply settles_throw].
Qed.

Lemma settles_ask_oauth W e : settles (ask_oauth W e).
Proof.
  unfold ask_oauth. apply settles_bind; [apply settles_emit|]. intros _ s.
  destruct (oauth W (trace s)) as [[j|]|x]; [apply settles_from_json|done..].
Qed.

Lemma settles_auth W x : settles (auth W x).
Proof.
  unfold auth. destruct (truthy x); [|apply settles_ask_oauth].
  apply settles_bind; [apply settles_get|]. intros token.
  destruct (truthy token); [apply settles_ret|apply settles_ask_oauth].
Qed.

Lemma settles_net_request W r : settles (net_request W r).
Proof.
  unfold net_request. apply settles_bind; [apply settles_emit|]. intros _ s.
  by destruct (net W (trace s)).
Qed.

Lemma settles_report_error requestId cause :
  settles (report_error requestId cause).
Proof.
  unfold report_error. apply settles_bind; [|intros; apply settles_emit].
  destruct cause; [apply settles_alloc|apply settles_ret].
Qed.

Ltac settles_step :=
  lazymatch goal with
  | |- settles (bind _ _) => apply settles_bind; [|intros ?]
  | |- settles (try_catch _ _) => apply settles_try_catch; [|intros ?]
  | |- settles (ret _) => apply settles_ret
  | |- settles (throw _) => apply settles_throw
  | |- settles (get _ _) => apply settles_get
  | |- settles (alloc _) => apply settles_alloc
  | |- settles (emit _) => apply settles_emit
  | |- settles (parse _ _) => apply settles_parse
  | |- settles (auth _ _) => apply settles_auth
  | |- settles (net_request _ _) => apply settles_net_request
  | |- settles (report_error _ _) => apply settles_report_error
  | |- settles (if ?b then _ else _) => destruct b
  end.

(** ** [_downloadFile], [getFile] and [_getFileHandler] *)

Lemma grown_stable s : alloc_stable (grown s).
Proof.
  intros s' h tr [Hsub Hthis] Hh. split; [by etrans|done].
Qed.

Lemma failure_text_settles W body : settles (failure_text W body).
Proof.
  unfold failure_text. repeat settles_step. by intros s.
Qed.

Lemma failure_text_run W body s :
  ∃ text h, failure_text W body s = (Ret text, State h (this s) (trace s)) ∧
            heap s ⊆ h.
Proof.
  assert (Hk : keeps (grown s) (λ _, False) (failure_text W body) anything).
  { pose proof (grown_stable s) as Ha. unfold failure_text.
    intros s0 H0. unfold try_catch.
    match goal with |- context [?m s0] =>
      assert (Hm : keeps (grown s) (λ _, False) m anything) end.
    { keeps_step; [by apply keeps_parse|]. repeat keeps_step.
      intros s1 H1. exists []. simpl. rewrite app_nil_r.
      split; [done|]. split; [constructor|]. split; [exact H1|done]. }
    destruct (Hm s0 H0) as (d & Ht & Hd & HI & _).
    match goal with |- context [?m s0] => destruct (m s0) as [[a|e|] s1] end;
      simpl in *; exists d; (split; [done|]); (split; [done|]);
      (split; [exact HI|done]). }
  destruct (Hk s) as (d & Ht & Hd & [Hsub Hthis] & _); [by split|].
  pose proof (failure_text_settles W body s) as Hs.
  destruct d as [|e d]; [|by apply Forall_cons in Hd as [[] _]].
  rewrite app_nil_r in Ht.
  assert (Hret : ∃ text, (failure_text W body s).1 = Ret text).
  { unfold failure_text, try_catch in *.
    match goal with |- context [?m s] => destruct (m s) as [[a|e|] s1] end;
      simpl in *; eauto. done. }
  destruct Hret as [text Hret].
  destruct (failure_text W body s) as [out [h i t]]. simpl in *. subst.
  eauto.
Qed.


Lemma net_request_run W r s :
  net_request W r s =
    (match net W (trace s ++ [NetRequest r]) with
     | OnResponse x => Ret x
     | OnError x => Throw x
     end, State (heap s) (this s) (trace s ++ [NetRequest r])).
Proof.
  unfold net_request, bind, emit. simpl.
  by destruct (net W (trace s ++ [NetRequest r])).
Qed.

Lemma downloadFile_run W auth_ id s token :
  field (heap s) auth_ "accessToken" = Some token →
  let s1 := State (heap s) (this s)
              (trace s ++ [NetRequest (download_request (heap s) token id)]) in
  _downloadFile W auth_ id s =
    match net W (trace s1) with
    | OnResponse r =>
        if 400 <=? statusCode r then
          (let! text := failure_text W (drain r) in throw (ErrorObj text)) s1
        else (Ret (VStr (drain r)), s1)
    | OnError x => (Throw x, s1)
    end.
Proof.
  intros Htoken s1. unfold _downloadFile.
  rewrite (bind_Ret _ _ _ _ _ (get_Ret _ _ _ _ Htoken)).
  unfold bind at 1. rewrite net_request_run.
  fold (download_request (heap s) token id). fold s1.
  change (trace s ++ [NetRequest (download_request (heap s) token id)])
    with (trace s1).
  destruct (net W (trace s1)) as [r|x]; [|done].
  by destruct (400 <=? statusCode r).
Qed.

Lemma failure_text_unparsed W body s :
  JSON_parse W body = None → failure_text W body s = (Ret body, s).
Proof.
  intros Hp. unfold failure_text, try_catch, bind, parse. by rewrite Hp.
Qed.

Lemma failure_text_primitive W body s j :
  JSON_parse W body = Some j →
  match j with JArr _ | JObj _ => False | _ => True end →
  failure_text W body s = (Ret body, s).
Proof.
  intros Hp Hj. unfold failure_text, try_catch, parse. rewrite Hp.
  destruct j; try done; unfold bind, from_json; simpl;
    by destruct s as [h i t].
Qed.

Lemma string_app_assoc (a b c : string) :
  ((a +:+ b) +:+ c = a +:+ (b +:+ c))%string.
Proof.
  induction a as [|x a IH]; [done|].
  change (String x ((a +:+ b) +:+ c) = String x (a +:+ (b +:+ c)))%string.
  by rewrite IH.
Qed.

Lemma alloc_members_reads ms : ∀ h k,
  match member ms k with
  | None => get_prop (alloc_members alloc_json ms h).1 k = VUndef
  | Some j =>
      ∃ h1, get_prop (alloc_members alloc_json ms h).1 k = (alloc_json j h1).1 ∧
            (alloc_json j h1).2 ⊆ (alloc_members alloc_json ms h).2
  end.
Proof.
  induction ms as [|[k' j] ms IH]; intros h k; [done|].
  cbn [member alloc_members].
  pose proof (alloc_members_subseteq ms (alloc_json j h).2) as Hsub.
  destruct (alloc_json j h) as [v h1] eqn:Ev. cbn [snd] in Hsub.
  specialize (IH h1 k).
  destruct (alloc_members alloc_json ms h1) as [ps h2] eqn:Ems.
  cbn [fst snd get_prop] in *. destruct (String.eqb k' k).
  - exists h. rewrite Ev. by split.
  - destruct (member ms k); [|done]. destruct IH as (h' & ? & ?). eauto.
Qed.

Lemma alloc_json_object_ref members h :
  ∃ l, (alloc_json (JObj members) h).1 = VRef l.
Proof.
  cbn [alloc_json]. destruct (alloc_members alloc_json members h). by eexists.
Qed.

Lemma object_reads ms h1 h :
  (alloc_json (JObj ms) h1).2 ⊆ h → reads h (alloc_json (JObj ms) h1).1 ms.
Proof.
  cbn [alloc_json]. pose proof (λ k, alloc_members_reads ms h1 k) as Hk.
  destruct (alloc_members alloc_json ms h1) as [ps h2]. cbn [fst snd] in *.
  intros Hsub k Hlen. exists (get_prop ps k). split.
  - assert (Hl : h !! fresh (dom h2) = Some (plain ps))
      by (eapply lookup_weaken; [apply lookup_insert_eq|done]).
    unfold field. by rewrite Hl.
  - specialize (Hk k). destruct (member ms k); [|done].
    destruct Hk as (h' & ? & _). eauto.
Qed.

Lemma array_reads items h1 h :
  (alloc_json (JArr items) h1).2 ⊆ h → reads h (alloc_json (JArr items) h1).1 [].
Proof.
  cbn [alloc_json]. destruct (alloc_items alloc_json items h1) as [vs h2].
  cbn [fst snd]. intros Hsub k Hlen. exists VUndef. split; [|done].
  assert (Hl : h !! fresh (dom h2) = Some (array vs))
    by (eapply lookup_weaken; [apply lookup_insert_eq|done]).
  unfold field. by rewrite Hl, Hlen.
Qed.

Lemma text_of_alloc j text h1 :
  text_of j = Some text →
  truthy (alloc_json j h1).1 = json_truthy j ∧
  ∀ h, String_ h (alloc_json j h1).1 = text.
Proof.
  destruct j as [|[]|n| | |]; intros [= <-]; done.
Qed.

Lemma falsy_alloc j h1 :
  json_truthy j = false → truthy (alloc_json j h1).1 = false.
Proof. destruct j as [|[]|n| | |]; done. Qed.

(** The statements that follow the choice of [tmp]. *)
Lemma failure_text_tail body tmp ms text s :
  reads (heap s) tmp ms → expected_text body ms = Some text →
  (let! message := get tmp "message" in
   if truthy message then
     let! code := get tmp "code" in
     let! code' := get tmp "code" in
     let! message := get tmp "message" in
     λ s, (Ret ((if truthy code then String_ (heap s) code' ++ ": " else "")
                ++ String_ (heap s) message)%string, s)
   else ret body) s = (Ret text, s).
Proof.
  intros Hreads Htext.
  destruct (Hreads "message" eq_refl) as (vm & Hm & Hvm).
  destruct (Hreads "code" eq_refl) as (vc & Hc & Hvc).
  unfold expected_text in Htext.
  rewrite (bind_Ret _ _ _ _ _ (get_Ret _ _ _ _ Hm)).
  destruct (member ms "message") as [m|].
  2: { subst vm. by injection Htext as <-. }
  destruct Hvm as [h1 ->].
  destruct (json_truthy m) eqn:Hmt; cbn [negb] in Htext.
  2: { rewrite (falsy_alloc _ _ Hmt). by injection Htext as <-. }
  destruct (text_of m) as [tm|] eqn:Htm; [|by destruct (member ms "code")].
  destruct (text_of_alloc m tm h1 Htm) as [Htruthy Hstr].
  rewrite Htruthy, Hmt.
  rewrite (bind_Ret _ _ _ _ _ (get_Ret _ _ _ _ Hc)).
  rewrite (bind_Ret _ _ _ _ _ (get_Ret _ _ _ _ Hc)).
  rewrite (bind_Ret _ _ _ _ _ (get_Ret _ _ _ _ Hm)).
  rewrite Hstr.
  destruct (member ms "code") as [c|].
  2: { subst vc. by injection Htext as <-. }
  destruct Hvc as [h2 ->].
  destruct (json_truthy c) eqn:Hct; cbn [negb] in Htext.
  2: { rewrite (falsy_alloc _ _ Hct). by injection Htext as <-. }
  destruct (text_of c) as [tc|] eqn:Htc; [|done].
  destruct (text_of_alloc c tc h2 Htc) as [Htruthy' Hstr'].
  rewrite Htruthy', Hct, Hstr'. injection Htext as <-.
  by rewrite string_app_assoc.
Qed.

Lemma failure_text_object W body s ms text :
  JSON_parse W body = Some (JObj ms) →
  expected_text body (report_of ms) = Some text →
  ∃ h, failure_text W body s = (Ret text, State h (this s) (trace s)).
Proof.
  intros Hp Htext. unfold failure_text, try_catch, parse. rewrite Hp.
  unfold bind at 1. unfold from_json.
  pose proof (object_reads ms (heap s)) as Htop.
  pose proof (λ k, alloc_members_reads ms (heap s) k) as Hk.
  cbn [alloc_json] in *.
  destruct (alloc_members alloc_json ms (heap s)) as [ps h2] eqn:Ems.
  cbn [fst snd] in *.
  set (l := fresh (dom h2)) in *.
  set (s1 := State (<[l := plain ps]> h2) (this s) (trace s)).
  assert (Hl : heap s1 !! l = Some (plain ps)) by apply lookup_insert_eq.
  assert (H2 : h2 ⊆ heap s1) by apply insert_fresh_subseteq.
  rewrite (bind_Ret _ _ _ _ _ (get_ref _ _ _ "error" Hl eq_refl)).
  cbn [props plain].
  assert (Hchoice : reads (heap s1)
            (if truthy (get_prop ps "error") then get_prop ps "error"
             else VRef l) (report_of ms)).
  { specialize (Hk "error"). unfold report_of.
    destruct (member ms "error") as [e|].
    - destruct Hk as (h1 & -> & Hsub).
      assert (Hsub1 : (alloc_json e h1).2 ⊆ heap s1) by (by etrans).
      destruct e as [|b|n|x|items|report].
      + by apply Htop.
      + destruct b; [|by apply Htop]. intros k Hlen. by exists VUndef.
      + cbn [alloc_json fst truthy json_truthy].
        destruct (negb (n =? 0)); [|by apply Htop].
        intros k Hlen. by exists VUndef.
      + cbn [alloc_json fst truthy json_truthy].
        destruct (negb (String.eqb x "")); [|by apply Htop].
        intros k Hlen. exists VUndef. unfold field. by rewrite Hlen.
      + assert (Ht : truthy (alloc_json (JArr items) h1).1 = true).
        { cbn [alloc_json]. by destruct (alloc_items _ _ _). }
        rewrite Ht. by apply array_reads.
      + assert (Ht : truthy (alloc_json (JObj report) h1).1 = true).
        { destruct (alloc_json_object_ref report h1) as [le ->]. done. }
        rewrite Ht. by apply object_reads.
    - rewrite Hk. by apply Htop. }
  rewrite (failure_text_tail body _ _ text s1 Hchoice Htext). eauto.
Qed.


Lemma report_error_run requestId cause s :
  ∃ payload h,
    report_error requestId cause s =
      (Ret tt, State h (this s)
                 (trace s ++ [Send error_channel requestId payload])).
Proof.
  unfold report_error. destruct cause as [m|v].
  - unfold bind at 1. rewrite alloc_Ret. simpl. eauto.
  - simpl. eauto.
Qed.

Lemma downloadFile_shape W auth_ id s :
  let out := _downloadFile W auth_ id s in
  this out.2 = this s ∧
  (trace out.2 = trace s ∨
   ∃ token, trace out.2 =
              trace s ++ [NetRequest (download_request (heap s) token id)]) ∧
  ((∃ text, out.1 = Ret (VStr text)) ∨ ∃ e, out.1 = Throw e).
Proof.
  intros out. subst out.
  destruct (field (heap s) auth_ "accessToken") as [token|] eqn:Htoken.
  - rewrite (downloadFile_run W auth_ id s token Htoken). cbn zeta.
    set (s1 := State _ _ _).
    destruct (net W (trace s1)) as [r|x].
    + destruct (400 <=? statusCode r).
      * destruct (failure_text_run W (drain r) s1) as (text & h & Hrun & _).
        unfold bind. rewrite Hrun. simpl. split; [done|]. split; [|eauto].
        right. by exists token.
      * simpl. split; [done|]. split; [|eauto]. right. by exists token.
    + simpl. split; [done|]. split; [|eauto]. right. by exists token.
  - unfold _downloadFile, bind, get. rewrite Htoken. simpl.
    split; [done|]. split; [by left|]. right. by eexists.
Qed.

Lemma getFile_run W id s :
  let s0 := State (heap s) (this s) (trace s ++ [GetAuthToken (VBool true)]) in
  getFile W id s =
    match oauth W (trace s0) with
    | Resolved (Some j) =>
        (let! info := from_json j in _downloadFile W info id) s0
    | Resolved None => _downloadFile W VUndef id s0
    | Rejected x => (Throw x, s0)
    end.
Proof.
  intros s0. unfold getFile, auth. cbn [truthy].
  unfold ask_oauth, bind, emit. cbn [heap this trace]. fold s0.
  change (trace s ++ [GetAuthToken (VBool true)]) with (trace s0).
  by destruct (oauth W (trace s0)) as [[j|]|x].
Qed.

Lemma getFile_shape W id s :
  let out := getFile W id s in
  this out.2 = this s ∧
  (∃ d, trace out.2 = trace s ++ GetAuthToken (VBool true) :: d ∧
        (d = [] ∨ ∃ h token, d = [NetRequest (download_request h token id)])) ∧
  ((∃ text, out.1 = Ret (VStr text)) ∨ ∃ e, out.1 = Throw e).
Proof.
  intros out. subst out. rewrite getFile_run. cbn zeta.
  set (s0 := State (heap s) (this s) (trace s ++ [GetAuthToken (VBool true)])).
  assert (Hdl : ∀ info s1, this s1 = this s → trace s1 = trace s0 →
    let out := _downloadFile W info id s1 in
    this out.2 = this s ∧
    (∃ d, trace out.2 = trace s ++ GetAuthToken (VBool true) :: d ∧
          (d = [] ∨ ∃ h token, d = [NetRequest (download_request h token id)])) ∧
    ((∃ text, out.1 = Ret (VStr text)) ∨ ∃ e, out.1 = Throw e)).
  { intros info s1 Hthis Htr.
    destruct (downloadFile_shape W info id s1) as (H1 & H2 & H3).
    cbn zeta. split; [congruence|]. split; [|done].
    destruct H2 as [H2|[token H2]]; rewrite H2, Htr; unfold s0; cbn [trace].
    - exists []. split; [done|by left].
    - eexists. rewrite <- app_assoc. split; [done|]. right. eauto. }
  destruct (oauth W (trace s0)) as [[j|]|x] eqn:Ho.
  - unfold bind. destruct (from_json_run j s0) as (v & h & Hrun & _).
    rewrite Hrun. by apply Hdl.
  - by apply Hdl.
  - simpl. split; [done|]. split; [|eauto]. exists []. split; [done|by left].
Qed.

(** X1. Every get-file request is answered, and answered once: the handler
    asks for a token interactively, makes at most one request, and sends
    one message, the text of the file on the result channel or the cause on
    the error channel.  Its promise is always fulfilled. *)
Theorem get_file_answered_once W requestId id s :
  let out := _getFileHandler W requestId id s in
  out.1 = Ret tt ∧ this out.2 = this s ∧
  ∃ d channel payload,
    trace out.2 =
      trace s ++ GetAuthToken (VBool true) :: d
              ++ [Send channel requestId payload] ∧
    (d = [] ∨ ∃ h token, d = [NetRequest (download_request h token id)]) ∧
    ((channel = result_channel ∧ ∃ text, payload = VStr text) ∨
     channel = error_channel).
Proof.
  intros out. subst out.
  remember (_getFileHandler W requestId id s) as out eqn:Hout.
  unfold _getFileHandler, try_catch, bind in Hout.
  destruct (getFile_shape W id s) as (Hthis & (d & Htr & Hd) & Hres).
  destruct (getFile W id s) as [[v|e|] s1]; simpl in *.
  - destruct Hres as [[text [= ->]]|[e [=]]]. subst out. simpl.
    split; [done|]. split; [done|].
    exists d, result_channel, (VStr text). rewrite Htr.
    split; [by rewrite <- app_assoc|]. split; [done|]. left. eauto.
  - destruct (report_error_run requestId e s1) as (payload & h & Hrun).
    rewrite Hrun in Hout. subst out. simpl. split; [done|]. split; [done|].
    exists d, error_channel, payload. rewrite Htr.
    split; [by rewrite <- app_assoc|]. split; [done|]. by right.
  - by destruct Hres as [[? ?]|[? ?]].
Qed.


(** X2. The outcome of [_downloadFile] once the response has come.  Below 400
    the promise is fulfilled with the text of the body as it was received:
    nothing is parsed and no object is made.  From 400 on it is always
    rejected with an [Error].  Its message is the body when the body is not
    JSON or is JSON but not an object.  For an object, the members are read
    by name, from its [error] when that is an object: the message is the
    body without a truthy [message], and else the [message], after the
    [code] and a colon when the [code] is truthy. *)
Theorem download_outcome W auth_ id s token r :
  field (heap s) auth_ "accessToken" = Some token →
  net W (trace s ++ [NetRequest (download_request (heap s) token id)])
    = OnResponse r →
  let out := _downloadFile W auth_ id s in
  let body := Buffer_concat (chunks r) in
  trace out.2 = trace s ++ [NetRequest (download_request (heap s) token id)] ∧
  this out.2 = this s ∧
  (statusCode r < 400 → out.1 = Ret (VStr body) ∧ heap out.2 = heap s) ∧
  (400 ≤ statusCode r →
     (∃ text, out.1 = Throw (ErrorObj text)) ∧
     (JSON_parse W body = None → out.1 = Throw (ErrorObj body)) ∧
     (∀ j, JSON_parse W body = Some j →
        match j with JArr _ | JObj _ => False | _ => True end →
        out.1 = Throw (ErrorObj body)) ∧
     (∀ ms text,
        JSON_parse W body = Some (JObj ms) →
        expected_text body (report_of ms) = Some text →
        out.1 = Throw (ErrorObj text))).
Proof.
  intros Htoken Hnet out body. subst out body.
  rewrite (downloadFile_run W auth_ id s token Htoken). cbn zeta.
  cbn [trace]. rewrite Hnet. rewrite drain_chunks.
  set (s1 := State _ _ _). set (body := Buffer_concat (chunks r)).
  destruct (400 <=? statusCode r) eqn:Hs.
  - apply Z.leb_le in Hs.
    destruct (failure_text_run W body s1) as (text & h & Hrun & _).
    rewrite (bind_Ret _ _ _ _ _ Hrun). cbn [fst snd trace this throw].
    split; [done|]. split; [done|]. split; [lia|]. intros _.
    split; [by eexists|]. split; [|split].
    + intros Hp. rewrite (failure_text_unparsed W body s1 Hp) in Hrun.
      by injection Hrun as <-.
    + intros j Hp Hj. rewrite (failure_text_primitive W body s1 j Hp Hj) in Hrun.
      by injection Hrun as <-.
    + intros ms text' Hp Htext.
      destruct (failure_text_object W body s1 ms text' Hp Htext)
        as [h' Hrun']. rewrite Hrun' in Hrun. by injection Hrun as <-.
  - apply Z.leb_gt in Hs. cbn [fst snd trace this heap].
    split; [done|]. split; [done|]. split; [done|]. lia.
Qed.

Lemma download_outcome_witness :
  (_downloadFile missing_file (VRef 1%positive) (VStr "f1") with_token).1 =
  Throw (ErrorObj "404: File not found").
Proof.
  refine (proj2 (proj2 (proj2 (proj2 (proj2 (proj2
    (download_outcome missing_file (VRef 1%positive) (VStr "f1") with_token
       (VStr "token-1") (Response 404 HAbsent [render not_found]) _ _)))
    _)))
    [("error",
      JObj [("errors",
             JArr [JObj [("domain", JStr "global");
                         ("reason", JStr "notFound");
                         ("message", JStr "File not found")]]);
            ("code", JNum 404);
            ("message", JStr "File not found")])]
    "404: File not found"%string _ _);
    try reflexivity; try done.
Defined.


(** ** [_dataSaveHandler] *)

Lemma keeps_silent {A} (m : M A) :
  keeps (λ _, True) (λ _, False) m anything → silent m.
Proof.
  intros H s. destruct (H s I) as (d & Ht & Hd & _).
  destruct d as [|e d]; [by rewrite app_nil_r in Ht|].
  by apply Forall_cons in Hd as [[] _].
Qed.

Lemma keeps_quiet {A} (m : M A) :
  keeps (λ _, True) not_send m anything → quiet m.
Proof. intros H s. destruct (H s I) as (d & Ht & Hd & _). eauto. Qed.

Lemma silent_createResource config : silent (_createResource config).
Proof.
  pose proof always_stable as Hw.
  pose proof (write_alloc_stable Hw) as Ha.
  apply keeps_silent. unfold _createResource.
  keeps_step; [keeps_step|]. keeps_step; [keeps_step|].
  keeps_step; [keeps_step; keeps_step|]. keeps_step; [keeps_step|].
  keeps_step; [keeps_step|].
  keeps_step; [keeps_step; [by apply keeps_set|keeps_step]|].
  keeps_step; [keeps_step|].
  keeps_step; [keeps_step; [by apply keeps_set|keeps_step]|].
  keeps_step.
Qed.

Lemma silent_createMedia config : silent (_createMedia config).
Proof.
  pose proof (write_alloc_stable always_stable) as Ha.
  apply keeps_silent. unfold _createMedia. repeat keeps_step.
Qed.

Lemma handshake_quiet token d : handshake token d → Forall not_send d.
Proof.
  intros [->|[[b ->]|(b & u & x & t & ->)]]; repeat constructor.
  all: unfold session_request; by destruct (truthy VUndef).
Qed.

Lemma quiet_create W resource media auth_ :
  quiet (create W resource media auth_).
Proof.
  intros s.
  destruct (keeps_then_create (I := λ _, True) (E := not_send)
              (L := Forall not_send) ltac:(constructor)
              W resource media auth_ anything anything always_stable)
    with (s := s) as (d1 & d2 & Ht & H1 & H2); try done.
  - apply keeps_auth; [apply (write_alloc_stable always_stable)|].
    by intros [].
  - intros info _. apply keeps_auth; [apply (write_alloc_stable always_stable)|].
    by intros [].
  - intros info name _.
    apply keeps_createFolder; [apply (write_alloc_stable always_stable)|..].
    + by intros [].
    + by intros t e [b ->].
  - intros info _. apply keeps_get.
  - intros token created s0 _ _.
    destruct (upload_steps_trace W token resource media created s0) as (d & ? & ?).
    exists d. split; [done|]. by eapply handshake_quiet.
  - exists (d1 ++ d2). split; [done|]. by apply Forall_app.
Qed.

Lemma quiet_update W fileId resource media auth_ :
  quiet (update W fileId resource media auth_).
Proof.
  pose proof always_stable as Hw.
  pose proof (write_alloc_stable Hw) as Ha.
  apply keeps_quiet. unfold update.
  keeps_step; [keeps_step|]. keeps_step; [keeps_step|].
  keeps_step. { keeps_step; [by apply keeps_set|keeps_step]. }
  keeps_step; [apply keeps_auth; [done|by intros []]|].
  keeps_step; [keeps_step|].
  keeps_step.
  { apply keeps__initializeSession; [done|]. by intros e [b ->];
      unfold session_request; destruct (truthy fileId). }
  keeps_step; [keeps_step|]. keeps_step; [keeps_step|].
  apply keeps__upload; [done|]. by intros e (b & t & ->).
Qed.

Lemma answered_bind {A} requestId (m : M A) (k : A → M unit) :
  silent m → (∀ a, answered requestId (k a)) → answered requestId (bind m k).
Proof.
  intros Hm Hk s. specialize (Hm s). unfold bind.
  destruct (m s) as [[a|e|] s1]; simpl in *.
  - destruct (Hk a s1) as (d & Ht & H). exists d. by rewrite Ht, Hm.
  - exists []. rewrite app_nil_r. by repeat split.
  - exists []. rewrite app_nil_r. by repeat split.
Qed.

Lemma answered_try requestId (op : M val) :
  quiet op →
  answered requestId
    (try_catch
       (let! result := op in emit (Send result_channel requestId result))
       (report_error requestId)).
Proof.
  intros Hop s. destruct (Hop s) as (d & Ht & Hd).
  unfold try_catch, bind. destruct (op s) as [[v|e|] s1]; simpl in *.
  - exists (d ++ [Send result_channel requestId v]).
    rewrite Ht, app_assoc. split; [done|]. split; [|by split].
    intros _. exists d, result_channel, v. eauto.
  - destruct (report_error_run requestId e s1) as (payload & h & ->). simpl.
    exists (d ++ [Send error_channel requestId payload]).
    rewrite Ht, app_assoc. split; [done|]. split; [|by split].
    intros _. exists d, error_channel, payload. eauto.
  - exists d. by repeat split.
Qed.

Lemma answered_dataSaveHandler W requestId config :
  answered requestId (_dataSaveHandler W requestId config).
Proof.
  unfold _dataSaveHandler.
  apply answered_bind. { apply keeps_silent, keeps_get. } intros auth_.
  apply answered_bind. { apply keeps_silent, keeps_get. } intros id.
  apply answered_bind; [apply silent_createResource|]. intros meta.
  apply answered_bind; [apply silent_createMedia|]. intros media.
  apply answered_try. destruct (truthy id);
    [apply quiet_update|apply quiet_create].
Qed.

(** X3. The handler of the data-save event answers at most once.  When it
    returns it has sent exactly one message for the request, as its last
    effect, on the result or on the error channel.  When it throws, which
    only the statements before its [try] block can cause, it has added
    nothing to the history: no token was asked for, no request was made and
    no message was sent (the defaults may already be written into the
    [meta] of the configuration).  When its promise stays pending it has
    sent no message.  In the last two cases the renderer is left without
    an answer. *)
Theorem data_save_answered_at_most_once W requestId config s :
  let out := _dataSaveHandler W requestId config s in
  ∃ d,
    trace out.2 = trace s ++ d ∧
    (out.1 = Ret tt →
       ∃ d0 channel payload,
         d = d0 ++ [Send channel requestId payload] ∧ Forall not_send d0 ∧
         (channel = result_channel ∨ channel = error_channel)) ∧
    (out.1 = Hang → Forall not_send d) ∧
    (∀ e, out.1 = Throw e → d = []).
Proof. apply answered_dataSaveHandler. Qed.


(** ** [update] *)

Lemma update_steps_trace W token fileId resource media s :
  ∃ d, trace (update_steps W token fileId resource media s).2 = trace s ++ d ∧
       handshake_for token fileId d.
Proof.
  unfold update_steps, bind.
  destruct (_initializeSession_effect W token resource fileId s)
    as (_ & _ & [[Ht Hr]|[b Ht]]).
  - destruct (_initializeSession W token resource fileId s) as [r s1].
    simpl in *. subst r. exists []. rewrite app_nil_r. split; [done|by left].
  - destruct (_initializeSession W token resource fileId s) as [[url|e|] s1];
      simpl in *; try (exists [NetRequest (session_request token fileId b)];
                       split; [done|right; left; eauto]).
    pose proof (get_state media "body" s1) as Hb.
    destruct (get media "body" s1) as [[body|e|] s2]; simpl in Hb; subst s2;
      try (exists [NetRequest (session_request token fileId b)];
           split; [done|right; left; eauto]).
    pose proof (get_state media "mimeType" s1) as Hm.
    destruct (get media "mimeType" s1) as [[mt|e|] s2]; simpl in Hm; subst s2;
      try (exists [NetRequest (session_request token fileId b)];
           split; [done|right; left; eauto]).
    pose proof (_upload_effect W token url body mt s1) as Hu.
    eexists. rewrite Hu, Ht, <- app_assoc. split; [done|].
    right; right. eauto 10.
Qed.

Lemma update_steps_grown W token fileId resource media s :
  grown s (update_steps W token fileId resource media s).2.
Proof.
  pose proof (grown_stable s) as Ha.
  destruct (λ H, keeps_bind (I := grown s) (E := λ _, True)
              (_initializeSession W token resource fileId)
              (λ url, let! body := get media "body" in
                      let! mimeType := get media "mimeType" in
                      _upload W token url body mimeType)
              anything anything
              (keeps__initializeSession W Ha token resource fileId
                 (λ _ _, I)) H s) as (d & _ & _ & H & _); try done.
  intros url _. keeps_step; [keeps_step|]. keeps_step; [keeps_step|].
  by apply keeps__upload.
Qed.

Lemma only_mimeType_refl resource s : only_mimeType resource s s.
Proof. intros l o Hl. eauto. Qed.

Lemma only_mimeType_grown resource s s1 s2 :
  only_mimeType resource s s1 → grown s1 s2 → only_mimeType resource s s2.
Proof.
  intros H1 [Hsub _] l o Hl. destruct (H1 l o Hl) as (o' & Hl' & Ho').
  exists o'. split; [|done]. by eapply lookup_weaken.
Qed.

(** The first statement of [create] and [update]. *)
Lemma default_mime_run {A} resource (k : M A) s :
  let m :=
    let! mt := get resource "mimeType" in
    let! i := get_this in
    (if negb (truthy mt) && truthy (mime i)
     then set resource "mimeType" (mime i) else ret tt) ;;
    k in
  ∃ s1, trace s1 = trace s ∧ this s1 = this s ∧ only_mimeType resource s s1 ∧
        (m s = k s1 ∨ m s = (Throw TypeError, s1)).
Proof.
  intros m. remember (m s) as out eqn:Hout. subst m.
  unfold bind at 1 in Hout. unfold get at 1 in Hout.
  destruct (field (heap s) resource "mimeType") as [mt|] eqn:Hmt.
  2: { exists s. split; [done|]. split; [done|].
       split; [apply only_mimeType_refl|by right]. }
  unfold bind at 1 in Hout. cbn [get_this] in Hout.
  destruct (negb (truthy mt) && truthy (mime (this s))) eqn:Hc.
  2: { exists s. split; [done|]. split; [done|].
       split; [apply only_mimeType_refl|by left]. }
  apply andb_true_iff in Hc as [Hmt' _]. apply negb_true_iff in Hmt'.
  unfold bind at 1 in Hout.
  destruct resource as [| | | | |l]; simpl in Hmt, Hout;
    try (exists s; split; [done|]; split; [done|];
         split; [apply only_mimeType_refl|by right]).
  unfold modify in Hout. destruct (heap s !! l) as [o|] eqn:Hl.
  2: { exists s. split; [done|]. split; [done|].
       split; [apply only_mimeType_refl|by right]. }
  assert (Hmo : mt = get_prop (props o) "mimeType").
  { unfold field in Hmt. rewrite Hl in Hmt.
    destruct o as [[vs|] ps]; simpl in *; congruence. }
  eexists. split; [|split; [|split; [|left; exact Hout]]]; [done..|].
  intros l' o' Hl'. cbn [heap].
  destruct (decide (l' = l)) as [->|Hne].
  - rewrite Hl in Hl'. injection Hl' as <-.
    rewrite lookup_insert_eq. eexists. split; [done|]. split; [done|].
    right. split; [done|]. split; [by rewrite <- Hmo|]. by eexists.
  - rewrite lookup_insert_ne by done. eauto.
Qed.


Lemma update_tail W fileId resource media auth_ s :
  let out :=
    (let! info := auth W auth_ in
     let! token := get info "accessToken" in
     update_steps W token fileId resource media) s in
  (∃ d1 d2 token, trace out.2 = trace s ++ d1 ++ d2 ∧ Forall is_oauth d1 ∧
                  handshake_for token fileId d2) ∧
  grown s out.2.
Proof.
  cbn zeta. split.
  - pose proof (write_alloc_stable always_stable) as Ha.
    destruct (keeps_then_bind (I := λ _, True) (E := is_oauth)
                (L := λ d, ∃ token, handshake_for token fileId d)
                ltac:(by exists VUndef; left)
                (auth W auth_)
                (λ info, let! token := get info "accessToken" in
                         update_steps W token fileId resource media)
                anything) with (s := s) as (d1 & d2 & Ht & H1 & token & H2);
      try done.
    + by apply keeps_auth.
    + intros info _.
      eapply keeps_then_bind; [by exists VUndef; left|apply keeps_get|].
      intros token _. apply keeps_then_last. intros s0 _.
      destruct (update_steps_trace W token fileId resource media s0)
        as (d & ? & ?). eauto.
    + eauto 10.
  - pose proof (grown_stable s) as Ha.
    destruct (λ H, keeps_bind (I := grown s) (E := λ _, True)
                (auth W auth_)
                (λ info, let! token := get info "accessToken" in
                         update_steps W token fileId resource media)
                anything anything (keeps_auth W Ha auth_ (λ _ _, I)) H s)
      as (d & _ & _ & H & _); try done.
    intros info _. keeps_step; [keeps_step|].
    unfold update_steps.
    keeps_step; [by apply keeps__initializeSession|].
    keeps_step; [keeps_step|]. keeps_step; [keeps_step|].
    by apply keeps__upload.
Qed.

(** X4. [update] resolves no folder: it asks for a token unless one is given,
    then opens the session for the file and uploads.  It leaves the folder
    cache alone, and writes nothing into the objects it is given but a
    missing [mimeType] of the resource: the [parents] of the resource are
    sent as they are. *)
Theorem update_resolves_no_folder W fileId resource media auth_ s :
  let out := update W fileId resource media auth_ s in
  (∃ d1 d2 token, trace out.2 = trace s ++ d1 ++ d2 ∧ Forall is_oauth d1 ∧
                  handshake_for token fileId d2) ∧
  this out.2 = this s ∧
  only_mimeType resource s out.2.
Proof.
  intros out. subst out.
  destruct (default_mime_run resource
              (let! info := auth W auth_ in
               let! token := get info "accessToken" in
               update_steps W token fileId resource media) s)
    as (s1 & Htr & Hthis & Hframe & Hrun).
  change (update W fileId resource media auth_ s) with
    ((let! mt := get resource "mimeType" in
      let! i := get_this in
      (if negb (truthy mt) && truthy (mime i)
       then set resource "mimeType" (mime i) else ret tt) ;;
      let! info := auth W auth_ in
      let! token := get info "accessToken" in
      update_steps W token fileId resource media) s).
  destruct Hrun as [-> | ->].
  - destruct (update_tail W fileId resource media auth_ s1)
      as ((d1 & d2 & token & Ht & H1 & H2) & Hg).
    cbn zeta in *. split; [|split].
    + exists d1, d2, token. by rewrite Ht, Htr.
    + destruct Hg as [_ ->]. done.
    + by eapply only_mimeType_grown.
  - simpl. split; [|done]. exists [], [], VUndef. rewrite app_nil_r.
    split; [done|]. split; [constructor|by left].
Qed.


(** ** The first version of the class *)

Lemma field_only_mimeType resource s s1 v k x :
  only_mimeType resource s s1 → k ≠ "mimeType" → k ≠ "length" →
  field (heap s) v k = Some x → truthy x = true →
  field (heap s1) v k = Some x.
Proof.
  intros Hframe Hk Hlen Hf Hx.
  assert (Hl : String.eqb k "length" = false) by (by apply String.eqb_neq).
  destruct (field_is_ref _ _ _ _ Hf Hx Hl) as (l & o & -> & Ho).
  destruct (Hframe l o Ho) as (o' & Ho' & _ & Hp).
  rewrite (field_ref _ _ _ _ Ho Hl) in Hf.
  rewrite (field_ref _ _ _ _ Ho' Hl).
  destruct Hp as [->|(_ & _ & m & ->)]; [done|].
  rewrite get_set_prop_ne; [done|]. intros E. apply Hk. by rewrite E.
Qed.

Lemma v1_run W fileId resource media auth_ t s :
  field (heap s) auth_ "accessToken" = Some (VStr t) → t ≠ "" →
  let m :=
    let! mt := get resource "mimeType" in
    let! i := get_this in
    (if negb (truthy mt) && truthy (mime i)
     then set resource "mimeType" (mime i) else ret tt) ;;
    let! info := DriveExportV1.auth W auth_ in
    let! token := get info "accessToken" in
    update_steps W token fileId resource media in
  ∃ d, trace (m s).2 = trace s ++ d ∧ handshake_for VUndef fileId d.
Proof.
  intros Htoken Ht m. subst m.
  assert (Htt : truthy (VStr t) = true).
  { simpl. apply negb_true_iff. by apply String.eqb_neq. }
  destruct (default_mime_run resource
              (let! info := DriveExportV1.auth W auth_ in
               let! token := get info "accessToken" in
               update_steps W token fileId resource media) s)
    as (s1 & Htr & Hthis & Hframe & Hrun).
  cbn zeta in Hrun. destruct Hrun as [-> | ->].
  2: { exists []. rewrite app_nil_r. split; [done|by left]. }
  assert (H1 : field (heap s1) auth_ "accessToken" = Some (VStr t))
    by (by eapply field_only_mimeType).
  assert (Hauth : DriveExportV1.auth W auth_ s1 = (Ret (VStr t), s1)).
  { unfold DriveExportV1.auth.
    assert (truthy auth_ = true) as ->.
    { destruct (field_is_ref _ _ _ _ H1 Htt eq_refl) as (l & o & -> & _). done. }
    rewrite (bind_Ret _ _ _ _ _ (get_Ret _ _ _ _ H1)). by rewrite Htt. }
  rewrite (bind_Ret _ _ _ _ _ Hauth).
  assert (Hget : get (VStr t) "accessToken" s1 = (Ret VUndef, s1)) by done.
  rewrite (bind_Ret _ _ _ _ _ Hget).
  destruct (update_steps_trace W VUndef fileId resource media s1) as (d & Hd & H).
  exists d. by rewrite Hd, Htr.
Qed.

(** X5. In [lib/drive-export.js] a token given by the caller is lost: [auth]
    resolves to the token itself, [create] and [update] read the
    [accessToken] of that string, and the requests they make carry
    [undefined] as their token. *)
Theorem first_version_loses_the_token W fileId resource media auth_ t s :
  field (heap s) auth_ "accessToken" = Some (VStr t) → t ≠ ""%string →
  (∃ d, trace (DriveExportV1.create W resource media auth_ s).2 = trace s ++ d ∧
        handshake_for VUndef VUndef d) ∧
  (∃ d, trace (DriveExportV1.update W fileId resource media auth_ s).2
          = trace s ++ d ∧
        handshake_for VUndef fileId d).
Proof.
  intros Htoken Ht. split.
  - apply (v1_run W VUndef resource media auth_ t s Htoken Ht).
  - apply (v1_run W fileId resource media auth_ t s Htoken Ht).
Qed.

Lemma first_version_loses_the_token_witness :
  trace (DriveExportV1.create drive (VRef 2%positive) (VRef 3%positive)
           (VRef 4%positive) c3_start).2 =
    [NetRequest (session_request VUndef VUndef
                   (VStr (render (JObj [("name", JStr "export.json")]))));
     NetRequest (Request "PUT" (UrlAt (VStr "https://session.example/1"))
                   VUndef [("content-type", VStr "application/json")]
                   (Some (VStr "{}")))] ∧
  ∃ d, trace (DriveExportV1.create drive (VRef 2%positive) (VRef 3%positive)
                (VRef 4%positive) c3_start).2 = trace c3_start ++ d ∧
       handshake_for VUndef VUndef d.
Proof.
  split; [by vm_compute|].
  refine (proj1 (first_version_loses_the_token drive VUndef (VRef 2%positive)
                   (VRef 3%positive) (VRef 4%positive) "token-1" c3_start
                   _ _)); [reflexivity|done].
Defined.


(** ** [createParents] without anything to resolve *)

(** X6. [createParents] on a missing or empty list is rejected with a fixed
    message and does nothing.  On a list that normalization empties (every
    entry is an object without a truthy [name] or [id], a number or a
    boolean) it returns a new empty list without asking for a token and
    without any request. *)
Theorem createParents_nothing_to_resolve W auth_ :
  (∀ parents s,
     truthy parents = false ∨
     (∃ len, field (heap s) parents "length" = Some len ∧ truthy len = false) →
     createParents W parents auth_ s =
       (Throw (ErrorObj "The parents argument not set."), s)) ∧
  (∀ pa vs s,
     items_of (heap s) (VRef pa) = Some vs → vs ≠ [] →
     Forall (λ v, readable (heap s) v ∧ stays (heap s) v = false) vs →
     ∃ r h,
       createParents W (VRef pa) auth_ s =
         (Ret (VRef r), State h (this s) (trace s)) ∧
       heap s !! r = None ∧ h !! r = Some (array []) ∧
       ∀ l o, heap s !! l = Some o → h !! l = Some o).
Proof.
  split.
  - intros parents s H. unfold createParents.
    destruct (truthy parents) eqn:Hp.
    + destruct H as [?|(len & Hlen & Ht)]; [done|].
      rewrite (bind_Ret _ _ _ _ _ (get_Ret _ _ _ _ Hlen)). by rewrite Ht.
    + by rewrite (bind_Ret _ _ s VUndef s).
  - intros pa vs s Hpa Hne Hvs. unfold createParents. cbn [truthy].
    destruct (items_of_cell _ _ _ Hpa) as (o & Ho & He).
    assert (Hlen : field (heap s) (VRef pa) "length"
                   = Some (VNum (Z.of_nat (length vs)))).
    { unfold field. rewrite Ho. destruct o as [e ps]. simpl in He.
      by subst e. }
    rewrite (bind_Ret _ _ _ _ _ (get_Ret _ _ _ _ Hlen)).
    cbn [negb orb]. rewrite length_truthy, negb_involutive.
    rewrite bool_decide_eq_false_2 by done.
    destruct (normalizeParents_run s pa vs Hpa)
      as (r1 & out & h1 & Hrun & Hr1 & Hr1' & Hsub1 & Hw).
    { eapply Forall_impl; [exact Hvs|]. by intros v [? _]. }
    assert (List.filter (stays (heap s)) vs = []) as Hnone.
    { clear -Hvs. induction Hvs as [|v vs [_ Hv] _ IH]; simpl; [done|].
      by rewrite Hv. }
    rewrite Hnone in Hw. apply Forall2_nil_inv_l in Hw as ->.
    rewrite (bind_Ret _ _ _ _ _ Hrun).
    assert (Hlen1 : field h1 (VRef r1) "length" = Some (VNum 0))
      by (unfold field; by rewrite Hr1').
    rewrite (bind_Ret _ _ _ _ _
               (get_Ret (VRef r1) "length" (State h1 (this s) (trace s)) _ Hlen1)).
    cbn [truthy Z.eqb negb]. rewrite alloc_Ret. cbn [heap this trace].
    set (r := fresh (dom h1)).
    assert (Hfresh : h1 !! r = None) by apply fresh_None.
    exists r, (<[r := array []]> h1). split; [done|]. split; [|split].
    + destruct (heap s !! r) as [o'|] eqn:E; [|done].
      apply Hsub1 in E. congruence.
    + apply lookup_insert_eq.
    + intros l o' Hl. rewrite lookup_insert_ne; [by apply Hsub1|].
      intros <-. apply Hsub1 in Hl. congruence.
Qed.

Lemma createParents_nothing_to_resolve_witness :
  ∃ r h,
    createParents drive (VRef 1%positive) VUndef unnamed_parents
      = (Ret (VRef r), State h blank []) ∧
    h !! r = Some (array []).
Proof.
  destruct (proj2 (createParents_nothing_to_resolve drive VUndef)
              1%positive [VRef 2%positive; VNum 5] unnamed_parents)
    as (r & h & Hrun & _ & Hr & _); [reflexivity|done|..].
  - repeat constructor; try done. intros l [= <-]. by eexists.
  - by exists r, h.
Defined.

(** ** [_createResource] *)

Lemma with_defaults_keeps i type_ ps k :
  (k ≠ "description" ∧ k ≠ "mimeType") ∨ truthy (get_prop ps k) = true →
  get_prop (with_defaults i type_ ps) k = get_prop ps k.
Proof.
  intros Hk. unfold with_defaults.
  assert (H1 : get_prop
            (if negb (truthy (get_prop ps "description")) &&
                truthy (fileDescription i)
             then set_prop ps "description" (fileDescription i) else ps) k
          = get_prop ps k).
  { destruct (negb (truthy (get_prop ps "description")) &&
              truthy (fileDescription i)) eqn:E; [|done].
    apply andb_true_iff in E as [E _]. apply negb_true_iff in E.
    destruct (decide (k = "description")) as [->|Hne].
    - destruct Hk as [[? _]|Hk]; [done|congruence].
    - rewrite get_set_prop_ne; [done|]. by intros <-. }
  destruct (negb (truthy (get_prop _ "mimeType"))) eqn:E; [|done].
  apply negb_true_iff in E.
  destruct (decide (k = "mimeType")) as [->|Hne].
  - destruct Hk as [[_ ?]|Hk]; [done|]. rewrite H1 in E. congruence.
  - rewrite get_set_prop_ne; [done|]. by intros <-.
Qed.

Lemma createResource_new config meta type_ s :
  field (heap s) config "meta" = Some meta → truthy meta = false →
  field (heap s) config "type" = Some type_ →
  let m := fresh (dom (heap s)) in
  _createResource config s =
    (Ret (VRef m),
     State (<[m := plain (with_defaults (this s) type_ [])]> (heap s))
       (this s) (trace s)).
Proof.
  intros Hmeta Hfalsy Htype m.
  remember (_createResource config s) as out eqn:Hout.
  unfold _createResource in Hout.
  rewrite (bind_Ret _ _ _ _ _ (get_Ret _ _ _ _ Hmeta)) in Hout.
  rewrite (bind_Ret _ _ _ _ _ (get_Ret _ _ _ _ Htype)) in Hout.
  rewrite Hfalsy in Hout. unfold bind at 1 in Hout.
  rewrite alloc_Ret in Hout. fold m in Hout.
  set (s1 := State (<[m := plain []]> (heap s)) (this s) (trace s)) in *.
  assert (Hm : heap s1 !! m = Some (plain [])) by apply lookup_insert_eq.
  unfold bind at 1 in Hout. cbn [get_this] in Hout.
  rewrite (bind_Ret _ _ _ _ _ (get_ref _ _ _ "description" Hm eq_refl)) in Hout.
  cbn [props plain get_prop truthy negb andb] in Hout.
  unfold with_defaults. cbn [get_prop truthy negb andb].
  change (this s1) with (this s) in Hout.
  destruct (truthy (fileDescription (this s))) eqn:Hd.
  - unfold bind at 1 in Hout. cbn [set] in Hout. unfold modify in Hout.
    rewrite Hm in Hout.
    cbn [heap this trace elems props plain set_prop] in Hout.
    set (s2 := State _ _ _) in Hout.
    assert (Hm2 : heap s2 !! m =
              Some (Obj None [("description", fileDescription (this s))]))
      by apply lookup_insert_eq.
    rewrite (bind_Ret _ _ _ _ _ (get_ref _ _ _ "mimeType" Hm2 eq_refl)) in Hout.
    cbn [props get_prop String.eqb Ascii.eqb Bool.eqb truthy negb set_prop]
      in Hout |- *.
    unfold bind, set, modify in Hout. rewrite Hm2 in Hout.
    cbn [heap this trace elems props set_prop String.eqb Ascii.eqb Bool.eqb
         s2 ret] in Hout.
    rewrite insert_insert_eq in Hout.
    subst out. unfold ret, s1. cbn [heap this trace].
    by rewrite insert_insert_eq.
  - unfold bind at 1 in Hout. cbn [ret] in Hout.
    rewrite (bind_Ret _ _ _ _ _ (get_ref _ _ _ "mimeType" Hm eq_refl)) in Hout.
    cbn [props plain get_prop truthy negb] in Hout.
    unfold bind, set, modify in Hout. rewrite Hm in Hout.
    cbn [heap this trace elems props plain set_prop ret] in Hout.
    subst out. unfold ret, s1. cbn [heap this trace].
    by rewrite insert_insert_eq.
Qed.

(** X7. [_createResource] never replaces a value the caller has given: a
    truthy description or media type of [meta], and every other property,
    is what it was, and no other object is written.  Without [meta] the
    resource is a new object with the defaults, and nothing is written into
    the configuration.  With the defaults of the application, the empty
    configuration gives the default description and file type. *)
Theorem createResource_keeps_what_is_given :
  (∀ config m type_ o s,
     field (heap s) config "meta" = Some (VRef m) →
     field (heap s) config "type" = Some type_ →
     heap s !! m = Some o →
     let out := _createResource config s in
     out.1 = Ret (VRef m) ∧
     (∃ o', heap out.2 !! m = Some o' ∧ elems o' = elems o ∧
        ∀ k, (k ≠ "description" ∧ k ≠ "mimeType") ∨
             truthy (get_prop (props o) k) = true →
             get_prop (props o') k = get_prop (props o) k) ∧
     ∀ l, l ≠ m → heap out.2 !! l = heap s !! l) ∧
  (∀ config meta type_ s,
     field (heap s) config "meta" = Some meta → truthy meta = false →
     field (heap s) config "type" = Some type_ →
     let out := _createResource config s in
     let m := fresh (dom (heap s)) in
     out.1 = Ret (VRef m) ∧
     heap out.2 !! m = Some (plain (with_defaults (this s) type_ [])) ∧
     ∀ l, l ≠ m → heap out.2 !! l = heap s !! l) ∧
  (let out := _createResource (VRef 1%positive)
                (State {[1%positive := plain []]} described []) in
   out.1 = Ret (VRef 2%positive) ∧
   heap out.2 !! 2%positive =
     Some (plain [("description",
                   VStr "Advanced REST client data export file.");
                  ("mimeType", VStr "application/json")])).
Proof.
  split; [|split].
  - intros config m type_ o s Hmeta Htype Hm out. subst out.
    rewrite (createResource_run config m type_ o s Hmeta Htype Hm).
    cbn [fst snd heap]. split; [done|]. split.
    + eexists. split; [apply lookup_insert_eq|]. split; [done|].
      intros k Hk. by apply with_defaults_keeps.
    + intros l Hl. by rewrite lookup_insert_ne.
  - intros config meta type_ s Hmeta Hfalsy Htype out m. subst out m.
    rewrite (createResource_new config meta type_ s Hmeta Hfalsy Htype).
    cbn [fst snd heap]. split; [done|]. split; [apply lookup_insert_eq|].
    intros l Hl. by rewrite lookup_insert_ne.
  - by vm_compute.
Qed.

Lemma createResource_keeps_what_is_given_witness :
  (_createResource (VRef 2%positive) meta_start).1 = Ret (VRef 1%positive) ∧
  ∃ o, heap (_createResource (VRef 2%positive) meta_start).2 !! 1%positive
         = Some o ∧
       get_prop (props o) "name" = VStr "export.json".
Proof.
  destruct (proj1 createResource_keeps_what_is_given (VRef 2%positive)
              1%positive VUndef (plain [("name", VStr "export.json")])
              meta_start)
    as (Hret & (o & Ho & _ & Hprops) & _); try reflexivity.
  split; [exact Hret|]. exists o. split; [exact Ho|].
  apply (Hprops "name"). left. by split.
Defined.


(** ** [create] on a resource without parents *)

Lemma field_kept resource s s1 v k x :
  only_mimeType resource s s1 → k ≠ "mimeType" →
  field (heap s) v k = Some x → field (heap s1) v k = Some x.
Proof.
  intros Hframe Hk Hf. destruct v; try done.
  unfold field in *. destruct (heap s !! l) as [o|] eqn:Ho; [|done].
  destruct (Hframe l o Ho) as (o' & -> & He & Hp).
  destruct o as [e ps], o' as [e' ps']. simpl in *. subst e'.
  destruct Hp as [->|(_ & _ & m & ->)]; [done|].
  rewrite get_set_prop_ne; [done|]. intros E. apply Hk. by rewrite E.
Qed.

Lemma no_parents_kept resource s s1 s2 :
  only_mimeType resource s s1 → heap s1 ⊆ heap s2 →
  no_parents (heap s) resource → no_parents (heap s2) resource.
Proof.
  intros Hframe Hsub (p & Hp & Hlen). exists p. split.
  - eapply field_weaken; [done|]. by eapply field_kept.
  - destruct Hlen as [?|(len & Hlen & ?)]; [by left|right].
    exists len. split; [|done].
    eapply field_weaken; [done|]. by eapply field_kept.
Qed.

Lemma upload_steps_grown W token resource media s :
  grown s (upload_steps W token resource media VUndef s).2.
Proof.
  pose proof (grown_stable s) as Ha.
  assert (Hk : keeps (grown s) (λ _, True)
                 (upload_steps W token resource media VUndef) anything).
  { unfold upload_steps.
    keeps_step; [by apply keeps__initializeSession|].
    keeps_step; [keeps_step|]. keeps_step; [keeps_step|].
    keeps_step; [by apply keeps__upload|]. cbn [truthy].
    keeps_step; keeps_step. }
  destruct (Hk s) as (d & _ & _ & H & _); [by split|done].
Qed.

(** The part of [create] that follows the token, when there is no parent
    to resolve. *)
Lemma create_tail_run W resource media info token s :
  no_parents (heap s) resource →
  (let! parents := get resource "parents" in
   let! len := (if truthy parents then get parents "length" else ret parents) in
   let! createdParents :=
     (if truthy len then
        let! parents := get resource "parents" in
        let! created := createParents W parents info in
        let! n := (if truthy created then get created "length"
                   else ret VUndef) in
        (if negb (truthy created) || negb (truthy n)
         then delete_field resource "parents"
         else
           let! items := elements created in
           let! ids := map_m (λ item, get item "id") items in
           let! list := alloc (array ids) in
           set resource "parents" list) ;;
        ret created
      else ret VUndef) in
   upload_steps W token resource media createdParents) s
  = upload_steps W token resource media VUndef s.
Proof.
  intros (p & Hp & Hlen).
  rewrite (bind_Ret _ _ _ _ _ (get_Ret _ _ _ _ Hp)).
  destruct Hlen as [Hfalse|(len & Hlen & Hfalse)].
  - rewrite Hfalse. rewrite (bind_Ret _ _ s p s) by done.
    rewrite Hfalse. by rewrite (bind_Ret _ _ s VUndef s).
  - destruct (truthy p) eqn:E.
    + rewrite (bind_Ret _ _ _ _ _ (get_Ret _ _ _ _ Hlen)).
      rewrite Hfalse. by rewrite (bind_Ret _ _ s VUndef s).
    + rewrite (bind_Ret _ _ s p s) by done.
      rewrite E. by rewrite (bind_Ret _ _ s VUndef s).
Qed.

Lemma create_after_mime W resource media auth_ s :
  no_parents (heap s) resource →
  let out := create_rest W resource media auth_ s in
  (∃ d1 d2 token, trace out.2 = trace s ++ d1 ++ d2 ∧ Forall is_oauth d1 ∧
                  handshake token d2) ∧
  grown s out.2.
Proof.
  intros Hno out. remember out as o eqn:Hout. subst out.
  unfold create_rest in Hout.
  destruct (auth_grows W auth_ s) as ((d1 & Ht1 & Hd1) & Hsub & Hthis).
  unfold bind at 1 in Hout.
  destruct (auth W auth_ s) as [[info|e|] s1]; simpl in *.
  2,3: subst o; (split; [|exact (conj Hsub Hthis)]); exists d1, [], VUndef;
       rewrite app_nil_r; split; [done|]; split; [done|by left].
  pose proof (get_state info "accessToken" s1) as Hg.
  unfold bind at 1 in Hout.
  destruct (get info "accessToken" s1) as [[token|e|] s2]; simpl in Hg;
    subst s2.
  2,3: subst o; (split; [|exact (conj Hsub Hthis)]); exists d1, [], VUndef;
       rewrite app_nil_r; split; [done|]; split; [done|by left].
  rewrite create_tail_run in Hout.
  2: { destruct Hno as (p & Hp & Hlen). exists p.
       split; [by eapply field_weaken|].
       destruct Hlen as [?|(len & ? & ?)]; [by left|right].
       exists len. split; [by eapply field_weaken|done]. }
  destruct (upload_steps_trace W token resource media VUndef s1)
    as (d2 & Ht2 & Hd2).
  destruct (upload_steps_grown W token resource media s1) as [Hsub2 Hthis2].
  subst o. split; [|split; [by etrans|congruence]].
  exists d1, d2, token. by rewrite Ht2, Ht1, app_assoc.
Qed.

(** X8. A [create] for a resource without parents resolves no folder: it asks
    for a token unless one is given, then opens the session and uploads.
    It leaves the folder cache alone and writes nothing into the objects it
    is given but a missing [mimeType] of the resource. *)
Theorem create_without_parents W resource media auth_ s :
  no_parents (heap s) resource →
  let out := create W resource media auth_ s in
  (∃ d1 d2 token, trace out.2 = trace s ++ d1 ++ d2 ∧ Forall is_oauth d1 ∧
                  handshake token d2) ∧
  this out.2 = this s ∧
  only_mimeType resource s out.2.
Proof.
  intros Hno out. subst out.
  destruct (default_mime_run resource (create_rest W resource media auth_) s)
    as (s1 & Htr & Hthis & Hframe & Hrun).
  change (create W resource media auth_ s) with
    ((let! mt := get resource "mimeType" in
      let! i := get_this in
      (if negb (truthy mt) && truthy (mime i)
       then set resource "mimeType" (mime i) else ret tt) ;;
      create_rest W resource media auth_) s).
  destruct Hrun as [-> | ->].
  - destruct (create_after_mime W resource media auth_ s1)
      as ((d1 & d2 & token & Ht & H1 & H2) & Hg).
    { eapply no_parents_kept; [exact Hframe|done|done]. }
    cbn zeta in *. split; [|split].
    + exists d1, d2, token. by rewrite Ht, Htr.
    + destruct Hg as [_ ->]. done.
    + by eapply only_mimeType_grown.
  - simpl. split; [|done]. exists [], [], VUndef. rewrite app_nil_r.
    split; [done|]. split; [constructor|by left].
Qed.

Lemma create_without_parents_witness :
  ∃ d1 d2 token,
    trace (create drive (VRef 2%positive) (VRef 3%positive) (VRef 4%positive)
             c3_start).2 = trace c3_start ++ d1 ++ d2 ∧
    Forall is_oauth d1 ∧ handshake token d2.
Proof.
  refine (proj1 (create_without_parents drive (VRef 2%positive)
                   (VRef 3%positive) (VRef 4%positive) c3_start _)).
  exists VUndef. split; [reflexivity|by left].
Defined.


(** ** [_listAppFoldersHandler] when the cache is empty *)

Lemma this_stable i0 : alloc_stable (λ s, this s = i0).
Proof. by intros s h tr H _. Qed.

Lemma keeps_push_this i0 E v x :
  keeps (λ s, this s = i0) E (push v x) anything.
Proof.
  intros s Hs. exists []. rewrite app_nil_r.
  unfold push, bind, elements.
  destruct (items_of (heap s) v) as [vs|]; [|by repeat split].
  destruct v; simpl; try by repeat split.
  unfold modify. destruct (heap s !! l); simpl; by repeat split.
Qed.

Lemma listAppFolders_run W interactive s :
  let s0 := State (heap s) (this s) (trace s ++ [GetAuthToken interactive]) in
  listAppFolders W interactive s =
    match oauth W (trace s0) with
    | Resolved (Some j) =>
        (let! auth := from_json j in
         if truthy auth then _listAppFolders W auth else ret VUndef) s0
    | Resolved None => (Ret VUndef, s0)
    | Rejected x => (Throw x, s0)
    end.
Proof.
  intros s0. unfold listAppFolders, ask_oauth, bind, emit.
  cbn [heap this trace]. fold s0.
  change (trace s ++ [GetAuthToken interactive]) with (trace s0).
  by destruct (oauth W (trace s0)) as [[j|]|x].
Qed.

Lemma _listAppFolders_shape W auth_ s :
  let out := _listAppFolders W auth_ s in
  this out.2 = this s ∧
  (trace out.2 = trace s ∨
   ∃ token, trace out.2 = trace s ++ [NetRequest (list_request token)]).
Proof.
  intros out. remember out as o eqn:Hout. subst out.
  unfold _listAppFolders in Hout. fold folders_url in Hout.
  unfold bind at 1 in Hout. unfold get at 1 in Hout.
  destruct (field (heap s) auth_ "accessToken") as [token|].
  2: { subst o. split; [done|by left]. }
  fold (list_request token) in Hout.
  unfold bind at 1 in Hout. rewrite net_request_run in Hout.
  set (s1 := State _ _ _) in Hout.
  destruct (net W (trace s ++ [NetRequest (list_request token)])) as [r|x].
  2: { subst o. split; [done|]. right. by exists token. }
  match type of Hout with o = ?m s1 =>
    assert (Hk : keeps (λ s', this s' = this s) (λ _, False) m anything) end.
  { pose proof (this_stable (this s)) as Ha.
    keeps_step; [by apply keeps_parse|]. repeat keeps_step. }
  destruct (Hk s1 eq_refl) as (d & Ht & Hd & Hthis & _). rewrite <- Hout in *.
  destruct d as [|e d]; [|by apply Forall_cons in Hd as [[] _]].
  rewrite app_nil_r in Ht. split; [done|]. right. exists token. by rewrite Ht.
Qed.

Lemma listAppFolders_shape W interactive s :
  let out := listAppFolders W interactive s in
  this out.2 = this s ∧
  ∃ d, trace out.2 = trace s ++ GetAuthToken interactive :: d ∧
       (d = [] ∨ ∃ token, d = [NetRequest (list_request token)]).
Proof.
  intros out. subst out. rewrite listAppFolders_run. cbn zeta.
  set (s0 := State (heap s) (this s) (trace s ++ [GetAuthToken interactive])).
  destruct (oauth W (trace s0)) as [[j|]|x].
  - unfold bind. destruct (from_json_run j s0) as (v & h & -> & _).
    destruct (truthy v).
    + match goal with |- context [_listAppFolders W v ?s1] =>
        destruct (_listAppFolders_shape W v s1) as (Hthis & Htr) end.
      cbn zeta in *. split; [done|].
      destruct Htr as [->|[token ->]]; simpl.
      * exists []. split; [done|by left].
      * eexists. rewrite <- app_assoc. split; [done|]. right. eauto.
    + simpl. split; [done|]. exists []. split; [done|by left].
  - simpl. split; [done|]. exists []. split; [done|by left].
  - simpl. split; [done|]. exists []. split; [done|by left].
Qed.


Lemma list_and_cache_run W requestId interactive s :
  let out := list_and_cache W requestId interactive s in
  ∃ d1, (d1 = [] ∨ ∃ token, d1 = [NetRequest (list_request token)]) ∧
    ((out.1 ≠ Ret tt ∧
      trace out.2 = trace s ++ GetAuthToken interactive :: d1 ∧
      this out.2 = this s) ∨
     (∃ r, out.1 = Ret tt ∧
           trace out.2 = trace s ++ GetAuthToken interactive :: d1
                                 ++ [Send result_channel requestId (VRef r)] ∧
           this out.2 = MkInstance (mime (this s)) (fileDescription (this s))
                          (fileType (this s)) (VRef r))).
Proof.
  intros out. remember out as o eqn:Hout. subst out.
  unfold list_and_cache in Hout.
  destruct (listAppFolders_shape W interactive s) as (Hthis & d1 & Htr & Hd1).
  exists d1. split; [done|].
  unfold bind at 1 in Hout.
  destruct (listAppFolders W interactive s) as [[result|e|] s1]; simpl in *.
  2,3: subst o; left; by repeat split.
  unfold bind at 1 in Hout. rewrite alloc_Ret in Hout.
  set (r := fresh (dom (heap s1))) in Hout.
  set (s2 := State _ (this s1) (trace s1)) in Hout.
  pose proof (get_state result "files" s2) as Hg.
  unfold bind at 1 in Hout.
  destruct (get result "files" s2) as [[files|e|] s2']; simpl in Hg; subst s2'.
  2,3: subst o; left; by repeat split.
  match type of Hout with o = (bind ?L _) s2 =>
    assert (Hk : keeps (λ s', this s' = this s) (λ _, False) L anything) end.
  { pose proof (this_stable (this s)) as Ha.
    keeps_step; [|keeps_step]. keeps_step; [keeps_step|].
    keeps_step. keeps_step; [keeps_step|]. keeps_step; [keeps_step|].
    keeps_step; [keeps_step|]. apply keeps_push_this. }
  destruct (Hk s2 Hthis) as (d & Ht & Hd & Hthis3 & _).
  destruct d as [|e d]; [|by apply Forall_cons in Hd as [[] _]].
  rewrite app_nil_r in Ht. unfold bind at 1 in Hout.
  match type of Hout with o = match ?L s2 with _ => _ end =>
    destruct (L s2) as [[[]|e|] s3] end; simpl in *.
  2,3: subst o; left; simpl; rewrite Ht; by repeat split.
  subst o. right. exists r. unfold bind, set_cachedFolders, get_this, set_this,
    emit. simpl. rewrite Ht, Htr, Hthis3, <- app_assoc. done.
Qed.

(** X9. A call of [_listAppFoldersHandler] with an empty cache asks for a token
    once, with the [interactive] of its options ([true] when there is
    none), makes at most one request, and sends at most one message.  The
    cache is filled exactly when that message is a result; after an error,
    or when the promise stays pending, the instance is as it was, so that
    the next call asks again. *)
Theorem list_folders_on_a_miss W requestId opts given s :
  truthy (cachedFolders (this s)) = false →
  (truthy opts = false ∧ given = VUndef) ∨
  (truthy opts = true ∧ field (heap s) opts "interactive" = Some given) →
  let out := _listAppFoldersHandler W requestId opts s in
  ∃ d1 d2,
    trace out.2 = trace s ++ GetAuthToken (interactive_of given) :: d1 ++ d2 ∧
    (d1 = [] ∨ ∃ token, d1 = [NetRequest (list_request token)]) ∧
    ((d2 = [] ∧ out.1 = Hang ∧ this out.2 = this s) ∨
     (∃ cause, d2 = [Send error_channel requestId cause] ∧ out.1 = Ret tt ∧
               this out.2 = this s) ∨
     (∃ r, d2 = [Send result_channel requestId (VRef r)] ∧ out.1 = Ret tt ∧
           this out.2 = MkInstance (mime (this s)) (fileDescription (this s))
                          (fileType (this s)) (VRef r))).
Proof.
  intros Hmiss Hopts out. remember out as o eqn:Hout. subst out.
  unfold _listAppFoldersHandler in Hout.
  unfold bind at 1 in Hout. cbn [get_this] in Hout. rewrite Hmiss in Hout.
  assert (Hrest : ∀ s0, this s0 = this s → trace s0 = trace s →
    o = try_catch (list_and_cache W requestId (interactive_of given))
          (report_error requestId) s0 →
    ∃ d1 d2,
      trace o.2 = trace s ++ GetAuthToken (interactive_of given) :: d1 ++ d2 ∧
      (d1 = [] ∨ ∃ token, d1 = [NetRequest (list_request token)]) ∧
      ((d2 = [] ∧ o.1 = Hang ∧ this o.2 = this s) ∨
       (∃ cause, d2 = [Send error_channel requestId cause] ∧ o.1 = Ret tt ∧
                 this o.2 = this s) ∨
       (∃ r, d2 = [Send result_channel requestId (VRef r)] ∧ o.1 = Ret tt ∧
             this o.2 = MkInstance (mime (this s)) (fileDescription (this s))
                          (fileType (this s)) (VRef r)))).
  { clear Hout. intros s0 Hthis0 Htr0 Hout. unfold try_catch in Hout.
    destruct (list_and_cache_run W requestId (interactive_of given) s0)
      as (d1 & Hd1 & Hcase).
    exists d1. cbn zeta in Hcase.
    destruct (list_and_cache W requestId (interactive_of given) s0)
      as [[[]|e|] s1]; simpl in *.
    - destruct Hcase as [(Hne & _)|(r & _ & Ht & Hthis)]; [done|].
      subst o. exists [Send result_channel requestId (VRef r)].
      simpl. rewrite Ht, Htr0, Hthis, Hthis0. split; [done|]. split; [done|].
      right; right. by exists r.
    - destruct Hcase as [(_ & Ht & Hthis)|(r & ? & _)]; [|done].
      destruct (report_error_run requestId e s1) as (payload & h & Hrun).
      rewrite Hrun in Hout. subst o.
      exists [Send error_channel requestId payload]. simpl.
      rewrite Ht, Htr0, Hthis, Hthis0, <- app_assoc. split; [done|].
      split; [done|]. right; left. by exists payload.
    - destruct Hcase as [(_ & Ht & Hthis)|(r & ? & _)]; [|done].
      subst o. exists []. simpl. rewrite app_nil_r, Ht, Htr0, Hthis, Hthis0.
      split; [done|]. split; [done|]. by left. }
  destruct Hopts as [[Hfalsy ->]|[Htruthy Hgiven]].
  - rewrite Hfalsy in Hout. unfold bind at 1 in Hout.
    rewrite alloc_Ret in Hout.
    set (l := fresh (dom (heap s))) in Hout.
    set (s0 := State _ (this s) (trace s)) in Hout.
    assert (Hl : heap s0 !! l = Some (plain [])) by apply lookup_insert_eq.
    rewrite (bind_Ret _ _ _ _ _ (get_ref _ _ _ "interactive" Hl eq_refl))
      in Hout.
    by apply (Hrest s0).
  - rewrite Htruthy in Hout. rewrite (bind_Ret _ _ s opts s) in Hout by done.
    rewrite (bind_Ret _ _ _ _ _ (get_Ret _ _ _ _ Hgiven)) in Hout.
    by apply (Hrest s).
Qed.

Lemma list_folders_on_a_miss_witness :
  ∃ d1 d2,
    trace (_listAppFoldersHandler listing (VNum 1) (VRef 1%positive)
             quiet_start).2 =
      trace quiet_start ++ GetAuthToken (VBool false) :: d1 ++ d2 ∧
    (d1 = [] ∨ ∃ token, d1 = [NetRequest (list_request token)]).
Proof.
  destruct (list_folders_on_a_miss listing (VNum 1) (VRef 1%positive)
              (VBool false) quiet_start eq_refl (or_intror (conj eq_refl eq_refl)))
    as (d1 & d2 & H1 & H2 & _).
  by exists d1, d2.
Defined.


(** ** The list that [_listAppFoldersHandler] caches *)

Lemma readable_grow h h' v :
  (∀ l o, h !! l = Some o → is_Some (h' !! l)) → readable h v → readable h' v.
Proof.
  intros Hsub (Hu & Hn & Hl). repeat split; try done.
  intros l ->. destruct (Hl l eq_refl) as [o Ho]. eauto.
Qed.

Lemma field_elems_frame h r o e' v k :
  h !! r = Some o → k ≠ "length" →
  field (<[r := Obj e' (props o)]> h) v k = field h v k.
Proof.
  intros Hr Hk. apply String.eqb_neq in Hk.
  destruct v; try done. unfold field.
  destruct (decide (l = r)) as [->|Hne].
  - rewrite lookup_insert_eq, Hr. destruct o as [[vs|] ps], e' as [vs'|];
      simpl; by rewrite ?Hk.
  - by rewrite lookup_insert_ne.
Qed.

Lemma collect_run items : ∀ s r acc ps,
  heap s !! r = Some (Obj (Some acc) ps) →
  Forall (readable (heap s)) items →
  ∃ out h',
    for_each items (λ item,
      let! id := get item "id" in
      let! name := get item "name" in
      let! folder := alloc (plain [("id", id); ("name", name)]) in
      push (VRef r) folder) s = (Ret tt, State h' (this s) (trace s)) ∧
    h' !! r = Some (Obj (Some (acc ++ out)) ps) ∧
    (∀ l o, heap s !! l = Some o → l ≠ r → h' !! l = Some o) ∧
    Forall2 (projected (heap s) h') items out.
Proof.
  induction items as [|item items IH]; intros s r acc ps Hr Hitems.
  - exists [], (heap s). simpl. rewrite app_nil_r.
    split; [by destruct s|]. split; [done|]. split; [done|constructor].
  - apply Forall_cons in Hitems as [Hitem Hitems].
    destruct (readable_field _ _ "id" Hitem) as [id Hid].
    destruct (readable_field _ _ "name" Hitem) as [name Hname].
    cbn [for_each].
    unfold bind at 1.
    rewrite (bind_Ret _ _ _ _ _ (get_Ret _ _ _ _ Hid)).
    rewrite (bind_Ret _ _ _ _ _ (get_Ret _ _ _ _ Hname)).
    unfold bind at 1. rewrite alloc_Ret.
    set (l := fresh (dom (heap s))).
    assert (Hl : heap s !! l = None) by apply fresh_None.
    assert (Hlr : l ≠ r) by (intros ->; congruence).
    set (s1 := State (<[l := plain [("id", id); ("name", name)]]> (heap s))
                 (this s) (trace s)).
    assert (Hr1 : heap s1 !! r = Some (Obj (Some acc) ps))
      by (unfold s1; cbn [heap]; by rewrite lookup_insert_ne).
    rewrite (push_run s1 r acc ps (VRef l) Hr1).
    set (s2 := State _ (this s1) (trace s1)).
    assert (Hsub : ∀ l' o, heap s !! l' = Some o → l' ≠ r →
                     heap s2 !! l' = Some o).
    { intros l' o Ho Hne. unfold s2, s1. cbn [heap].
      rewrite lookup_insert_ne by done. rewrite lookup_insert_ne; [done|].
      intros <-. congruence. }
    assert (Hdom : ∀ l' o, heap s !! l' = Some o → is_Some (heap s2 !! l')).
    { intros l' o Ho. destruct (decide (l' = r)) as [->|Hne].
      - unfold s2. cbn [heap]. rewrite lookup_insert_eq. eauto.
      - rewrite (Hsub l' o Ho Hne). eauto. }
    destruct (IH s2 r (acc ++ [VRef l]) ps) as (out & h' & Hrun & Hr' & Hsub' & Hp).
    { unfold s2. cbn [heap]. by rewrite lookup_insert_eq. }
    { eapply Forall_impl; [exact Hitems|]. intros v. by apply readable_grow. }
    exists (VRef l :: out), h'. split; [exact Hrun|].
    split; [by rewrite Hr', <- app_assoc|]. split.
    + intros l' o Ho Hne. apply Hsub'; [|done]. by apply Hsub.
    + constructor.
      * exists l, id, name. split; [done|]. split; [done|].
        split; [|done]. apply Hsub'; [|done]. unfold s2, s1. cbn [heap].
        rewrite lookup_insert_ne by done. apply lookup_insert_eq.
      * assert (Hfield : ∀ v k x, k ≠ "length" → readable (heap s) v →
                  field (heap s2) v k = Some x → field (heap s) v k = Some x).
        { intros v k x Hk Hv Hf. unfold s2 in Hf. cbn [heap] in Hf.
          change (Obj (Some (acc ++ [VRef l])) ps)
            with (Obj (Some (acc ++ [VRef l])) (props (Obj (Some acc) ps)))
            in Hf.
          rewrite (field_elems_frame _ _ _ _ _ _ Hr1 Hk) in Hf.
          rewrite <- Hf. symmetry. apply field_frame; [|done].
          intros l' o -> Ho. unfold s1. cbn [heap].
          rewrite lookup_insert_ne; [done|]. intros <-. congruence. }
        clear -Hp Hitems Hfield Hdom.
        induction Hp as [|v o vs os (l' & id' & name' & -> & Hn & Hl' & Hi & Hnm) _ IHp];
          [constructor|].
        apply Forall_cons in Hitems as [Hv Hvs].
        constructor; [|by apply IHp].
        exists l', id', name'. split; [done|]. split.
        { destruct (heap s !! l') as [o'|] eqn:E; [|done].
          destruct (Hdom _ _ E) as [? ?]. congruence. }
        split; [done|]. split; by apply Hfield.
Qed.


Lemma list_and_cache_files W requestId interactive s result s1 files :
  listAppFolders W interactive s = (Ret result, s1) →
  field (heap s1) result "files" = Some files →
  let r := fresh (dom (heap s1)) in
  let filled h :=
    (Ret tt,
     State h (MkInstance (mime (this s1)) (fileDescription (this s1))
                (fileType (this s1)) (VRef r))
       (trace s1 ++ [Send result_channel requestId (VRef r)])) in
  (truthy files = false →
   list_and_cache W requestId interactive s
     = filled (<[r := array []]> (heap s1))) ∧
  (∀ items, truthy files = true → items_of (heap s1) files = Some items →
     Forall (readable (heap s1)) items →
     ∃ folders h,
       list_and_cache W requestId interactive s = filled h ∧
       h !! r = Some (array folders) ∧
       Forall2 (projected (heap s1) h) items folders).
Proof.
  intros Hrun Hfiles r filled.
  set (s2 := State (<[r := array []]> (heap s1)) (this s1) (trace s1)).
  assert (Hr : heap s1 !! r = None) by apply fresh_None.
  assert (Hsub : heap s1 ⊆ heap s2) by (by apply insert_subseteq).
  assert (Hfiles2 : field (heap s2) result "files" = Some files)
    by (by eapply field_weaken).
  split.
  - intros Hfalsy. unfold list_and_cache.
    rewrite (bind_Ret _ _ _ _ _ Hrun). unfold bind at 1. rewrite alloc_Ret.
    fold r. fold s2.
    rewrite (bind_Ret _ _ _ _ _ (get_Ret _ _ _ _ Hfiles2)).
    rewrite Hfalsy. by rewrite (bind_Ret _ _ s2 tt s2).
  - intros items Htruthy Hitems Hread.
    destruct (collect_run items s2 r [] [])
      as (folders & h & Hloop & Hr' & Hsame & Hp).
    { apply lookup_insert_eq. }
    { eapply Forall_impl; [exact Hread|]. intros v. apply readable_grow.
      intros l o Ho. exists o. by eapply lookup_weaken. }
    exists folders, h. split; [|split; [exact Hr'|]].
    + unfold list_and_cache.
      rewrite (bind_Ret _ _ _ _ _ Hrun). unfold bind at 1. rewrite alloc_Ret.
      fold r. fold s2.
      rewrite (bind_Ret _ _ _ _ _ (get_Ret _ _ _ _ Hfiles2)).
      rewrite Htruthy.
      assert (Hitems2 : items_of (heap s2) files = Some items)
        by (by eapply items_of_weaken).
      assert (Hel : elements files s2 = (Ret items, s2))
        by (unfold elements; by rewrite Hitems2).
      unfold bind at 1. rewrite (bind_Ret _ _ _ _ _ Hel). rewrite Hloop.
      done.
    + clear -Hp Hread Hsub Hr.
      induction Hp as [|v o vs os (l & id & name & -> & Hn & Hl & Hi & Hnm) _ IHp];
        [constructor|].
      apply Forall_cons in Hread as [Hv Hvs].
      constructor; [|by apply IHp].
      exists l, id, name. split; [done|]. split.
      { destruct (heap s1 !! l) as [o'|] eqn:E; [|done].
        apply (lookup_weaken _ _ _ _ E) in Hsub. congruence. }
      split; [done|].
      destruct (readable_field _ _ "id" Hv) as [id' Hid'].
      destruct (readable_field _ _ "name" Hv) as [name' Hname'].
      pose proof (field_weaken _ _ _ _ _ Hsub Hid') as H1.
      pose proof (field_weaken _ _ _ _ _ Hsub Hname') as H2.
      split; congruence.
Qed.


Lemma handler_on_a_miss W requestId opts given s :
  truthy (cachedFolders (this s)) = false →
  truthy opts = true → field (heap s) opts "interactive" = Some given →
  _listAppFoldersHandler W requestId opts s =
    try_catch (list_and_cache W requestId (interactive_of given))
      (report_error requestId) s.
Proof.
  intros Hmiss Htruthy Hgiven. unfold _listAppFoldersHandler.
  unfold bind at 1. cbn [get_this]. rewrite Hmiss, Htruthy.
  rewrite (bind_Ret _ _ s opts s) by done.
  by rewrite (bind_Ret _ _ _ _ _ (get_Ret _ _ _ _ Hgiven)).
Qed.

(** X10. What a successful listing leaves in the cache: a new list with, for
    each file of the response and in the same order, a new object holding
    its [id] and its [name] and nothing else; the empty list when the
    response has no [files].  That list is the one sent to the renderer. *)
Theorem cached_list_holds_ids_and_names
    W requestId opts given s result s1 files :
  truthy (cachedFolders (this s)) = false →
  truthy opts = true → field (heap s) opts "interactive" = Some given →
  listAppFolders W (interactive_of given) s = (Ret result, s1) →
  field (heap s1) result "files" = Some files →
  let out := _listAppFoldersHandler W requestId opts s in
  let r := fresh (dom (heap s1)) in
  (truthy files = false →
   out.1 = Ret tt ∧ cachedFolders (this out.2) = VRef r ∧
   trace out.2 = trace s1 ++ [Send result_channel requestId (VRef r)] ∧
   heap out.2 !! r = Some (array [])) ∧
  (∀ items, truthy files = true → items_of (heap s1) files = Some items →
     Forall (readable (heap s1)) items →
     out.1 = Ret tt ∧ cachedFolders (this out.2) = VRef r ∧
     trace out.2 = trace s1 ++ [Send result_channel requestId (VRef r)] ∧
     ∃ folders, heap out.2 !! r = Some (array folders) ∧
                Forall2 (projected (heap s1) (heap out.2)) items folders).
Proof.
  intros Hmiss Htruthy Hgiven Hrun Hfiles out r. subst out.
  rewrite (handler_on_a_miss W requestId opts given s Hmiss Htruthy Hgiven).
  destruct (list_and_cache_files W requestId (interactive_of given) s result
              s1 files Hrun Hfiles) as [Hnone Hsome].
  unfold try_catch. split.
  - intros Hfalsy. rewrite (Hnone Hfalsy). cbn [fst snd this trace heap
      cachedFolders]. repeat split; try done. apply lookup_insert_eq.
  - intros items Ht Hitems Hread.
    destruct (Hsome items Ht Hitems Hread) as (folders & h & -> & Hr & Hp).
    cbn [fst snd this trace heap cachedFolders]. repeat split; try done.
    by exists folders.
Qed.

Lemma cached_list_holds_ids_and_names_witness :
  let out := _listAppFoldersHandler listing (VNum 1) (VRef 1%positive)
               quiet_start in
  out.1 = Ret tt ∧ cachedFolders (this out.2) = VRef 6%positive ∧
  heap out.2 !! 6%positive = Some (array [VRef 7%positive]) ∧
  heap out.2 !! 7%positive =
    Some (plain [("id", VStr "a1"); ("name", VStr "Exports")]).
Proof.
  pose (first := listAppFolders listing (VBool false) quiet_start).
  pose (result := match first.1 with Ret v => v | _ => VUndef end).
  pose (files := default VUndef (field (heap first.2) result "files")).
  pose (items := default [] (items_of (heap first.2) files)).
  destruct (proj2 (cached_list_holds_ids_and_names listing (VNum 1)
                     (VRef 1%positive) (VBool false) quiet_start result
                     first.2 files eq_refl eq_refl eq_refl eq_refl eq_refl)
              items eq_refl eq_refl)
    as (H1 & H2 & _ & folders & H3 & H4).
  { vm_compute. repeat constructor; try done. intros l [= <-]. eauto. }
  intros out. split; [exact H1|]. split; [exact H2|].
  split; by vm_compute.
Defined.


(** ** [_createFolder] *)

Lemma walk_string fuel h x : walk fuel h (VStr x) = WJson (JStr x).
Proof. by destruct fuel. Qed.

Lemma createFolder_request W n token s :
  ∃ h,
    heap s ⊆ h ∧
    ∀ k : response → M val,
      (let! resource := alloc (plain [("name", VStr n);
                                      ("mimeType", VStr folder_mime)]) in
       let! body := JSON_stringify resource in
       let! r := net_request W
         (Request "POST" (Url folder_url) token
            [("content-type", VStr "application/json")] (Some body)) in
       k r) s =
      match net W (trace s ++ [NetRequest (new_folder_request n token)]) with
      | OnResponse r =>
          k r (State h (this s)
                 (trace s ++ [NetRequest (new_folder_request n token)]))
      | OnError e =>
          (Throw e, State h (this s)
                      (trace s ++ [NetRequest (new_folder_request n token)]))
      end.
Proof.
  eexists. split; [apply insert_fresh_subseteq|]. intros k.
  unfold bind at 1. rewrite alloc_Ret.
  set (l := fresh (dom (heap s))).
  set (s1 := State _ (this s) (trace s)).
  assert (Hs : JSON_stringify (VRef l) s1 =
    (Ret (VStr (render (JObj [("name", JStr n);
                              ("mimeType", JStr folder_mime)]))), s1)).
  { unfold JSON_stringify, stringify. cbn [walk]. unfold s1 at 1 2. cbn [heap].
    rewrite lookup_insert_eq. cbn [plain walk_members].
    by rewrite !walk_string. }
  rewrite (bind_Ret _ _ _ _ _ Hs).
  unfold bind at 1, net_request, bind at 1, emit. cbn [heap this trace].
  fold (new_folder_request n token).
  by destruct (net W _).
Qed.

Lemma truthy_alloc j h : truthy (alloc_json j h).1 = json_truthy j.
Proof.
  destruct j as [|b|n|x|items|ms]; try done.
  - cbn [alloc_json]. by destruct (alloc_items alloc_json items h).
  - by destruct (alloc_json_object_ref ms h) as [l ->].
Qed.

Lemma parse_reads W body s ms :
  JSON_parse W body = Some (JObj ms) →
  ∃ v h, parse W body s = (Ret v, State h (this s) (trace s)) ∧
         heap s ⊆ h ∧ reads h v ms.
Proof.
  intros Hp. unfold parse. rewrite Hp. unfold from_json.
  pose proof (alloc_json_subseteq (JObj ms) (heap s)) as Hsub.
  pose proof (object_reads ms (heap s)) as Hreads.
  destruct (alloc_json (JObj ms) (heap s)) as [v h]. cbn [fst snd] in *.
  exists v, h. split; [done|]. split; [done|]. by apply Hreads.
Qed.

(** The ['end'] listener of [_createFolder] on a body that is an object. *)
Lemma createFolder_end h i t v ms :
  reads h v ms →
  let m := (let! err := in_listener (get v "error") in
            if truthy err
            then let! msg := get v "message" in reject_with msg
            else get v "id") in
  (m (State h i t)).2 = State h i t ∧
  match member ms "error" with
  | Some e =>
      if json_truthy e then
        match member ms "message" with
        | None => (m (State h i t)).1 = Throw (ErrorObj "")
        | Some j => ∀ text, text_of j = Some text →
                            (m (State h i t)).1 = Throw (ErrorObj text)
        end
      else
        match member ms "id" with
        | None => (m (State h i t)).1 = Ret VUndef
        | Some j => ∃ h1, (m (State h i t)).1 = Ret (alloc_json j h1).1
        end
  | None =>
      match member ms "id" with
      | None => (m (State h i t)).1 = Ret VUndef
      | Some j => ∃ h1, (m (State h i t)).1 = Ret (alloc_json j h1).1
      end
  end.
Proof.
  intros Hreads m. set (s := State h i t).
  destruct (Hreads "error" eq_refl) as (ve & He & Hve).
  destruct (Hreads "message" eq_refl) as (vm & Hm & Hvm).
  destruct (Hreads "id" eq_refl) as (vi & Hi & Hvi).
  assert (Hrun : m s =
    if truthy ve
    then (Throw (ErrorObj (error_message h vm)), s)
    else (Ret vi, s)).
  { unfold m, bind at 1, in_listener.
    rewrite (get_Ret _ _ s _ He). destruct (truthy ve).
    - by rewrite (bind_Ret _ _ _ _ _ (get_Ret _ _ s _ Hm)).
    - by rewrite (get_Ret _ _ s _ Hi). }
  rewrite Hrun. split; [by destruct (truthy ve)|].
  assert (Hid : truthy ve = false →
    match member ms "id" with
    | None => (if truthy ve
               then (Throw (ErrorObj (error_message h vm)), s)
               else (Ret vi, s)).1 = Ret VUndef
    | Some j => ∃ h1, (if truthy ve
                       then (Throw (ErrorObj (error_message h vm)), s)
                       else (Ret vi, s)).1 = Ret (alloc_json j h1).1
    end).
  { intros ->. destruct (member ms "id"); [|by subst vi].
    destruct Hvi as [h1 ->]. by exists h1. }
  destruct (member ms "error") as [e|].
  - destruct Hve as [h1 ->]. rewrite truthy_alloc in *.
    destruct (json_truthy e); [|by apply Hid].
    destruct (member ms "message") as [j|]; [|by subst vm].
    destruct Hvm as [h2 ->]. intros text Htext. cbn [fst].
    destruct (text_of_alloc j text h2 Htext) as [_ Hstr].
    unfold error_message. rewrite Hstr.
    by destruct j as [|[]|n|x| |].
  - subst ve. by apply Hid.
Qed.

(** X11. What becomes of a folder creation once Drive has answered.  The
    status code is never looked at.  A body that is not JSON rejects the
    promise; the body [null] leaves it pending for ever.  When the body is
    an object with a truthy [error], the promise is rejected with the
    [message] of the body itself, not of the error: for a report of Drive,
    which has its message inside [error], the message is empty.  Without a
    truthy [error] the promise is fulfilled with the [id] of the body,
    [undefined] when there is none. *)
Theorem create_folder_outcome W n token s r :
  net W (trace s ++ [NetRequest (new_folder_request n token)]) = OnResponse r →
  let out := _createFolder W (VStr n) token s in
  let text := Buffer_concat (chunks r) in
  trace out.2 = trace s ++ [NetRequest (new_folder_request n token)] ∧
  this out.2 = this s ∧ heap s ⊆ heap out.2 ∧
  (JSON_parse W text = None → out.1 = Throw SyntaxError) ∧
  (JSON_parse W text = Some JNull → out.1 = Hang) ∧
  (∀ ms e,
     JSON_parse W text = Some (JObj ms) →
     member ms "error" = Some e → json_truthy e = true →
     (member ms "message" = None → out.1 = Throw (ErrorObj "")) ∧
     (∀ m message, member ms "message" = Some m → text_of m = Some message →
                   out.1 = Throw (ErrorObj message))) ∧
  (∀ ms,
     JSON_parse W text = Some (JObj ms) →
     member ms "error" = None ∨
     (∃ e, member ms "error" = Some e ∧ json_truthy e = false) →
     (member ms "id" = None → out.1 = Ret VUndef) ∧
     (∀ id, member ms "id" = Some (JStr id) → out.1 = Ret (VStr id))).
Proof.
  intros Hnet out text. subst out text.
  destruct (createFolder_request W n token s) as (h & Hsub & Hrun).
  unfold _createFolder. rewrite Hrun, Hnet. rewrite drain_chunks.
  set (text := Buffer_concat (chunks r)).
  set (s1 := State h (this s) _).
  set (k := λ body : val,
    let! err := in_listener (get body "error") in
    if truthy err
    then let! msg := get body "message" in reject_with msg
    else get body "id").
  change (let out := bind (parse W text) k s1 in
          trace out.2 = trace s1 ∧ this out.2 = this s ∧ heap s ⊆ heap out.2 ∧
          (JSON_parse W text = None → out.1 = Throw SyntaxError) ∧
          (JSON_parse W text = Some JNull → out.1 = Hang) ∧
          (∀ ms e,
             JSON_parse W text = Some (JObj ms) →
             member ms "error" = Some e → json_truthy e = true →
             (member ms "message" = None → out.1 = Throw (ErrorObj "")) ∧
             (∀ m message, member ms "message" = Some m →
                text_of m = Some message → out.1 = Throw (ErrorObj message))) ∧
          (∀ ms,
             JSON_parse W text = Some (JObj ms) →
             member ms "error" = None ∨
             (∃ e, member ms "error" = Some e ∧ json_truthy e = false) →
             (member ms "id" = None → out.1 = Ret VUndef) ∧
             (∀ id, member ms "id" = Some (JStr id) → out.1 = Ret (VStr id)))).
  destruct (JSON_parse W text) as [j|] eqn:Hp.
  2: { unfold parse, bind. rewrite Hp. cbn.
       split; [done|]. split; [done|]. split; [done|]. split; [done|].
       split; [done|]. split; intros; done. }
  destruct (from_json_run j s1) as (v & h2 & Hj & Hsub2).
  assert (Hparse : parse W text s1 = (Ret v, State h2 (this s1) (trace s1)))
    by (unfold parse; by rewrite Hp).
  rewrite (bind_Ret _ _ _ _ _ Hparse). cbn zeta.
  assert (Hshape : (k v (State h2 (this s1) (trace s1))).2
                   = State h2 (this s1) (trace s1)).
  { unfold k, bind, in_listener, get, reject_with. cbn [heap].
    destruct (field h2 v "error") as [err|]; [|done].
    destruct (truthy err); cbn [heap];
      [destruct (field h2 v "message")|destruct (field h2 v "id")]; done. }
  rewrite Hshape. cbn [heap this trace].
  split; [done|]. split; [done|]. split; [by etrans|]. split; [done|].
  split; [|split].
  - intros [= ->]. unfold from_json in Hj. cbn in Hj. injection Hj as <- <-.
    done.
  - intros ms e [= ->] Herr Htruthy.
    destruct (parse_reads W text s1 ms Hp) as (v' & h' & Hrun' & _ & Hreads).
    rewrite Hrun' in Hparse. injection Hparse as -> ->.
    destruct (createFolder_end h2 (this s1) (trace s1) v ms Hreads) as [_ Hend].
    cbn zeta in Hend. fold k in Hend. rewrite Herr, Htruthy in Hend.
    split.
    + intros Hnone. by rewrite Hnone in Hend.
    + intros m message Hsome Htext. rewrite Hsome in Hend. by apply Hend.
  - intros ms [= ->] Herr.
    destruct (parse_reads W text s1 ms Hp) as (v' & h' & Hrun' & _ & Hreads).
    rewrite Hrun' in Hparse. injection Hparse as -> ->.
    destruct (createFolder_end h2 (this s1) (trace s1) v ms Hreads) as [_ Hend].
    cbn zeta in Hend. fold k in Hend.
    assert (Hid : match member ms "id" with
                  | None => (k v (State h2 (this s1) (trace s1))).1 = Ret VUndef
                  | Some j => ∃ h1, (k v (State h2 (this s1) (trace s1))).1
                                   = Ret (alloc_json j h1).1
                  end).
    { destruct Herr as [Hnone|(e & Hsome & Hfalsy)].
      - by rewrite Hnone in Hend.
      - by rewrite Hsome, Hfalsy in Hend. }
    split.
    + intros Hnone. by rewrite Hnone in Hid.
    + intros id Hsome. rewrite Hsome in Hid. by destruct Hid as [h1 ->].
Qed.

Lemma create_folder_outcome_witness :
  (_createFolder refusing (VStr "Projects") (VStr "token-1") with_token).1
  = Throw (ErrorObj "").
Proof.
  refine (proj1 (proj1 (proj2 (proj2 (proj2 (proj2 (proj2
    (create_folder_outcome refusing "Projects" (VStr "token-1") with_token
       (Response 403 HAbsent [render forbidden]) _))))))
    [("error", JObj [("code", JNum 403);
                     ("message", JStr "Insufficient Permission")])]
    (JObj [("code", JNum 403); ("message", JStr "Insufficient Permission")])
    _ _ _) _);
    reflexivity.
Defined.


(** ** [_listAppFoldersHandler] without a token *)

(** X12. When the identity provider has no token to give, which it answers to a
    request that is not interactive while the user is signed out, the
    handler does not list anything: it makes no request and answers on the
    error channel, with the message of the [TypeError] raised by reading
    [files] of [undefined].  The cache stays empty. *)
Theorem list_folders_without_a_token W requestId opts given s :
  truthy (cachedFolders (this s)) = false →
  truthy opts = true → field (heap s) opts "interactive" = Some given →
  oauth W (trace s ++ [GetAuthToken (interactive_of given)]) = Resolved None →
  let out := _listAppFoldersHandler W requestId opts s in
  out.1 = Ret tt ∧ this out.2 = this s ∧
  ∃ l m,
    trace out.2 = trace s ++ [GetAuthToken (interactive_of given);
                              Send error_channel requestId (VRef l)] ∧
    heap s !! l = None ∧ heap out.2 !! l = Some (plain [("message", VStr m)]).
Proof.
  intros Hmiss Htruthy Hgiven Hoauth out. subst out.
  rewrite (handler_on_a_miss W requestId opts given s Hmiss Htruthy Hgiven).
  set (s0 := State (heap s) (this s)
               (trace s ++ [GetAuthToken (interactive_of given)])).
  assert (Hlist : listAppFolders W (interactive_of given) s = (Ret VUndef, s0)).
  { rewrite listAppFolders_run. cbn zeta. cbn [trace]. by rewrite Hoauth. }
  set (r := fresh (dom (heap s))).
  set (s1 := State (<[r := array []]> (heap s)) (this s) (trace s0)).
  assert (Hbody : list_and_cache W requestId (interactive_of given) s
                  = (Throw TypeError, s1)).
  { unfold list_and_cache. rewrite (bind_Ret _ _ _ _ _ Hlist).
    unfold bind at 1. rewrite alloc_Ret. done. }
  unfold try_catch. rewrite Hbody.
  set (l := fresh (dom (heap s1))).
  assert (Hrep : report_error requestId TypeError s1 =
    (Ret tt, State (<[l := plain [("message", VStr "TypeError")]]> (heap s1))
               (this s)
               (trace s0 ++ [Send error_channel requestId (VRef l)]))).
  { unfold report_error, TypeError, bind at 1. by rewrite alloc_Ret. }
  rewrite Hrep. cbn [fst snd heap this trace].
  split; [done|]. split; [done|].
  exists l, "TypeError".
  split; [unfold s0; cbn [trace]; by rewrite <- app_assoc|].
  assert (Hl : heap s1 !! l = None) by apply fresh_None.
  split; [|apply lookup_insert_eq].
  destruct (heap s !! l) as [o|] eqn:E; [|done].
  assert (Hr : heap s !! r = None) by apply fresh_None.
  unfold s1 in Hl. cbn [heap] in Hl.
  rewrite lookup_insert_ne in Hl by (intros <-; congruence). congruence.
Qed.

Lemma list_folders_without_a_token_witness :
  ∃ l,
    trace (_listAppFoldersHandler signed_out (VNum 1) (VRef 1%positive)
             quiet_start).2 =
      [GetAuthToken (VBool false); Send error_channel (VNum 1) (VRef l)].
Proof.
  destruct (list_folders_without_a_token signed_out (VNum 1) (VRef 1%positive)
              (VBool false) quiet_start eq_refl eq_refl eq_refl eq_refl)
    as (_ & _ & l & m & Ht & _).
  by exists l.
Defined.


(** ** One call of [_createParents] *)

Lemma adopt_then {A} parent id result (k : M A) s :
  (set parent "id" id ;;
   push result parent ;;
   let! i := get_this in
   (if negb (truthy (cachedFolders i))
    then let! fresh_list := alloc (array []) in
         set_cachedFolders fresh_list
    else ret tt) ;;
   let! i := get_this in
   push (cachedFolders i) parent ;;
   k) s =
  (adopt parent id result ;; k) s.
Proof.
  unfold adopt, bind.
  destruct (set parent "id" id s) as [[[]|e|] s1]; [|done..].
  destruct (push result parent s1) as [[[]|e|] s2]; [|done..].
  destruct (get_this s2) as [[i|e|] s3]; [|done..].
  match goal with
  | |- context [match ?m s3 with _ => _ end] =>
      destruct (m s3) as [[[]|e|] s4]; [|done..]
  end.
  destruct (get_this s4) as [[i'|e|] s5]; [|done..].
  by destruct (push (cachedFolders i') parent s5) as [[[]|e|] s6].
Qed.

Lemma adopt_silent parent id result : silent (adopt parent id result).
Proof.
  pose proof always_stable as Hw.
  pose proof (write_alloc_stable Hw) as Ha.
  apply keeps_silent. unfold adopt.
  keeps_step; [by apply keeps_set|].
  keeps_step; [by apply keeps_push|].
  keeps_step; [keeps_step|].
  keeps_step.
  { keeps_step; [|keeps_step].
    keeps_step; [keeps_step|by apply keeps_set_cachedFolders]. }
  keeps_step; [keeps_step|]. by apply keeps_push.
Qed.

Lemma bind_ext {A B} (m : M A) (k1 k2 : A → M B) s :
  (∀ a s', k1 a s' = k2 a s') → bind m k1 s = bind m k2 s.
Proof. intros H. unfold bind. by destruct (m s) as [[a|e|] s1]. Qed.

Lemma oauth_no_request d : Forall is_oauth d → List.filter is_request d = [].
Proof.
  induction 1 as [|e d He _ IH]; [done|]. by destruct e.
Qed.

Lemma _createFolder_trace W name token s :
  ∃ d, trace (_createFolder W name token s).2 = trace s ++ d ∧
       (d = [] ∨
        ∃ b, d = [NetRequest (Request "POST" (Url folder_url) token
                                [("content-type", VStr "application/json")]
                                (Some b))]).
Proof.
  pose proof (write_alloc_stable always_stable) as Ha.
  unfold _createFolder. unfold bind at 1. rewrite alloc_Ret.
  set (s1 := State _ _ _). unfold bind at 1.
  destruct (JSON_stringify _ s1) as [[b|e|] s2] eqn:Hs.
  - apply JSON_stringify_inv in Hs as [-> _].
    unfold bind at 1. rewrite net_request_run.
    destruct (net W _) as [r|e].
    + assert (Hk : silent
        (let! body := parse W (drain r) in
         let! err := in_listener (get body "error") in
         if truthy err then
           let! msg := get body "message" in reject_with msg
         else get body "id")).
      { apply keeps_silent.
        keeps_step; [by apply keeps_parse|]. repeat keeps_step. }
      cbv beta. rewrite Hk. cbn [trace s1]. eexists. split; [done|].
      right. eauto.
    + cbn [snd trace s1]. eexists. split; [done|]. right. eauto.
  - unfold JSON_stringify in Hs. destruct (stringify _ _); simplify_eq.
    exists []. rewrite app_nil_r. split; [done|by left].
  - unfold JSON_stringify in Hs. by destruct (stringify _ _).
Qed.

Lemma createFolder_requests W name x s :
  let out := createFolder W name x s in
  ∃ d, trace out.2 = trace s ++ d ∧ Forall resolution d ∧
       (length (List.filter is_request d) ≤ 1)%nat.
Proof.
  intros out. subst out. unfold createFolder.
  destruct (auth_grows W x s) as ((d1 & Ht1 & Hd1) & _ & _).
  assert (Hres : Forall resolution d1)
    by (eapply Forall_impl; [exact Hd1|]; by left).
  assert (Hstop : ∃ d, trace s ++ d1 = trace s ++ d ∧ Forall resolution d ∧
                       (length (List.filter is_request d) ≤ 1)%nat).
  { exists d1. split; [done|]. split; [done|].
    rewrite oauth_no_request by done. simpl. lia. }
  unfold bind at 1.
  destruct (auth W x s) as [[info|e|] s1]; cbn [fst snd] in *;
    [|simpl; by rewrite Ht1..].
  unfold bind at 1. pose proof (get_state info "accessToken" s1) as Hg.
  destruct (get info "accessToken" s1) as [[token|e|] s2]; simpl in Hg;
    subst s2; [|simpl; by rewrite Ht1..].
  destruct (_createFolder_trace W name token s1) as (d2 & Ht2 & Hd2).
  exists (d1 ++ d2). rewrite Ht2, Ht1, app_assoc. split; [done|]. split.
  - apply Forall_app. split; [done|].
    destruct Hd2 as [->|[b ->]]; [constructor|].
    constructor; [|constructor]. right. exists token. by exists b.
  - rewrite List.filter_app, oauth_no_request by done.
    destruct Hd2 as [->|[b ->]]; simpl; lia.
Qed.

(** An entry with an id is moved to the result, and that is all. *)
Lemma createParents_step_id W n pa ra info h i t l id rest acc pps rps :
  pa ≠ ra →
  h !! pa = Some (Obj (Some (VRef l :: rest)) pps) →
  h !! ra = Some (Obj (Some acc) rps) →
  field h (VRef l) "id" = Some id → truthy id = true →
  _createParents W (S n) (VRef pa) info (VRef ra) (State h i t) =
  _createParents W n (VRef pa) info (VRef ra)
    (State (<[ra := Obj (Some (acc ++ [VRef l])) rps]>
              (<[pa := Obj (Some rest) pps]> h)) i t).
Proof.
  intros Hne Hpa Hra Hid Ht. cbn [_createParents].
  rewrite (bind_Ret _ _ _ _ _ (shift_run (State h i t) _ _ _ _ Hpa)).
  cbn [truthy negb heap this trace].
  set (s1 := State (<[pa := Obj (Some rest) pps]> h) i t).
  assert (Hid1 : field (heap s1) (VRef l) "id" = Some id).
  { simpl. by rewrite (field_insert_elems _ _ _ _ _ _ _ Hpa). }
  rewrite (bind_Ret _ _ _ _ _ (get_Ret _ _ _ _ Hid1)). rewrite Ht.
  assert (Hra1 : heap s1 !! ra = Some (Obj (Some acc) rps)).
  { simpl. by rewrite lookup_insert_ne. }
  by rewrite (bind_Ret _ _ _ _ _ (push_run _ _ _ _ _ Hra1)).
Qed.

(** For an entry without an id a folder is created. *)
Lemma createParents_step_new W n pa ra info s l rest pps id0 name :
  heap s !! pa = Some (Obj (Some (VRef l :: rest)) pps) →
  field (heap s) (VRef l) "id" = Some id0 → truthy id0 = false →
  field (heap s) (VRef l) "name" = Some name →
  _createParents W (S n) (VRef pa) info (VRef ra) s =
  (let! id := createFolder W name info in
   adopt (VRef l) id (VRef ra) ;;
   _createParents W n (VRef pa) info (VRef ra))
    (State (<[pa := Obj (Some rest) pps]> (heap s)) (this s) (trace s)).
Proof.
  intros Hpa Hid Ht Hname. cbn [_createParents].
  rewrite (bind_Ret _ _ _ _ _ (shift_run _ _ _ _ _ Hpa)).
  cbn [truthy negb].
  set (s1 := State (<[pa := Obj (Some rest) pps]> (heap s)) (this s) (trace s)).
  assert (Hid1 : field (heap s1) (VRef l) "id" = Some id0).
  { simpl. by rewrite (field_insert_elems _ _ _ _ _ _ _ Hpa). }
  assert (Hname1 : field (heap s1) (VRef l) "name" = Some name).
  { simpl. by rewrite (field_insert_elems _ _ _ _ _ _ _ Hpa). }
  rewrite (bind_Ret _ _ _ _ _ (get_Ret _ _ _ _ Hid1)). rewrite Ht.
  rewrite (bind_Ret _ _ _ _ _ (get_Ret _ _ _ _ Hname1)).
  apply bind_ext. intros id sf. apply adopt_then.
Qed.

Lemma same_props_refl h : same_props h h.
Proof. intros l o Hl. eauto. Qed.

Lemma same_props_trans h1 h2 h3 :
  same_props h1 h2 → same_props h2 h3 → same_props h1 h3.
Proof.
  intros H1 H2 l o Hl. destruct (H1 _ _ Hl) as (o2 & Hl2 & E2).
  destruct (H2 _ _ Hl2) as (o3 & Hl3 & E3). exists o3. split; [done|].
  congruence.
Qed.

Lemma same_props_grow (h h' : gmap loc obj) : h ⊆ h' → same_props h h'.
Proof. intros Hsub l o Hl. exists o. split; [by eapply lookup_weaken|done]. Qed.

Lemma same_props_elems h a o e :
  h !! a = Some o → same_props h (<[a := Obj e (props o)]> h).
Proof.
  intros Ha l o' Hl. destruct (decide (l = a)) as [->|Hne].
  - rewrite lookup_insert_eq. eexists. split; [done|]. simpl. congruence.
  - rewrite lookup_insert_ne by done. eauto.
Qed.

Lemma field_same_props h h' l k :
  same_props h h' → is_Some (h !! l) → String.eqb k "length" = false →
  field h' (VRef l) k = field h (VRef l) k.
Proof.
  intros H [o Hl] Hk. destruct (H _ _ Hl) as (o' & Hl' & E).
  unfold field. rewrite Hl, Hl'. destruct o as [[vs|] ps], o' as [[vs'|] ps'];
    simpl in E; subst; by rewrite ?Hk.
Qed.

Lemma lacks_id_same_props h h' l :
  same_props h h' → is_Some (h !! l) →
  lacks_id h' (VRef l) = lacks_id h (VRef l).
Proof.
  intros H Hl. unfold lacks_id. by rewrite (field_same_props h h' l "id").
Qed.

Lemma objects_same_props h h' vs :
  same_props h h' → objects h vs → objects h' vs.
Proof.
  intros H Hvs. eapply Forall_impl; [exact Hvs|].
  intros x (l & -> & [o Hl]). destruct (H _ _ Hl) as (o' & Hl' & _). eauto.
Qed.

Lemma lacks_id_has_id h l :
  is_Some (h !! l) → lacks_id h (VRef l) = false ↔ has_id h (VRef l).
Proof.
  intros [o Hl]. unfold lacks_id, has_id. rewrite (field_id _ _ _ Hl). split.
  - intros H. eexists. split; [done|]. by apply negb_false_iff.
  - intros (id & [= <-] & Ht). by rewrite Ht.
Qed.

(** What a run of [adopt] that returns has done. *)
Lemma adopt_Ret_inv l id pa ra rest acc s s' :
  pa ≠ ra →
  items_of (heap s) (VRef pa) = Some rest →
  items_of (heap s) (VRef ra) = Some acc →
  cachedFolders (this s) ≠ VRef pa →
  cachedFolders (this s) ≠ VRef ra →
  adopt (VRef l) id (VRef ra) s = (Ret tt, s') →
  trace s' = trace s ∧
  items_of (heap s') (VRef pa) = Some rest ∧
  items_of (heap s') (VRef ra) = Some (acc ++ [VRef l]) ∧
  (∃ o o', heap s !! l = Some o ∧ heap s' !! l = Some o' ∧
           props o' = set_prop (props o) "id" id) ∧
  (∀ l' o, l' ≠ l → heap s !! l' = Some o →
     ∃ o', heap s' !! l' = Some o' ∧ props o' = props o) ∧
  cachedFolders (this s') ≠ VRef pa ∧
  cachedFolders (this s') ≠ VRef ra ∧
  ∃ c old, cachedFolders (this s') = VRef c ∧
           items_of (heap s') (VRef c) = Some (old ++ [VRef l]) ∧
           (truthy (cachedFolders (this s)) = true →
              this s' = this s ∧ items_of (heap s) (VRef c) = Some old) ∧
           (truthy (cachedFolders (this s)) = false →
              old = [] ∧ heap s !! c = None).
Proof.
  intros Hne Hpa Hra Hcp Hcr Hrun. unfold adopt in Hrun.
  inv_bind Hrun as u s3 Hset.
  apply set_Ret_inv in Hset as (l0 & o & [= <-] & Hl & ->).
  inv_bind Hrun as u2 s4 Hpush.
  apply push_Ret_inv in Hpush as (a & ora & acc' & [= <-] & Hora & Hacc & ->).
  cbn [heap this trace] in *.
  set (h3 := <[l := Obj (elems o) (set_prop (props o) "id" id)]> (heap s)) in *.
  assert (Hra3 : items_of h3 (VRef ra) = Some acc)
    by (unfold h3; by rewrite items_of_insert_props).
  assert (acc' = acc) as ->.
  { unfold items_of in Hra3. rewrite Hora in Hra3. simpl in Hra3. congruence. }
  set (h4 := <[ra := Obj (Some (acc ++ [VRef l])) (props ora)]> h3) in *.
  assert (Hpa4 : items_of h4 (VRef pa) = Some rest).
  { unfold h4, h3. rewrite items_of_insert_ne by done.
    by rewrite items_of_insert_props. }
  assert (Hra4 : items_of h4 (VRef ra) = Some (acc ++ [VRef l]))
    by apply items_of_insert_eq.
  assert (Hl4 : ∃ o4, h4 !! l = Some o4 ∧
                      props o4 = set_prop (props o) "id" id).
  { unfold h4. destruct (decide (l = ra)) as [->|Hlr].
    - rewrite lookup_insert_eq. eexists. split; [done|]. simpl.
      unfold h3 in Hora. rewrite lookup_insert_eq in Hora.
      by injection Hora as <-.
    - rewrite lookup_insert_ne by done. unfold h3.
      rewrite lookup_insert_eq. eauto. }
  assert (Hframe4 : ∀ l' o', l' ≠ l → heap s !! l' = Some o' →
            ∃ o4, h4 !! l' = Some o4 ∧ props o4 = props o').
  { intros l' o' Hl' Ho'. unfold h4. destruct (decide (l' = ra)) as [->|Hlr].
    - rewrite lookup_insert_eq. eexists. split; [done|]. simpl.
      unfold h3 in Hora. rewrite lookup_insert_ne in Hora by done.
      rewrite Ho' in Hora. by injection Hora as <-.
    - rewrite lookup_insert_ne by done. unfold h3.
      rewrite lookup_insert_ne by done. eauto. }
  assert (Hold4 : ∀ c0 old0, c0 ≠ ra →
            items_of h4 (VRef c0) = Some old0 →
            items_of (heap s) (VRef c0) = Some old0).
  { intros c0 old0 Hc0. unfold h4, h3. rewrite items_of_insert_ne by done.
    by rewrite items_of_insert_props. }
  clearbody h4. clear Hora Hacc Hra3 h3.
  inv_bind Hrun as i s5 Hi. apply get_this_inv in Hi as [-> ->].
  inv_bind Hrun as u3 s6 Hcache.
  inv_bind Hrun as i2 s7 Hi2. apply get_this_inv in Hi2 as [-> ->].
  apply push_Ret_inv in Hrun as (c & oc & old & Hc & Hoc & Hold & ->).
  cbn [heap this trace] in *.
  destruct (truthy (cachedFolders (this s))) eqn:Hcached; cbn [negb] in Hcache.
  - (* the cache exists *)
    apply ret_inv in Hcache as [_ ->]. cbn [heap this trace] in *.
    assert (c ≠ pa) by (intros ->; by apply Hcp).
    assert (c ≠ ra) by (intros ->; by apply Hcr).
    assert (Hsame : same_props h4
              (<[c := Obj (Some (old ++ [VRef l])) (props oc)]> h4))
      by (by apply same_props_elems).
    split; [done|].
    split; [by rewrite items_of_insert_ne|].
    split; [by rewrite items_of_insert_ne|].
    split.
    { destruct Hl4 as (o4 & Ho4 & E4). destruct (Hsame _ _ Ho4) as (o5 & Ho5 & E5).
      exists o, o5. split; [done|]. split; [done|]. congruence. }
    split.
    { intros l' o' Hl' Ho'. destruct (Hframe4 _ _ Hl' Ho') as (o4 & Ho4 & E4).
      destruct (Hsame _ _ Ho4) as (o5 & Ho5 & E5). exists o5.
      split; [done|]. congruence. }
    split; [done|]. split; [done|].
    exists c, old. split; [done|]. split; [apply items_of_insert_eq|].
    split; [|done]. intros _. split; [done|]. apply Hold4; [done|].
    unfold items_of. by rewrite Hoc.
  - (* the cache is created *)
    inv_bind Hcache as fl sx Halloc. rewrite alloc_Ret in Halloc.
    injection Halloc as <- <-. rewrite set_cachedFolders_run in Hcache.
    injection Hcache as <- <-. cbn [heap this trace cachedFolders] in *.
    injection Hc as <-. rewrite lookup_insert_eq in Hoc.
    injection Hoc as <-. cbn [elems array] in Hold. injection Hold as <-.
    set (c := fresh (dom h4)) in *.
    assert (Hfresh : h4 !! c = None) by apply fresh_None.
    assert (c ≠ pa).
    { intros E. unfold items_of in Hpa4. rewrite <- E in Hpa4.
      by rewrite Hfresh in Hpa4. }
    assert (c ≠ ra).
    { intros E. unfold items_of in Hra4. rewrite <- E in Hra4.
      by rewrite Hfresh in Hra4. }
    rewrite insert_insert_eq.
    assert (Hsame : same_props h4
              (<[c := Obj (Some ([] ++ [VRef l])) (props (array []))]> h4))
      by (apply same_props_grow; by apply insert_subseteq).
    split; [done|].
    split; [by rewrite items_of_insert_ne|].
    split; [by rewrite items_of_insert_ne|].
    split.
    { destruct Hl4 as (o4 & Ho4 & E4). destruct (Hsame _ _ Ho4) as (o5 & Ho5 & E5).
      exists o, o5. split; [done|]. split; [done|]. congruence. }
    split.
    { intros l' o' Hl' Ho'. destruct (Hframe4 _ _ Hl' Ho') as (o4 & Ho4 & E4).
      destruct (Hsame _ _ Ho4) as (o5 & Ho5 & E5). exists o5.
      split; [done|]. congruence. }
    split; [congruence|]. split; [congruence|].
    exists c, []. split; [done|]. split; [apply items_of_insert_eq|].
    split; [done|]. intros _. split; [done|].
    destruct (heap s !! c) as [oc|] eqn:Ec; [|done].
    destruct (decide (c = l)) as [->|Hcl].
    + destruct Hl4 as (o4 & Ho4 & _). congruence.
    + destruct (Hframe4 _ _ Hcl Ec) as (o4 & Ho4 & _). congruence.
Qed.

Lemma has_id_props h h' l o o' :
  h !! l = Some o → h' !! l = Some o' → props o' = props o →
  has_id h (VRef l) ↔ has_id h' (VRef l).
Proof.
  intros Hl Hl' E. split.
  - by apply (has_id_same_props h' h l o' o).
  - by apply (has_id_same_props h h' l o o').
Qed.

Lemma items_cell h a vs :
  items_of h (VRef a) = Some vs → ∃ ps, h !! a = Some (Obj (Some vs) ps).
Proof.
  intros H. destruct (items_of_cell _ _ _ H) as ([e ps] & Ha & He).
  simpl in He. subst e. eauto.
Qed.

Lemma createFolder_trace W name x s :
  ∃ d, trace (createFolder W name x s).2 = trace s ++ d.
Proof.
  destruct (createFolder_requests W name x s) as (d & Ht & _). eauto.
Qed.

(** A run of [_createParents] that returns: the entries that came with an
    id, and the cells that are not entries, keep their properties; the
    cache grows; every entry that came without an id is in the cache and
    has the id that [createFolder] returned for it. *)
Lemma createParents_assigns W info pa ra : pa ≠ ra → ∀ vs n s acc v s',
  items_of (heap s) (VRef pa) = Some vs →
  items_of (heap s) (VRef ra) = Some acc →
  cachedFolders (this s) ≠ VRef pa →
  cachedFolders (this s) ≠ VRef ra →
  objects (heap s) vs →
  _createParents W n (VRef pa) info (VRef ra) s = (Ret v, s') →
  (∃ d, trace s' = trace s ++ d) ∧
  (∀ l o, heap s !! l = Some o → VRef l ∉ vs ∨ has_id (heap s) (VRef l) →
     ∃ o', heap s' !! l = Some o' ∧ props o' = props o) ∧
  (∀ c old, cachedFolders (this s) = VRef c →
     items_of (heap s) (VRef c) = Some old →
     cachedFolders (this s') = VRef c ∧
     ∃ new, items_of (heap s') (VRef c) = Some (old ++ new)) ∧
  (∀ x, x ∈ vs → ¬ has_id (heap s) x →
     cached s' x ∧
     ∃ name id s1 sf,
       createFolder W name info s1 = (Ret id, sf) ∧
       (∃ d, trace s1 = trace s ++ d) ∧ (∃ d, trace s' = trace sf ++ d) ∧
       field (heap s1) x "name" = Some name ∧
       field (heap s') x "id" = Some id).
Proof.
  intros Hne. induction vs as [|x rest IH];
    intros n s acc v s' Hpa Hra Hcp Hcr Hobj Hrun.
  - destruct n as [|n]; [done|]. cbn [_createParents] in Hrun.
    destruct (items_cell _ _ _ Hpa) as (pps & Ha).
    rewrite (bind_Ret _ _ _ _ _ (shift_empty _ _ _ Ha)) in Hrun.
    cbn [truthy negb] in Hrun. apply ret_inv in Hrun as [-> ->].
    split; [exists []; by rewrite app_nil_r|]. split; [by eauto|]. split.
    + intros c old Hc Hold. split; [done|]. exists []. by rewrite app_nil_r.
    + intros x Hx. by apply elem_of_nil in Hx.
  - destruct n as [|n]; [done|].
    pose proof Hobj as Hobj0.
    apply Forall_cons in Hobj as [(l & -> & [ol Hl]) Hobj].
    destruct (items_cell _ _ _ Hpa) as (pps & Ha).
    destruct (items_cell _ _ _ Hra) as (rps & Hr).
    pose proof (field_id _ _ _ Hl) as Hid.
    destruct (truthy (get_prop (props ol) "id")) eqn:Htid.
    + (* the entry has an id *)
      destruct s as [h i t]. cbn [heap this trace] in *.
      rewrite (createParents_step_id W n pa ra info h i t l _ rest acc pps rps
                 Hne Ha Hr Hid Htid) in Hrun.
      set (h1 := <[pa := Obj (Some rest) pps]> h) in *.
      assert (Hr1 : h1 !! ra = Some (Obj (Some acc) rps))
        by (unfold h1; by rewrite lookup_insert_ne).
      set (h2 := <[ra := Obj (Some (acc ++ [VRef l])) rps]> h1) in *.
      assert (Hsame : same_props h h2).
      { eapply same_props_trans.
        - apply (same_props_elems h pa _ (Some rest) Ha).
        - apply (same_props_elems h1 ra _ (Some (acc ++ [VRef l])) Hr1). }
      assert (Hpa2 : items_of h2 (VRef pa) = Some rest).
      { unfold h2, h1. rewrite items_of_insert_ne by done.
        apply items_of_insert_eq. }
      assert (Hra2 : items_of h2 (VRef ra) = Some (acc ++ [VRef l]))
        by apply items_of_insert_eq.
      assert (Hobj2 : objects h2 rest) by (by apply (objects_same_props h)).
      destruct (IH n (State h2 i t) (acc ++ [VRef l]) v s'
                  Hpa2 Hra2 Hcp Hcr Hobj2 Hrun)
        as (Htr & Hframe & Hcache & Hcreated).
      cbn [heap this trace] in *.
      split; [done|]. split; [|split].
      * intros l' o Hl' Hor. destruct (Hsame _ _ Hl') as (o2 & Hl2 & E2).
        destruct (Hframe l' o2 Hl2) as (o' & Ho' & E').
        { destruct Hor as [Hor|Hor]; [left|right].
          - intros Hin. apply Hor. by apply elem_of_cons; right.
          - by apply (has_id_props h h2 l' o o2). }
        exists o'. split; [done|]. congruence.
      * intros c old Hc Hold. apply Hcache; [done|].
        assert (c ≠ pa) by (intros ->; by apply Hcp).
        assert (c ≠ ra) by (intros ->; by apply Hcr).
        unfold h2, h1. by rewrite !items_of_insert_ne.
      * intros x Hx Hno. apply elem_of_cons in Hx as [->|Hx].
        { destruct Hno. exists (get_prop (props ol) "id"). by split. }
        pose proof Hobj as Hobj'. rewrite Forall_forall in Hobj'.
        destruct (Hobj' _ Hx) as (l' & -> & [o' Hl']).
        destruct (Hsame _ _ Hl') as (o2 & Hl2 & E2).
        apply Hcreated; [done|]. intros Hhas. apply Hno.
        by apply (has_id_props h h2 l' o' o2).
    + (* a folder is created *)
      assert (Hnohead : ¬ has_id (heap s) (VRef l)).
      { intros (id' & Hid' & Ht'). rewrite Hid in Hid'. simplify_eq.
        congruence. }
      pose proof (field_ref _ _ _ "name" Hl eq_refl) as Hname.
      rewrite (createParents_step_new W n pa ra info s l rest pps _ _
                 Ha Hid Htid Hname) in Hrun.
      set (s1 := State (<[pa := Obj (Some rest) pps]> (heap s))
                   (this s) (trace s)) in *.
      assert (Hsame1 : same_props (heap s) (heap s1))
        by apply (same_props_elems (heap s) pa _ (Some rest) Ha).
      inv_bind Hrun as id sf Hcf. inv_bind Hrun as u s2 Had. destruct u.
      pose proof (createFolder_grows W (get_prop (props ol) "name") info s1)
        as [Hgrow Hthis].
      destruct (createFolder_trace W (get_prop (props ol) "name") info s1)
        as [d1 Hd1].
      rewrite Hcf in Hgrow, Hthis, Hd1. cbn [snd] in Hgrow, Hthis, Hd1.
      change (this s1) with (this s) in Hthis.
      change (trace s1) with (trace s) in Hd1.
      assert (Hsamef : same_props (heap s) (heap sf)).
      { eapply same_props_trans; [exact Hsame1|]. by apply same_props_grow. }
      assert (Hpaf : items_of (heap sf) (VRef pa) = Some rest).
      { apply (items_of_weaken _ _ _ _ Hgrow). apply items_of_insert_eq. }
      assert (Hraf : items_of (heap sf) (VRef ra) = Some acc).
      { apply (items_of_weaken _ _ _ _ Hgrow). unfold s1. cbn [heap].
        by rewrite items_of_insert_ne. }
      destruct (adopt_Ret_inv l id pa ra rest acc sf s2)
        as (Ht2 & Hpa2 & Hra2 & (olf & ol2 & Hlf & Hl2 & El2) & Hothers &
            Hcp2 & Hcr2 & c & old & Hc2 & Hold2 & Hwas & Hnew);
        try done; try (by rewrite Hthis).
      assert (Eolf : props olf = props ol).
      { destruct (Hsamef _ _ Hl) as (o' & Ho' & E'). congruence. }
      assert (Hcell2 : ∀ l' o, l' ≠ l → heap s !! l' = Some o →
                ∃ o2, heap s2 !! l' = Some o2 ∧ props o2 = props o).
      { intros l' o Hl' Ho. destruct (Hsamef _ _ Ho) as (o1 & Ho1 & E1).
        destruct (Hothers _ _ Hl' Ho1) as (o2 & Ho2 & E2).
        exists o2. split; [done|]. congruence. }
      assert (Hobj2 : objects (heap s2) rest).
      { eapply Forall_impl; [exact Hobj|]. intros x (l' & -> & [o' Hl']).
        exists l'. split; [done|]. destruct (decide (l' = l)) as [->|Hll].
        - eauto.
        - destruct (Hcell2 _ _ Hll Hl') as (o2 & Ho2 & _). eauto. }
      destruct (IH n s2 (acc ++ [VRef l]) v s' Hpa2 Hra2 Hcp2 Hcr2 Hobj2 Hrun)
        as ((d2 & Hd2) & Hframe & Hcache & Hcreated).
      assert (Htrace : trace s' = trace sf ++ d2) by (by rewrite Hd2, Ht2).
      assert (Hname1 : field (heap s1) (VRef l) "name"
                       = Some (get_prop (props ol) "name")).
      { unfold s1. cbn [heap].
        by rewrite (field_insert_elems _ _ _ _ _ _ _ Ha). }
      assert (Hid2 : field (heap s2) (VRef l) "id" = Some id).
      { rewrite (field_id _ _ _ Hl2), El2. by rewrite get_set_prop_eq. }
      assert (Hcached : cached s' (VRef l)).
      { destruct (Hcache _ _ Hc2 Hold2) as (Hc' & new & Hnew').
        exists c, ((old ++ [VRef l]) ++ new). split; [done|]. split; [done|].
        rewrite !elem_of_app. left. right. by apply list_elem_of_singleton. }
      assert (Hkept : (∃ o', heap s' !! l = Some o' ∧ props o' = props ol2) →
                ∃ name id0 s0 sf0,
                  createFolder W name info s0 = (Ret id0, sf0) ∧
                  (∃ d, trace s0 = trace s ++ d) ∧
                  (∃ d, trace s' = trace sf0 ++ d) ∧
                  field (heap s0) (VRef l) "name" = Some name ∧
                  field (heap s') (VRef l) "id" = Some id0).
      { intros (o' & Ho' & E'). exists (get_prop (props ol) "name"), id, s1, sf.
        split; [done|]. split; [exists []; by rewrite app_nil_r|].
        split; [by eauto|]. split; [done|].
        rewrite (field_id _ _ _ Ho'), E', El2. by rewrite get_set_prop_eq. }
      assert (Hlater : ∀ x,
                (∃ name id0 s0 sf0,
                  createFolder W name info s0 = (Ret id0, sf0) ∧
                  (∃ d, trace s0 = trace s2 ++ d) ∧
                  (∃ d, trace s' = trace sf0 ++ d) ∧
                  field (heap s0) x "name" = Some name ∧
                  field (heap s') x "id" = Some id0) →
                ∃ name id0 s0 sf0,
                  createFolder W name info s0 = (Ret id0, sf0) ∧
                  (∃ d, trace s0 = trace s ++ d) ∧
                  (∃ d, trace s' = trace sf0 ++ d) ∧
                  field (heap s0) x "name" = Some name ∧
                  field (heap s') x "id" = Some id0).
      { intros x (name & id0 & s0 & sf0 & H1 & (d & H2) & H3 & H4 & H5).
        exists name, id0, s0, sf0. split; [done|]. split; [|done].
        exists (d1 ++ d). by rewrite H2, Ht2, Hd1, app_assoc. }
      assert (Hhead : cached s' (VRef l) ∧
                ∃ name id0 s0 sf0,
                  createFolder W name info s0 = (Ret id0, sf0) ∧
                  (∃ d, trace s0 = trace s ++ d) ∧
                  (∃ d, trace s' = trace sf0 ++ d) ∧
                  field (heap s0) (VRef l) "name" = Some name ∧
                  field (heap s') (VRef l) "id" = Some id0).
      { split; [done|]. destruct (truthy id) eqn:Htnew.
        - apply Hkept. apply (Hframe l ol2 Hl2). right. by exists id.
        - destruct (decide (VRef l ∈ rest)) as [Hin|Hout].
          + apply Hlater. apply Hcreated; [done|].
            intros (id' & Hid' & Ht'). rewrite Hid2 in Hid'. simplify_eq.
            congruence.
          + apply Hkept. apply (Hframe l ol2 Hl2). by left. }
      split; [exists (d1 ++ d2); by rewrite Hd2, Ht2, Hd1, app_assoc|].
      split; [|split].
      * intros l' o Hl' Hor.
        assert (Hll : l' ≠ l).
        { intros ->. destruct Hor as [Hor|Hor]; [|done].
          apply Hor. by apply elem_of_cons; left. }
        destruct (Hcell2 _ _ Hll Hl') as (o2 & Ho2 & E2).
        destruct (Hframe l' o2 Ho2) as (o' & Ho' & E').
        { destruct Hor as [Hor|Hor]; [left|right].
          - intros Hin. apply Hor. by apply elem_of_cons; right.
          - by apply (has_id_props (heap s) (heap s2) l' o o2). }
        exists o'. split; [done|]. congruence.
      * intros c0 old0 Hc0 Hold0.
        assert (Htruthy : truthy (cachedFolders (this sf)) = true)
          by (by rewrite Hthis, Hc0).
        destruct (Hwas Htruthy) as [Hthis2 Holdf].
        assert (c = c0) as -> by congruence.
        assert (c0 ≠ pa) by (intros ->; by apply Hcp).
        assert (Hold0f : items_of (heap sf) (VRef c0) = Some old0).
        { apply (items_of_weaken _ _ _ _ Hgrow). unfold s1. cbn [heap].
          by rewrite items_of_insert_ne. }
        assert (old = old0) as -> by congruence.
        destruct (Hcache _ _ Hc2 Hold2) as (Hc' & new & Hnew').
        split; [done|]. exists ([VRef l] ++ new). by rewrite app_assoc.
      * intros x Hx Hno. apply elem_of_cons in Hx as [->|Hx]; [done|].
        pose proof Hobj as Hobj'. rewrite Forall_forall in Hobj'.
        destruct (Hobj' _ Hx) as (l' & -> & [o' Hl']).
        destruct (decide (l' = l)) as [->|Hll]; [done|].
        destruct (Hcell2 _ _ Hll Hl') as (o2 & Ho2 & E2).
        destruct (Hcreated (VRef l') Hx) as [Hin Hid'].
        { intros Hhas. apply Hno.
          by apply (has_id_props (heap s) (heap s2) l' o' o2). }
        split; [done|]. by apply Hlater.
Qed.

(** C10. The calls write into the objects of the caller.
    [_createResource] returns the very [meta] it was given, with the default
    description and media type written into that cell where they were
    missing.  A [create] that returns on a resource with [parents] leaves
    [resource.parents] as a new list of the ids of the resolved parents, or
    without the property when nothing was resolved.  A run of
    [_createParents] that returns has emptied its input list and has
    appended the same references to the result list it returns; for every
    entry [x] that came without an id, a call [createFolder(x.name, auth)]
    made during the run has returned the value that [x.id] holds at the
    end, and the reference [x] is an element of the folder cache.  On the
    Drive of [drive], the caller's [Projects] object gets the id
    [folder-1], and is the object found in the cache and in
    [result.parents]. *)
Theorem calls_write_into_caller_objects :
  (∀ config m type_ o s,
     field (heap s) config "meta" = Some (VRef m) →
     field (heap s) config "type" = Some type_ →
     heap s !! m = Some o →
     _createResource config s =
       (Ret (VRef m),
        State (<[m := Obj (elems o) (with_defaults (this s) type_ (props o))]>
                 (heap s)) (this s) (trace s)) ∧
     (truthy (get_prop (props o) "mimeType") = false →
      get_prop (with_defaults (this s) type_ (props o)) "mimeType" =
        js_or type_ (fileType (this s))) ∧
     (truthy (get_prop (props o) "description") = false →
      truthy (fileDescription (this s)) = true →
      get_prop (with_defaults (this s) type_ (props o)) "description" =
        fileDescription (this s))) ∧
  (∀ W resource media auth_ s result s' parents len,
     create W resource media auth_ s = (Ret result, s') →
     field (heap s) resource "parents" = Some parents →
     truthy parents = true →
     field (heap s) parents "length" = Some len →
     truthy len = true →
     ∃ r created items ids,
       resource = VRef r ∧
       field (heap s') result "parents" = Some created ∧
       items_of (heap s') created = Some items ∧
       Forall2 (λ item id, field (heap s') item "id" = Some id) items ids ∧
       (items ≠ [] →
        ∃ ia, heap s !! ia = None ∧
              field (heap s') resource "parents" = Some (VRef ia) ∧
              items_of (heap s') (VRef ia) = Some ids) ∧
       (items = [] →
        ∃ o', heap s' !! r = Some o' ∧ has_prop (props o') "parents" = false)) ∧
  (∀ W info pa ra vs n s acc v s',
     pa ≠ ra →
     items_of (heap s) (VRef pa) = Some vs →
     items_of (heap s) (VRef ra) = Some acc →
     cachedFolders (this s) ≠ VRef pa →
     cachedFolders (this s) ≠ VRef ra →
     objects (heap s) vs →
     _createParents W n (VRef pa) info (VRef ra) s = (Ret v, s') →
     v = VRef ra ∧
     items_of (heap s') (VRef pa) = Some [] ∧
     items_of (heap s') (VRef ra) = Some (acc ++ vs) ∧
     ∀ x, x ∈ vs → ¬ has_id (heap s) x →
       cached s' x ∧
       ∃ name id s1 sf,
         createFolder W name info s1 = (Ret id, sf) ∧
         (∃ d, trace s1 = trace s ++ d) ∧
         (∃ d, trace s' = trace sf ++ d) ∧
         field (heap s1) x "name" = Some name ∧
         field (heap s') x "id" = Some id) ∧
  (let out := _createResource (VRef 2%positive) meta_start in
   out.1 = Ret (VRef 1%positive) ∧
   heap out.2 !! 1%positive =
     Some (plain [("name", VStr "export.json");
                  ("description",
                   VStr "Advanced REST client data export file.");
                  ("mimeType", VStr "application/json")])) ∧
  (let out := create drive (VRef 3%positive) (VRef 4%positive)
                (VRef 5%positive) projects_start in
   out.1 = Ret (VRef 13%positive) ∧
   field (heap out.2) (VRef 3%positive) "parents" = Some (VRef 12%positive) ∧
   items_of (heap out.2) (VRef 12%positive) =
     Some [VStr "root"; VStr "folder-1"] ∧
   heap out.2 !! 1%positive =
     Some (plain [("name", VStr "Projects"); ("id", VStr "folder-1")]) ∧
   field (heap out.2) (VRef 13%positive) "parents" = Some (VRef 8%positive) ∧
   items_of (heap out.2) (VRef 8%positive) =
     Some [VRef 7%positive; VRef 1%positive] ∧
   cachedFolders (this out.2) = VRef 11%positive ∧
   items_of (heap out.2) (VRef 11%positive) = Some [VRef 1%positive] ∧
   items_of (heap out.2) (VRef 6%positive) = Some [] ∧
   items_of (heap out.2) (VRef 2%positive) =
     Some [VStr "My Drive"; VRef 1%positive]).
Proof.
  split; [|split; [|split; [|split]]].
  - intros config m type_ o s Hmeta Htype Hm.
    split; [by apply createResource_run|].
    split; [apply with_defaults_mimeType|apply with_defaults_description].
  - intros W resource media auth_ s result s' parents len Hrun Hp Htp Hlen Htl.
    destruct (create_with_parents W resource media auth_ s result s'
                parents len Hrun Hp Htp Hlen Htl)
      as (r & created & items & ids & init & token & body & before & put &
          Hr & Hc & Hi & Hids & _ & _ & _ & Hfull & Hnone).
    exists r, created, items, ids. repeat (split; [done|]). split.
    + intros Hne. destruct (Hfull Hne) as (ia & H0 & _ & _ & H1 & H2). eauto.
    + intros He. destruct (Hnone He) as (o & o' & _ & _ & H1 & H2). eauto.
  - intros W info pa ra vs n s acc v s' Hne Hpa Hra Hcp Hcr Hobj Hrun.
    destruct (createParents_drains W info pa ra Hne vs n s acc v s'
                Hpa Hra Hcp Hcr Hobj Hrun) as (H1 & H2 & H3 & _).
    destruct (createParents_assigns W info pa ra Hne vs n s acc v s'
                Hpa Hra Hcp Hcr Hobj Hrun) as (_ & _ & _ & H4).
    done.
  - by vm_compute.
  - by vm_compute.
Qed.

(** ** The requests of a folder resolution *)

Lemma filter_length_le {A} (f g : A → bool) (vs : list A) :
  (∀ x, x ∈ vs → f x = true → g x = true) →
  (length (List.filter f vs) ≤ length (List.filter g vs))%nat.
Proof.
  induction vs as [|x vs IH]; intros H; simpl; [lia|].
  assert (IH' : (length (List.filter f vs) ≤ length (List.filter g vs))%nat).
  { apply IH. intros y Hy. apply H. by apply elem_of_cons; right. }
  destruct (f x) eqn:Ef.
  - rewrite (H x) by (done || by apply elem_of_cons; left). simpl. lia.
  - destruct (g x); simpl; lia.
Qed.

Lemma filter_lacks_id_same h h' vs :
  same_props h h' → objects h vs →
  List.filter (lacks_id h') vs = List.filter (lacks_id h) vs.
Proof.
  intros Hsame Hvs. induction Hvs as [|x vs (l & -> & Hl) _ IH]; [done|].
  simpl. by rewrite (lacks_id_same_props h h' l), IH.
Qed.

(** Whatever the outcome, a run of [_createParents] makes at most one
    request for each entry without an id. *)
Lemma createParents_requests W info pa ra : pa ≠ ra → ∀ vs n s acc,
  items_of (heap s) (VRef pa) = Some vs →
  items_of (heap s) (VRef ra) = Some acc →
  cachedFolders (this s) ≠ VRef pa →
  cachedFolders (this s) ≠ VRef ra →
  objects (heap s) vs →
  ∃ d, trace (_createParents W n (VRef pa) info (VRef ra) s).2 = trace s ++ d ∧
       Forall resolution d ∧
       (length (List.filter is_request d)
        ≤ length (List.filter (lacks_id (heap s)) vs))%nat.
Proof.
  intros Hne. induction vs as [|x rest IH];
    intros n s acc Hpa Hra Hcp Hcr Hobj.
  - exists []. rewrite app_nil_r. split; [|split; [constructor|simpl; lia]].
    destruct n as [|n]; [done|]. cbn [_createParents].
    destruct (items_cell _ _ _ Hpa) as (pps & Ha).
    by rewrite (bind_Ret _ _ _ _ _ (shift_empty _ _ _ Ha)).
  - destruct n as [|n].
    { exists []. rewrite app_nil_r. split; [done|].
      split; [constructor|simpl; lia]. }
    apply Forall_cons in Hobj as [(l & -> & [ol Hl]) Hobj].
    destruct (items_cell _ _ _ Hpa) as (pps & Ha).
    destruct (items_cell _ _ _ Hra) as (rps & Hr).
    pose proof (field_id _ _ _ Hl) as Hid.
    assert (Hlacks : lacks_id (heap s) (VRef l)
                     = negb (truthy (get_prop (props ol) "id")))
      by (unfold lacks_id; by rewrite Hid).
    cbn [List.filter]. rewrite Hlacks.
    destruct (truthy (get_prop (props ol) "id")) eqn:Htid; cbn [negb].
    + (* the entry has an id *)
      destruct s as [h i t]. cbn [heap this trace] in *.
      rewrite (createParents_step_id W n pa ra info h i t l _ rest acc pps rps
                 Hne Ha Hr Hid Htid).
      set (h1 := <[pa := Obj (Some rest) pps]> h) in *.
      assert (Hr1 : h1 !! ra = Some (Obj (Some acc) rps))
        by (unfold h1; by rewrite lookup_insert_ne).
      set (h2 := <[ra := Obj (Some (acc ++ [VRef l])) rps]> h1) in *.
      assert (Hsame : same_props h h2).
      { eapply same_props_trans.
        - apply (same_props_elems h pa _ (Some rest) Ha).
        - apply (same_props_elems h1 ra _ (Some (acc ++ [VRef l])) Hr1). }
      assert (Hpa2 : items_of h2 (VRef pa) = Some rest).
      { unfold h2, h1. rewrite items_of_insert_ne by done.
        apply items_of_insert_eq. }
      assert (Hra2 : items_of h2 (VRef ra) = Some (acc ++ [VRef l]))
        by apply items_of_insert_eq.
      assert (Hobj2 : objects h2 rest) by (by apply (objects_same_props h)).
      destruct (IH n (State h2 i t) (acc ++ [VRef l]) Hpa2 Hra2 Hcp Hcr Hobj2)
        as (d & Ht & Hd & Hcount).
      cbn [heap this trace] in *.
      exists d. split; [done|]. split; [done|].
      by rewrite (filter_lacks_id_same h h2) in Hcount.
    + (* a folder is created *)
      pose proof (field_ref _ _ _ "name" Hl eq_refl) as Hname.
      rewrite (createParents_step_new W n pa ra info s l rest pps _ _
                 Ha Hid Htid Hname).
      set (s1 := State (<[pa := Obj (Some rest) pps]> (heap s))
                   (this s) (trace s)) in *.
      destruct (createFolder_requests W (get_prop (props ol) "name") info s1)
        as (d1 & Hd1 & Hres1 & Hcount1).
      pose proof (createFolder_grows W (get_prop (props ol) "name") info s1)
        as [Hgrow Hthis].
      change (trace s1) with (trace s) in Hd1.
      change (this s1) with (this s) in Hthis.
      assert (Hstop : ∃ d, trace s ++ d1 = trace s ++ d ∧ Forall resolution d ∧
                (length (List.filter is_request d)
                 ≤ length (VRef l :: List.filter (lacks_id (heap s)) rest))%nat).
      { exists d1. split; [done|]. split; [done|]. simpl. lia. }
      unfold bind at 1.
      destruct (createFolder W (get_prop (props ol) "name") info s1)
        as [[id|e|] sf] eqn:Hcf; cbn [fst snd] in *;
        [|by rewrite Hd1..].
      unfold bind at 1.
      pose proof (adopt_silent (VRef l) id (VRef ra) sf) as Hsilent.
      destruct (adopt (VRef l) id (VRef ra) sf) as [[[]|e|] s2] eqn:Had;
        cbn [fst snd] in *; [|by rewrite Hsilent, Hd1..].
      assert (Hsamef : same_props (heap s) (heap sf)).
      { eapply same_props_trans; [|by apply same_props_grow].
        apply (same_props_elems (heap s) pa _ (Some rest) Ha). }
      assert (Hpaf : items_of (heap sf) (VRef pa) = Some rest).
      { apply (items_of_weaken _ _ _ _ Hgrow). apply items_of_insert_eq. }
      assert (Hraf : items_of (heap sf) (VRef ra) = Some acc).
      { apply (items_of_weaken _ _ _ _ Hgrow). unfold s1. cbn [heap].
        by rewrite items_of_insert_ne. }
      destruct (adopt_Ret_inv l id pa ra rest acc sf s2)
        as (Ht2 & Hpa2 & Hra2 & (olf & ol2 & Hlf & Hl2 & El2) & Hothers &
            Hcp2 & Hcr2 & _);
        try done; try (by rewrite Hthis).
      assert (Hcell2 : ∀ l' o, l' ≠ l → heap s !! l' = Some o →
                ∃ o2, heap s2 !! l' = Some o2 ∧ props o2 = props o).
      { intros l' o Hl' Ho. destruct (Hsamef _ _ Ho) as (o1 & Ho1 & E1).
        destruct (Hothers _ _ Hl' Ho1) as (o2 & Ho2 & E2).
        exists o2. split; [done|]. congruence. }
      assert (Hobj2 : objects (heap s2) rest).
      { eapply Forall_impl; [exact Hobj|]. intros x (l' & -> & [o' Hl']).
        exists l'. split; [done|]. destruct (decide (l' = l)) as [->|Hll].
        - eauto.
        - destruct (Hcell2 _ _ Hll Hl') as (o2 & Ho2 & _). eauto. }
      destruct (IH n s2 (acc ++ [VRef l]) Hpa2 Hra2 Hcp2 Hcr2 Hobj2)
        as (d2 & Hd2 & Hres2 & Hcount2).
      exists (d1 ++ d2). rewrite Hd2, Ht2, Hd1, app_assoc.
      split; [done|]. split; [by apply Forall_app|].
      rewrite List.filter_app, length_app. cbn [length].
      assert (Hle : (length (List.filter (lacks_id (heap s2)) rest)
                     ≤ length (List.filter (lacks_id (heap s)) rest))%nat).
      { apply filter_length_le. intros x Hx Hlx.
        pose proof Hobj as Hobj'. rewrite Forall_forall in Hobj'.
        destruct (Hobj' _ Hx) as (l' & -> & [o' Hl']).
        destruct (decide (l' = l)) as [->|Hll]; [by rewrite Hlacks|].
        destruct (Hcell2 _ _ Hll Hl') as (o2 & Ho2 & E2).
        unfold lacks_id in *. rewrite (field_id _ _ _ Hl').
        rewrite (field_id _ _ _ Ho2) in Hlx. by rewrite <- E2. }
      lia.
Qed.

Lemma written_count h h1 h3 : h ⊆ h1 → h1 ⊆ h3 → ∀ vs out,
  Forall (λ v, stays h v = true) vs →
  Forall2 (written h h1) vs out →
  objects h3 out ∧
  (length (List.filter (lacks_id h3) out)
   ≤ length (List.filter (needs_folder h) vs))%nat.
Proof.
  intros Hsub1 Hsub3 vs out Hst Hw.
  induction Hw as [|v o vs out Hvo _ IH]; [split; [constructor|simpl; lia]|].
  apply Forall_cons in Hst as [Hv Hst]. destruct (IH Hst) as [Hobj Hle].
  assert (Hhead : (∃ l, o = VRef l ∧ is_Some (h3 !! l)) ∧
            (lacks_id h3 o = true → needs_folder h v = true)).
  { destruct v; simpl in Hvo; try (unfold stays, field in Hv; done).
    - destruct Hvo as (l & -> & Hnew & Hl).
      pose proof (lookup_weaken _ _ _ _ Hl Hsub3) as Hl3.
      split; [by eauto|]. unfold lacks_id. rewrite (field_id _ _ _ Hl3).
      simpl. by destruct (String.eqb (toLowerCase s) "my drive").
    - subst o. unfold stays in Hv.
      destruct (field h (VRef l) "name") as [name|] eqn:Hname; [|done].
      destruct (field h (VRef l) "id") as [id|] eqn:Hid; [|done].
      assert (Hid3 : field h3 (VRef l) "id" = Some id).
      { eapply field_weaken; [|exact Hid]. by etrans. }
      split.
      + exists l. split; [done|]. unfold field in Hid3.
        by destruct (h3 !! l).
      + unfold needs_folder, stays, lacks_id. rewrite Hname, Hid, Hid3, Hv.
        done. }
  destruct Hhead as [Hobj1 Hneeds]. split; [by constructor|].
  cbn [List.filter]. destruct (lacks_id h3 o) eqn:El.
  - rewrite Hneeds by done. simpl. lia.
  - destruct (needs_folder h v); simpl; lia.
Qed.

Lemma needs_folder_stays h vs :
  List.filter (needs_folder h) (List.filter (stays h) vs)
  = List.filter (needs_folder h) vs.
Proof.
  induction vs as [|v vs IH]; [done|]. simpl.
  destruct (stays h v) eqn:Hs; simpl; [by rewrite IH|].
  rewrite IH. destruct v; simpl in *; try done; by rewrite Hs.
Qed.

Lemma filter_Forall {A} (f : A → bool) vs :
  Forall (λ v, f v = true) (List.filter f vs).
Proof.
  induction vs as [|v vs IH]; simpl; [constructor|].
  destruct (f v) eqn:E; [by constructor|done].
Qed.

(** Whatever the outcome, [createParents] makes at most one request for
    each entry that needs a folder. *)
Lemma createParents_count W s pa pps vs auth_ :
  heap s !! pa = Some (Obj (Some vs) pps) →
  Forall (readable (heap s)) vs →
  (∀ c, cachedFolders (this s) = VRef c → is_Some (heap s !! c)) →
  let out := createParents W (VRef pa) auth_ s in
  ∃ d, trace out.2 = trace s ++ d ∧ Forall resolution d ∧
       (length (List.filter is_request d)
        ≤ length (List.filter (needs_folder (heap s)) vs))%nat.
Proof.
  intros Hpa Hvs Hcache out. subst out.
  assert (Hnone : ∃ d, trace s = trace s ++ d ∧ Forall resolution d ∧
            (length (List.filter is_request d)
             ≤ length (List.filter (needs_folder (heap s)) vs))%nat).
  { exists []. rewrite app_nil_r. split; [done|].
    split; [constructor|simpl; lia]. }
  unfold createParents. cbn [truthy].
  assert (Hlen : field (heap s) (VRef pa) "length"
                 = Some (VNum (Z.of_nat (length vs))))
    by (unfold field; by rewrite Hpa).
  rewrite (bind_Ret _ _ _ _ _ (get_Ret _ _ _ _ Hlen)).
  cbn [negb orb]. rewrite length_truthy, negb_involutive.
  destruct (bool_decide (vs = [])); [done|].
  destruct (normalizeParents_run s pa vs)
    as (r1 & items & h1 & Hrun & Hr1 & Hr1' & Hsub1 & Hw);
    [unfold items_of; by rewrite Hpa|done|].
  rewrite (bind_Ret _ _ _ _ _ Hrun).
  set (s1 := State h1 (this s) (trace s)) in *.
  assert (Hlen1 : field (heap s1) (VRef r1) "length"
                  = Some (VNum (Z.of_nat (length items))))
    by (unfold field; simpl; by rewrite Hr1').
  rewrite (bind_Ret _ _ _ _ _ (get_Ret _ _ _ _ Hlen1)).
  rewrite length_truthy, negb_involutive.
  destruct (bool_decide (items = [])).
  { rewrite alloc_Ret. done. }
  assert (Hsub : heap s ⊆ h1) by (by apply map_subseteq_spec).
  destruct (auth_grows W auth_ s1) as ((d0 & Htr & Hd0) & Hsub2 & Hthis2).
  change (trace s1) with (trace s) in Htr.
  change (heap s1) with h1 in Hsub2.
  change (this s1) with (this s) in Hthis2.
  assert (Hstop : ∃ d, trace s ++ d0 = trace s ++ d ∧ Forall resolution d ∧
            (length (List.filter is_request d)
             ≤ length (List.filter (needs_folder (heap s)) vs))%nat).
  { exists d0. split; [done|].
    split; [eapply Forall_impl; [exact Hd0|]; by left|].
    rewrite oauth_no_request by done. simpl. lia. }
  unfold bind at 1.
  destruct (auth W auth_ s1) as [[info|e|] s2]; cbn [fst snd] in *;
    [|by rewrite Htr..].
  unfold bind at 1. rewrite alloc_Ret.
  set (r2 := fresh (dom (heap s2))) in *.
  assert (Hr2 : heap s2 !! r2 = None) by apply fresh_None.
  assert (Hr12 : heap s2 !! r1 = Some (array items))
    by (eapply lookup_weaken; [exact Hr1'|done]).
  assert (Hne : r1 ≠ r2) by (intros E; rewrite E in Hr12; congruence).
  set (h3 := <[r2 := array []]> (heap s2)) in *.
  assert (Hsub3 : h1 ⊆ h3).
  { etrans; [exact Hsub2|]. by apply insert_subseteq. }
  destruct (written_count (heap s) h1 h3 Hsub Hsub3 _ _
              (filter_Forall (stays (heap s)) vs) Hw) as [Hobj Hle].
  rewrite needs_folder_stays in Hle.
  destruct (createParents_requests W info r1 r2 Hne items
              (calls_needed h3 (VRef r1)) (State h3 (this s2) (trace s2)) [])
    as (d & Hd & Hres & Hcount); cbn [heap this trace].
  - unfold items_of, h3. rewrite lookup_insert_ne by done. by rewrite Hr12.
  - unfold items_of, h3. by rewrite lookup_insert_eq.
  - rewrite Hthis2. intros Hc. destruct (Hcache _ Hc) as [o Ho].
    by rewrite Hr1 in Ho.
  - rewrite Hthis2. intros Hc. destruct (Hcache _ Hc) as [o Ho].
    assert (Ho2 : heap s2 !! r2 = Some o).
    { eapply lookup_weaken; [|exact Hsub2]. by apply Hsub1. }
    congruence.
  - done.
  - cbv beta. cbn [heap this trace] in Hd, Hcount.
    exists (d0 ++ d). rewrite Hd, Htr, app_assoc. split; [done|].
    split; [apply Forall_app; split; [|done];
            eapply Forall_impl; [exact Hd0|]; by left|].
    rewrite List.filter_app, length_app, oauth_no_request by done.
    simpl. lia.
Qed.

(** ** Operations that do not touch the instance *)

Lemma ignores_ret {A} (a : A) : ignores_this (ret a).
Proof. done. Qed.

Lemma ignores_throw {A} e : ignores_this (@throw A e).
Proof. done. Qed.

Lemma ignores_bind {A B} (m : M A) (k : A → M B) :
  ignores_this m → (∀ a, ignores_this (k a)) → ignores_this (bind m k).
Proof.
  intros Hm Hk s i. unfold bind. rewrite (Hm s i).
  destruct (m s) as [[a|e|] s1]; cbn [fst snd]; [|done..]. apply Hk.
Qed.

Lemma ignores_get v k : ignores_this (get v k).
Proof. intros s i. unfold get. simpl. by destruct (field (heap s) v k). Qed.

Lemma ignores_alloc o : ignores_this (alloc o).
Proof. done. Qed.

Lemma ignores_elements v : ignores_this (elements v).
Proof.
  intros s i. unfold elements. simpl. by destruct (items_of (heap s) v).
Qed.

Lemma ignores_modify f l : ignores_this (modify f l).
Proof. intros s i. unfold modify. simpl. by destruct (heap s !! l). Qed.

Lemma ignores_set v k x : ignores_this (set v k x).
Proof. destruct v; try apply ignores_throw. apply ignores_modify. Qed.

Lemma ignores_set_elements v vs : ignores_this (set_elements v vs).
Proof. destruct v; try apply ignores_throw. apply ignores_modify. Qed.

Lemma ignores_push v x : ignores_this (push v x).
Proof.
  apply ignores_bind; [apply ignores_elements|]. intros vs.
  apply ignores_set_elements.
Qed.

Lemma ignores_for_each {A} (l : list A) (f : A → M unit) :
  (∀ x, ignores_this (f x)) → ignores_this (for_each l f).
Proof.
  intros Hf. induction l as [|x l IH]; simpl; [apply ignores_ret|].
  apply ignores_bind; [apply Hf|]. by intros _.
Qed.

Lemma ignores_emit e : ignores_this (emit e).
Proof. done. Qed.

Lemma ignores_from_json j : ignores_this (from_json j).
Proof.
  intros s i. unfold from_json. simpl. by destruct (alloc_json j (heap s)).
Qed.

Lemma ignores_ask_oauth W e : ignores_this (ask_oauth W e).
Proof.
  apply ignores_bind; [apply ignores_emit|]. intros _ s i. simpl.
  destruct (oauth W (trace s)) as [[j|]|x]; [|done..].
  apply ignores_from_json.
Qed.

Lemma ignores_auth W x : ignores_this (auth W x).
Proof.
  unfold auth. destruct (truthy x); [|apply ignores_ask_oauth].
  apply ignores_bind; [apply ignores_get|]. intros token.
  destruct (truthy token); [apply ignores_ret|apply ignores_ask_oauth].
Qed.

Lemma ignores__normalizeParents parents :
  ignores_this (_normalizeParents parents).
Proof.
  unfold _normalizeParents.
  apply ignores_bind; [apply ignores_alloc|]. intros result.
  apply ignores_bind; [apply ignores_elements|]. intros items.
  apply ignores_bind; [|intros _; apply ignores_ret].
  apply ignores_for_each. intros item.
  assert (Hobj : ignores_this
    (let! name := get item "name" in
     let! id := get item "id" in
     if negb (truthy name) && negb (truthy id) then ret tt
     else push result item)).
  { apply ignores_bind; [apply ignores_get|]. intros name.
    apply ignores_bind; [apply ignores_get|]. intros id.
    destruct (_ && _); [apply ignores_ret|apply ignores_push]. }
  destruct item; try exact Hobj.
  destruct (String.eqb _ _);
    (apply ignores_bind; [apply ignores_alloc|]; intros o;
     apply ignores_push).
Qed.

(** [createParents] on a list whose entries all carry an id, in terms of
    what [_normalizeParents] and [auth] have done. *)
Lemma createParents_ids_run W s pa pps vs auth_ r1 s1 :
  heap s !! pa = Some (Obj (Some vs) pps) →
  vs ≠ [] →
  _normalizeParents (VRef pa) s = (Ret (VRef r1), s1) →
  heap s1 !! r1 = Some (array vs) →
  Forall (has_id (heap s1)) vs →
  createParents W (VRef pa) auth_ s =
    match auth W auth_ s1 with
    | (Ret info, s2) =>
        let r2 := fresh (dom (heap s2)) in
        (Ret (VRef r2),
         State (<[r2 := array vs]>
                  (<[r1 := array []]> (<[r2 := array []]> (heap s2))))
           (this s2) (trace s2))
    | (Throw e, s2) => (Throw e, s2)
    | (Hang, s2) => (Hang, s2)
    end.
Proof.
  intros Hpa Hnil Hrun Hr1 Hvs. unfold createParents. cbn [truthy].
  assert (Hlen : field (heap s) (VRef pa) "length"
                 = Some (VNum (Z.of_nat (length vs))))
    by (unfold field; by rewrite Hpa).
  rewrite (bind_Ret _ _ _ _ _ (get_Ret _ _ _ _ Hlen)).
  cbn [negb orb]. rewrite length_truthy, negb_involutive.
  rewrite (bool_decide_eq_false_2 _ Hnil).
  rewrite (bind_Ret _ _ _ _ _ Hrun).
  assert (Hlen1 : field (heap s1) (VRef r1) "length"
                  = Some (VNum (Z.of_nat (length vs))))
    by (unfold field; by rewrite Hr1).
  rewrite (bind_Ret _ _ _ _ _ (get_Ret _ _ _ _ Hlen1)).
  rewrite length_truthy, negb_involutive, (bool_decide_eq_false_2 _ Hnil).
  destruct (auth_grows W auth_ s1) as (_ & Hsub2 & _).
  unfold bind at 1.
  destruct (auth W auth_ s1) as [[info|e|] s2]; cbn [fst snd] in *; [|done..].
  unfold bind at 1. rewrite alloc_Ret.
  set (r2 := fresh (dom (heap s2))) in *.
  assert (Hr2 : heap s2 !! r2 = None) by apply fresh_None.
  assert (Hr12 : heap s2 !! r1 = Some (array vs))
    by (eapply lookup_weaken; [exact Hr1|done]).
  assert (Hne : r1 ≠ r2) by (intros E; rewrite E in Hr12; congruence).
  assert (Hcalls : calls_needed (<[r2 := array []]> (heap s2)) (VRef r1)
                   = S (length vs)).
  { unfold calls_needed, items_of. rewrite lookup_insert_ne by done.
    by rewrite Hr12. }
  cbv beta. cbn [heap]. rewrite Hcalls.
  rewrite (createParents_loop_ids W info vs _ r1 r2 [] [] []);
    cbn [heap this trace app]; [done|done| | | |lia].
  - rewrite lookup_insert_ne by done. exact Hr12.
  - by rewrite lookup_insert_eq.
  - eapply Forall_impl; [exact Hvs|]. intros x Hx.
    eapply has_id_weaken; [|exact Hx]. intros l o Hl.
    assert (Hl2 : heap s2 !! l = Some o) by (by eapply lookup_weaken).
    rewrite lookup_insert_ne; [done|]. intros <-. congruence.
Qed.

(** With such a list, [createParents] neither reads nor writes the fields
    of the instance, the folder cache among them. *)
Lemma createParents_ignores_cache W s pa pps vs auth_ i :
  heap s !! pa = Some (Obj (Some vs) pps) →
  Forall (has_id (heap s)) vs →
  let out := createParents W (VRef pa) auth_ s in
  createParents W (VRef pa) auth_ (State (heap s) i (trace s)) =
    (out.1, State (heap out.2) i (trace out.2)).
Proof.
  intros Hpa Hvs out. subst out.
  destruct (decide (vs = [])) as [->|Hnil].
  { unfold createParents. cbn [truthy].
    assert (Hlen : ∀ s0, heap s0 = heap s →
              get (VRef pa) "length" s0 = (Ret (VNum 0), s0)).
    { intros s0 E. apply get_Ret. unfold field. by rewrite E, Hpa. }
    rewrite (bind_Ret _ _ _ _ _ (Hlen s eq_refl)).
    by rewrite (bind_Ret _ _ _ _ _
                  (Hlen (State (heap s) i (trace s)) eq_refl)). }
  destruct (normalizeParents_run s pa vs)
    as (r1 & items & h1 & Hrun & Hr1 & Hr1' & Hsub1 & Hw).
  { unfold items_of. by rewrite Hpa. }
  { eapply Forall_impl; [exact Hvs|]. apply has_id_readable. }
  rewrite filter_all in Hw
    by (eapply Forall_impl; [exact Hvs|]; apply has_id_stays).
  apply (written_ids _ _ _ _ Hvs) in Hw as ->.
  assert (Hvs1 : Forall (has_id h1) vs).
  { eapply Forall_impl; [exact Hvs|]. intros x. by apply has_id_weaken. }
  pose proof (ignores__normalizeParents (VRef pa) s i) as Hrun'.
  rewrite Hrun in Hrun'. cbn [fst snd heap trace] in Hrun'.
  rewrite (createParents_ids_run W s pa pps vs auth_ r1 _ Hpa Hnil Hrun);
    [|done..].
  rewrite (createParents_ids_run W (State (heap s) i (trace s)) pa pps vs
             auth_ r1 _ Hpa Hnil Hrun'); [|done..].
  pose proof (ignores_auth W auth_ (State h1 (this s) (trace s)) i) as Hauth.
  cbn [heap trace] in Hauth. rewrite Hauth.
  by destruct (auth W auth_ (State h1 (this s) (trace s))) as [[info|e|] s2].
Qed.

(** ** Invariants of the heap and of the instance *)

Lemma keeps_try_catch {A} (I : state → Prop) (E : effect → Prop)
    (m : M A) handler Q :
  keeps I E m Q → (∀ e, keeps I E (handler e) Q) →
  keeps I E (try_catch m handler) Q.
Proof.
  intros Hm Hh s HI. destruct (Hm s HI) as (d1 & Ht1 & Hd1 & HI1 & HQ).
  unfold try_catch. destruct (m s) as [[a|e|] s1]; cbn [fst snd] in *.
  - exists d1. done.
  - destruct (Hh e s1 HI1) as (d2 & Ht2 & Hd2 & HI2 & HQ2).
    exists (d1 ++ d2). rewrite Ht2, Ht1, app_assoc.
    split; [done|]. split; [by apply Forall_app|done].
  - exists d1. done.
Qed.

Lemma heap_free_elems I : heap_free I → elems_stable I.
Proof.
  intros H. split.
  - intros s h tr HI _. by apply H.
  - intros s l o e HI _. by apply (H s).
Qed.

Lemma cell_kept_stable l o : elems_stable (cell_kept l o).
Proof.
  split.
  - intros s h tr (o' & Hl & E) Hsub. exists o'. split; [|done].
    by eapply lookup_weaken.
  - intros s a oa e (o' & Hl & E) Ha. cbn. unfold cell_kept. cbn [heap].
    destruct (decide (l = a)) as [->|Hne].
    + rewrite lookup_insert_eq. eexists. split; [done|]. simpl. congruence.
    + rewrite lookup_insert_ne by done. eauto.
Qed.

Section Elems.
Context {I : state → Prop} {E : effect → Prop}.
Context (Hstable : elems_stable I).

Lemma elems_alloc_stable : alloc_stable I.
Proof. by destruct Hstable. Qed.

Lemma keeps_elems_set_elements v vs : keeps I E (set_elements v vs) anything.
Proof.
  destruct v; simpl; try apply keeps_throw.
  intros s HI. exists []. rewrite app_nil_r. unfold modify.
  destruct (heap s !! l) as [o|] eqn:Hl; simpl; [|by repeat split].
  split; [done|]. split; [constructor|]. split; [|done].
  destruct Hstable as [_ Hw]. by apply Hw.
Qed.

Lemma keeps_elems_shift v : keeps I E (shift v) anything.
Proof.
  unfold shift. keeps_step; [keeps_step|]. keeps_step; [keeps_step|].
  keeps_step; [apply keeps_elems_set_elements|keeps_step].
Qed.

Lemma keeps_elems_push v x : keeps I E (push v x) anything.
Proof.
  unfold push. keeps_step; [keeps_step|]. apply keeps_elems_set_elements.
Qed.

Lemma keeps_elems__normalizeParents parents :
  keeps I E (_normalizeParents parents) anything.
Proof.
  pose proof elems_alloc_stable as Ha.
  unfold _normalizeParents.
  keeps_step; [keeps_step|]. keeps_step; [keeps_step|].
  keeps_step; [|keeps_step].
  keeps_step.
  assert (Hobj : keeps I E
    (let! name := get x "name" in
     let! id := get x "id" in
     if negb (truthy name) && negb (truthy id) then ret tt else push a x) anything).
  { keeps_step; [keeps_step|]. keeps_step; [keeps_step|].
    keeps_step; [keeps_step|apply keeps_elems_push]. }
  destruct x; try exact Hobj.
  keeps_step.
  - keeps_step; [keeps_step|apply keeps_elems_push].
  - keeps_step; [keeps_step|apply keeps_elems_push].
Qed.

End Elems.

Lemma keeps_after_get {A} (I : state → Prop) (E : effect → Prop) v k
    (cont : val → M A) Q :
  (∀ s x, I s → field (heap s) v k = Some x →
     ∃ d, trace (cont x s).2 = trace s ++ d ∧ Forall E d ∧ I (cont x s).2 ∧
          ∀ a, (cont x s).1 = Ret a → Q a) →
  keeps I E (bind (get v k) cont) Q.
Proof.
  intros H s HI. unfold bind, get.
  destruct (field (heap s) v k) as [x|] eqn:Hf.
  - exact (H s x HI Hf).
  - exists []. simpl. rewrite app_nil_r. split; [done|].
    split; [constructor|]. by split.
Qed.

(** *** A cell with an id *)

Lemma keeps_cell_set l o v k x :
  v ≠ VRef l → keeps (cell_kept l o) anything (set v k x) anything.
Proof.
  intros Hv. destruct v as [| |vb|vn|vs|a]; simpl; try apply keeps_throw.
  intros s (o' & Hl & Eo). exists []. rewrite app_nil_r. unfold modify.
  destruct (heap s !! a) as [oa|] eqn:Ha; simpl.
  - split; [done|]. split; [constructor|]. split; [|done].
    exists o'. cbn [heap]. split; [|done]. rewrite lookup_insert_ne; [done|].
    intros <-. by apply Hv.
  - split; [done|]. split; [constructor|]. split; [by exists o'|done].
Qed.

Lemma keeps_cell_set_cachedFolders l o v :
  keeps (cell_kept l o) anything (set_cachedFolders v) anything.
Proof.
  intros s HI. exists []. rewrite app_nil_r. simpl. by repeat split.
Qed.

Lemma keeps_cell__createParents W info l o :
  truthy (get_prop (props o) "id") = true →
  ∀ n parents result,
    keeps (cell_kept l o) anything
      (_createParents W n parents info result) anything.
Proof.
  intros Hid. pose proof (cell_kept_stable l o) as Hst.
  pose proof (elems_alloc_stable Hst) as Ha.
  induction n as [|n IH]; intros parents result; simpl; [apply keeps_hang|].
  keeps_step; [by apply keeps_elems_shift|].
  destruct (negb _); [by apply keeps_ret|].
  apply keeps_after_get. intros s id0 HI Hf.
  destruct (truthy id0) eqn:Ht.
  - assert (Hk : keeps (cell_kept l o) anything
              (push result a ;; _createParents W n parents info result)
              anything).
    { keeps_step; [by apply keeps_elems_push|apply IH]. }
    exact (Hk s HI).
  - assert (Hne : a ≠ VRef l).
    { intros ->. destruct HI as (o' & Hl & Eo).
      rewrite (field_id _ _ _ Hl), Eo in Hf. injection Hf as <-. congruence. }
    assert (Hk : keeps (cell_kept l o) anything
              (let! name := get a "name" in
               let! id := createFolder W name info in
               set a "id" id ;;
               push result a ;;
               let! i := get_this in
               (if negb (truthy (cachedFolders i))
                then let! fresh_list := alloc (array []) in
                     set_cachedFolders fresh_list
                else ret tt) ;;
               let! i := get_this in
               push (cachedFolders i) a ;;
               _createParents W n parents info result) anything).
    { keeps_step; [keeps_step|].
      keeps_step; [by apply keeps_createFolder|].
      keeps_step; [by apply keeps_cell_set|].
      keeps_step; [by apply keeps_elems_push|].
      keeps_step; [keeps_step|].
      keeps_step.
      { keeps_step; [|keeps_step].
        keeps_step; [keeps_step|apply keeps_cell_set_cachedFolders]. }
      keeps_step; [keeps_step|].
      keeps_step; [by apply keeps_elems_push|apply IH]. }
    exact (Hk s HI).
Qed.

(** Whatever the list and whatever the outcome, [createParents] leaves an
    object with an id as it is. *)
Lemma createParents_keeps_cell W parents auth_ s l o :
  heap s !! l = Some o →
  truthy (get_prop (props o) "id") = true →
  ∃ o', heap (createParents W parents auth_ s).2 !! l = Some o' ∧
        props o' = props o.
Proof.
  intros Hl Hid. pose proof (cell_kept_stable l o) as Hst.
  pose proof (elems_alloc_stable Hst) as Ha.
  assert (Hk : keeps (cell_kept l o) anything
                 (createParents W parents auth_) anything).
  { unfold createParents.
    keeps_step; [repeat keeps_step|].
    keeps_step; [keeps_step|].
    keeps_step; [by apply keeps_elems__normalizeParents|].
    keeps_step; [keeps_step|].
    keeps_step; [keeps_step|].
    keeps_step; [by apply keeps_auth|].
    keeps_step; [keeps_step|].
    intros s0 HI. by apply (keeps_cell__createParents W _ l o Hid). }
  destruct (Hk s) as (_ & _ & _ & H & _); [by exists o|done].
Qed.

Lemma resolution_request e :
  resolution e → is_request e = true →
  ∃ token b,
    e = NetRequest (Request "POST" (Url folder_url) token
                      [("content-type", VStr "application/json")] (Some b)).
Proof.
  intros [He|(token & b & ->)] Hr; [by destruct e|]. eauto.
Qed.

(** C6. An entry that carries an id ([parent.id] is truthy, the test of the
    code) is taken as it is, wherever it stands in the list and whatever
    the other entries are.
    - The call of [_createParents] that finds such an entry at the head of
      the list moves the reference from the list to the result and
      continues with the rest: nothing is added to the history, no cell
      other than the two lists is written, and the instance, whatever its
      folder cache holds, is neither read nor written.
    - Whatever the list and whatever the outcome, [createParents] leaves
      every object that has an id with the properties it had, so that the
      entry carries the same id at every later call.
    - Whatever its outcome, a run of [_createParents] on a list of objects
      makes at most one HTTP request for each entry without an id, and
      [createParents] at most one for each entry that needs a folder (a
      string other than the name of the root, a kept object without an
      id); every effect is a call of the identity provider or the request
      that creates a folder.
    - When every entry carries an id, [createParents] calls the identity
      provider at most, never the network; it returns a new list with the
      same entries and has no effect at all when an access token is given;
      it leaves the instance as it is, and started with any other instance
      (any other folder cache) it has the same outcome, heap and history.
      The same holds after any number of repeated calls.
    - On the list [{id: "f1"}] the call makes no request and returns the
      list with that same object. *)
Theorem parents_with_id_need_no_request :
  (∀ W n pa ra info h i t l id rest acc pps rps,
     pa ≠ ra →
     h !! pa = Some (Obj (Some (VRef l :: rest)) pps) →
     h !! ra = Some (Obj (Some acc) rps) →
     field h (VRef l) "id" = Some id → truthy id = true →
     _createParents W (S n) (VRef pa) info (VRef ra) (State h i t) =
     _createParents W n (VRef pa) info (VRef ra)
       (State (<[ra := Obj (Some (acc ++ [VRef l])) rps]>
                 (<[pa := Obj (Some rest) pps]> h)) i t)) ∧
  (∀ W parents auth_ s l o,
     heap s !! l = Some o →
     truthy (get_prop (props o) "id") = true →
     ∃ o', heap (createParents W parents auth_ s).2 !! l = Some o' ∧
           props o' = props o) ∧
  (∀ W info pa ra vs n s acc,
     pa ≠ ra →
     items_of (heap s) (VRef pa) = Some vs →
     items_of (heap s) (VRef ra) = Some acc →
     cachedFolders (this s) ≠ VRef pa →
     cachedFolders (this s) ≠ VRef ra →
     objects (heap s) vs →
     ∃ d, trace (_createParents W n (VRef pa) info (VRef ra) s).2
            = trace s ++ d ∧
          Forall resolution d ∧
          (length (List.filter is_request d)
           ≤ length (List.filter (lacks_id (heap s)) vs))%nat) ∧
  (∀ W s pa pps vs auth_,
     heap s !! pa = Some (Obj (Some vs) pps) →
     Forall (readable (heap s)) vs →
     (∀ c, cachedFolders (this s) = VRef c → is_Some (heap s !! c)) →
     ∃ d, trace (createParents W (VRef pa) auth_ s).2 = trace s ++ d ∧
          Forall resolution d ∧
          (length (List.filter is_request d)
           ≤ length (List.filter (needs_folder (heap s)) vs))%nat) ∧
  (∀ h v, has_id h v → lacks_id h v = false ∧ needs_folder h v = false) ∧
  (∀ e, resolution e → is_request e = true →
     ∃ token b,
       e = NetRequest (Request "POST" (Url folder_url) token
                         [("content-type", VStr "application/json")]
                         (Some b))) ∧
  (∀ W s pa pps vs auth_,
     heap s !! pa = Some (Obj (Some vs) pps) →
     Forall (has_id (heap s)) vs →
     let out := createParents W (VRef pa) auth_ s in
     (∃ d, trace out.2 = trace s ++ d ∧ Forall is_oauth d) ∧
     heap s ⊆ heap out.2 ∧ this out.2 = this s ∧
     (∀ result, out.1 = Ret result →
        ∃ r, result = VRef r ∧ heap s !! r = None ∧
             heap out.2 !! r = Some (array vs)) ∧
     (vs ≠ [] → ∀ token,
        field (heap s) auth_ "accessToken" = Some token →
        truthy token = true →
        trace out.2 = trace s ∧ ∃ r, out.1 = Ret (VRef r)) ∧
     (∀ i, createParents W (VRef pa) auth_ (State (heap s) i (trace s)) =
             (out.1, State (heap out.2) i (trace out.2))) ∧
     ∀ n,
       let s' := Nat.iter n (λ s0, (createParents W (VRef pa) auth_ s0).2) s in
       ∃ d, trace s' = trace s ++ d ∧ Forall is_oauth d) ∧
  (∀ e, is_oauth e → ∀ r, e ≠ NetRequest r) ∧
  createParents drive (VRef 1%positive) (VRef 3%positive) f1_state =
    (Ret (VRef 5%positive),
     State (<[5%positive := array [VRef 2%positive]]>
           (<[4%positive := array []]> (heap f1_state))) blank []).
Proof.
  split; [|split; [|split; [|split; [|split; [|split; [|split; [|split]]]]]]].
  - intros W n pa ra info h i t l id rest acc pps rps.
    apply createParents_step_id.
  - intros W parents auth_ s l o. apply createParents_keeps_cell.
  - intros W info pa ra vs n s acc Hne. by apply createParents_requests.
  - intros W s pa pps vs auth_ Hpa Hvs Hc.
    by apply (createParents_count W s pa pps vs auth_).
  - intros h v Hv. destruct (has_id_ref _ _ Hv) as (l & -> & Hl).
    assert (Hlacks : lacks_id h (VRef l) = false) by (by apply lacks_id_has_id).
    split; [done|]. unfold needs_folder. rewrite Hlacks. apply andb_false_r.
  - apply resolution_request.
  - intros W s pa pps vs auth_ Hpa Hvs out.
    destruct (createParents_with_ids W s pa pps vs auth_ Hpa Hvs)
      as (H1 & H2 & H3 & H4 & H5).
    do 5 (split; [done|]). split.
    + intros i. by apply (createParents_ignores_cache W s pa pps vs auth_ i).
    + intros n.
      by destruct (repeated_createParents W s pa pps vs auth_ n Hpa Hvs).
  - intros e He r ->. done.
  - vm_compute. reflexivity.
Qed.


(** ** The data-save event in the renderer *)

Module ArcElectronDriveSaveFacts.
Import ArcElectronDrive ArcElectronDriveSave.

Lemma settles_modify f l : settles (modify f l).
Proof. intros s. unfold modify. by destruct (heap s !! l). Qed.

Lemma settles_set v k x : settles (set v k x).
Proof. destruct v; try apply settles_throw. apply settles_modify. Qed.

Lemma settles_elements v : settles (elements v).
Proof. intros s. unfold elements. by destruct (items_of (heap s) v). Qed.

Lemma settles_push v x : settles (push v x).
Proof.
  unfold push. apply settles_bind; [apply settles_elements|]. intros vs.
  unfold set_elements. destruct v; try apply settles_throw.
  apply settles_modify.
Qed.

Lemma settles_for_each {A} (l : list A) (f : A → M unit) :
  (∀ x, settles (f x)) → settles (for_each l f).
Proof.
  intros Hf. induction l as [|x l IH]; simpl; [apply settles_ret|].
  apply settles_bind; [apply Hf|]. intros _. apply IH.
Qed.

Lemma settles_assign v : settles (Object_assign_new v).
Proof.
  intros s. unfold Object_assign_new. destruct v; try done.
  by destruct (heap s !! l).
Qed.

Lemma settles_add_parent parents item : settles (add_parent parents item).
Proof.
  unfold add_parent. destruct (negb (truthy item)); [apply settles_ret|].
  destruct item; repeat settles_step;
    try (apply settles_push); try (apply settles_ret).
  all: try (destruct a; repeat settles_step; try apply settles_push;
            try apply settles_ret; try apply settles_assign;
            try apply settles_set).
Qed.

Lemma settles_collect_parents meta items :
  settles (collect_parents meta items).
Proof.
  unfold collect_parents. settles_step; [settles_step|].
  settles_step; [apply settles_for_each; intros; apply settles_add_parent|].
  settles_step; [settles_step|].
  settles_step; [apply settles_set|settles_step].
Qed.

Lemma settles_save_message detail : settles (save_message detail).
Proof.
  unfold save_message.
  apply settles_bind; [apply settles_get|]. intros content.
  apply settles_bind; [apply settles_get|]. intros file.
  apply settles_bind; [apply settles_get|]. intros options.
  apply settles_bind; [repeat settles_step|]. intros options'.
  apply settles_bind; [apply settles_alloc|]. intros meta.
  apply settles_bind; [apply settles_get|]. intros given.
  apply settles_bind; [|intros _; repeat settles_step].
  destruct (truthy given); [|apply settles_ret].
  intros s. destruct (items_of (heap s) given) as [items|]; [|done].
  apply settles_collect_parents.
Qed.

Section Untouched.
Variable s0 : state.
Context {E : effect → Prop}.

Lemma keeps_alloc_new o : keeps (grown s0) E (alloc o) (made_since (heap s0)).
Proof.
  intros s [Hs Hthis]. exists []. simpl. rewrite app_nil_r.
  split; [done|]. split; [constructor|]. split.
  - split; [|done]. simpl. etrans; [exact Hs|]. apply insert_fresh_subseteq.
  - intros a [= <-]. eexists. split; [done|].
    destruct (heap s0 !! fresh (dom (heap s))) as [o'|] eqn:Ho; [|done].
    apply (lookup_weaken _ _ _ _ Ho) in Hs. by rewrite fresh_None in Hs.
Qed.

Lemma keeps_modify_new f l :
  heap s0 !! l = None → keeps (grown s0) E (modify f l) anything.
Proof.
  intros Hl s [Hs Hthis]. exists []. rewrite app_nil_r. unfold modify.
  destruct (heap s !! l) as [o|] eqn:Ho; simpl.
  - split; [done|]. split; [constructor|]. split; [|done].
    split; [|done]. simpl. apply map_subseteq_spec. intros i x Hi.
    rewrite lookup_insert_ne by (intros <-; congruence).
    by apply (lookup_weaken _ _ _ _ Hi).
  - repeat split; done.
Qed.

Lemma keeps_set_new v k x :
  made_since (heap s0) v → keeps (grown s0) E (set v k x) anything.
Proof. intros (l & -> & Hl). by apply keeps_modify_new. Qed.

Lemma keeps_push_new v x :
  made_since (heap s0) v → keeps (grown s0) E (push v x) anything.
Proof.
  intros (l & -> & Hl). unfold push. keeps_step; [keeps_step|].
  by apply keeps_modify_new.
Qed.

Lemma keeps_assign_new v :
  keeps (grown s0) E (Object_assign_new v) (made_since (heap s0)).
Proof.
  intros s Hs. unfold Object_assign_new.
  destruct v; try apply (keeps_alloc_new _ s Hs).
  destruct (heap s !! l); [apply (keeps_alloc_new _ s Hs)|].
  by apply (keeps_throw (I := grown s0)).
Qed.

Lemma keeps_add_parent parents item :
  made_since (heap s0) parents →
  keeps (grown s0) E (add_parent parents item) anything.
Proof.
  intros Hp. pose proof (grown_stable s0) as Ha. unfold add_parent.
  destruct (negb (truthy item)); [keeps_step|].
  assert (Hobj : keeps (grown s0) E
    (let! name := get item "name" in
     match name with
     | VStr n =>
         let! item := (if String.eqb (toLowerCase n) "my drive"
                       then let! copy := Object_assign_new item in
                            set copy "id" (VStr "root") ;;
                            ret copy
                       else ret item) in
         push parents item
     | _ => ret tt
     end) anything).
  { keeps_step; [keeps_step|]. keeps_step; try keeps_step.
    - keeps_step.
      + eapply keeps_bind; [apply keeps_assign_new|]. intros copy Hc.
        keeps_step; [by apply keeps_set_new|keeps_step].
      + keeps_step.
    - by apply keeps_push_new. }
  destruct item; try exact Hobj.
  keeps_step; [|by apply keeps_push_new]. keeps_step; keeps_step.
Qed.

Lemma keeps_collect_parents meta items :
  made_since (heap s0) meta →
  keeps (grown s0) E (collect_parents meta items) anything.
Proof.
  intros Hmeta. unfold collect_parents.
  eapply keeps_bind; [apply keeps_alloc_new|]. intros parents Hparents.
  keeps_step; [keeps_step; by apply keeps_add_parent|].
  keeps_step; [keeps_step|]. keeps_step; [by apply keeps_set_new|keeps_step].
Qed.

Lemma keeps_save_message detail :
  keeps (grown s0) E (save_message detail) anything.
Proof.
  pose proof (grown_stable s0) as Ha. unfold save_message.
  eapply keeps_bind; [apply keeps_get|]. intros content _.
  eapply keeps_bind; [apply keeps_get|]. intros file _.
  eapply keeps_bind; [apply keeps_get|]. intros options _.
  eapply (keeps_bind _ _ anything); [keeps_step; keeps_step|].
  intros options' _.
  eapply keeps_bind; [apply keeps_alloc_new|]. intros meta Hmeta.
  eapply keeps_bind; [apply keeps_get|]. intros given _.
  eapply (keeps_bind _ _ anything); [|intros _ _; repeat keeps_step].
  destruct (truthy given); [|keeps_step].
  intros s Hs. destruct (items_of (heap s) given) as [items|].
  - by apply keeps_collect_parents.
  - by apply (keeps_ret (I := grown s0)).
Qed.

End Untouched.

Lemma save_message_run detail s :
  ∃ h,
    heap s ⊆ h ∧
    ((∃ payload, save_message detail s
                 = (Ret payload, State h (this s) (trace s))) ∨
     (∃ e, save_message detail s = (Throw e, State h (this s) (trace s)))).
Proof.
  destruct (keeps_save_message s (E := λ _, False) detail s)
    as (d & Ht & Hd & [Hsub Hthis] & _); [by split|].
  pose proof (settles_save_message detail s) as Hs.
  destruct d as [|e d]; [|by apply Forall_cons in Hd as [[] _]].
  rewrite app_nil_r in Ht.
  destruct (save_message detail s) as [out [h i t]]. simpl in *. subst.
  exists h. split; [done|]. destruct out as [payload|e|]; [eauto..|done].
Qed.



Lemma save_message_reads detail s payload s1 :
  save_message detail s = (Ret payload, s1) →
  is_Some (field (heap s) detail "content").
Proof.
  unfold save_message, bind at 1, get.
  destruct (field (heap s) detail "content"); [eauto|done].
Qed.

Lemma handler_run detail r s :
  let id := next_index (_index r) in
  let p := created r in
  (∃ e h, heap s ⊆ h ∧
     _dataSaveHandler detail r s =
       (Throw e, Renderer (_promises r) id (sent r) p (invoked r),
        State h (this s) (trace s))) ∨
  (∃ payload h,
     heap s ⊆ h ∧
     let q := fresh (dom h) in
     let t := trace s ++ [Send save_channel (VNum id) payload] in
     let r2 := Renderer (<[Number_toString id := Pending (ResolveOf p) (RejectOf p)]>
                           (_promises r))
                 id (sent r) (S p) (invoked r) in
     (∃ l o, detail = VRef l ∧ heap s !! l = Some o ∧
        _dataSaveHandler detail r s =
          (Ret p, r2,
           State (<[l := Obj (elems o) (set_prop (props o) "result" (VRef q))]>
                    (<[q := plain []]> h)) (this s) t)) ∨
     ((∀ l, detail ≠ VRef l) ∧
        _dataSaveHandler detail r s =
          (Throw TypeError, r2, State (<[q := plain []]> h) (this s) t))).
Proof.
  intros id p.
  destruct (save_message_run detail s) as (h & Hsub & [[payload Hrun]|[e Hrun]]).
  - right. exists payload, h. split; [done|]. intros q t r2.
    assert (Hsend : send_save id detail s = (Ret tt, State h (this s) t)).
    { unfold send_save. by rewrite (bind_Ret _ _ _ _ _ Hrun). }
    unfold _dataSaveHandler. fold id. rewrite Hsend.
    unfold store_result, bind at 1. rewrite alloc_Ret. cbn [heap this trace].
    fold q. fold p.
    destruct (save_message_reads _ _ _ _ Hrun) as [x Hx].
    destruct detail as [| | | | |l]; try done.
    + right. split; [done|]. done.
    + right. split; [done|]. done.
    + right. split; [done|]. done.
    + left. unfold field in Hx. destruct (heap s !! l) as [o|] eqn:Ho; [|done].
      exists l, o. split; [done|]. split; [done|].
      assert (Hq : h !! q = None) by apply fresh_None.
      assert (Hl : h !! l = Some o) by (by eapply lookup_weaken).
      assert (Hne : q ≠ l) by (intros ->; congruence).
      cbn [set]. unfold modify. cbn [heap this trace].
      rewrite lookup_insert_ne by done. rewrite Hl. done.
  - left. exists e, h. split; [done|].
    unfold _dataSaveHandler, send_save. fold id.
    by rewrite (bind_Throw _ _ _ _ _ Hrun).
Qed.

(** X13. Each data-save event takes one request id, whatever happens next:
    the counter goes to the next id, which is one more while the counter is
    below [2^53].  A message is sent exactly when a promise is registered:
    then the message is the only effect, it carries the new id, and the
    table maps the key of that id to the callbacks of the new promise,
    which is the one stored in the detail of the event.  Otherwise the
    handler throws before it has sent or registered anything.  The handler
    never stays pending. *)
Theorem data_save_event_takes_an_id detail r s :
  let out := _dataSaveHandler detail r s in
  let id := next_index (_index r) in
  let p := created r in
  (_index r < 2 ^ 53 → id = _index r + 1) ∧
  _index out.1.2 = id ∧ sent out.1.2 = sent r ∧ invoked out.1.2 = invoked r ∧
  out.1.1 ≠ Hang ∧ this out.2 = this s ∧
  (((∃ e, out.1.1 = Throw e) ∧ trace out.2 = trace s ∧
    _promises out.1.2 = _promises r ∧ created out.1.2 = p) ∨
   ((∃ payload,
       trace out.2 = trace s ++ [Send save_channel (VNum id) payload]) ∧
    _promises out.1.2 =
      <[Number_toString id := Pending (ResolveOf p) (RejectOf p)]>
        (_promises r) ∧
    created out.1.2 = S p ∧
    ((out.1.1 = Ret p ∧ ∃ q, heap s !! q = None ∧
                             field (heap out.2) detail "result" = Some (VRef q)) ∨
     (out.1.1 = Throw TypeError ∧ ∀ l, detail ≠ VRef l)))).
Proof.
  intros out id p. subst out.
  split.
  { intros Hlt. unfold id, next_index. by rewrite (proj2 (Z.ltb_lt _ _) Hlt). }
  destruct (handler_run detail r s)
    as [(e & h & Hsub & ->)|(payload & h & Hsub & Hcase)]; cbn zeta in *.
  - cbn. repeat split; try done. left. repeat split; eauto.
  - destruct Hcase as [(l & o & -> & Ho & ->)|[Hprim ->]]; cbn.
    + repeat split; try done. right. repeat split; eauto.
      left. split; [done|]. exists (fresh (dom h)). split.
      * destruct (heap s !! fresh (dom h)) as [o'|] eqn:E; [|done].
        apply (lookup_weaken _ _ _ _ E) in Hsub. by rewrite fresh_None in Hsub.
      * unfold field. rewrite lookup_insert_eq.
        destruct (elems o); cbn; by rewrite get_set_prop_eq.
    + repeat split; try done. right. repeat split; eauto.
Qed.

(** X14. The handler of the data-save event writes into no object of the
    caller, but for the [result] that it stores in the detail of the event
    when it returns: the options, the list of parents and each parent are
    left as they were, also when a parent is sent as the root folder. *)
Theorem data_save_event_writes_only_the_result detail r s :
  let out := _dataSaveHandler detail r s in
  ∀ l o, heap s !! l = Some o →
    heap out.2 !! l = Some o ∨
    (detail = VRef l ∧ out.1.1 = Ret (created r) ∧
     ∃ q, heap s !! q = None ∧ heap out.2 !! q = Some (plain []) ∧
          heap out.2 !! l =
            Some (Obj (elems o) (set_prop (props o) "result" (VRef q)))).
Proof.
  intros out l o Ho. subst out.
  destruct (handler_run detail r s)
    as [(e & h & Hsub & ->)|(payload & h & Hsub & Hcase)]; cbn zeta in *.
  - left. cbn. by eapply lookup_weaken.
  - assert (Hq : heap s !! fresh (dom h) = None).
    { destruct (heap s !! fresh (dom h)) as [o'|] eqn:E; [|done].
      apply (lookup_weaken _ _ _ _ E) in Hsub. by rewrite fresh_None in Hsub. }
    assert (Hl : h !! l = Some o) by (by eapply lookup_weaken).
    assert (Hne : fresh (dom h) ≠ l) by (intros E; rewrite E in Hq; congruence).
    destruct Hcase as [(l' & o' & -> & Ho' & ->)|[Hprim ->]]; cbn.
    + destruct (decide (l' = l)) as [->|Hll].
      * right. split; [done|]. split; [done|]. exists (fresh (dom h)).
        split; [done|]. split.
        -- rewrite lookup_insert_ne by done. apply lookup_insert_eq.
        -- rewrite lookup_insert_eq. congruence.
      * left. rewrite lookup_insert_ne by done. by rewrite lookup_insert_ne.
    + left. by rewrite lookup_insert_ne.
Qed.

Lemma data_save_event_writes_only_the_result_witness :
  heap (_dataSaveHandler (VRef 1%positive) constructor save_event).2
    !! 6%positive
  = Some (plain [("name", VStr "MY DRIVE"); ("id", VStr "old")]).
Proof.
  destruct (data_save_event_writes_only_the_result (VRef 1%positive)
              constructor save_event 6%positive
              (plain [("name", VStr "MY DRIVE"); ("id", VStr "old")]) eq_refl)
    as [H|(Hd & _)]; [exact H|discriminate Hd].
Defined.


Lemma add_parent_run h0 s r acc item :
  h0 ⊆ heap s → heap s !! r = Some (array acc) → h0 !! r = None →
  (∀ l, item = VRef l → is_Some (h0 !! l)) →
  match parent_name h0 item with
  | None => add_parent (VRef r) item s = (Ret tt, s)
  | Some n =>
      ∃ o h',
        add_parent (VRef r) item s = (Ret tt, State h' (this s) (trace s)) ∧
        h' !! r = Some (array (acc ++ [o])) ∧
        (∀ l c, heap s !! l = Some c → l ≠ r → h' !! l = Some c) ∧
        if String.eqb (toLowerCase n) "my drive"
        then ∃ l, o = VRef l ∧ heap s !! l = None ∧
                  h' !! l = Some (plain (as_root h0 item))
        else o = item
  end.
Proof.
  intros Hsub Hr Hr0 Hcell. unfold add_parent.
  destruct item as [| |b|n|x|l]; cbn [truthy negb parent_name]; try done.
  - destruct b; cbn [negb]; [|done].
    unfold bind, get. by cbn.
  - destruct (n =? 0); cbn [negb]; [done|]. unfold bind, get. by cbn.
  - destruct (String.eqb x "") eqn:Hx; cbn [negb]; [done|].
    destruct (String.eqb (toLowerCase x) "my drive") eqn:Hroot.
    + unfold bind at 1. rewrite alloc_Ret.
      set (l := fresh (dom (heap s))).
      assert (Hl : heap s !! l = None) by apply fresh_None.
      assert (Hlr : l ≠ r) by (intros ->; congruence).
      set (s1 := State _ (this s) (trace s)).
      assert (Hr1 : heap s1 !! r = Some (Obj (Some acc) []))
        by (unfold s1; cbn [heap]; by rewrite lookup_insert_ne).
      rewrite (push_run s1 r acc [] (VRef l) Hr1).
      eexists (VRef l), _. split; [done|]. split; [apply lookup_insert_eq|].
      split.
      * intros l' c Hc Hne. rewrite lookup_insert_ne by done.
        unfold s1. cbn [heap]. rewrite lookup_insert_ne; [done|].
        intros <-. congruence.
      * exists l. split; [done|]. split; [done|].
        rewrite lookup_insert_ne by done. unfold s1. cbn [heap].
        apply lookup_insert_eq.
    + unfold bind at 1. cbn [ret].
      rewrite (push_run s r acc [] (VStr x) Hr).
      eexists (VStr x), _. split; [done|]. split; [apply lookup_insert_eq|].
      split; [|done]. intros l' c Hc Hne. by rewrite lookup_insert_ne.
  - destruct (Hcell l eq_refl) as [c Hc0].
    assert (Hc : heap s !! l = Some c) by (by eapply lookup_weaken).
    assert (Hname : field (heap s) (VRef l) "name" = field h0 (VRef l) "name").
    { unfold field. by rewrite Hc, Hc0. }
    destruct (field h0 (VRef l) "name") as [name|] eqn:Hn0;
      [|unfold field in Hn0; rewrite Hc0 in Hn0; by destruct c as [[?|] ?]].
    rewrite (bind_Ret _ _ _ _ _ (get_Ret _ _ _ _ Hname)).
    destruct name as [| | | |n|]; try done.
    destruct (String.eqb (toLowerCase n) "my drive") eqn:Hroot.
    + unfold bind at 1, bind at 1, Object_assign_new. rewrite Hc, alloc_Ret.
      set (l1 := fresh (dom (heap s))).
      assert (Hl1 : heap s !! l1 = None) by apply fresh_None.
      assert (Hl1r : l1 ≠ r) by (intros ->; congruence).
      unfold bind at 1. cbn [set]. unfold modify at 1. cbn [heap this trace].
      rewrite lookup_insert_eq. cbn [ret elems props plain heap this trace].
      rewrite insert_insert_eq.
      set (s1 := State _ (this s) (trace s)).
      assert (Hr1 : heap s1 !! r = Some (Obj (Some acc) []))
        by (unfold s1; cbn [heap]; by rewrite lookup_insert_ne).
      rewrite (push_run s1 r acc [] (VRef l1) Hr1).
      eexists (VRef l1), _. split; [done|]. split; [apply lookup_insert_eq|].
      split.
      * intros l' c' Hc' Hne. rewrite lookup_insert_ne by done.
        unfold s1. cbn [heap]. rewrite lookup_insert_ne; [done|].
        intros <-. congruence.
      * exists l1. split; [done|]. split; [done|].
        rewrite lookup_insert_ne by done. unfold s1. cbn [heap].
        rewrite lookup_insert_eq. unfold as_root. by rewrite Hc0.
    + unfold bind at 1. cbn [ret].
      rewrite (push_run s r acc [] (VRef l) Hr).
      eexists (VRef l), _. split; [done|]. split; [apply lookup_insert_eq|].
      split; [|done]. intros l' c' Hc' Hne. by rewrite lookup_insert_ne.
Qed.


Lemma parent_sent_kept h0 h h' items outs :
  Forall2 (parent_sent h0 h) items outs →
  (∀ l c, VRef l ∈ outs → h0 !! l = None → h !! l = Some c →
          h' !! l = Some c) →
  Forall2 (parent_sent h0 h') items outs.
Proof.
  induction 1 as [|item o items outs Ho _ IH]; intros Hh; [constructor|].
  constructor.
  - unfold parent_sent in *. destruct (parent_name h0 item); [|done].
    destruct (String.eqb _ _); [|done].
    destruct Ho as (l & -> & Hl & Hc). exists l. split; [done|].
    split; [done|]. apply Hh; [by left|done..].
  - apply IH. intros l c Hin. apply Hh. by right.
Qed.

Lemma add_parents_run h0 items : ∀ s r acc,
  h0 ⊆ heap s → heap s !! r = Some (array acc) → h0 !! r = None →
  (∀ l, VRef l ∈ items → is_Some (h0 !! l)) →
  ∃ out h',
    for_each items (add_parent (VRef r)) s
      = (Ret tt, State h' (this s) (trace s)) ∧
    h' !! r = Some (array (acc ++ out)) ∧
    (∀ l c, heap s !! l = Some c → l ≠ r → h' !! l = Some c) ∧
    Forall2 (parent_sent h0 h')
      (filter (λ v, is_Some (parent_name h0 v)) items) out ∧
    Forall (λ o, ∀ l, o = VRef l → h0 !! l = None → heap s !! l = None) out.
Proof.
  induction items as [|item items IH]; intros s r acc Hsub Hr Hr0 Hcells.
  - exists [], (heap s). cbn. rewrite app_nil_r.
    split; [by destruct s|]. split; [done|]. split; [done|].
    split; constructor.
  - pose proof (add_parent_run h0 s r acc item Hsub Hr Hr0) as Hstep.
    rewrite filter_cons.
    assert (Hrest : ∀ l, VRef l ∈ items → is_Some (h0 !! l)).
    { intros l Hl. apply Hcells. by right. }
    destruct (parent_name h0 item) as [n|] eqn:Hn.
    + destruct Hstep as (o & h1 & Hrun & Hr1 & Hframe & Ho).
      { intros l ->. apply Hcells. by left. }
      set (s1 := State h1 (this s) (trace s)).
      destruct (IH s1 r (acc ++ [o]))
        as (out & h' & Hloop & Hr' & Hframe' & Hp & Hnew); [|done..|].
      { apply map_subseteq_spec. intros l c Hc. apply Hframe.
        - by eapply lookup_weaken.
        - intros ->. congruence. }
      assert (Hdom : ∀ l, h1 !! l = None → heap s !! l = None).
      { intros l Hl. destruct (heap s !! l) as [c|] eqn:E; [|done].
        destruct (decide (l = r)) as [->|Hne]; [congruence|].
        rewrite (Hframe l c E Hne) in Hl. done. }
      exists (o :: out), h'. cbn [for_each].
      rewrite (bind_Ret _ _ _ _ _ Hrun). split; [exact Hloop|].
      split; [by rewrite Hr', <- app_assoc|]. split.
      { intros l c Hc Hne. apply Hframe'; [|done]. by apply Hframe. }
      rewrite decide_True by eauto. split.
      * constructor; [|done].
        unfold parent_sent. rewrite Hn.
        destruct (String.eqb (toLowerCase n) "my drive"); [|done].
        destruct Ho as (l & -> & Hl & Hc). exists l. split; [done|]. split.
        -- destruct (h0 !! l) as [c|] eqn:E; [|done].
           apply (lookup_weaken _ _ _ _ E) in Hsub. congruence.
        -- apply Hframe'; [done|]. intros ->. congruence.
      * constructor.
        -- intros l -> Hl0.
           destruct (String.eqb (toLowerCase n) "my drive").
           ++ destruct Ho as (l' & [= <-] & Hl & _). done.
           ++ subst item. destruct (Hcells l ltac:(by left)) as [c Hc].
              congruence.
        -- eapply Forall_impl; [exact Hnew|]. intros o' Ho' l -> Hl0.
           apply Hdom. by apply (Ho' l).
    + rewrite decide_False by (by intros [? ?]).
      destruct (IH s r acc) as (out & h' & Hloop & Hr' & Hframe' & Hp & Hnew);
        [done..|].
      exists out, h'. cbn [for_each].
      rewrite (bind_Ret _ _ _ _ _ (Hstep ltac:(intros l ->; apply Hcells; by left))).
      done.
Qed.


(** X15. The message of a data-save event whose options list parents.  The
    metadata names the file; the body and the content type are passed on.
    Of the listed parents the message keeps, in order, the strings that are
    not empty and the objects whose [name] is a string: an object with an
    id and no name is dropped.  A kept entry is sent as it is, unless its
    name is [My Drive] in any case: then a new object with the id [root] is
    sent, made from the name or from a copy of the entry.  When nothing is
    kept the metadata has no [parents]. *)
Theorem data_save_event_parents
    detail s content file options given type_ items :
  field (heap s) detail "content" = Some content →
  field (heap s) detail "file" = Some file →
  field (heap s) detail "options" = Some options → truthy options = true →
  field (heap s) options "parents" = Some given →
  field (heap s) options "contentType" = Some type_ →
  items_of (heap s) given = Some items →
  (∀ l, VRef l ∈ items → is_Some (heap s !! l)) →
  ∃ payload meta h out,
    save_message detail s = (Ret (VRef payload), State h (this s) (trace s)) ∧
    heap s ⊆ h ∧ heap s !! payload = None ∧ heap s !! meta = None ∧
    h !! payload =
      Some (plain [("meta", VRef meta); ("type", type_); ("body", content)]) ∧
    Forall2 (parent_sent (heap s) h)
      (filter (λ v, is_Some (parent_name (heap s) v)) items) out ∧
    match out with
    | [] => h !! meta = Some (plain [("name", file)])
    | _ => ∃ parents,
             heap s !! parents = None ∧ h !! parents = Some (array out) ∧
             h !! meta = Some (plain [("name", file); ("parents", VRef parents)])
    end.
Proof.
  intros Hcontent Hfile Hoptions Htruthy Hgiven Htype Hitems Hcells.
  unfold save_message.
  rewrite (bind_Ret _ _ _ _ _ (get_Ret _ _ _ _ Hcontent)).
  rewrite (bind_Ret _ _ _ _ _ (get_Ret _ _ _ _ Hfile)).
  rewrite (bind_Ret _ _ _ _ _ (get_Ret _ _ _ _ Hoptions)).
  rewrite Htruthy. rewrite (bind_Ret _ _ s options s) by done.
  unfold bind at 1. rewrite alloc_Ret.
  set (meta := fresh (dom (heap s))).
  assert (Hmeta : heap s !! meta = None) by apply fresh_None.
  set (s1 := State (<[meta := plain [("name", file)]]> (heap s)) (this s) (trace s)).
  assert (Hsub1 : heap s ⊆ heap s1) by (by apply insert_subseteq).
  assert (Hgiven1 : field (heap s1) options "parents" = Some given)
    by (by eapply field_weaken).
  assert (Htype1 : ∀ h, heap s ⊆ h → field h options "contentType" = Some type_)
    by (intros h Hh; by eapply field_weaken).
  assert (Hitems1 : items_of (heap s1) given = Some items)
    by (by eapply items_of_weaken).
  rewrite (bind_Ret _ _ _ _ _ (get_Ret _ _ _ _ Hgiven1)).
  assert (Hg : truthy given = true).
  { unfold items_of in Hitems. by destruct given. }
  rewrite Hg.
  set (ps := fresh (dom (heap s1))).
  assert (Hps1 : heap s1 !! ps = None) by apply fresh_None.
  assert (Hps : heap s !! ps = None).
  { destruct (heap s !! ps) as [c|] eqn:E; [|done].
    apply (lookup_weaken _ _ _ _ E) in Hsub1. congruence. }
  assert (Hmeta1 : heap s1 !! meta = Some (plain [("name", file)]))
    by apply lookup_insert_eq.
  assert (Hpm : ps ≠ meta) by (intros E; rewrite E in Hps1; congruence).
  set (s2 := State (<[ps := array []]> (heap s1)) (this s1) (trace s1)).
  assert (Hsub2 : heap s ⊆ heap s2).
  { etrans; [exact Hsub1|]. by apply insert_subseteq. }
  destruct (add_parents_run (heap s) items s2 ps [] Hsub2)
    as (out & h3 & Hloop & Hps3 & Hframe & Hout & Hnew);
    [apply lookup_insert_eq|done..|].
  cbn [app] in Hps3.
  set (s3 := State h3 (this s2) (trace s2)) in *.
  assert (Hmeta3 : h3 !! meta = Some (plain [("name", file)])).
  { apply Hframe; [|done]. unfold s2. cbn [heap].
    by rewrite lookup_insert_ne. }
  assert (Hsub3 : heap s ⊆ h3).
  { apply map_subseteq_spec. intros l c Hc. apply Hframe.
    - by eapply lookup_weaken.
    - intros ->. congruence. }
  assert (Hlen : get (VRef ps) "length" s3
                 = (Ret (VNum (Z.of_nat (length out))), s3)).
  { apply get_Ret. unfold field, s3. cbn [heap]. by rewrite Hps3. }
  set (block := λ s : state,
    match items_of (heap s) given with
    | Some items => collect_parents (VRef meta) items s
    | None => (Ret tt, s)
    end).
  assert (Hblock : block s1 =
    (let! n := get (VRef ps) "length" in
     if truthy n then set (VRef meta) "parents" (VRef ps) else ret tt) s3).
  { unfold block. rewrite Hitems1. unfold collect_parents, bind at 1.
    rewrite alloc_Ret. fold ps. fold s2.
    by rewrite (bind_Ret _ _ _ _ _ Hloop). }
  rewrite (bind_Ret _ _ _ _ _ Hlen) in Hblock.
  destruct out as [|o out].
  - cbn [length truthy Z.of_nat Z.eqb negb ret] in Hblock.
    rewrite (bind_Ret _ _ _ _ _ Hblock).
    rewrite (bind_Ret _ _ _ _ _ (get_Ret _ _ s3 _ (Htype1 h3 Hsub3))).
    rewrite alloc_Ret. cbn [heap this trace].
    set (payload := fresh (dom h3)).
    assert (Hp3 : h3 !! payload = None) by apply fresh_None.
    exists payload, meta, (<[payload := plain [("meta", VRef meta);
                                               ("type", type_);
                                               ("body", content)]]> h3), [].
    split; [done|]. split; [etrans; [exact Hsub3|by apply insert_subseteq]|].
    split.
    { destruct (heap s !! payload) as [c|] eqn:E; [|done].
      apply (lookup_weaken _ _ _ _ E) in Hsub3. congruence. }
    split; [done|]. split; [apply lookup_insert_eq|]. split.
    + inversion Hout as [Hnil|]. constructor.
    + rewrite lookup_insert_ne; [done|]. intros E. congruence.
  - assert (Hnz : truthy (VNum (Z.of_nat (length (o :: out)))) = true).
    { cbn [truthy length]. apply negb_true_iff, Z.eqb_neq. lia. }
    rewrite Hnz in Hblock.
    assert (Hset : set (VRef meta) "parents" (VRef ps) s3 =
      (Ret tt, State (<[meta := plain [("name", file); ("parents", VRef ps)]]> h3)
                 (this s3) (trace s3))).
    { cbn [set]. unfold modify, s3. cbn [heap this trace]. by rewrite Hmeta3. }
    rewrite Hset in Hblock.
    set (h4 := <[meta := plain [("name", file); ("parents", VRef ps)]]> h3) in *.
    set (s4 := State h4 (this s3) (trace s3)) in *.
    assert (Hsub4 : heap s ⊆ h4).
    { apply map_subseteq_spec. intros l c Hc. unfold h4.
      rewrite lookup_insert_ne by (intros <-; congruence).
      by eapply lookup_weaken. }
    rewrite (bind_Ret _ _ _ _ _ Hblock).
    rewrite (bind_Ret _ _ _ _ _ (get_Ret _ _ s4 _ (Htype1 h4 Hsub4))).
    rewrite alloc_Ret. cbn [heap this trace].
    set (payload := fresh (dom h4)).
    assert (Hp4 : h4 !! payload = None) by apply fresh_None.
    assert (Hpm4 : payload ≠ meta).
    { intros E. rewrite E in Hp4. unfold h4 in Hp4.
      by rewrite lookup_insert_eq in Hp4. }
    assert (Hpp4 : payload ≠ ps).
    { intros E. rewrite E in Hp4. unfold h4 in Hp4.
      rewrite lookup_insert_ne in Hp4 by done. congruence. }
    exists payload, meta, (<[payload := plain [("meta", VRef meta);
                                               ("type", type_);
                                               ("body", content)]]> h4),
      (o :: out).
    split; [done|]. split; [etrans; [exact Hsub4|by apply insert_subseteq]|].
    split.
    { destruct (heap s !! payload) as [c|] eqn:E; [|done].
      apply (lookup_weaken _ _ _ _ E) in Hsub4. congruence. }
    split; [done|]. split; [apply lookup_insert_eq|]. split.
    + eapply parent_sent_kept; [exact Hout|]. intros l c Hin Hl Hc.
      rewrite Forall_forall in Hnew. specialize (Hnew _ Hin l eq_refl Hl).
      assert (Hlm : l ≠ meta).
      { intros ->. unfold s2 in Hnew. cbn [heap] in Hnew.
        rewrite lookup_insert_ne in Hnew by done. congruence. }
      assert (Hl4 : h4 !! l = Some c)
        by (unfold h4; by rewrite lookup_insert_ne).
      rewrite lookup_insert_ne; [done|]. intros <-. congruence.
    + exists ps. split; [done|].
      split.
      * rewrite lookup_insert_ne by done. unfold h4.
        by rewrite lookup_insert_ne.
      * rewrite lookup_insert_ne by done. unfold h4. apply lookup_insert_eq.
Qed.

Lemma data_save_event_parents_witness :
  ∃ payload meta h out,
    save_message (VRef 1%positive) save_event
      = (Ret (VRef payload), State h blank []) ∧
    h !! payload =
      Some (plain [("meta", VRef meta); ("type", VStr "application/json");
                   ("body", VStr "{}")]) ∧
    Forall2 (parent_sent (heap save_event) h)
      [VStr "My Drive"; VRef 4%positive; VRef 6%positive] out.
Proof.
  destruct (data_save_event_parents (VRef 1%positive) save_event
              (VStr "{}") (VStr "export.json") (VRef 2%positive)
              (VRef 3%positive) (VStr "application/json")
              [VStr "My Drive"; VRef 4%positive; VRef 5%positive; VStr "";
               VRef 6%positive])
    as (payload & meta & h & out & Hrun & _ & _ & _ & Hp & Hout & _);
    try reflexivity.
  - intros l Hin. repeat (apply elem_of_cons in Hin as [Hin|Hin]);
      try discriminate Hin; try (injection Hin as ->; by eexists).
    by apply elem_of_nil in Hin.
  - exists payload, meta, h, out. split; [exact Hrun|]. split; [exact Hp|].
    exact Hout.
Defined.


(** X16. The pending table with data-save events.  The handler keeps the
    table well formed, whatever its outcome.  When it returns, its promise
    is not settled, and the first result for the id of its message fulfils
    the promise, the first error rejects it; either removes the entry.
    While the counter is below [2^53] the id was not in use, so that the
    delivery leaves the table as it was before the event. *)
Theorem data_save_event_round_trip detail r s v :
  well_formed r →
  let out := _dataSaveHandler detail r s in
  let id := next_index (_index r) in
  well_formed out.1.2 ∧
  ∀ p, out.1.1 = Ret p →
    settle p (invoked out.1.2) = Unsettled ∧
    _mainResultHandler (heap out.2) (VNum id) v out.1.2 =
      (Ret tt,
       Renderer (delete (Number_toString id) (_promises r)) id (sent r)
         (S (created r)) (invoked r ++ [(ResolveOf p, v)])) ∧
    _mainErrorHandler (heap out.2) (VNum id) v out.1.2 =
      (Ret tt,
       Renderer (delete (Number_toString id) (_promises r)) id (sent r)
         (S (created r)) (invoked r ++ [(RejectOf p, v)])) ∧
    (_index r < 2 ^ 53 →
       _promises r !! Number_toString id = None ∧
       delete (Number_toString id) (_promises r) = _promises r).
Proof.
  intros Hwf out id. subst out.
  assert (Hreg : well_formed
    (Renderer (<[Number_toString id :=
                   Pending (ResolveOf (created r)) (RejectOf (created r))]>
                 (_promises r)) id (sent r) (S (created r)) (invoked r)))
    by apply (ArcElectronDriveFacts.well_formed_register r (sent r) Hwf).
  assert (Hidx : well_formed
    (Renderer (_promises r) id (sent r) (created r) (invoked r))).
  { destruct Hwf as (Htab & Hinj & Honce & Hfresh & Hi).
    destruct (ArcElectronDriveFacts.next_index_bounds _ Hi) as [Hnext Hle].
    unfold well_formed, invocations in *.
    cbn [_promises _index created invoked].
    split; [|split; [done|split; [done|split; [done|fold id; lia]]]].
    intros k e Hk. destruct (Htab k e Hk) as ((i & Hi' & ->) & Hp).
    split; [|done]. exists i. split; [fold id; lia|done]. }
  destruct (handler_run detail r s)
    as [(e & h & Hsub & ->)|(payload & h & Hsub & Hcase)]; cbn zeta in *.
  - split; [exact Hidx|]. by intros p.
  - destruct Hcase as [(l & o & -> & Ho & ->)|[Hprim ->]]; cbn [fst snd].
    + split; [exact Hreg|]. intros p [= <-]. split.
      * apply ArcElectronDriveFacts.settle_unsettled.
        destruct Hwf as (_ & _ & _ & Hfresh & _). by apply Hfresh.
      * unfold _mainResultHandler, _mainErrorHandler.
        rewrite ArcElectronDriveFacts.key_of_number.
        cbn [_promises _index sent created invoked].
        rewrite lookup_insert_eq. cbn [resolve reject]. fold id.
        rewrite delete_insert_eq.
        split; [done|]. split; [done|]. intros Hlt.
        pose proof (ArcElectronDriveFacts.next_key_unused r Hwf Hlt) as Hnew.
        fold id in Hnew. split; [done|]. by apply delete_id.
    + split; [exact Hreg|]. by intros p.
Qed.

Lemma data_save_event_round_trip_witness :
  (_mainResultHandler
     (heap (_dataSaveHandler (VRef 1%positive) constructor save_event).2)
     (VNum 1) (VStr "done")
     (_dataSaveHandler (VRef 1%positive) constructor save_event).1.2).2 =
  Renderer ∅ 1 [] 1 [(ResolveOf 0, VStr "done")].
Proof.
  pose proof (proj2 (data_save_event_round_trip (VRef 1%positive) constructor
                       save_event (VStr "done")
                       ArcElectronDriveFacts.well_formed_constructor)
                0%nat eq_refl) as (_ & Hres & _ & _).
  exact (f_equal snd Hres).
Defined.

End ArcElectronDriveSaveFacts.

(** ** The folder cache during the life of the process *)

Lemma keeps_state_dep {A B} (I : state → Prop) (E : effect → Prop)
    (f : B → M A) (g : state → B) Q :
  (∀ b, keeps I E (f b) Q) → keeps I E (λ s, f (g s) s) Q.
Proof. intros Hf s HI. apply (Hf (g s) s HI). Qed.

Lemma keeps_after_this {A} (I : state → Prop) (E : effect → Prop)
    (cont : instance → M A) Q :
  (∀ s, I s →
     ∃ d, trace (cont (this s) s).2 = trace s ++ d ∧ Forall E d ∧
          I (cont (this s) s).2 ∧
          ∀ a, (cont (this s) s).1 = Ret a → Q a) →
  keeps I E (bind get_this cont) Q.
Proof. intros H s HI. exact (H s HI). Qed.

Section Free.
Context {I : state → Prop}.
Context (Hfree : heap_free I).

Lemma free_alloc_stable : alloc_stable I.
Proof. intros s h tr HI _. by apply Hfree. Qed.

Lemma keeps_free_modify f l : keeps I anything (modify f l) anything.
Proof.
  intros s HI. exists []. rewrite app_nil_r. unfold modify.
  destruct (heap s !! l) as [o|]; simpl.
  - split; [done|]. split; [constructor|]. split; [by apply (Hfree s)|done].
  - split; [done|]. split; [constructor|]. by split.
Qed.

Lemma keeps_free_set v k x : keeps I anything (set v k x) anything.
Proof. destruct v; simpl; try apply keeps_throw. apply keeps_free_modify. Qed.

Lemma keeps_free_delete_field v k :
  keeps I anything (delete_field v k) anything.
Proof.
  destruct v; simpl; try apply keeps_throw; try by apply keeps_ret.
  apply keeps_free_modify.
Qed.

Lemma keeps_free_push v x : keeps I anything (push v x) anything.
Proof. apply keeps_elems_push. by apply heap_free_elems. Qed.

Lemma keeps_free_shift v : keeps I anything (shift v) anything.
Proof. apply keeps_elems_shift. by apply heap_free_elems. Qed.

Lemma keeps_free__createMedia config :
  keeps I anything (_createMedia config) anything.
Proof.
  pose proof free_alloc_stable as Ha.
  unfold _createMedia. repeat keeps_step.
Qed.

Lemma keeps_free__createResource config :
  keeps I anything (_createResource config) anything.
Proof.
  pose proof free_alloc_stable as Ha.
  unfold _createResource.
  keeps_step; [keeps_step|]. keeps_step; [keeps_step|].
  keeps_step; [keeps_step; keeps_step|]. keeps_step; [keeps_step|].
  keeps_step; [keeps_step|].
  keeps_step; [keeps_step; [by apply keeps_free_set|keeps_step]|].
  keeps_step; [keeps_step|].
  keeps_step; [keeps_step; [by apply keeps_free_set|keeps_step]|].
  keeps_step.
Qed.

Section World.
Variable W : world.

Lemma keeps_free__listAppFolders auth_ :
  keeps I anything (_listAppFolders W auth_) anything.
Proof.
  pose proof free_alloc_stable as Ha.
  unfold _listAppFolders.
  keeps_step; [keeps_step|].
  keeps_step; [by apply keeps_net_request|].
  keeps_step; [by apply keeps_parse|].
  repeat keeps_step.
Qed.

Lemma keeps_free_listAppFolders interactive :
  keeps I anything (listAppFolders W interactive) anything.
Proof.
  pose proof free_alloc_stable as Ha.
  unfold listAppFolders.
  keeps_step; [by apply keeps_ask_oauth|].
  keeps_step; [apply keeps_free__listAppFolders|keeps_step].
Qed.

Lemma keeps_free_report_error requestId cause :
  keeps I anything (report_error requestId cause) anything.
Proof.
  pose proof free_alloc_stable as Ha.
  unfold report_error. keeps_step; [repeat keeps_step|]. by keeps_step.
Qed.

Lemma keeps_free_upload_steps token resource media created :
  keeps I anything (upload_steps W token resource media created) anything.
Proof.
  pose proof free_alloc_stable as Ha.
  unfold upload_steps.
  keeps_step; [by apply keeps__initializeSession|].
  keeps_step; [keeps_step|]. keeps_step; [keeps_step|].
  keeps_step; [by apply keeps__upload|].
  keeps_step; [|keeps_step].
  keeps_step; [apply keeps_free_set|keeps_step].
Qed.

Lemma keeps_free_update fileId resource media auth_ :
  keeps I anything (update W fileId resource media auth_) anything.
Proof.
  pose proof free_alloc_stable as Ha.
  unfold update.
  keeps_step; [keeps_step|]. keeps_step; [keeps_step|].
  keeps_step; [keeps_step; [apply keeps_free_set|keeps_step]|].
  keeps_step; [by apply keeps_auth|].
  keeps_step; [keeps_step|].
  keeps_step; [by apply keeps__initializeSession|].
  keeps_step; [keeps_step|]. keeps_step; [keeps_step|].
  by apply keeps__upload.
Qed.

Lemma keeps_free_failure_text body :
  keeps I anything (failure_text W body) anything.
Proof.
  pose proof free_alloc_stable as Ha.
  unfold failure_text. apply keeps_try_catch; [|intros e; keeps_step].
  keeps_step; [by apply keeps_parse|].
  keeps_step; [keeps_step|].
  keeps_step; [keeps_step|].
  keeps_step; [|keeps_step].
  keeps_step; [keeps_step|]. keeps_step; [keeps_step|].
  keeps_step; [keeps_step|].
  intros s HI. exists []. simpl. rewrite app_nil_r. split; [done|].
  split; [constructor|]. by split.
Qed.

Lemma keeps_free__downloadFile auth_ id :
  keeps I anything (_downloadFile W auth_ id) anything.
Proof.
  pose proof free_alloc_stable as Ha.
  unfold _downloadFile.
  apply (keeps_state_dep I anything
           (λ url,
              let! token := get auth_ "accessToken" in
              let! r := net_request W (Request "GET" (Url url) token [] None) in
              let body := drain r in
              if 400 <=? statusCode r then
                let! text := failure_text W body in throw (ErrorObj text)
              else ret (VStr body))
           (λ s, download_url (heap s) id)).
  intros url.
  keeps_step; [keeps_step|].
  keeps_step; [by apply keeps_net_request|].
  cbv zeta. keeps_step; [|keeps_step].
  keeps_step; [apply keeps_free_failure_text|keeps_step].
Qed.

Lemma keeps_free_getFile id : keeps I anything (getFile W id) anything.
Proof.
  pose proof free_alloc_stable as Ha.
  unfold getFile. keeps_step; [by apply keeps_auth|].
  apply keeps_free__downloadFile.
Qed.

Lemma keeps_free__getFileHandler requestId id :
  keeps I anything (_getFileHandler W requestId id) anything.
Proof.
  pose proof free_alloc_stable as Ha.
  unfold _getFileHandler.
  apply keeps_try_catch; [|intros e; apply keeps_free_report_error].
  keeps_step; [apply keeps_free_getFile|]. by keeps_step.
Qed.

End World.
End Free.

Lemma this_heap_free i0 : heap_free (λ s, this s = i0).
Proof. by intros s h tr H. Qed.

Section Cached.
Variable W : world.
Variable i0 : instance.
Hypothesis Hcached : truthy (cachedFolders i0) = true.

Lemma keeps_cached__createParents info n : ∀ parents result,
  keeps (λ s, this s = i0) anything
    (_createParents W n parents info result) anything.
Proof.
  pose proof (this_heap_free i0) as Hf.
  pose proof (free_alloc_stable Hf) as Ha.
  induction n as [|n IH]; intros parents result; simpl; [apply keeps_hang|].
  keeps_step; [by apply keeps_free_shift|].
  keeps_step; [by apply keeps_ret|].
  keeps_step; [keeps_step|].
  keeps_step.
  - keeps_step; [by apply keeps_free_push|apply IH].
  - keeps_step; [keeps_step|].
    keeps_step; [by apply keeps_createFolder|].
    keeps_step; [by apply keeps_free_set|].
    keeps_step; [by apply keeps_free_push|].
    apply keeps_after_this. intros s Hs. rewrite Hs, Hcached. cbn [negb].
    assert (Hk : keeps (λ s, this s = i0) anything
              (ret tt ;;
               let! i := get_this in
               push (cachedFolders i) a ;;
               _createParents W n parents info result) anything).
    { keeps_step; [keeps_step|]. keeps_step; [keeps_step|].
      keeps_step; [by apply keeps_free_push|apply IH]. }
    exact (Hk s Hs).
Qed.

Lemma keeps_cached_createParents parents auth_ :
  keeps (λ s, this s = i0) anything (createParents W parents auth_) anything.
Proof.
  pose proof (this_heap_free i0) as Hf.
  pose proof (free_alloc_stable Hf) as Ha.
  unfold createParents.
  keeps_step; [repeat keeps_step|].
  keeps_step; [keeps_step|].
  keeps_step.
  { apply keeps_elems__normalizeParents. by apply heap_free_elems. }
  keeps_step; [keeps_step|].
  keeps_step; [keeps_step|].
  keeps_step; [by apply keeps_auth|].
  keeps_step; [keeps_step|].
  intros s Hs. by apply keeps_cached__createParents.
Qed.

Lemma keeps_cached_create resource media auth_ :
  keeps (λ s, this s = i0) anything (create W resource media auth_) anything.
Proof.
  pose proof (this_heap_free i0) as Hf.
  pose proof (free_alloc_stable Hf) as Ha.
  unfold create.
  keeps_step; [keeps_step|]. keeps_step; [keeps_step|].
  keeps_step; [keeps_step; [by apply keeps_free_set|keeps_step]|].
  keeps_step; [by apply keeps_auth|].
  keeps_step; [keeps_step|].
  keeps_step; [keeps_step|].
  keeps_step; [repeat keeps_step|].
  keeps_step.
  { keeps_step; [|keeps_step].
    keeps_step; [keeps_step|].
    keeps_step; [apply keeps_cached_createParents|].
    keeps_step; [repeat keeps_step|].
    keeps_step; [|keeps_step].
    keeps_step; [by apply keeps_free_delete_field|].
    keeps_step; [keeps_step|].
    keeps_step; [repeat keeps_step|].
    keeps_step; [keeps_step|]. by apply keeps_free_set. }
  by apply keeps_free_upload_steps.
Qed.

Lemma keeps_cached__dataSaveHandler requestId config :
  keeps (λ s, this s = i0) anything
    (_dataSaveHandler W requestId config) anything.
Proof.
  pose proof (this_heap_free i0) as Hf.
  pose proof (free_alloc_stable Hf) as Ha.
  unfold _dataSaveHandler.
  keeps_step; [keeps_step|]. keeps_step; [keeps_step|].
  keeps_step; [by apply keeps_free__createResource|].
  keeps_step; [by apply keeps_free__createMedia|].
  apply keeps_try_catch; [|intros e; by apply keeps_free_report_error].
  keeps_step; [|by keeps_step].
  keeps_step; [by apply keeps_free_update|apply keeps_cached_create].
Qed.

Lemma cached__listAppFoldersHandler requestId opts s :
  this s = i0 →
  _listAppFoldersHandler W requestId opts s =
    (Ret tt,
     State (heap s) (this s)
       (trace s ++ [Send result_channel requestId (cachedFolders i0)])).
Proof.
  intros Hs.
  assert (Hc : truthy (cachedFolders (this s)) = true) by (by rewrite Hs).
  unfold _listAppFoldersHandler. unfold bind at 1.
  cbn [get_this]. rewrite Hc. unfold emit. by rewrite Hs.
Qed.

Lemma perform_cached op s : this s = i0 → this (perform W op s) = i0.
Proof.
  pose proof (this_heap_free i0) as Hf.
  pose proof (free_alloc_stable Hf) as Ha.
  intros Hs.
  assert (Hk : ∀ A (m : M A),
            keeps (λ s, this s = i0) anything m anything →
            this (m s).2 = i0).
  { intros A m Hm. by destruct (Hm s Hs) as (_ & _ & _ & H & _). }
  destruct op; cbn [perform].
  - by rewrite cached__listAppFoldersHandler.
  - apply Hk, keeps_cached__dataSaveHandler.
  - apply Hk. by apply keeps_free__getFileHandler.
  - apply Hk. by apply keeps_free__createMedia.
  - apply Hk. by apply keeps_free__createResource.
  - apply Hk. by apply keeps_auth.
  - apply Hk. by apply keeps_free_listAppFolders.
  - apply Hk. by apply keeps_free__listAppFolders.
  - apply Hk, keeps_cached_create.
  - apply Hk. by apply keeps_free_update.
  - apply Hk. by apply keeps__initializeSession.
  - apply Hk. by apply keeps__upload.
  - apply Hk, keeps_cached_createParents.
  - apply Hk. apply keeps_elems__normalizeParents. by apply heap_free_elems.
  - apply Hk, keeps_cached__createParents.
  - apply Hk. by apply keeps_createFolder.
  - apply Hk. by apply keeps__createFolder.
  - apply Hk. by apply keeps_free_getFile.
  - apply Hk. by apply keeps_free__downloadFile.
Qed.

Lemma lifetime_cached ops : ∀ s, this s = i0 → this (lifetime W ops s) = i0.
Proof.
  induction ops as [|op ops IH]; intros s Hs; [done|].
  apply IH. by apply perform_cached.
Qed.

End Cached.

Lemma listAppFolders_asks W interactive s :
  ∃ d, trace (listAppFolders W interactive s).2
       = trace s ++ GetAuthToken interactive :: d.
Proof.
  pose proof (write_alloc_stable always_stable) as Ha.
  rewrite listAppFolders_run. cbv zeta.
  set (s0 := State (heap s) (this s) (trace s ++ [GetAuthToken interactive])).
  assert (Hnone : ∃ d, trace s0 = trace s ++ GetAuthToken interactive :: d)
    by (by exists []).
  destruct (oauth W (trace s0)) as [[j|]|x]; [|done..].
  assert (Hk : keeps (λ _, True) anything
            (let! auth := from_json j in
             if truthy auth then _listAppFolders W auth else ret VUndef)
            anything).
  { keeps_step; [keeps_step|].
    keeps_step; [|keeps_step].
    by apply (keeps_free__listAppFolders (I := λ _, True)). }
  destruct (Hk s0 I) as (d & Hd & _). exists d. rewrite Hd.
  unfold s0. cbn [trace]. by rewrite <- app_assoc.
Qed.



(** ** [create]: the steps before the handshake *)

Lemma create_split W resource media auth_ s :
  create W resource media auth_ s =
  (let! tc := create_head W resource auth_ in
   upload_steps W tc.1 resource media tc.2) s.
Proof.
  unfold create, create_head, upload_steps.
  unfold bind at 1. symmetry. unfold bind at 1. unfold bind at 1. symmetry.
  destruct (get resource "mimeType" s) as [[mt|e|] s1]; [|done..].
  unfold bind at 1. symmetry. unfold bind at 1. symmetry.
  destruct (get_this s1) as [[i|e|] s2]; [|done..].
  unfold bind at 1. symmetry. unfold bind at 1. symmetry.
  destruct ((if negb (truthy mt) && truthy (mime i)
             then set resource "mimeType" (mime i) else ret tt) s2)
    as [[[]|e|] s3]; [|done..].
  unfold bind at 1. symmetry. unfold bind at 1. symmetry.
  destruct (auth W auth_ s3) as [[info|e|] s4]; [|done..].
  unfold bind at 1. symmetry. unfold bind at 1. symmetry.
  destruct (get info "accessToken" s4) as [[token|e|] s5]; [|done..].
  unfold bind at 1. symmetry. unfold bind at 1. symmetry.
  destruct (get resource "parents" s5) as [[parents|e|] s6]; [|done..].
  unfold bind at 1. symmetry. unfold bind at 1. symmetry.
  destruct ((if truthy parents then get parents "length" else ret parents) s6)
    as [[len|e|] s7]; [|done..].
  unfold bind at 1. symmetry. unfold bind at 1. symmetry.
  match goal with
  | |- context [match ?m s7 with _ => _ end] =>
      destruct (m s7) as [[cp|e|] s8]; [|done..]
  end.
  done.
Qed.

Lemma keeps_create_head (I : state → Prop) W resource auth_ :
  write_stable I → keeps I resolution (create_head W resource auth_) anything.
Proof.
  intros Hstable. pose proof (write_alloc_stable Hstable) as Ha.
  assert (Hauth : ∀ x, keeps I resolution (auth W x) anything).
  { intros x. apply keeps_auth; [done|]. intros e He. by left. }
  assert (Hfolder : ∀ info name,
            keeps I resolution (createFolder W name info) anything).
  { intros info name. apply keeps_createFolder; [done|..].
    - intros e He. by left.
    - intros t e He. right. eauto. }
  unfold create_head.
  keeps_step; [keeps_step|]. keeps_step; [keeps_step|].
  keeps_step; [keeps_step; [by apply keeps_set|keeps_step]|].
  keeps_step; [apply Hauth|].
  keeps_step; [keeps_step|]. keeps_step; [keeps_step|].
  keeps_step; [repeat keeps_step|].
  keeps_step; [|keeps_step].
  keeps_step; [|keeps_step].
  keeps_step; [keeps_step|].
  keeps_step.
  { eapply keeps_createParents; [done|apply Hauth|]. intros i n _. apply Hfolder. }
  keeps_step; [repeat keeps_step|].
  keeps_step; [|keeps_step].
  keeps_step; [by apply keeps_delete_field|].
  keeps_step; [keeps_step|].
  keeps_step; [repeat keeps_step|].
  keeps_step; [keeps_step|]. by apply keeps_set.
Qed.

(** The state in which the handshake starts, when the resource names
    parents. *)
Lemma create_head_Ret_inv W resource auth_ s token cp sc parents len :
  create_head W resource auth_ s = (Ret (token, cp), sc) →
  field (heap s) resource "parents" = Some parents → truthy parents = true →
  field (heap s) parents "length" = Some len → truthy len = true →
  ∃ r c items ids o,
    resource = VRef r ∧ cp = VRef c ∧
    heap sc !! r = Some o ∧
    items_of (heap sc) (VRef c) = Some items ∧
    Forall2 (λ item id, field (heap sc) item "id" = Some id) items ids ∧
    (items ≠ [] →
       ∃ ia, heap s !! ia = None ∧ heap sc !! ia = Some (array ids) ∧
             get_prop (props o) "parents" = VRef ia ∧
             has_prop (props o) "parents" = true) ∧
    (items = [] → has_prop (props o) "parents" = false).
Proof.
  unfold create_head. intros H Hp Htp Hl Htl.
  destruct (field_is_ref _ _ _ _ Hp Htp eq_refl) as (r & o0 & -> & Hr0).
  inv_bind H as mt s0 Hmt. apply get_Ret_inv in Hmt as [-> _].
  inv_bind H as i s0 Hi. apply get_this_inv in Hi as [-> ->].
  inv_bind H as u sa Hmime.
  apply default_mime_inv in Hmime as (Hthis_a & Htrace_a & Hdom_a & Hfield_a).
  inv_bind H as info sb Hauth.
  apply auth_Ret_inv in Hauth as (Hsub_b & Hthis_b & Htrace_b).
  inv_bind H as token' s0 Htoken. apply get_Ret_inv in Htoken as [-> Htoken].
  assert (Hp_b : field (heap sb) (VRef r) "parents" = Some parents).
  { eapply field_weaken; [done|]. by rewrite Hfield_a. }
  assert (Hl_b : field (heap sb) parents "length" = Some len).
  { eapply field_weaken; [done|]. by rewrite Hfield_a. }
  inv_bind H as parents' s0 Hps. apply get_Ret_inv in Hps as [-> Hps].
  rewrite Hp_b in Hps. simplify_eq. rewrite Htp in H.
  inv_bind H as len' s0 Hlen. apply get_Ret_inv in Hlen as [-> Hlen].
  rewrite Hl_b in Hlen. simplify_eq. rewrite Htl in H.
  inv_bind H as cp' sc' Hblock. apply ret_inv in H as [[= <- <-] <-].
  inv_bind Hblock as parents2 s0 Hps2. apply get_Ret_inv in Hps2 as [-> Hps2].
  rewrite Hp_b in Hps2. simplify_eq.
  inv_bind Hblock as created s1 Hcreate.
  destruct (createParents_Ret _ _ _ _ _ _ Hcreate) as (c & items & -> & Hitems).
  destruct (resolution_createParents W parents2 info _ (dom_stable (heap sb)) sb)
    as (_ & _ & _ & Hdom1 & _); [done|].
  rewrite Hcreate in Hdom1. cbn [snd] in Hdom1.
  assert (Hdom : dom (heap s) ⊆ dom (heap s1)).
  { rewrite <- Hdom_a. etrans; [|exact Hdom1]. by apply subseteq_dom. }
  assert (Hr1 : ∃ o1, heap s1 !! r = Some o1).
  { apply elem_of_dom. apply Hdom. by apply elem_of_dom_2 in Hr0. }
  destruct Hr1 as [o1 Hr1].
  assert (Hc1 : ∃ cps, heap s1 !! c = Some (Obj (Some items) cps)).
  { unfold items_of in Hitems. destruct (heap s1 !! c) as [[e cps]|]; [|done].
    simpl in Hitems. subst e. eauto. }
  destruct Hc1 as [cps Hc1].
  cbn [truthy negb orb] in Hblock.
  inv_bind Hblock as n s0 Hn. apply get_Ret_inv in Hn as [-> Hn].
  unfold field in Hn. rewrite Hc1 in Hn. cbn [String.eqb] in Hn.
  change (String.eqb "length" "length") with true in Hn. cbv iota in Hn.
  injection Hn as <-. rewrite length_truthy, negb_involutive in Hblock.
  inv_bind Hblock as u2 sc2 Hbranch. apply ret_inv in Hblock as [-> ->].
  destruct (bool_decide (items = [])) eqn:Hnil.
  - (* nothing was resolved: the field is deleted *)
    apply bool_decide_eq_true in Hnil. subst items.
    destruct (delete_field_Ret_inv _ _ _ _ _ Hbranch)
      as [(r' & o' & [= <-] & Hr' & ->)|[Hno _]]; [|by destruct (Hno r)].
    rewrite Hr1 in Hr'. injection Hr' as <-. cbn [heap this trace] in *.
    set (oc := Obj (elems o1) (del_prop (props o1) "parents")) in *.
    exists r, c, [], [], oc.
    split; [done|]. split; [done|].
    split; [apply lookup_insert_eq|].
    split.
    { unfold oc. rewrite items_of_insert_props by done. exact Hitems. }
    split; [constructor|]. split; [done|]. intros _. apply has_del_prop_eq.
  - (* the ids replace the references *)
    apply bool_decide_eq_false in Hnil.
    inv_bind Hbranch as items' s0 Hel.
    apply elements_Ret_inv in Hel as [-> Hel]. rewrite Hitems in Hel.
    injection Hel as <-.
    inv_bind Hbranch as ids s0 Hids.
    apply map_get_Ret_inv in Hids as [-> Hids].
    inv_bind Hbranch as list s0 Hlist. rewrite alloc_Ret in Hlist.
    injection Hlist as <- <-.
    set (ia := fresh (dom (heap s1))) in *.
    assert (Hia : heap s1 !! ia = None) by apply fresh_None.
    destruct (set_Ret_inv _ _ _ _ _ _ Hbranch) as (r' & o' & [= <-] & Hr' & ->).
    cbn [heap this trace] in *.
    assert (Hria : r ≠ ia) by (intros E; rewrite E in Hr1; congruence).
    rewrite lookup_insert_ne in Hr' by done.
    rewrite Hr1 in Hr'. injection Hr' as <-.
    set (h1 := <[ia := array ids]> (heap s1)) in *.
    set (oc := Obj (elems o1) (set_prop (props o1) "parents" (VRef ia))) in *.
    assert (Hr1' : h1 !! r = Some o1)
      by (unfold h1; by rewrite lookup_insert_ne).
    exists r, c, items, ids, oc.
    split; [done|]. split; [done|].
    split; [apply lookup_insert_eq|].
    split.
    { unfold oc. rewrite items_of_insert_props by done.
      by apply items_of_insert_fresh. }
    split.
    { eapply Forall2_impl; [exact Hids|]. intros item id Hid. simpl in Hid.
      unfold oc. rewrite field_insert_props; [by apply field_insert_fresh|done|].
      by apply get_set_prop_ne. }
    split; [|done]. intros _. exists ia. split.
    { destruct (heap s !! ia) as [x|] eqn:E; [|done].
      apply elem_of_dom_2 in E. apply Hdom in E.
      apply elem_of_dom in E as [y Hy]. congruence. }
    split.
    { rewrite lookup_insert_ne by done. unfold h1. apply lookup_insert_eq. }
    split; [apply get_set_prop_eq|apply has_set_prop].
Qed.

(** ** [create]: the handshake *)

Lemma body_state meta s :
  ((if truthy meta then JSON_stringify meta else ret VUndef) s).2 = s.
Proof.
  destruct (truthy meta); [|done]. unfold JSON_stringify.
  by destruct (stringify (heap s) meta).
Qed.

Lemma upload_grows W token url body mimeType s :
  let out := _upload W token url body mimeType s in
  heap s ⊆ heap out.2 ∧ ∀ l, out.1 = Ret (VRef l) → heap s !! l = None.
Proof.
  intros out. subst out. split.
  - destruct (keeps__upload W (I := λ s', heap s ⊆ heap s') (E := anything))
      with (token := token) (url := url) (body := body)
           (mimeType := mimeType) (s := s) as (_ & _ & _ & H & _); try done.
    intros s' h tr Hsub Hh. simpl. by etrans.
  - intros l H.
    destruct (_upload W token url body mimeType s) as [[result|e|] s'] eqn:Hu;
      cbn [fst] in H; simplify_eq.
    destruct (_upload_Ret_inv _ _ _ _ _ _ _ _ Hu) as (_ & _ & _ & Hf).
    by apply Hf.
Qed.

(** What the handshake of [create] sends, and what it leaves of the heap,
    whatever its outcome. *)
Lemma upload_steps_sends W token resource media cp sc :
  let out := upload_steps W token resource media cp sc in
  (∀ l o, heap sc !! l = Some o → heap out.2 !! l = Some o) ∧
  ∃ d, trace out.2 = trace sc ++ d ∧
    (d = [] ∨
     ∃ body,
       (if truthy resource then JSON_stringify resource else ret VUndef) sc
         = (Ret body, sc) ∧
       (d = [NetRequest (new_session_request token body)] ∨
        ∃ u x t rsp,
          d = [NetRequest (new_session_request token body);
               NetRequest (Request "PUT" (UrlAt u) token
                             [("content-type", t)] (Some x))] ∧
          net W (trace sc ++ [NetRequest (new_session_request token body)])
            = OnResponse rsp ∧
          session_response rsp = Ret u ∧
          field (heap sc) media "body" = Some x ∧
          field (heap sc) media "mimeType" = Some t)).
Proof.
  intros out. subst out.
  remember (upload_steps W token resource media cp sc) as out eqn:Hout.
  unfold upload_steps in Hout.
  pose proof (body_state resource sc) as Hst.
  destruct ((if truthy resource then JSON_stringify resource else ret VUndef) sc)
    as [[body|e|] sb] eqn:Hbody; cbn [snd] in Hst; subst sb.
  2: { unfold _initializeSession in Hout.
       rewrite (bind_Throw _ _ _ _ _ (bind_Throw _ _ _ _ _ Hbody)) in Hout.
       subst out. split; [done|]. exists []. rewrite app_nil_r.
       split; [done|by left]. }
  2: { unfold _initializeSession in Hout.
       rewrite (bind_Hang _ _ _ _ (bind_Hang _ _ _ _ Hbody)) in Hout.
       subst out. split; [done|]. exists []. rewrite app_nil_r.
       split; [done|by left]. }
  set (req := NetRequest (new_session_request token body)).
  set (s1 := State (heap sc) (this sc) (trace sc ++ [req])).
  assert (Hinit : _initializeSession W token resource VUndef sc =
            (match net W (trace sc ++ [req]) with
             | OnResponse r => session_response r
             | OnError x => Throw x
             end, s1)).
  { unfold _initializeSession. rewrite (bind_Ret _ _ _ _ _ Hbody).
    unfold bind at 1. rewrite net_request_run.
    change (session_request token VUndef body)
      with (new_session_request token body). fold req. fold s1.
    by destruct (net W (trace sc ++ [req])). }
  assert (Hone : ∀ o, out = (o, s1) →
    (∀ l c, heap sc !! l = Some c → heap out.2 !! l = Some c) ∧
    ∃ d, trace out.2 = trace sc ++ d ∧
      (d = [] ∨
       ∃ body0,
         (Ret body, sc) = (Ret body0, sc) ∧
         (d = [NetRequest (new_session_request token body0)] ∨
          ∃ u x t rsp,
            d = [NetRequest (new_session_request token body0);
                 NetRequest (Request "PUT" (UrlAt u) token
                               [("content-type", t)] (Some x))] ∧
            net W (trace sc ++ [NetRequest (new_session_request token body0)])
              = OnResponse rsp ∧
            session_response rsp = Ret u ∧
            field (heap sc) media "body" = Some x ∧
            field (heap sc) media "mimeType" = Some t))).
  { intros o ->. split; [done|]. exists [req]. split; [done|]. right.
    exists body. split; [done|]. by left. }
  assert (Htwo : ∀ u x t rsp,
    net W (trace sc ++ [req]) = OnResponse rsp →
    session_response rsp = Ret u →
    field (heap sc) media "body" = Some x →
    field (heap sc) media "mimeType" = Some t →
    ∀ o s2,
    out = (o, s2) →
    (∀ l c, heap sc !! l = Some c → heap s2 !! l = Some c) →
    trace s2 = trace s1 ++ [NetRequest (Request "PUT" (UrlAt u) token
                                          [("content-type", t)] (Some x))] →
    (∀ l c, heap sc !! l = Some c → heap out.2 !! l = Some c) ∧
    ∃ d, trace out.2 = trace sc ++ d ∧
      (d = [] ∨
       ∃ body0,
         (Ret body, sc) = (Ret body0, sc) ∧
         (d = [NetRequest (new_session_request token body0)] ∨
          ∃ u x t rsp,
            d = [NetRequest (new_session_request token body0);
                 NetRequest (Request "PUT" (UrlAt u) token
                               [("content-type", t)] (Some x))] ∧
            net W (trace sc ++ [NetRequest (new_session_request token body0)])
              = OnResponse rsp ∧
            session_response rsp = Ret u ∧
            field (heap sc) media "body" = Some x ∧
            field (heap sc) media "mimeType" = Some t))).
  { intros u x t rsp Hnet Hsess Hx Htype o s2 -> Hcells Htr.
    split; [done|]. cbn [snd].
    eexists. split; [rewrite Htr; unfold s1; cbn [trace];
                     by rewrite <- app_assoc|].
    right. exists body. split; [done|]. right. by exists u, x, t, rsp. }
  destruct (net W (trace sc ++ [req])) as [rsp|x0] eqn:Hnet.
  2: { rewrite (bind_Throw _ _ _ _ _ Hinit) in Hout. by eapply Hone. }
  destruct (session_response rsp) as [url|e|] eqn:Hsess.
  2: { rewrite (bind_Throw _ _ _ _ _ Hinit) in Hout. by eapply Hone. }
  2: { rewrite (bind_Hang _ _ _ _ Hinit) in Hout. by eapply Hone. }
  rewrite (bind_Ret _ _ _ _ _ Hinit) in Hout.
  pose proof (get_state media "body" s1) as Hg1.
  destruct (get media "body" s1) as [[b|e|] s2] eqn:Hb; cbn [snd] in Hg1;
    subst s2.
  2: { rewrite (bind_Throw _ _ _ _ _ Hb) in Hout. by eapply Hone. }
  2: { rewrite (bind_Hang _ _ _ _ Hb) in Hout. by eapply Hone. }
  rewrite (bind_Ret _ _ _ _ _ Hb) in Hout.
  pose proof (proj2 (get_Ret_inv _ _ _ _ _ Hb)) as Hfb.
  pose proof (get_state media "mimeType" s1) as Hg2.
  destruct (get media "mimeType" s1) as [[mt|e|] s2] eqn:Hm; cbn [snd] in Hg2;
    subst s2.
  2: { rewrite (bind_Throw _ _ _ _ _ Hm) in Hout. by eapply Hone. }
  2: { rewrite (bind_Hang _ _ _ _ Hm) in Hout. by eapply Hone. }
  rewrite (bind_Ret _ _ _ _ _ Hm) in Hout.
  pose proof (proj2 (get_Ret_inv _ _ _ _ _ Hm)) as Hfm.
  specialize (Htwo url b mt rsp eq_refl Hsess Hfb Hfm).
  pose proof (_upload_effect W token url b mt s1) as Htr.
  destruct (upload_grows W token url b mt s1) as [Hsub Hfresh].
  destruct (_upload W token url b mt s1) as [[result|e|] s2] eqn:Hu;
    cbn [fst snd] in *.
  2: { rewrite (bind_Throw _ _ _ _ _ Hu) in Hout.
       eapply Htwo; [done| |done]. intros l c Hl.
       by apply (lookup_weaken _ _ _ _ Hl Hsub). }
  2: { rewrite (bind_Hang _ _ _ _ Hu) in Hout.
       eapply Htwo; [done| |done]. intros l c Hl.
       by apply (lookup_weaken _ _ _ _ Hl Hsub). }
  rewrite (bind_Ret _ _ _ _ _ Hu) in Hout.
  assert (Hcells : ∀ l c, heap sc !! l = Some c → heap s2 !! l = Some c).
  { intros l c Hl. by apply (lookup_weaken _ _ _ _ Hl Hsub). }
  destruct (truthy cp).
  - unfold bind at 1 in Hout.
    destruct result as [| |rb|rn|rs|lr]; cbn [set throw] in Hout;
      try (eapply Htwo; [exact Hout|done..]).
    unfold modify in Hout.
    destruct (heap s2 !! lr) as [or|] eqn:Hlr;
      [|eapply Htwo; [exact Hout|done..]].
    cbn [ret] in Hout. eapply Htwo; [exact Hout| |done].
    cbn [heap]. intros l c Hl. rewrite lookup_insert_ne; [by apply Hcells|].
    intros E. pose proof (Hfresh lr eq_refl) as Hn. unfold s1 in Hn.
    cbn [heap] in Hn. rewrite E in Hn. congruence.
  - rewrite (bind_Ret _ _ _ _ _ (eq_refl : ret tt s2 = (Ret tt, s2))) in Hout.
    eapply Htwo; [exact Hout|done..].
Qed.

Lemma walk_items_strings f names :
  (∀ x, f (VStr x) = WJson (JStr x)) →
  walk_items f (map VStr names) = Some (map JStr names).
Proof.
  intros Hf. induction names as [|x names IH]; [done|].
  simpl. by rewrite Hf, IH.
Qed.

Lemma member_walk f ps k j : ∀ ms,
  walk_members f ps = Some ms → has_prop ps k = true →
  f (get_prop ps k) = WJson j → member ms k = Some j.
Proof.
  induction ps as [|[k' v] ps IH]; intros ms Hw Hk Hj; [done|].
  simpl in *. destruct (String.eqb k' k) eqn:Ek.
  - rewrite Hj in Hw. destruct (walk_members f ps) as [ms'|]; [|done].
    injection Hw as <-. simpl. by rewrite Ek.
  - simpl in Hk.
    destruct (f v) as [|j'|]; destruct (walk_members f ps) as [ms'|];
      try done; injection Hw as <-.
    + by apply IH.
    + simpl. rewrite Ek. by apply IH.
Qed.

(** The text of a resource whose [parents] is a list of strings names
    these strings. *)
Lemma stringify_parents h r o ia names j :
  h !! r = Some o → elems o = None →
  has_prop (props o) "parents" = true →
  get_prop (props o) "parents" = VRef ia →
  h !! ia = Some (array (map VStr names)) →
  stringify h (VRef r) = WJson j →
  ∃ ms, j = JObj ms ∧ member ms "parents" = Some (JArr (map JStr names)).
Proof.
  intros Hr He Hhas Hget Hia. unfold stringify. cbn [walk]. rewrite Hr.
  destruct o as [[vs|] ps]; [done|]. cbn [props] in *.
  destruct (walk_members (walk (size h) h) ps) as [ms|] eqn:Hw; [|done].
  intros [= <-]. exists ms. split; [done|].
  apply (member_walk _ _ _ _ _ Hw Hhas). rewrite Hget.
  destruct (size h) as [|n] eqn:Hsz.
  { apply map_size_empty_iff in Hsz. by rewrite Hsz in Hr. }
  cbn [walk]. rewrite Hia. cbn [array].
  rewrite walk_items_strings; [done|]. apply walk_string.
Qed.

Lemma body_sent meta s body :
  (if truthy meta then JSON_stringify meta else ret VUndef) s = (Ret body, s) →
  (truthy meta = true →
     match stringify (heap s) meta with
     | WJson j => body = VStr (render j)
     | WUndef => body = VUndef
     | WCycle => False
     end) ∧
  (truthy meta = false → body = VUndef).
Proof.
  intros H. destruct (truthy meta).
  - split; [|done]. intros _. by apply JSON_stringify_inv in H as [_ H].
  - split; [done|]. intros _. by apply ret_inv in H as [-> _].
Qed.

Lemma field_kept_cells (h h' : gmap loc obj) v k x :
  (∀ l o, h !! l = Some o → h' !! l = Some o) →
  field h v k = Some x → field h' v k = Some x.
Proof. intros H. apply field_weaken. by apply map_subseteq_spec. Qed.

